(** * Meeting task assignment: a shallow embedding of the derivation pipeline

    The development follows the Python sources component by component:
    [models.py], [team_store.py], [priority_classifier.py],
    [deadline_parser.py], [assignment_engine.py], [dependency_resolver.py],
    [pipeline.py], [output_serializer.py] and [task_extractor.py].

    Conventions of the embedding.
    - A Python [str] is a [string]: a sequence of code points below 256.
      [lower], [strip], [split] and the regular-expression classes follow
      CPython on that range.
    - A Python [int] is a [Z]; [None] is [None]; a raised exception is the
      [Raise] constructor of [result].
    - A Python [float] is an IEEE 754 binary64 number, rounded to nearest
      even, as the Standard Library's [SpecFloat] computes it.
    - A [dict] that is iterated is an association list in insertion order; a
      [set] is a duplicate-free list in insertion order, and every loop over a
      set goes through an iteration-order function that the theorems leave
      arbitrary. *)

From Stdlib Require Import ZArith String Ascii List Lia Bool DecimalString
  DecimalPos DecimalFacts SpecFloat.
From stdpp Require Import base option list gmap sets strings.

#[local] Set Warnings "-clear-no-such-hyp".

Local Open Scope Z_scope.

(** ** Python runtime primitives *)

Module Py.

Inductive exn : Set :=
| KeyError
| IndexError
| ValueError
| OverflowError
| AttributeError
| TypeError
| RecursionError.

Inductive result (A : Type) : Type :=
| Ok (a : A)
| Raise (e : exn).
Arguments Ok {A} a.
Arguments Raise {A} e.

Definition bind {A B : Type} (r : result A) (k : A → result B) : result B :=
  match r with
  | Ok a => k a
  | Raise e => Raise e
  end.

Notation "x ←! r ; k" := (bind r (fun x => k))
  (at level 100, r at next level, right associativity).

(** [str.isspace] on one code point. *)
Definition isspace (c : ascii) : bool :=
  let n := N_of_ascii c in
  (((9 <=? n) && (n <=? 13)) || ((28 <=? n) && (n <=? 32))
   || (n =? 133) || (n =? 160))%N.

(** [str.lower] on one code point: A-Z and the Latin-1 capitals. *)
Definition lower_char (c : ascii) : ascii :=
  let n := N_of_ascii c in
  if (((65 <=? n) && (n <=? 90))
      || ((192 <=? n) && (n <=? 222) && negb (n =? 215)))%N
  then ascii_of_N (n + 32) else c.

Fixpoint lower (s : string) : string :=
  match s with
  | EmptyString => EmptyString
  | String c s' => String (lower_char c) (lower s')
  end.

Fixpoint lstrip (s : string) : string :=
  match s with
  | EmptyString => EmptyString
  | String c s' => if isspace c then lstrip s' else s
  end.

Fixpoint rstrip (s : string) : string :=
  match s with
  | EmptyString => EmptyString
  | String c s' =>
      match rstrip s' with
      | EmptyString => if isspace c then EmptyString else String c EmptyString
      | r => String c r
      end
  end.

(** [s.strip()] *)
Definition strip (s : string) : string := rstrip (lstrip s).

(** [s.startswith(p)] *)
Definition startswith (s p : string) : bool := String.prefix p s.

(** [sub in s] for two strings. *)
Fixpoint str_in (sub s : string) : bool :=
  String.prefix sub s
  || match s with
     | EmptyString => false
     | String _ s' => str_in sub s'
     end.

(** [x in l] for a list of strings. *)
Definition list_in (x : string) (l : list string) : bool :=
  existsb (String.eqb x) l.

(** Truth value of a string: [bool(s)]. *)
Definition truthy (s : string) : bool :=
  match s with
  | EmptyString => false
  | String _ _ => true
  end.

(** [sep.join(l)] *)
Fixpoint join (sep : string) (l : list string) : string :=
  match l with
  | [] => EmptyString
  | [x] => x
  | x :: l' => x +:+ sep +:+ join sep l'
  end.

(** [s.split()]: the maximal runs of non-whitespace characters. *)
Fixpoint split_go (cur : string) (s : string) : list string :=
  match s with
  | EmptyString => if truthy cur then [cur] else []
  | String c s' =>
      if isspace c
      then (if truthy cur then [cur] else []) ++ split_go EmptyString s'
      else split_go (cur +:+ String c EmptyString) s'
  end.

Definition split (s : string) : list string := split_go EmptyString s.

(** [int(s)] for a string of decimal digits. *)
Definition digit_value (c : ascii) : Z := Z.of_N (N_of_ascii c) - 48.

Definition int_of_digits (s : string) : Z :=
  fold_left (fun acc c => 10 * acc + digit_value c)
            (list_ascii_of_string s) 0.

(** [str(n)] for an int. *)
Definition str_of_int (n : Z) : string :=
  DecimalString.NilZero.string_of_int (Z.to_int n).

(** [sys.int_info.default_max_str_digits]: the conversions between [int] and
    [str] raise [ValueError] for a number of more decimal digits. *)
Definition MAX_STR_DIGITS : Z := 4300.

Definition int_str_ok (n : Z) : bool :=
  Z.of_nat (String.length (str_of_int (Z.abs n))) <=? MAX_STR_DIGITS.

(** Insertion-ordered dicts with string keys: [d.get(key)] and
    [d[key] = v]. *)
Definition dict_get {V : Type} (key : string) (d : list (string * V))
  : option V :=
  snd <$> List.find (fun kv => String.eqb key (fst kv)) d.

Fixpoint dict_set {V : Type} (key : string) (v : V) (d : list (string * V))
  : list (string * V) :=
  match d with
  | [] => [(key, v)]
  | (k, w) :: d' =>
      if String.eqb key k then (k, v) :: d' else (k, w) :: dict_set key v d'
  end.

(** A set as a duplicate-free list in insertion order: [s.add(x)] and
    [set(l)]. *)
Definition set_add {A : Type} `{EqDecision A} (x : A) (s : list A) : list A :=
  if decide (x ∈ s) then s else s ++ [x].

Definition set_of_list {A : Type} `{EqDecision A} (l : list A) : list A :=
  fold_left (fun s x => set_add x s) l [].

(** Every character of the string is whitespace. *)
Definition blank (s : string) : Prop :=
  Forall (fun c => isspace c = true) (list_ascii_of_string s).

End Py.

Import Py.

(** ** Python floats

    binary64: 53 bits of precision, exponents below 1024. *)

Module Float.

Definition t : Set := spec_float.

Definition prec : Z := 53.
Definition emax : Z := 1024.

(** [float(n)] for an int. *)
Definition of_int (n : Z) : t :=
  match n with
  | Z0 => S754_zero false
  | Zpos _ => binary_normalize prec emax n 0 false
  | Zneg _ => binary_normalize prec emax n 0 true
  end.

(** [a + b], [a / b], [a < b] and [a <= b] *)
Definition add : t → t → t := SFadd prec emax.
Definition div : t → t → t := SFdiv prec emax.
Definition ltb : t → t → bool := SFltb.
Definition leb : t → t → bool := SFleb.

(** A decimal literal with one digit after the point, [n / 10]: the double
    nearest to it, which is also what the division of the two ints gives. *)
Definition tenths (n : Z) : t := div (of_int n) (of_int 10).

(** The literals of the source. *)
Definition zero : t := S754_zero false.
Definition lit_0_3 : t := Eval vm_compute in tenths 3.
Definition lit_0_4 : t := Eval vm_compute in tenths 4.
Definition lit_0_5 : t := Eval vm_compute in tenths 5.
Definition one : t := Eval vm_compute in tenths 10.
Definition lit_1_5 : t := Eval vm_compute in tenths 15.
Definition lit_2_0 : t := Eval vm_compute in tenths 20.

(** [min(a, b)] of the builtin: the first argument, unless the second is
    smaller. *)
Definition min (a b : t) : t := if ltb b a then b else a.

End Float.

(** ** models.py

    Each dataclass is a record [t] in a module of the class's name. *)

Inductive PriorityLevel : Set :=
| CRITICAL
| HIGH
| MEDIUM
| LOW.

(** [PriorityLevel.value] *)
Definition PriorityLevel_value (p : PriorityLevel) : string :=
  match p with
  | CRITICAL => "Critical"
  | HIGH => "High"
  | MEDIUM => "Medium"
  | LOW => "Low"
  end.

Module TeamMember.

Record t : Set := mk {
  name : string;
  role : string;
  skills : list string
}.

(** The dataclass constructor followed by [__post_init__]:
    [self.skills = [s.lower().strip() for s in self.skills if s.strip()]]. *)
Definition init (n r : string) (sk : list string) : t :=
  {| name := n;
     role := r;
     skills := List.map (fun s => strip (lower s))
                 (List.filter (fun s => truthy (strip s)) sk) |}.

(** [from_dict]: [data.get(key, default)] for the three keys, [None]
    standing for an absent key. *)
Definition from_dict
    (d_name d_role : option string) (d_skills : option (list string)) : t :=
  init (default EmptyString d_name) (default EmptyString d_role)
       (default [] d_skills).

(** [to_dict]: the values under the keys ['name'], ['role'] and
    ['skills'], all three present. *)
Definition to_dict (member : t)
  : option string * option string * option (list string) :=
  (Some (name member), Some (role member), Some (skills member)).

(** [normalized_skills] *)
Definition normalized_skills (member : t) : list string := skills member.

End TeamMember.

Module ValidationResult.

Record t : Set := mk {
  is_valid : bool;
  error_message : option string;
  file_format : option string;
  missing_fields : list string
}.

End ValidationResult.

Module ExtractedTask.

Record t : Set := mk {
  description : string;
  raw_text : string;
  mentioned_person : option string;
  deadline_phrase : option string;
  priority_indicators : list string;
  dependency_phrases : list string
}.

End ExtractedTask.

Module TaskDependency.

Record t : Set := mk {
  dependent_task_index : Z;
  prerequisite_task_index : Z;
  dependency_phrase : string
}.

End TaskDependency.

Module AssignmentResult.

Record t : Set := mk {
  team_member : option TeamMember.t;
  reasoning : string;
  confidence : Float.t
}.

End AssignmentResult.

Module TaskOutput.

Record t : Set := mk {
  task_number : Z;
  description : string;
  assigned_to : option string;
  deadline : option string;
  priority : string;
  dependencies : option string;
  reasoning : option string
}.

End TaskOutput.

(** ** team_store.py *)

Module TeamMemberStore.

(** [validate_member] *)
Definition validate_member (member : TeamMember.t) : ValidationResult.t :=
  let missing_fields :=
    (if negb (truthy (TeamMember.name member))
        || negb (truthy (strip (TeamMember.name member)))
     then ["name"%string] else [])
    ++ (if negb (truthy (TeamMember.role member))
           || negb (truthy (strip (TeamMember.role member)))
        then ["role"%string] else [])
    ++ (match TeamMember.skills member with
        | [] => ["skills"%string]
        | _ :: _ => []
        end) in
  match missing_fields with
  | _ :: _ =>
      {| ValidationResult.is_valid := false;
         ValidationResult.error_message :=
           Some ("Missing required fields: " +:+ join ", " missing_fields);
         ValidationResult.file_format := None;
         ValidationResult.missing_fields := missing_fields |}
  | [] => ValidationResult.mk true None None []
  end.

(** [self._members]: a dict from the normalised name to the member, kept in
    insertion order. *)
Definition t : Set := list (string * TeamMember.t).

(** [add_member], returning the validation result and the new store. *)
Definition add_member (member : TeamMember.t) (members : t)
  : ValidationResult.t * t :=
  let validation := validate_member member in
  if negb (ValidationResult.is_valid validation) then (validation, members)
  else
    let name_key := strip (lower (TeamMember.name member)) in
    match dict_get name_key members with
    | Some _ =>
        (ValidationResult.mk false
           (Some ("Duplicate team member: " +:+ TeamMember.name member))
           None [],
         members)
    | None =>
        (ValidationResult.mk true None None [],
         members ++ [(name_key, member)])
    end.

(** [find_by_name] *)
Definition find_by_name (name : string) (members : t)
  : option TeamMember.t :=
  let search_name := strip (lower name) in
  match dict_get search_name members with
  | Some m => Some m
  | None =>
      snd <$> List.find (fun kv => str_in search_name (fst kv)
                                   || str_in (fst kv) search_name) members
  end.

(** [get_all_members] *)
Definition get_all_members (members : t) : list TeamMember.t :=
  List.map snd members.

(** [get_all_names] *)
Definition get_all_names (members : t) : list string :=
  List.map TeamMember.name (get_all_members members).

(** [get_member] *)
Definition get_member (name : string) (members : t) : option TeamMember.t :=
  dict_get (strip (lower name)) members.

(** [find_by_skill]: a member is listed once, at its first matching
    skill. *)
Definition find_by_skill (skill : string) (members : t)
  : list TeamMember.t :=
  let search_skill := strip (lower skill) in
  List.filter
    (fun member =>
       existsb (fun member_skill => str_in search_skill member_skill
                                    || str_in member_skill search_skill)
               (TeamMember.skills member))
    (List.map snd members).

(** [find_by_role] *)
Definition find_by_role (role : string) (members : t) : list TeamMember.t :=
  let search_role := strip (lower role) in
  List.filter (fun member => str_in search_role (lower (TeamMember.role member)))
              (List.map snd members).

(** [__len__] and [__contains__] *)
Definition len (members : t) : nat := length members.

Definition contains (name : string) (members : t) : bool :=
  bool_decide (is_Some (dict_get (strip (lower name)) members)).

End TeamMemberStore.

(** ** datetime.date

    A date is represented by its proleptic Gregorian ordinal
    ([date.toordinal()], 1 for 0001-01-01): comparison of dates is comparison
    of ordinals, [d + timedelta(days=k)] is addition, and the calendar fields
    are read through CPython's [_ord2ymd]. *)

Module Datetime.

Definition date : Set := Z.

(** [date.max.toordinal()], the ordinal of 9999-12-31. *)
Definition MAXORDINAL : Z := 3652059.

Definition MAXYEAR : Z := 9999.

Definition is_date (d : date) : Prop := 1 <= d <= MAXORDINAL.

Definition _is_leap (year : Z) : bool :=
  (year mod 4 =? 0) && (negb (year mod 100 =? 0) || (year mod 400 =? 0)).

Definition _days_before_year (year : Z) : Z :=
  let y := year - 1 in
  y * 365 + y / 4 - y / 100 + y / 400.

Definition _DAYS_IN_MONTH : list Z :=
  [-1; 31; 28; 31; 30; 31; 30; 31; 31; 30; 31; 30; 31].

Definition _DAYS_BEFORE_MONTH : list Z :=
  [-1; 0; 31; 59; 90; 120; 151; 181; 212; 243; 273; 304; 334].

Definition _days_in_month (year month : Z) : Z :=
  if (month =? 2) && _is_leap year then 29
  else nth (Z.to_nat month) _DAYS_IN_MONTH 0.

Definition _days_before_month (year month : Z) : Z :=
  nth (Z.to_nat month) _DAYS_BEFORE_MONTH 0
  + (if (2 <? month) && _is_leap year then 1 else 0).

Definition _ymd2ord (year month day : Z) : Z :=
  _days_before_year year + _days_before_month year month + day.

Definition _DI400Y : Z := 146097.
Definition _DI100Y : Z := 36524.
Definition _DI4Y : Z := 1461.

(** The end of [_ord2ymd]: month and day for the offset [n] from January 1,
    found "via an estimate that's either exact or one too large". *)
Definition _month_day (leapyear : bool) (n : Z) : Z * Z :=
  let month := Z.shiftr (n + 50) 5 in
  let preceding :=
    nth (Z.to_nat month) _DAYS_BEFORE_MONTH 0
    + (if (2 <? month) && leapyear then 1 else 0) in
  if n <? preceding then
    let month := month - 1 in
    let preceding :=
      preceding - (nth (Z.to_nat month) _DAYS_IN_MONTH 0
                   + (if (month =? 2) && leapyear then 1 else 0)) in
    (month, n - preceding + 1)
  else (month, n - preceding + 1).

Definition _ord2ymd (n0 : Z) : Z * Z * Z :=
  let n := n0 - 1 in
  let n400 := n / _DI400Y in
  let n := n mod _DI400Y in
  let year := n400 * 400 + 1 in
  let n100 := n / _DI100Y in
  let n := n mod _DI100Y in
  let n4 := n / _DI4Y in
  let n := n mod _DI4Y in
  let n1 := n / 365 in
  let n := n mod 365 in
  let year := year + (n100 * 100 + n4 * 4 + n1) in
  if (n1 =? 4) || (n100 =? 4) then (year - 1, 12, 31)
  else
    let leapyear := (n1 =? 3) && (negb (n4 =? 24) || (n100 =? 3)) in
    let '(month, day) := _month_day leapyear n in
    (year, month, day).

(** [d.year], [d.month], [d.day] *)
Definition year (d : date) : Z := fst (fst (_ord2ymd d)).
Definition month (d : date) : Z := snd (fst (_ord2ymd d)).
Definition day (d : date) : Z := snd (_ord2ymd d).

(** [date(year, month, day)] *)
Definition mk_date (year month day : Z) : result date :=
  if (1 <=? year) && (year <=? MAXYEAR) && (1 <=? month) && (month <=? 12)
     && (1 <=? day) && (day <=? _days_in_month year month)
  then Ok (_ymd2ord year month day)
  else Raise ValueError.

(** [d.weekday()]: 0 is Monday. *)
Definition weekday (d : date) : Z := (d + 6) mod 7.

(** [d + timedelta(days=k)]: the timedelta needs [|k| <= 999999999], and the
    sum has to be a date. *)
Definition add_days (d : date) (k : Z) : result date :=
  if (Z.abs k <=? 999999999) && (0 <? d + k) && (d + k <=? MAXORDINAL)
  then Ok (d + k)
  else Raise OverflowError.

(** [(a - b).days] *)
Definition days_between (a b : date) : Z := a - b.

End Datetime.

(** ** priority_classifier.py *)

Module PriorityClassifier.

Import Datetime.

Definition CRITICAL_INDICATORS : list string :=
  ["critical"; "urgent"; "asap"; "immediately"; "emergency";
   "right away"; "right now"; "drop everything"]%string.

Definition HIGH_INDICATORS : list string :=
  ["high priority"; "important"; "blocking"; "blocker";
   "affecting users"; "affecting the user"; "user experience";
   "affecting the user experience"; "it's affecting";
   "before release"; "production issue";
   "customer impact"; "deadline"; "must have";
   "really slow"; "is slow"]%string.

Definition LOW_INDICATORS : list string :=
  ["when possible"; "nice to have"; "low priority";
   "backlog"; "eventually"; "no rush";
   "whenever"; "if time permits"]%string.

Definition MEDIUM_INDICATORS : list string :=
  ["can wait"; "next sprint"; "next week"]%string.

(** The shared shape of [_has_critical_indicators], [_has_high_indicators]
    and [_has_low_indicators]: first the provided indicators against the
    lowercased table, then the table against the text. *)
Definition has_indicators (table : list string)
    (text : string) (indicators : list string) : bool :=
  existsb (fun ind => list_in (lower ind) (List.map lower table)) indicators
  || existsb (fun indicator => str_in indicator text) table.

Definition _has_critical_indicators := has_indicators CRITICAL_INDICATORS.
Definition _has_high_indicators := has_indicators HIGH_INDICATORS.
Definition _has_low_indicators := has_indicators LOW_INDICATORS.

Section Clock.

(** [date.today()] *)
Variable today : date.

Definition _check_deadline_urgency
    (deadline : option date) (reference_date : option date)
  : option PriorityLevel :=
  match deadline with
  | None => None
  | Some deadline =>
      let ref_date := default today reference_date in
      let days_until := days_between deadline ref_date in
      if days_until <=? 1 then Some CRITICAL
      else if days_until <=? 2 then Some HIGH
      else None
  end.

Definition classify (task : ExtractedTask.t)
    (deadline : option date) (reference_date : option date)
  : PriorityLevel :=
  let text_lower := lower (ExtractedTask.raw_text task) in
  let indicators := ExtractedTask.priority_indicators task in
  if str_in "can wait" text_lower then MEDIUM
  else if _has_critical_indicators text_lower indicators then CRITICAL
  else
    let deadline_priority :=
      _check_deadline_urgency deadline reference_date in
    match deadline_priority with
    | Some CRITICAL => CRITICAL
    | _ =>
        if _has_high_indicators text_lower indicators then HIGH
        else
          match deadline_priority with
          | Some p => p
          | None =>
              if _has_low_indicators text_lower indicators then LOW
              else MEDIUM
          end
    end.

(** [classify_from_text] *)
Definition classify_from_text (text : string)
    (deadline : option date) (reference_date : option date)
  : PriorityLevel :=
  classify (ExtractedTask.mk text text None None [] [])
           deadline reference_date.

End Clock.

End PriorityClassifier.

(** ** The regular expressions of the parsers

    The patterns used with [re.match] are unambiguous sequences of character
    classes and literals, so each is matched by taking maximal runs. *)

Module Re.

(** [\w] *)
Definition isword (c : ascii) : bool :=
  let n := N_of_ascii c in
  (((48 <=? n) && (n <=? 57)) || ((65 <=? n) && (n <=? 90)) || (n =? 95)
   || ((97 <=? n) && (n <=? 122)) || (n =? 170) || (n =? 178) || (n =? 179)
   || (n =? 181) || (n =? 185) || (n =? 186) || ((188 <=? n) && (n <=? 190))
   || ((192 <=? n) && (n <=? 214)) || ((216 <=? n) && (n <=? 246))
   || (248 <=? n))%N.

(** [\d] *)
Definition isdigit (c : ascii) : bool :=
  let n := N_of_ascii c in ((48 <=? n) && (n <=? 57))%N.

(** The longest prefix of [s] whose characters satisfy [p], and the rest. *)
Fixpoint span (p : ascii → bool) (s : string) : string * string :=
  match s with
  | EmptyString => (EmptyString, EmptyString)
  | String c s' =>
      if p c then let '(a, b) := span p s' in (String c a, b)
      else (EmptyString, s)
  end.

(** [s] without the literal [p] in front, when it starts with it. *)
Fixpoint strip_prefix (p s : string) : option string :=
  match p, s with
  | EmptyString, _ => Some s
  | String a p', String b s' =>
      if Ascii.eqb a b then strip_prefix p' s' else None
  | String _ _, EmptyString => None
  end.

(** One or more characters of class [p]: the run and the rest. *)
Definition plus (p : ascii → bool) (s : string) : option (string * string) :=
  let '(a, b) := span p s in
  if truthy a then Some (a, b) else None.

(** [re.match(r'by\s+(\w+)', s)]: group 1. *)
Definition match_by_word (s : string) : option string :=
  rest ← strip_prefix "by" s;
  '(_, rest) ← plus isspace rest;
  '(w, _) ← plus isword rest;
  Some w.

(** [re.match(r'in\s+(\d+)\s+(day|days|week|weeks)', s)]: groups 1 and 2.
    The alternation takes its first alternative that matches, so group 2 is
    ["day"] or ["week"]. *)
Definition match_in_n_units (s : string) : option (string * string) :=
  rest ← strip_prefix "in" s;
  '(_, rest) ← plus isspace rest;
  '(num, rest) ← plus isdigit rest;
  '(_, rest) ← plus isspace rest;
  if String.prefix "day" rest then Some (num, "day"%string)
  else if String.prefix "week" rest then Some (num, "week"%string)
  else None.

(** [re.match(r'(\d+)\s+days?', s)]: group 1. *)
Definition match_n_days (s : string) : option string :=
  '(num, rest) ← plus isdigit s;
  '(_, rest) ← plus isspace rest;
  if String.prefix "day" rest then Some num else None.

End Re.

(** ** deadline_parser.py *)

Module DeadlineParser.

Import Datetime.

(** [_next_weekday] *)
Definition _next_weekday (from_date : date) (wd : Z) : result date :=
  let days_ahead := wd - weekday from_date in
  let days_ahead := if days_ahead <=? 0 then days_ahead + 7 else days_ahead in
  add_days from_date days_ahead.

(** [_end_of_week] *)
Definition _end_of_week (from_date : date) : result date :=
  let days_until_friday := 4 - weekday from_date in
  let days_until_friday :=
    if days_until_friday <? 0 then days_until_friday + 7
    else days_until_friday in
  add_days from_date days_until_friday.

(** [_end_of_month] *)
Definition _end_of_month (from_date : date) : result date :=
  next_month ←! (if month from_date =? 12
                 then mk_date (year from_date + 1) 1 1
                 else mk_date (year from_date) (month from_date + 1) 1);
  add_days next_month (-1).

Definition WEEKDAYS : list (string * Z) :=
  [("monday", 0); ("tuesday", 1); ("wednesday", 2); ("thursday", 3);
   ("friday", 4); ("saturday", 5); ("sunday", 6)]%string.

Definition RELATIVE_PATTERNS : list (string * (date → result date)) :=
  [("today", fun d => Ok d);
   ("tonight", fun d => Ok d);
   ("tomorrow", fun d => add_days d 1);
   ("tomorrow evening", fun d => add_days d 1);
   ("tomorrow morning", fun d => add_days d 1);
   ("next week", fun d => add_days d 7);
   ("next monday", fun d => _next_weekday d 0);
   ("next tuesday", fun d => _next_weekday d 1);
   ("next wednesday", fun d => _next_weekday d 2);
   ("next thursday", fun d => _next_weekday d 3);
   ("next friday", fun d => _next_weekday d 4);
   ("next saturday", fun d => _next_weekday d 5);
   ("next sunday", fun d => _next_weekday d 6);
   ("end of week", fun d => _end_of_week d);
   ("end of this week", fun d => _end_of_week d);
   ("this week", fun d => _end_of_week d);
   ("end of month", fun d => _end_of_month d);
   ("end of this month", fun d => _end_of_month d)]%string.

Section Clock.

(** [date.today()] *)
Variable today : date.

(** [parse]: [Ok None] is the source's [None]. *)
Definition parse (phrase : string) (reference_date : option date)
  : result (option date) :=
  if negb (truthy phrase) then Ok None
  else
    let ref_date := default today reference_date in
    let phrase_lower := strip (lower phrase) in
    match dict_get phrase_lower RELATIVE_PATTERNS with
    | Some f => d ←! f ref_date; Ok (Some d)
    | None =>
        match Re.match_by_word phrase_lower ≫= (fun w => dict_get w WEEKDAYS)
        with
        | Some day_num => d ←! _next_weekday ref_date day_num; Ok (Some d)
        | None =>
            match List.find (fun kv => str_in (fst kv) phrase_lower) WEEKDAYS
            with
            | Some (_, day_num) =>
                d ←! _next_weekday ref_date day_num; Ok (Some d)
            | None =>
                match Re.match_in_n_units phrase_lower with
                | Some (num, unit) =>
                    let num := int_of_digits num in
                    if str_in "week" unit
                    then d ←! add_days ref_date (7 * num); Ok (Some d)
                    else d ←! add_days ref_date num; Ok (Some d)
                | None =>
                    match Re.match_n_days phrase_lower with
                    | Some num =>
                        d ←! add_days ref_date (int_of_digits num);
                        Ok (Some d)
                    | None => Ok None
                    end
                end
            end
        end
    end.

(** [is_valid_deadline] *)
Definition is_valid_deadline (parsed_date : date)
    (reference_date : option date) : result bool :=
  let ref_date := default today reference_date in
  if parsed_date <? ref_date then Ok false
  else
    max_date ←! add_days ref_date 365;
    if max_date <? parsed_date then Ok false else Ok true.

End Clock.

End DeadlineParser.

(** ** assignment_engine.py

    Scores are floats, as in the source: [score += 0.3] is a binary64
    addition, so three skills worth 0.3 each score 0.8999999999999999, which
    is below 0.5 + 0.4. *)

Module AssignmentEngine.

Definition SKILL_KEYWORDS : list (string * list string) :=
  [("frontend",
    ["ui"; "react"; "javascript"; "css"; "html"; "login bug"; "button";
     "screen"; "page"; "form"; "component"; "interface"; "vue"; "angular";
     "frontend"; "front-end"; "client"; "browser"; "responsive";
     "fix login"]);
   ("backend",
    ["api"; "database"; "server"; "performance"; "optimization"; "backend";
     "back-end"; "endpoint"; "rest"; "graphql"; "microservice"; "cache";
     "query"; "sql"; "nosql"; "mongodb"; "postgresql"; "mysql";
     "api documentation"; "documentation"; "optimize database"]);
   ("design",
    ["design"; "figma"; "onboarding"; "ux"; "ui/ux"; "screens"; "mockup";
     "wireframe"; "prototype"; "user flow"; "sketch"; "adobe"; "visual";
     "layout"; "typography"; "color"; "branding"]);
   ("qa",
    ["test"; "testing"; "quality"; "automation"; "unit test"; "qa";
     "write test"; "write unit test"; "regression"; "integration test";
     "e2e"; "selenium"; "cypress"; "jest"; "pytest"; "coverage";
     "payment module"; "test for"]);
   ("devops",
    ["deploy"; "deployment"; "ci"; "cd"; "pipeline"; "docker"; "kubernetes";
     "aws"; "azure"; "gcp"; "infrastructure"; "monitoring"; "logging"]);
   ("documentation",
    ["documentation"; "docs"; "readme"; "api docs"; "swagger"; "openapi";
     "wiki"; "guide"; "tutorial"; "comment"])]%string.

Definition ROLE_DOMAINS : list (string * list string) :=
  [("frontend", ["frontend"; "front-end"; "ui developer"; "react developer"]);
   ("backend", ["backend"; "back-end"; "server"; "api developer"]);
   ("design", ["designer"; "ui/ux"; "ux"; "ui designer"]);
   ("qa", ["qa"; "quality"; "tester"; "test engineer"]);
   ("devops", ["devops"; "sre"; "infrastructure"; "platform"])]%string.

(** [_build_keyword_index]: the reverse index [self._keyword_to_domain]. *)
Definition _keyword_to_domain : list (string * string) :=
  fold_left
    (fun index '(domain, keywords) =>
       fold_left (fun index keyword => dict_set (lower keyword) domain index)
                 keywords index)
    SKILL_KEYWORDS [].

(** [_extract_domains] *)
Definition _extract_domains (text : string) : list string :=
  let text_lower := lower text in
  fold_left
    (fun domains '(keyword, domain) =>
       if str_in keyword text_lower then set_add domain domains else domains)
    _keyword_to_domain [].

Section SetOrder.

(** The order in which CPython iterates over a set of strings with the given
    insertion history. *)
Variable set_order : list string → list string.

(** The body of [for domain in task_domains] for one skill, on the score and
    the matched skills so far. *)
Fixpoint score_skill (skill skill_lower : string) (domains : list string)
    (acc : Float.t * list string) : Float.t * list string :=
  match domains with
  | [] => acc
  | domain :: rest =>
      if str_in domain skill_lower || str_in skill_lower domain
      then (Float.add (fst acc) Float.lit_0_5, snd acc ++ [skill])
      else
        let domain_keywords := default [] (dict_get domain SKILL_KEYWORDS) in
        let acc :=
          if existsb (fun keyword => str_in keyword skill_lower
                                     || str_in skill_lower keyword)
                     domain_keywords
          then (Float.add (fst acc) Float.lit_0_3, snd acc ++ [skill])
          else acc in
        score_skill skill skill_lower rest acc
  end.

(** [_calculate_skill_score] *)
Definition _calculate_skill_score (task_domains : list string)
    (member : TeamMember.t) : Float.t * list string :=
  let '(score, matched_skills) :=
    fold_left
      (fun acc skill =>
         score_skill skill (lower skill) (set_order task_domains) acc)
      (TeamMember.skills member) (Float.zero, []) in
  let role_lower := lower (TeamMember.role member) in
  let score :=
    fold_left
      (fun score domain =>
         let role_keywords := default [] (dict_get domain ROLE_DOMAINS) in
         if existsb (fun keyword => str_in keyword role_lower) role_keywords
         then Float.add score Float.lit_0_4 else score)
      (set_order task_domains) score in
  (score, matched_skills).

(** [_generate_skill_reasoning] *)
Definition _generate_skill_reasoning (member : TeamMember.t)
    (matched_skills task_domains : list string) : string :=
  let parts :=
    (match matched_skills with
     | [] => []
     | _ :: _ =>
         ["Matched skills: "
          +:+ join ", " (set_order (set_of_list matched_skills))]
     end)
    ++ (match task_domains with
        | [] => []
        | _ :: _ => ["Task domains: " +:+ join ", " (set_order task_domains)]
        end)
    ++ ["Role: " +:+ TeamMember.role member] in
  join "; " parts.

(** [_match_by_explicit_mention] *)
Definition _match_by_explicit_mention (task : ExtractedTask.t)
    (team_store : TeamMemberStore.t) : option AssignmentResult.t :=
  match ExtractedTask.mentioned_person task with
  | None => None
  | Some mentioned_person =>
      if negb (truthy mentioned_person) then None
      else
        match TeamMemberStore.find_by_name mentioned_person team_store with
        | Some member =>
            Some {| AssignmentResult.team_member := Some member;
                    AssignmentResult.reasoning :=
                      "Explicitly mentioned in task: '"
                      +:+ mentioned_person +:+ "'";
                    AssignmentResult.confidence := Float.one |}
        | None => None
        end
  end.

(** The [if primary_domain:] block of [_match_by_skills]: the score of a
    member after the boost. *)
Definition role_boost (primary_domain : option string)
    (member : TeamMember.t) (score : Float.t) : Float.t :=
  match primary_domain with
  | None => score
  | Some primary_domain =>
      let role_lower := lower (TeamMember.role member) in
      if String.eqb primary_domain "qa" && str_in "qa" role_lower
      then Float.add score Float.lit_2_0
      else if String.eqb primary_domain "backend"
              && str_in "backend" role_lower
      then Float.add score Float.lit_1_5
      else if String.eqb primary_domain "design"
              && str_in "design" role_lower
      then Float.add score Float.lit_1_5
      else if String.eqb primary_domain "frontend"
              && str_in "frontend" role_lower
      then Float.add score Float.lit_1_5
      else score
  end.

(** The scoring loop of [_match_by_skills]: best member, best score and that
    member's matched skills. *)
Definition best_match (task_domains : list string)
    (primary_domain : option string) (members : list TeamMember.t)
  : option TeamMember.t * Float.t * list string :=
  fold_left
    (fun '(best_member, best_score, matched_skills) member =>
       let '(score, skills) := _calculate_skill_score task_domains member in
       let score := role_boost primary_domain member score in
       if Float.ltb best_score score then (Some member, score, skills)
       else (best_member, best_score, matched_skills))
    members (None, Float.zero, []).

(** The text that [_match_by_skills] searches, and its choice of the
    primary domain. *)
Definition task_text_of (task : ExtractedTask.t) : string :=
  lower (ExtractedTask.description task +:+ " "
         +:+ ExtractedTask.raw_text task).

Definition primary_domain_of (task_text : string) : option string :=
  if str_in "unit test" task_text || str_in "write test" task_text
     || str_in "testing" task_text
  then Some "qa"%string
  else if str_in "database" task_text || str_in "api" task_text
          || str_in "backend" task_text
          || str_in "documentation" task_text
  then Some "backend"%string
  else if str_in "design" task_text || str_in "onboarding" task_text
          || str_in "screen" task_text
  then Some "design"%string
  else if str_in "login" task_text || str_in "bug" task_text
          || str_in "ui" task_text
  then Some "frontend"%string
  else None.

(** [_match_by_skills]; [best_score > 0] compares with the int 0. *)
Definition _match_by_skills (task : ExtractedTask.t)
    (team_store : TeamMemberStore.t) : option AssignmentResult.t :=
  let task_text := task_text_of task in
  let task_domains := _extract_domains task_text in
  match task_domains with
  | [] => None
  | _ :: _ =>
      let primary_domain := primary_domain_of task_text in
      let '(best_member, best_score, matched_skills) :=
        best_match task_domains primary_domain
                   (TeamMemberStore.get_all_members team_store) in
      match best_member with
      | Some member =>
          if Float.ltb (Float.of_int 0) best_score then
            Some {| AssignmentResult.team_member := Some member;
                    AssignmentResult.reasoning :=
                      _generate_skill_reasoning member matched_skills
                                                task_domains;
                    AssignmentResult.confidence :=
                      Float.min best_score Float.one |}
          else None
      | None => None
      end
  end.

(** [assign] *)
Definition assign (task : ExtractedTask.t) (team_store : TeamMemberStore.t)
  : AssignmentResult.t :=
  match _match_by_explicit_mention task team_store with
  | Some (AssignmentResult.mk (Some member) r c) =>
      AssignmentResult.mk (Some member) r c
  | _ =>
      match _match_by_skills task team_store with
      | Some (AssignmentResult.mk (Some member) r c) =>
          AssignmentResult.mk (Some member) r c
      | _ =>
          {| AssignmentResult.team_member := None;
             AssignmentResult.reasoning :=
               "No suitable team member found for this task";
             AssignmentResult.confidence := Float.zero |}
      end
  end.

End SetOrder.

End AssignmentEngine.

(** ** The dependency patterns

    Every pattern of [DependencyResolver.DEPENDENCY_PATTERNS] is a literal
    head, the lazy group [(.+?)], and an alternation of literal tails or [$].
    [findall] is [re.findall] on such a pattern: it returns group 1 of the
    successive leftmost matches. *)

Module ReLazy.

Inductive tail : Set :=
| Lit (s : string)
| Dollar.

Record pattern : Set := mkPattern {
  heads : list string;
  tails : list tail
}.

Definition newline : ascii := ascii_of_N 10.

(** One tail at the start of [s]: what is left after it. [$] takes nothing
    and holds at the end of the string or before a final newline. *)
Definition match_tail (t : tail) (s : string) : option string :=
  match t with
  | Lit l => Re.strip_prefix l s
  | Dollar =>
      match s with
      | EmptyString => Some s
      | String c EmptyString => if Ascii.eqb c newline then Some s else None
      | _ => None
      end
  end.

(** The first alternative that matches. *)
Fixpoint match_tails (ts : list tail) (s : string) : option string :=
  match ts with
  | [] => None
  | t :: ts' =>
      match match_tail t s with
      | Some rest => Some rest
      | None => match_tails ts' s
      end
  end.

(** [(.+?)] followed by the tails: [acc] holds the characters taken so far
    (at least one); the group grows one character at a time, never over a
    newline, until a tail matches. *)
Fixpoint lazy_capture (ts : list tail) (acc : string) (s : string)
  : option (string * string) :=
  match match_tails ts s with
  | Some rest => Some (acc, rest)
  | None =>
      match s with
      | EmptyString => None
      | String c s' =>
          if Ascii.eqb c newline then None
          else lazy_capture ts (acc +:+ String c EmptyString) s'
      end
  end.

(** The pattern at the start of [s]: group 1 and what follows the match. *)
Fixpoint match_heads (hs : list string) (ts : list tail) (s : string)
  : option (string * string) :=
  match hs with
  | [] => None
  | h :: hs' =>
      let here :=
        match Re.strip_prefix h s with
        | Some (String c s') =>
            if Ascii.eqb c newline then None
            else lazy_capture ts (String c EmptyString) s'
        | _ => None
        end in
      match here with
      | Some r => Some r
      | None => match_heads hs' ts s
      end
  end.

Definition match_at (p : pattern) (s : string) : option (string * string) :=
  match_heads (heads p) (tails p) s.

(** The scan of [re.findall]: [skip] counts the characters of the last match
    that are still to be passed over. *)
Fixpoint findall_go (p : pattern) (skip : nat) (s : string) : list string :=
  match s with
  | EmptyString => []
  | String _ s' =>
      match skip with
      | S k => findall_go p k s'
      | O =>
          match match_at p s with
          | Some (g, rest) =>
              g :: findall_go p (String.length s - String.length rest - 1) s'
          | None => findall_go p 0 s'
          end
      end
  end.

Definition findall (p : pattern) (s : string) : list string :=
  findall_go p 0 s.

End ReLazy.

(** ** dependency_resolver.py *)

Module DependencyResolver.

Import ReLazy.

Definition punctuated : list tail := [Lit "."; Lit ","; Dollar].

Definition is_done : list tail :=
  [Lit " is done"; Lit " is completed"; Lit " is finished"].

Definition to_be_first : list tail :=
  [Lit " to be "; Lit " first"; Lit " completed"].

Definition DEPENDENCY_PATTERNS : list pattern :=
  [mkPattern ["depends on "%string] punctuated;
   mkPattern ["after "%string] is_done;
   mkPattern ["once "%string] is_done;
   mkPattern ["blocked by "%string] punctuated;
   mkPattern ["waiting for "%string] punctuated;
   mkPattern ["requires "%string] to_be_first;
   mkPattern ["needs "%string] to_be_first;
   mkPattern ["can't start until "%string] punctuated;
   mkPattern ["prerequisites: "%string; "prerequisite: "%string] punctuated].

(** [_extract_dependencies_from_text] *)
Definition _extract_dependencies_from_text (text : string) : list string :=
  let text_lower := lower text in
  flat_map (fun pattern => findall pattern text_lower) DEPENDENCY_PATTERNS.

Definition filler_words : list string :=
  ["the"; "a"; "an"; "is"; "are"; "being"; "completed"; "done"; "finished";
   "first"]%string.

Definition key_terms : list string :=
  ["login"; "bug"; "database"; "api"; "test"; "payment"; "onboarding"]%string.

(** [set(s.split()) - filler_words] *)
Definition content_words (s : string) : list string :=
  List.filter (fun w => negb (list_in w filler_words))
              (set_of_list (split s)).

(** The [for i, desc in enumerate(task_descriptions)] loop of
    [_find_matching_task], from index [i] on. *)
Fixpoint find_from (phrase_lower : string) (phrase_words : list string)
    (exclude_idx : Z) (i : Z) (task_descriptions : list string)
    (best_match_idx : option Z) (best_match_score : Z) : option Z :=
  match task_descriptions with
  | [] => best_match_idx
  | desc :: rest =>
      if i =? exclude_idx then
        find_from phrase_lower phrase_words exclude_idx (i + 1) rest
                  best_match_idx best_match_score
      else if str_in phrase_lower desc || str_in desc phrase_lower then Some i
      else
        let desc_words := content_words desc in
        if existsb
             (fun phrase_word =>
                existsb
                  (fun desc_word =>
                     (str_in phrase_word desc_word
                      || str_in desc_word phrase_word)
                     && list_in phrase_word key_terms)
                  desc_words)
             phrase_words
        then Some i
        else
          let overlap :=
            Z.of_nat (length (List.filter (fun w => list_in w desc_words)
                                          phrase_words)) in
          if (best_match_score <? overlap) && (1 <=? overlap)
          then find_from phrase_lower phrase_words exclude_idx (i + 1) rest
                         (Some i) overlap
          else find_from phrase_lower phrase_words exclude_idx (i + 1) rest
                         best_match_idx best_match_score
  end.

(** [_find_matching_task] *)
Definition _find_matching_task (phrase : string)
    (task_descriptions : list string) (exclude_idx : Z) : option Z :=
  let phrase_lower := strip (lower phrase) in
  let phrase_words := content_words phrase_lower in
  find_from phrase_lower phrase_words exclude_idx 0 task_descriptions None 0.

(** The dependencies that one list of phrases of task [i] gives. *)
Definition edges_of (task_descriptions : list string) (i : Z)
    (phrases : list string) : list TaskDependency.t :=
  flat_map
    (fun phrase =>
       match _find_matching_task phrase task_descriptions i with
       | Some prereq_idx => [TaskDependency.mk i prereq_idx phrase]
       | None => []
       end)
    phrases.

(** The [for i, task in enumerate(tasks)] loop of [resolve], from index [i]
    on. *)
Fixpoint resolve_from (task_descriptions : list string) (i : Z)
    (tasks : list ExtractedTask.t) : list TaskDependency.t :=
  match tasks with
  | [] => []
  | task :: rest =>
      edges_of task_descriptions i (ExtractedTask.dependency_phrases task)
      ++ edges_of task_descriptions i
           (List.filter
              (fun phrase =>
                 negb (list_in phrase (ExtractedTask.dependency_phrases task)))
              (_extract_dependencies_from_text (ExtractedTask.raw_text task)))
      ++ resolve_from task_descriptions (i + 1) rest
  end.

(** [resolve] *)
Definition resolve (tasks : list ExtractedTask.t) : list TaskDependency.t :=
  let task_descriptions :=
    List.map (fun t => lower (ExtractedTask.description t)) tasks in
  resolve_from task_descriptions 0 tasks.

(** *** Graph algorithms *)

(** [graph.get(node, set())] on the insertion-ordered adjacency dict. *)
Definition adj_get (node : Z) (graph : list (Z * list Z)) : list Z :=
  match List.find (fun kv => fst kv =? node) graph with
  | Some (_, s) => s
  | None => []
  end.

(** [graph[key].add(x)] for a key that is present. *)
Fixpoint adj_add (key x : Z) (graph : list (Z * list Z))
  : list (Z * list Z) :=
  match graph with
  | [] => []
  | (k, s) :: graph' =>
      if k =? key then (k, set_add x s) :: graph'
      else (k, s) :: adj_add key x graph'
  end.

(** [key in graph] *)
Definition has_key (key : Z) (graph : list (Z * list Z)) : bool :=
  existsb (fun kv => fst kv =? key) graph.

(** One pass of the loop that builds the adjacency dict of
    [detect_circular_dependencies]: a new dependent gets an empty set, then
    the prerequisite is added to the set of the dependent. *)
Definition add_edge (graph : list (Z * list Z)) (dep : TaskDependency.t)
  : list (Z * list Z) :=
  let d := TaskDependency.dependent_task_index dep in
  adj_add d (TaskDependency.prerequisite_task_index dep)
          (if has_key d graph then graph else graph ++ [(d, [])]).

(** The adjacency dict: dependent to prerequisites. *)
Definition build_graph (dependencies : list TaskDependency.t)
  : list (Z * list Z) :=
  fold_left add_edge dependencies [].

Record dfs_state : Set := mkState {
  visited : gset Z;
  rec_stack : gset Z;
  cycles : list (Z * Z)
}.

Section SetOrder.

(** The order in which CPython iterates over a set of ints with the given
    insertion history. *)
Variable set_iter : list Z → list Z.

(** The loop [for neighbor in graph.get(node, set())] of the nested [dfs],
    followed by [rec_stack.remove(node)]; [dfs] is the recursive call. The
    result [Raise KeyError] is [rec_stack.remove(node)] on an absent
    node. *)
Fixpoint visit_neighbors
    (dfs : Z → list Z → dfs_state → option (result (bool * dfs_state)))
    (node : Z) (path : list Z) (todo : list Z) (st : dfs_state)
  : option (result (bool * dfs_state)) :=
  match todo with
  | [] =>
      if decide (node ∈ rec_stack st)
      then Some (Ok (false,
                     mkState (visited st) (rec_stack st ∖ {[node]})
                             (cycles st)))
      else Some (Raise KeyError)
  | neighbor :: todo' =>
      if decide (neighbor ∉ visited st) then
        match dfs neighbor (path ++ [neighbor]) st with
        | Some (Ok (true, st')) => Some (Ok (true, st'))
        | Some (Ok (false, st')) => visit_neighbors dfs node path todo' st'
        | Some (Raise e) => Some (Raise e)
        | None => None
        end
      else if decide (neighbor ∈ rec_stack st) then
        Some (Ok (true,
                  mkState (visited st) (rec_stack st)
                          (cycles st ++ [(node, neighbor)])))
      else visit_neighbors dfs node path todo' st
  end.

(** The nested [dfs] of [detect_circular_dependencies]. [frames] is the
    number of nested calls of [dfs] that the interpreter still allows: a
    call made when none is left raises [RecursionError]. *)
Fixpoint dfs (frames : nat) (graph : list (Z * list Z))
    (node : Z) (path : list Z) (st : dfs_state)
  : option (result (bool * dfs_state)) :=
  match frames with
  | O => Some (Raise RecursionError)
  | S frames' =>
      visit_neighbors (dfs frames' graph) node path
        (set_iter (adj_get node graph))
        (mkState ({[node]} ∪ visited st) ({[node]} ∪ rec_stack st)
                 (cycles st))
  end.

(** The [for node in graph] loop. *)
Fixpoint dfs_all (frames : nat) (graph : list (Z * list Z))
    (nodes : list Z) (st : dfs_state) : option (result dfs_state) :=
  match nodes with
  | [] => Some (Ok st)
  | node :: nodes' =>
      if decide (node ∉ visited st) then
        match dfs frames graph node [node] st with
        | Some (Ok (_, st')) => dfs_all frames graph nodes' st'
        | Some (Raise e) => Some (Raise e)
        | None => None
        end
      else dfs_all frames graph nodes' st
  end.

(** [detect_circular_dependencies], called where the recursion limit of the
    interpreter ([sys.getrecursionlimit()], 1000 unless it is changed) leaves
    room for [recursion_limit] nested calls of [dfs]. *)
Definition detect_circular_dependencies (recursion_limit : nat)
    (dependencies : list TaskDependency.t) : option (result (list (Z * Z))) :=
  let graph := build_graph dependencies in
  match dfs_all recursion_limit graph (List.map fst graph) (mkState ∅ ∅ [])
  with
  | Some (Ok st) => Some (Ok (cycles st))
  | Some (Raise e) => Some (Raise e)
  | None => None
  end.

(** The dicts of [get_dependency_order] after the loop over the
    dependencies. *)
Definition add_dependency
    (acc : result (gmap Z (list Z) * gmap Z Z)) (dep : TaskDependency.t)
  : result (gmap Z (list Z) * gmap Z Z) :=
  match acc with
  | Raise e => Raise e
  | Ok (graph, in_degree) =>
      let p := TaskDependency.prerequisite_task_index dep in
      let d := TaskDependency.dependent_task_index dep in
      match graph !! p with
      | None => Raise KeyError
      | Some s =>
          let graph := <[p := set_add d s]> graph in
          match in_degree !! d with
          | None => Raise KeyError
          | Some k => Ok (graph, <[d := k + 1]> in_degree)
          end
      end
  end.

Definition build_order_graph (num_tasks : Z)
    (dependencies : list TaskDependency.t)
  : result (gmap Z (list Z) * gmap Z Z) :=
  fold_left add_dependency dependencies
    (Ok (list_to_map ((fun i => (i, [])) <$> seqZ 0 num_tasks),
         list_to_map ((fun i => (i, 0)) <$> seqZ 0 num_tasks))).

(** The [for neighbor in graph[node]] loop. *)
Fixpoint relax (todo : list Z) (in_degree : gmap Z Z) (queue : list Z)
  : result (gmap Z Z * list Z) :=
  match todo with
  | [] => Ok (in_degree, queue)
  | neighbor :: todo' =>
      match in_degree !! neighbor with
      | None => Raise KeyError
      | Some k =>
          let in_degree := <[neighbor := k - 1]> in_degree in
          relax todo' in_degree
                (if k - 1 =? 0 then queue ++ [neighbor] else queue)
      end
  end.

(** The [while queue] loop; [None] means that [fuel] iterations were not
    enough. *)
Fixpoint kahn (fuel : nat) (graph : gmap Z (list Z)) (in_degree : gmap Z Z)
    (queue result_ : list Z) : option (result (list Z)) :=
  match queue with
  | [] => Some (Ok result_)
  | node :: queue =>
      match fuel with
      | O => None
      | S fuel' =>
          let result_ := result_ ++ [node] in
          match graph !! node with
          | None => Some (Raise KeyError)
          | Some s =>
              match relax (set_iter s) in_degree queue with
              | Ok (in_degree, queue) =>
                  kahn fuel' graph in_degree queue result_
              | Raise e => Some (Raise e)
              end
          end
      end
  end.

Definition order_with_fuel (fuel : nat) (num_tasks : Z)
    (dependencies : list TaskDependency.t) : option (result (list Z)) :=
  match build_order_graph num_tasks dependencies with
  | Raise e => Some (Raise e)
  | Ok (graph, in_degree) =>
      let queue :=
        List.filter (fun i => match in_degree !! i with
                              | Some k => k =? 0
                              | None => false
                              end)
                    (seqZ 0 num_tasks) in
      match kahn fuel graph in_degree queue [] with
      | Some (Ok result_) =>
          if negb (Z.of_nat (length result_) =? num_tasks) then
            let remaining :=
              List.filter (fun i => negb (bool_decide (i ∈ result_)))
                          (seqZ 0 num_tasks) in
            Some (Ok (result_ ++ remaining))
          else Some (Ok result_)
      | other => other
      end
  end.

(** [get_dependency_order]: every pass of the loop appends a new index to
    the result, so [num_tasks] passes are enough. *)
Definition get_dependency_order (num_tasks : Z)
    (dependencies : list TaskDependency.t) : option (result (list Z)) :=
  order_with_fuel (Z.to_nat num_tasks) num_tasks dependencies.

End SetOrder.

End DependencyResolver.

(** ** task_extractor.py

    The segmentation, merge and pattern stages are driven by Python's [re]
    engine; [extract_tasks] and [_extract_task_from_sentence] are modelled
    over them. *)

Module TaskExtractor.

Definition PRIORITY_INDICATORS : list (string * list string) :=
  [("critical", ["critical"; "urgent"; "asap"; "immediately"; "emergency"]);
   ("high", ["high priority"; "important"; "blocking"; "blocker";
             "affecting users"]);
   ("low", ["can wait"; "when possible"; "nice to have"; "low priority";
            "next sprint"])]%string.

(** [_extract_priority_indicators] *)
Definition _extract_priority_indicators (sentence_lower : string)
  : list string :=
  flat_map
    (fun '(_, indicators) =>
       List.filter (fun indicator => str_in indicator sentence_lower)
                   indicators)
    PRIORITY_INDICATORS.

(** [s.find(sub)]: the first index at which [sub] occurs, or -1. *)
Fixpoint find_from (sub s : string) (i : Z) : Z :=
  if String.prefix sub s then i
  else match s with
       | EmptyString => -1
       | String _ s' => find_from sub s' (i + 1)
       end.

Definition str_find (s sub : string) : Z := find_from sub s 0.

(** [s[:n]] *)
Definition take_str (n : nat) (s : string) : string := String.substring 0 n s.

Section Stages.

(** [_split_into_sentences], [_merge_context_sentences] (with the team names
    of the extractor), [_merge_task_with_context], [_contains_task_indicator]
    and [_is_actionable_task]. *)
Variable _split_into_sentences : string → list string.
Variable _merge_context_sentences : list string → list string.
Variable _merge_task_with_context : list string → list string.
Variable _contains_task_indicator : string → bool.
Variable _is_actionable_task : string → bool.

(** [_generate_description], [_extract_mentioned_person],
    [_extract_deadline_phrase] and [_extract_dependency_phrases]. *)
Variable _generate_description : string → string.
Variable _extract_mentioned_person : string → option string.
Variable _extract_deadline_phrase : string → option string.
Variable _extract_dependency_phrases : string → list string.

(** [_extract_task_from_sentence] *)
Definition _extract_task_from_sentence (sentence : string)
  : option ExtractedTask.t :=
  let sentence_lower := lower sentence in
  let description := _generate_description sentence in
  if negb (truthy description) then None
  else
    let mentioned_person := _extract_mentioned_person sentence in
    let deadline_phrase := _extract_deadline_phrase sentence in
    let priority_context := lower description in
    let priority_context :=
      if str_in "high priority" sentence_lower then
        let desc_pos :=
          if (20 <? String.length description)%nat
          then str_find sentence_lower (take_str 20 (lower description))
          else str_find sentence_lower (lower description) in
        let hp_pos := str_find sentence_lower "high priority" in
        if (0 <=? desc_pos) && (0 <=? hp_pos)
           && (Z.abs (desc_pos - hp_pos) <? 100)
        then priority_context +:+ " high priority"
        else priority_context
      else priority_context in
    let priority_indicators :=
      _extract_priority_indicators priority_context in
    let dependency_phrases := _extract_dependency_phrases sentence in
    Some {| ExtractedTask.description := description;
            ExtractedTask.raw_text := sentence;
            ExtractedTask.mentioned_person := mentioned_person;
            ExtractedTask.deadline_phrase := deadline_phrase;
            ExtractedTask.priority_indicators := priority_indicators;
            ExtractedTask.dependency_phrases := dependency_phrases |}.

(** The sentences that [extract_tasks] loops over. *)
Definition merged_sentences (transcript : string) : list string :=
  _merge_task_with_context
    (_merge_context_sentences (_split_into_sentences transcript)).

(** The condition [len(task.description) > 10] of the loop. *)
Definition long_enough (task : ExtractedTask.t) : bool :=
  (10 <? String.length (ExtractedTask.description task))%nat.

(** [extract_tasks] *)
Definition extract_tasks (transcript : string) : list ExtractedTask.t :=
  if negb (truthy transcript) || negb (truthy (strip transcript)) then []
  else
    flat_map
      (fun sentence =>
         if _contains_task_indicator sentence && _is_actionable_task sentence
         then
           match _extract_task_from_sentence sentence with
           | Some task => if long_enough task then [task] else []
           | None => []
           end
         else [])
      (merged_sentences transcript).

(** The tasks that the loop derives before it looks at their length. *)
Definition derived_tasks (transcript : string) : list ExtractedTask.t :=
  if negb (truthy transcript) || negb (truthy (strip transcript)) then []
  else
    flat_map
      (fun sentence =>
         if _contains_task_indicator sentence && _is_actionable_task sentence
         then
           match _extract_task_from_sentence sentence with
           | Some task => [task]
           | None => []
           end
         else [])
      (merged_sentences transcript).

End Stages.

End TaskExtractor.

(** ** pipeline.py *)

Module PipelineResult.

Record t : Set := mk {
  success : bool;
  tasks : list TaskOutput.t;
  transcript : option string;
  error_message : option string
}.

End PipelineResult.

Module MeetingTaskPipeline.

Import Datetime.

(** [l[i]] as an assignment target: the position that index [i] denotes in a
    list of length [len]. *)
Definition list_position (i : Z) (len : nat) : result nat :=
  if 0 <=? i then
    if i <? Z.of_nat len then Ok (Z.to_nat i) else Raise IndexError
  else if 0 <=? i + Z.of_nat len then Ok (Z.to_nat (i + Z.of_nat len))
  else Raise IndexError.

Definition with_dependencies (v : option string) (o : TaskOutput.t)
  : TaskOutput.t :=
  {| TaskOutput.task_number := TaskOutput.task_number o;
     TaskOutput.description := TaskOutput.description o;
     TaskOutput.assigned_to := TaskOutput.assigned_to o;
     TaskOutput.deadline := TaskOutput.deadline o;
     TaskOutput.priority := TaskOutput.priority o;
     TaskOutput.dependencies := v;
     TaskOutput.reasoning := TaskOutput.reasoning o |}.

(** The text [f"Depends on Task #{prereq_num}"] for a dependency. *)
Definition depends_on_text (dep : TaskDependency.t) : string :=
  let prereq_num := TaskDependency.prerequisite_task_index dep + 1 in
  "Depends on Task #" +:+ str_of_int prereq_num.

(** One pass of the loop [for dep in dependencies]. *)
Definition link_dependency (acc : result (list TaskOutput.t))
    (dep : TaskDependency.t) : result (list TaskOutput.t) :=
  task_outputs ←! acc;
  let i := TaskDependency.dependent_task_index dep in
  if i <? Z.of_nat (length task_outputs) then
    pos ←! list_position i (length task_outputs);
    Ok (alter (with_dependencies (Some (depends_on_text dep))) pos
              task_outputs)
  else Ok task_outputs.

Definition link_dependencies (dependencies : list TaskDependency.t)
    (task_outputs : list TaskOutput.t) : result (list TaskOutput.t) :=
  fold_left link_dependency dependencies (Ok task_outputs).

Section Pipeline.

(** [date.today()], the iteration orders of sets of strings and of ints, the
    number of nested calls that the recursion limit leaves to the cycle
    detection, and the task extractor with its team names set. *)
Variable today : date.
Variable set_order : list string → list string.
Variable set_iter : list Z → list Z.
Variable recursion_limit : nat.
Variable extract_tasks : list string → string → list ExtractedTask.t.

(** The body of the loop [for i, extracted in enumerate(extracted_tasks)]. *)
Definition task_output (team_store : TeamMemberStore.t) (ref_date : date)
    (i : Z) (extracted : ExtractedTask.t) : result TaskOutput.t :=
  let deadline_raw := ExtractedTask.deadline_phrase extracted in
  deadline ←! (match deadline_raw with
               | Some raw =>
                   if truthy raw
                   then DeadlineParser.parse today raw (Some ref_date)
                   else Ok None
               | None => Ok None
               end);
  let priority :=
    PriorityClassifier.classify today extracted deadline (Some ref_date) in
  let assignment := AssignmentEngine.assign set_order extracted team_store in
  Ok {| TaskOutput.task_number := i + 1;
        TaskOutput.description := ExtractedTask.description extracted;
        TaskOutput.assigned_to :=
          TeamMember.name <$> AssignmentResult.team_member assignment;
        TaskOutput.deadline :=
          (* [deadline_raw or (deadline.isoformat() if deadline else None)]:
             a falsy phrase is never parsed, so the right operand is
             [None]. *)
          match deadline_raw with
          | Some raw => if truthy raw then Some raw else None
          | None => None
          end;
        TaskOutput.priority := PriorityLevel_value priority;
        TaskOutput.dependencies := None;
        TaskOutput.reasoning :=
          match AssignmentResult.team_member assignment with
          | Some _ => Some (AssignmentResult.reasoning assignment)
          | None => None
          end |}.

Fixpoint task_outputs_from (team_store : TeamMemberStore.t) (ref_date : date)
    (i : Z) (extracted_tasks : list ExtractedTask.t)
  : result (list TaskOutput.t) :=
  match extracted_tasks with
  | [] => Ok []
  | extracted :: rest =>
      o ←! task_output team_store ref_date i extracted;
      os ←! task_outputs_from team_store ref_date (i + 1) rest;
      Ok (o :: os)
  end.

(** The store that the pipeline fills from the roster, and the tasks that
    the extractor finds once it has the names of the store. *)
Definition team_store_of (team_members : list TeamMember.t)
  : TeamMemberStore.t :=
  fold_left (fun store member =>
               snd (TeamMemberStore.add_member member store))
            team_members [].

Definition extracted_from (transcript : string)
    (team_members : list TeamMember.t) : list ExtractedTask.t :=
  extract_tasks (TeamMemberStore.get_all_names (team_store_of team_members))
                transcript.

(** [process_transcript]; [process] runs the same steps on the transcript
    that the speech-to-text adapter returns. *)
Definition process_transcript (transcript : string)
    (team_members : list TeamMember.t) (reference_date : option date)
  : option (result PipelineResult.t) :=
  let ref_date := default today reference_date in
  let team_store := team_store_of team_members in
  let extracted_tasks := extracted_from transcript team_members in
  match extracted_tasks with
  | [] =>
      Some (Ok (PipelineResult.mk true [] (Some transcript)
                  (Some "No tasks identified in the meeting transcript"%string)))
  | _ :: _ =>
      match task_outputs_from team_store ref_date 0 extracted_tasks with
      | Raise e => Some (Raise e)
      | Ok task_outputs =>
          let dependencies := DependencyResolver.resolve extracted_tasks in
          match link_dependencies dependencies task_outputs with
          | Raise e => Some (Raise e)
          | Ok task_outputs =>
              match DependencyResolver.detect_circular_dependencies
                      set_iter recursion_limit dependencies with
              | None => None
              | Some (Raise e) => Some (Raise e)
              | Some (Ok cycles) =>
                  let warning :=
                    match cycles with
                    | _ :: _ =>
                        Some "Warning: Circular dependencies detected between tasks"%string
                    | [] => None
                    end in
                  Some (Ok (PipelineResult.mk true task_outputs
                              (Some transcript) warning))
              end
          end
      end
  end.

End Pipeline.

End MeetingTaskPipeline.

(** ** The json and csv modules of the Python library *)

Module Json.

(** The values that [json.loads] returns, without the floats. An object is
    a dict in insertion order. *)
#[local] Set Warnings "-register-all".

Inductive value : Set :=
| Null
| Bool (b : bool)
| Int (n : Z)
| Str (s : string)
| Array (l : list value)
| Object (d : list (string * value)).

Definition backslash : ascii := ascii_of_N 92.

Definition hex_digit (n : N) : ascii :=
  ascii_of_N (if (n <? 10)%N then 48 + n else 87 + n).

(** One character of a string under [ensure_ascii=True]. *)
Definition escape_char (c : ascii) : string :=
  let n := N_of_ascii c in
  if (n =? 34)%N then String backslash (String c EmptyString)
  else if (n =? 92)%N then String backslash (String c EmptyString)
  else if (n =? 10)%N then "\n"
  else if (n =? 13)%N then "\r"
  else if (n =? 9)%N then "\t"
  else if (n =? 8)%N then "\b"
  else if (n =? 12)%N then "\f"
  else if ((32 <=? n) && (n <=? 126))%N then String c EmptyString
  else "\u00" +:+ String (hex_digit (n / 16)) (String (hex_digit (n mod 16))
                                                  EmptyString).

Fixpoint escape (s : string) : string :=
  match s with
  | EmptyString => EmptyString
  | String c s' => escape_char c +:+ escape s'
  end.

Definition dquote : string := String (ascii_of_N 34) EmptyString.

Definition dumps_string (s : string) : string := dquote +:+ escape s +:+ dquote.

Definition LF : string := String (ascii_of_N 10) EmptyString.

(** A line break followed by [level] indentation steps of two spaces. *)
Fixpoint newline_indent (level : nat) : string :=
  match level with
  | O => LF
  | S k => newline_indent k +:+ "  "
  end.

(** [json.dumps(v, indent=2)] at nesting depth [level]. *)
Fixpoint dumps_at (level : nat) (v : value) : string :=
  match v with
  | Null => "null"
  | Bool true => "true"
  | Bool false => "false"
  | Int n => str_of_int n
  | Str s => dumps_string s
  | Array [] => "[]"
  | Array (x :: l) =>
      "[" +:+ newline_indent (S level) +:+ dumps_at (S level) x
      +:+ (fix items (l : list value) : string :=
             match l with
             | [] => EmptyString
             | y :: l' =>
                 "," +:+ newline_indent (S level) +:+ dumps_at (S level) y
                 +:+ items l'
             end) l
      +:+ newline_indent level +:+ "]"
  | Object [] => "{}"
  | Object ((k, x) :: d) =>
      "{" +:+ newline_indent (S level) +:+ dumps_string k +:+ ": "
      +:+ dumps_at (S level) x
      +:+ (fix members (d : list (string * value)) : string :=
             match d with
             | [] => EmptyString
             | (k', y) :: d' =>
                 "," +:+ newline_indent (S level) +:+ dumps_string k'
                 +:+ ": " +:+ dumps_at (S level) y +:+ members d'
             end) d
      +:+ newline_indent level +:+ "}"
  end.

(** The encoder writes an int with [int.__repr__], which raises
    [ValueError] for an int of more than [MAX_STR_DIGITS] digits. *)
Fixpoint ints_ok (v : value) : bool :=
  match v with
  | Int n => int_str_ok n
  | Array l =>
      (fix items (l : list value) : bool :=
         match l with
         | [] => true
         | x :: l' => ints_ok x && items l'
         end) l
  | Object d =>
      (fix members (d : list (string * value)) : bool :=
         match d with
         | [] => true
         | (_, x) :: d' => ints_ok x && members d'
         end) d
  | _ => true
  end.

(** [json.dumps(v, indent=2)] *)
Definition dumps (v : value) : result string :=
  if ints_ok v then Ok (dumps_at 0 v) else Raise ValueError.

(** *** [json.loads] *)

Definition is_ws (c : ascii) : bool :=
  let n := N_of_ascii c in ((n =? 32) || (n =? 9) || (n =? 10) || (n =? 13))%N.

Fixpoint skip_ws (s : string) : string :=
  match s with
  | EmptyString => EmptyString
  | String c s' => if is_ws c then skip_ws s' else s
  end.

Definition hex_value (c : ascii) : option N :=
  let n := N_of_ascii c in
  if ((48 <=? n) && (n <=? 57))%N then Some (n - 48)%N
  else if ((97 <=? n) && (n <=? 102))%N then Some (n - 87)%N
  else if ((65 <=? n) && (n <=? 70))%N then Some (n - 55)%N
  else None.

Definition cons_char (c : ascii) (r : option (string * string))
  : option (string * string) :=
  match r with
  | Some (a, b) => Some (String c a, b)
  | None => None
  end.

(** A string after its opening quote: the decoded text and what follows the
    closing quote. [None]: the string is malformed, or it holds an escape
    for a code point from 256 on. *)
Fixpoint loads_string (s : string) : option (string * string) :=
  match s with
  | EmptyString => None
  | String c s' =>
      let n := N_of_ascii c in
      if (n =? 34)%N then Some (EmptyString, s')
      else if (n =? 92)%N then
        match s' with
        | String e s'' =>
            let m := N_of_ascii e in
            if (m =? 34)%N then cons_char e (loads_string s'')
            else if (m =? 92)%N then cons_char e (loads_string s'')
            else if (m =? 47)%N then cons_char e (loads_string s'')
            else if (m =? 98)%N then cons_char (ascii_of_N 8) (loads_string s'')
            else if (m =? 102)%N
            then cons_char (ascii_of_N 12) (loads_string s'')
            else if (m =? 110)%N
            then cons_char (ascii_of_N 10) (loads_string s'')
            else if (m =? 114)%N
            then cons_char (ascii_of_N 13) (loads_string s'')
            else if (m =? 116)%N
            then cons_char (ascii_of_N 9) (loads_string s'')
            else if (m =? 117)%N then
              match s'' with
              | String h1 (String h2 (String h3 (String h4 s5))) =>
                  match hex_value h1, hex_value h2, hex_value h3,
                        hex_value h4 with
                  | Some 0%N, Some 0%N, Some a, Some b =>
                      cons_char (ascii_of_N (16 * a + b)) (loads_string s5)
                  | _, _, _, _ => None
                  end
              | _ => None
              end
            else None
        | EmptyString => None
        end
      else if (n <? 32)%N then None
      else cons_char c (loads_string s')
  end.

(** An integer literal: an optional minus sign, then a single zero or a run
    of digits that does not start with zero. [None]: there is no digit, a
    fraction or an exponent follows (the number is a float), or [int]
    raises [ValueError] on more than [MAX_STR_DIGITS] digits. *)
Definition loads_int (s : string) : option (Z * string) :=
  let '(neg, s1) :=
    match s with
    | String c s' => if (N_of_ascii c =? 45)%N then (true, s') else (false, s)
    | EmptyString => (false, s)
    end in
  let '(digits, rest) :=
    match s1 with
    | String c s' =>
        if (N_of_ascii c =? 48)%N then (String c EmptyString, s')
        else Re.span Re.isdigit s1
    | EmptyString => (EmptyString, EmptyString)
    end in
  let int_ (digits : string) : option Z :=
    if MAX_STR_DIGITS <? Z.of_nat (String.length digits) then None
    else Some (if neg then - int_of_digits digits
               else int_of_digits digits) in
  if negb (truthy digits) then None
  else
    match rest with
    | String c _ =>
        let n := N_of_ascii c in
        if ((n =? 46) || (n =? 101) || (n =? 69))%N then None
        else k ← int_ digits; Some (k, rest)
    | EmptyString => k ← int_ digits; Some (k, rest)
    end.

(** [d[k] = v] while an object is read: a repeated key keeps its place and
    takes the later value. *)
Definition object_set (k : string) (v : value) (d : list (string * value))
  : list (string * value) := dict_set k v d.

(** One value at the start of the text, and the rest of the text. [None]:
    no value of the model is read there. *)
Fixpoint loads_value (fuel : nat) (s : string) : option (value * string) :=
  match fuel with
  | O => None
  | S fuel' =>
      match s with
      | EmptyString => None
      | String c s' =>
          let n := N_of_ascii c in
          if (n =? 34)%N then
            '(str, rest) ← loads_string s'; Some (Str str, rest)
          else if (n =? 91)%N then
            match skip_ws s' with
            | String c1 s1 =>
                if (N_of_ascii c1 =? 93)%N then Some (Array [], s1)
                else loads_items fuel' [] (String c1 s1)
            | EmptyString => None
            end
          else if (n =? 123)%N then
            match skip_ws s' with
            | String c1 s1 =>
                if (N_of_ascii c1 =? 125)%N then Some (Object [], s1)
                else loads_members fuel' [] (String c1 s1)
            | EmptyString => None
            end
          else if String.prefix "null" s
          then Some (Null, String.substring 4 (String.length s) s)
          else if String.prefix "true" s
          then Some (Bool true, String.substring 4 (String.length s) s)
          else if String.prefix "false" s
          then Some (Bool false, String.substring 5 (String.length s) s)
          else '(k, rest) ← loads_int s; Some (Int k, rest)
      end
  end

(* The items of an array from the start of an item on; [acc] holds the
   items read so far. *)
with loads_items (fuel : nat) (acc : list value) (s : string)
  : option (value * string) :=
  match fuel with
  | O => None
  | S fuel' =>
      '(v, rest) ← loads_value fuel' s;
      match skip_ws rest with
      | String c s1 =>
          if (N_of_ascii c =? 44)%N
          then loads_items fuel' (acc ++ [v]) (skip_ws s1)
          else if (N_of_ascii c =? 93)%N then Some (Array (acc ++ [v]), s1)
          else None
      | EmptyString => None
      end
  end

(* The members of an object from the start of a key on. *)
with loads_members (fuel : nat) (acc : list (string * value)) (s : string)
  : option (value * string) :=
  match fuel with
  | O => None
  | S fuel' =>
      match s with
      | String q s0 =>
          if (N_of_ascii q =? 34)%N then
            '(k, rest) ← loads_string s0;
            match skip_ws rest with
            | String c s1 =>
                if (N_of_ascii c =? 58)%N then
                  '(v, rest) ← loads_value fuel' (skip_ws s1);
                  match skip_ws rest with
                  | String c2 s2 =>
                      if (N_of_ascii c2 =? 44)%N
                      then loads_members fuel' (object_set k v acc)
                                         (skip_ws s2)
                      else if (N_of_ascii c2 =? 125)%N
                      then Some (Object (object_set k v acc), s2)
                      else None
                  | EmptyString => None
                  end
                else None
            | EmptyString => None
            end
          else None
      | EmptyString => None
      end
  end.

(** [json.loads(s)]: one value between optional whitespace. Text after the
    value is a [json.JSONDecodeError], which is a [ValueError]. The result
    [None] says that the text is not one that this model reads: it is
    malformed or holds an int of more than [MAX_STR_DIGITS] digits (and
    [json.loads] raises), or it holds a float or a code point from 256 on
    (and [json.loads] returns a value that the model does not have). Every
    call of the parser reads at least one character, so the length of the
    text bounds the number of calls. *)
Definition loads (s : string) : option (result value) :=
  match loads_value (S (String.length s)) (skip_ws s) with
  | Some (v, rest) =>
      match skip_ws rest with
      | EmptyString => Some (Ok v)
      | String _ _ => Some (Raise ValueError)
      end
  | None => None
  end.

End Json.

Module Csv.

(** A field needs quotes when it holds the delimiter, the quote character or
    a character of the line terminator. *)
Definition special (c : ascii) : bool :=
  let n := N_of_ascii c in ((n =? 44) || (n =? 34) || (n =? 13) || (n =? 10))%N.

Fixpoint needs_quotes (s : string) : bool :=
  match s with
  | EmptyString => false
  | String c s' => special c || needs_quotes s'
  end.

(** Every quote character is doubled. *)
Fixpoint double_quotes (s : string) : string :=
  match s with
  | EmptyString => EmptyString
  | String c s' =>
      if (N_of_ascii c =? 34)%N then String c (String c (double_quotes s'))
      else String c (double_quotes s')
  end.

Definition field (s : string) : string :=
  if needs_quotes s then Json.dquote +:+ double_quotes s +:+ Json.dquote
  else s.

Definition CRLF : string :=
  String (ascii_of_N 13) (String (ascii_of_N 10) EmptyString).

(** [csv.writer(output).writerow(row)] with the default dialect: the text
    that is appended to the output. A row that is one empty field is
    written as a pair of quotes. *)
Definition writerow (row : list string) : string :=
  match row with
  | [EmptyString] => Json.dquote +:+ Json.dquote +:+ CRLF
  | _ => join "," (List.map field row) +:+ CRLF
  end.

End Csv.

(** ** output_serializer.py *)

Module OutputSerializer.

(** [None] or a string, as a JSON value. *)
Definition of_optional (o : option string) : Json.value :=
  match o with
  | Some s => Json.Str s
  | None => Json.Null
  end.

(** [to_dict] *)
Definition to_dict (task : TaskOutput.t) : list (string * Json.value) :=
  [("task_number", Json.Int (TaskOutput.task_number task));
   ("description", Json.Str (TaskOutput.description task));
   ("assigned_to", of_optional (TaskOutput.assigned_to task));
   ("deadline", of_optional (TaskOutput.deadline task));
   ("priority", Json.Str (TaskOutput.priority task));
   ("dependencies", of_optional (TaskOutput.dependencies task));
   ("reasoning", of_optional (TaskOutput.reasoning task))]%string.

(** [serialize] *)
Definition serialize (tasks : list TaskOutput.t) : result string :=
  let task_dicts := List.map (fun task => Json.Object (to_dict task)) tasks in
  Json.dumps (Json.Array task_dicts).

(** What [TaskOutput.from_dict] builds: the dataclass does not check its
    field types, so every field holds the value that the dict held. *)
Record parsed_task : Set := mkParsed {
  task_number : Json.value;
  description : Json.value;
  assigned_to : Json.value;
  deadline : Json.value;
  priority : Json.value;
  dependencies : Json.value;
  reasoning : Json.value
}.

(** A typed [TaskOutput] seen as such a record. *)
Definition of_task (task : TaskOutput.t) : parsed_task :=
  {| task_number := Json.Int (TaskOutput.task_number task);
     description := Json.Str (TaskOutput.description task);
     assigned_to := of_optional (TaskOutput.assigned_to task);
     deadline := of_optional (TaskOutput.deadline task);
     priority := Json.Str (TaskOutput.priority task);
     dependencies := of_optional (TaskOutput.dependencies task);
     reasoning := of_optional (TaskOutput.reasoning task) |}.

(** [data.get(key, dflt)] *)
Definition get_or (key : string) (dflt : Json.value)
    (data : list (string * Json.value)) : Json.value :=
  default dflt (dict_get key data).

(** [TaskOutput.from_dict] *)
Definition from_dict (data : list (string * Json.value)) : parsed_task :=
  {| task_number := get_or "task_number" (Json.Int 0) data;
     description := get_or "description" (Json.Str "") data;
     assigned_to := get_or "assigned_to" Json.Null data;
     deadline := get_or "deadline" Json.Null data;
     priority := get_or "priority" (Json.Str "Medium") data;
     dependencies := get_or "dependencies" Json.Null data;
     reasoning := get_or "reasoning" Json.Null data |}.

(** [TaskOutput.from_dict(item)] for an item of any type: [item.get] exists
    on dicts only. *)
Definition item_from_dict (item : Json.value) : result parsed_task :=
  match item with
  | Json.Object data => Ok (from_dict data)
  | _ => Raise AttributeError
  end.

Fixpoint items_from_dict (items : list Json.value)
  : result (list parsed_task) :=
  match items with
  | [] => Ok []
  | item :: rest =>
      t ←! item_from_dict item;
      ts ←! items_from_dict rest;
      Ok (t :: ts)
  end.

(** [[TaskOutput.from_dict(item) for item in v]]: iterating a dict yields its
    keys and iterating a string its characters, which are strings. *)
Definition comprehension (v : Json.value) : result (list parsed_task) :=
  match v with
  | Json.Array items => items_from_dict items
  | Json.Object [] => Ok []
  | Json.Object (_ :: _) => Raise AttributeError
  | Json.Str EmptyString => Ok []
  | Json.Str (String _ _) => Raise AttributeError
  | _ => Raise TypeError
  end.

(** [deserialize]; [None] where [Json.loads] is. *)
Definition deserialize (json_str : string)
  : option (result (list parsed_task)) :=
  loaded ← Json.loads json_str;
  Some (data ←! loaded;
        match data with
        | Json.Array items => items_from_dict items
        | Json.Object d =>
            match dict_get "tasks" d with
            | Some v => comprehension v
            | None => Raise ValueError
            end
        | _ => Raise ValueError
        end).

(** [x or ''] for an optional string. *)
Definition or_empty (o : option string) : string :=
  match o with
  | Some s => s
  | None => EmptyString
  end.

Definition csv_header : list string :=
  ["Task Number"; "Description"; "Assigned To"; "Deadline"; "Priority";
   "Dependencies"; "Reasoning"]%string.

Definition csv_row (task : TaskOutput.t) : list string :=
  [str_of_int (TaskOutput.task_number task);
   TaskOutput.description task;
   or_empty (TaskOutput.assigned_to task);
   or_empty (TaskOutput.deadline task);
   TaskOutput.priority task;
   or_empty (TaskOutput.dependencies task);
   or_empty (TaskOutput.reasoning task)].

(** [serialize_to_csv] *)
Definition serialize_to_csv (tasks : list TaskOutput.t) : string :=
  fold_left (fun output task => output +:+ Csv.writerow (csv_row task))
            tasks (Csv.writerow csv_header).

End OutputSerializer.

(** ** The pipeline result as JSON (models.py, output_serializer.py)

    [PipelineResult.to_dict], [from_dict], [to_json] and [from_json], and
    the methods of [OutputSerializer] that go through them or check a task
    dict. *)

Module ResultSerializer.

Import OutputSerializer.

(** [PipelineResult.to_dict] *)
Definition to_dict (r : PipelineResult.t) : list (string * Json.value) :=
  [("success", Json.Bool (PipelineResult.success r));
   ("tasks",
    Json.Array (List.map (fun t => Json.Object (OutputSerializer.to_dict t))
                         (PipelineResult.tasks r)));
   ("transcript", of_optional (PipelineResult.transcript r));
   ("error_message", of_optional (PipelineResult.error_message r))]%string.

(** What [PipelineResult.from_dict] builds; as for a task, the fields hold
    the values that the dict held. *)
Record parsed_result : Set := mkParsedResult {
  success : Json.value;
  tasks : list parsed_task;
  transcript : Json.value;
  error_message : Json.value
}.

(** A typed [PipelineResult] seen as such a record. *)
Definition of_result (r : PipelineResult.t) : parsed_result :=
  {| success := Json.Bool (PipelineResult.success r);
     tasks := List.map of_task (PipelineResult.tasks r);
     transcript := of_optional (PipelineResult.transcript r);
     error_message := of_optional (PipelineResult.error_message r) |}.

(** [PipelineResult.from_dict] *)
Definition from_dict (data : list (string * Json.value))
  : result parsed_result :=
  tasks ←! comprehension (get_or "tasks" (Json.Array []) data);
  Ok {| success := get_or "success" (Json.Bool false) data;
        tasks := tasks;
        transcript := get_or "transcript" Json.Null data;
        error_message := get_or "error_message" Json.Null data |}.

(** [PipelineResult.to_json] *)
Definition to_json (r : PipelineResult.t) : result string :=
  Json.dumps (Json.Object (to_dict r)).

(** [PipelineResult.from_json]: [from_dict] calls [data.get], which only a
    dict has; [None] where [Json.loads] is. *)
Definition from_json (json_str : string) : option (result parsed_result) :=
  loaded ← Json.loads json_str;
  Some (data ←! loaded;
        match data with
        | Json.Object d => from_dict d
        | _ => Raise AttributeError
        end).

(** [OutputSerializer.serialize_result] *)
Definition serialize_result (r : PipelineResult.t) : result string :=
  to_json r.

(** [OutputSerializer.deserialize_result] *)
Definition deserialize_result (json_str : string)
  : option (result parsed_result) :=
  from_json json_str.

Definition REQUIRED_FIELDS : list string :=
  ["task_number"; "description"; "priority"]%string.

Definition OPTIONAL_FIELDS : list string :=
  ["assigned_to"; "deadline"; "dependencies"; "reasoning"]%string.

(** [field in data] *)
Definition has_field (field : string) (data : list (string * Json.value))
  : bool :=
  bool_decide (is_Some (dict_get field data)).

(** [OutputSerializer.validate_task_dict] *)
Definition validate_task_dict (data : list (string * Json.value)) : bool :=
  forallb (fun field => has_field field data) REQUIRED_FIELDS.

(** [OutputSerializer.get_missing_fields] *)
Definition get_missing_fields (data : list (string * Json.value))
  : list string :=
  List.filter (fun f => negb (has_field f data)) REQUIRED_FIELDS.

End ResultSerializer.
(** * Vocabulary of the statements

    Predicates in the words of the specification, and the concrete inputs
    that the examples below run the code on. *)

(** The raw text contains a Critical indicator. *)
Definition has_critical_text (task : ExtractedTask.t) : Prop :=
  ∃ indicator, indicator ∈ PriorityClassifier.CRITICAL_INDICATORS
               ∧ str_in indicator (lower (ExtractedTask.raw_text task)) = true.

Definition urgent_task : ExtractedTask.t :=
  ExtractedTask.mk "Fix the critical login bug"
                   "We need to fix the critical login bug by tomorrow."
                   None (Some "tomorrow"%string) ["critical"%string] [].

Definition deferred_task : ExtractedTask.t :=
  ExtractedTask.mk "Fix the critical login bug"
                   "We need to fix the critical login bug. This can wait until next sprint."
                   None None ["critical"%string] [].

(** The transcript "We need to fix em bugs." and what the pattern stages of
    the extractor return on it, traced through task_extractor.py: the text is
    one sentence (no whitespace follows its final full stop) that neither
    merge pass changes; it contains the indicator "need to" and starts with
    "we need to", so it is actionable; [_generate_description] removes the
    prefix "We need to ", the action pattern
    [fix\s+(?:the\s+)?(?:critical\s+)?[\w\s]+(?:bug|issue|problem)] selects
    "fix em bug", which is capitalised; no team name, deadline pattern or
    dependency pattern occurs in it. *)
Definition short_transcript : string := "We need to fix em bugs.".

Definition short_task : ExtractedTask.t :=
  ExtractedTask.mk "Fix em bug" short_transcript None None [] [].

Definition short_extract_tasks : string → list ExtractedTask.t :=
  TaskExtractor.extract_tasks
    (fun text => [text]) (fun sentences => sentences)
    (fun sentences => sentences) (fun _ => true) (fun _ => true)
    (fun _ => "Fix em bug"%string) (fun _ => None) (fun _ => None)
    (fun _ => []).

Definition short_derived_tasks : string → list ExtractedTask.t :=
  TaskExtractor.derived_tasks
    (fun text => [text]) (fun sentences => sentences)
    (fun sentences => sentences) (fun _ => true) (fun _ => true)
    (fun _ => "Fix em bug"%string) (fun _ => None) (fun _ => None)
    (fun _ => []).

(** A roster with one tester, and a testing task that names nobody. *)
Definition qa_member : TeamMember.t :=
  TeamMember.init "Priya" "QA Engineer" ["Selenium"%string].

Definition qa_store : TeamMemberStore.t :=
  snd (TeamMemberStore.add_member qa_member []).

Definition regression_task : ExtractedTask.t :=
  ExtractedTask.mk "Run regression testing"
                   "We should run regression testing before the release."
                   None None [] [].

Definition named_task : ExtractedTask.t :=
  ExtractedTask.mk "Update the changelog"
                   "Priya, please update the changelog."
                   (Some "Priya"%string) None [] [].

(** The prerequisite edges of task [i] in a dependency list, in the order in
    which [resolve] emitted them. *)
Definition edges_to (i : Z) (dependencies : list TaskDependency.t)
  : list TaskDependency.t :=
  List.filter (fun dep => TaskDependency.dependent_task_index dep =? i)
              dependencies.

(** Three tasks; the first depends on the other two. *)
Definition release_notes_task : ExtractedTask.t :=
  ExtractedTask.mk
    "Write the release notes"
    "We need to write the release notes. This depends on the login bug fix, and it is blocked by the database work."
    None None []
    ["login bug fix"; "the login bug fix"; "the database work"]%string.

Definition login_task : ExtractedTask.t :=
  ExtractedTask.mk "Fix the login bug" "We need to fix the login bug."
                   None None [] [].

Definition database_task : ExtractedTask.t :=
  ExtractedTask.mk "Optimize database performance"
                   "We should optimize database performance."
                   None None [] [].

Definition release_tasks : list ExtractedTask.t :=
  [release_notes_task; login_task; database_task].

(** What the loop over the dependencies leaves at position [i] of the
    outputs: the text of the last edge of task [i], or what was there
    before. *)
Definition linked (dependencies : list TaskDependency.t) (i : nat)
    (o : TaskOutput.t) : TaskOutput.t :=
  match last (edges_to (Z.of_nat i) dependencies) with
  | Some dep =>
      MeetingTaskPipeline.with_dependencies
        (Some (MeetingTaskPipeline.depends_on_text dep)) o
  | None => o
  end.

(** Both indices of every dependency are task indices. *)
Definition in_range (num_tasks : Z) (dependencies : list TaskDependency.t)
  : Prop :=
  Forall (fun dep =>
            0 <= TaskDependency.dependent_task_index dep < num_tasks
            ∧ 0 <= TaskDependency.prerequisite_task_index dep < num_tasks)
         dependencies.

(** The dicts of [get_dependency_order]: their keys are the task indices,
    the sets hold task indices, and no count is negative. *)
Definition order_dicts_ok (num_tasks : Z)
    (graph : gmap Z (list Z)) (in_degree : gmap Z Z) : Prop :=
  (∀ i, is_Some (graph !! i) ↔ 0 <= i < num_tasks)
  ∧ (∀ i, is_Some (in_degree !! i) ↔ 0 <= i < num_tasks)
  ∧ (∀ p s d, graph !! p = Some s → d ∈ s → 0 <= d < num_tasks)
  ∧ (∀ i k, in_degree !! i = Some k → 0 <= k).

(** The invariant of the [while queue] loop: no index is twice in the result
    and the queue, and the indices outside of them are those whose count is
    still positive. *)
Definition kahn_inv (num_tasks : Z) (in_degree : gmap Z Z)
    (queue result_ : list Z) : Prop :=
  NoDup (result_ ++ queue)
  ∧ (∀ x, x ∈ result_ ++ queue → 0 <= x < num_tasks)
  ∧ (∀ i, is_Some (in_degree !! i) ↔ 0 <= i < num_tasks)
  ∧ (∀ i k, in_degree !! i = Some k →
            if decide (i ∈ result_ ++ queue) then k <= 0 else 1 <= k).

(** The dependent-to-prerequisite digraph of a dependency list, and what it
    means for it to contain a cycle: some task reaches itself along one or
    more edges. *)
Definition edge (dependencies : list TaskDependency.t) (a b : Z) : Prop :=
  ∃ dep, dep ∈ dependencies
         ∧ TaskDependency.dependent_task_index dep = a
         ∧ TaskDependency.prerequisite_task_index dep = b.

Definition cyclic (dependencies : list TaskDependency.t) : Prop :=
  ∃ a, tc (edge dependencies) a a.

(** The tasks that occur in a dependency list. *)
Definition nodes_of (dependencies : list TaskDependency.t) : gset Z :=
  list_to_set
    (flat_map (fun dep => [TaskDependency.dependent_task_index dep;
                           TaskDependency.prerequisite_task_index dep])
              dependencies).

(** The nodes that the search has left: visited and off the recursion
    stack. *)
Definition finished (st : DependencyResolver.dfs_state) : gset Z :=
  DependencyResolver.visited st ∖ DependencyResolver.rec_stack st.

(** The state of a search that has reported nothing: the recursion stack is
    visited, the finished nodes are closed under the edges, and no finished
    node lies on a cycle. *)
Definition dfs_inv (dependencies : list TaskDependency.t)
    (st : DependencyResolver.dfs_state) : Prop :=
  DependencyResolver.cycles st = []
  ∧ (∀ u v, u ∈ finished st → edge dependencies u v → v ∈ finished st)
  ∧ (∀ u, u ∈ finished st → ¬ tc (edge dependencies) u u).

(** What every state of the search satisfies, reported cycle or not, for
    a set [U] that holds all the nodes. *)
Definition dfs_wf (U : gset Z) (st : DependencyResolver.dfs_state) : Prop :=
  DependencyResolver.rec_stack st ⊆ DependencyResolver.visited st
  ∧ DependencyResolver.visited st ⊆ U.

(** What a call [dfs(node)] that goes from [st] to [st'] and returns [b]
    guarantees in every case. *)
Definition dfs_post (U : gset Z) (node : Z)
    (st : DependencyResolver.dfs_state) (b : bool)
    (st' : DependencyResolver.dfs_state) : Prop :=
  dfs_wf U st'
  ∧ DependencyResolver.visited st ⊆ DependencyResolver.visited st'
  ∧ node ∈ DependencyResolver.visited st'
  ∧ DependencyResolver.rec_stack st ⊆ DependencyResolver.rec_stack st'
  ∧ (DependencyResolver.cycles st ≠ [] → DependencyResolver.cycles st' ≠ [])
  ∧ (b = true → DependencyResolver.cycles st' ≠ []).

(** What it guarantees when nothing has been reported before and the
    recursion stack holds ancestors of [node]: it returns [True] only if
    there is a cycle, and otherwise leaves a state of the same kind with
    the same stack. *)
Definition dfs_good (dependencies : list TaskDependency.t) (node : Z)
    (st : DependencyResolver.dfs_state) (b : bool)
    (st' : DependencyResolver.dfs_state) : Prop :=
  dfs_inv dependencies st →
  (∀ a, a ∈ DependencyResolver.rec_stack st →
        rtc (edge dependencies) a node) →
  if b then cyclic dependencies
  else dfs_inv dependencies st'
       ∧ DependencyResolver.rec_stack st' = DependencyResolver.rec_stack st.

(** The contract of a recursive call that may go [fuel] levels deep. *)
Definition dfs_ok (dependencies : list TaskDependency.t) (U : gset Z)
    (fuel : nat)
    (rec : Z → list Z → DependencyResolver.dfs_state →
           option (result (bool * DependencyResolver.dfs_state))) : Prop :=
  ∀ node path st,
    node ∉ DependencyResolver.visited st → node ∈ U → dfs_wf U st →
    (size (U ∖ DependencyResolver.visited st) < fuel)%nat →
    ∃ b st', rec node path st = Some (Ok (b, st'))
             ∧ dfs_post U node st b st'
             ∧ dfs_good dependencies node st b st'.

(** A cycle of three tasks with a repeated pair, and a chain of three. *)
Definition cycle_dependencies : list TaskDependency.t :=
  [TaskDependency.mk 0 1 "task b"; TaskDependency.mk 0 1 "the task b";
   TaskDependency.mk 1 2 "task c"; TaskDependency.mk 2 0 "task a"]%string.

Definition chain_dependencies : list TaskDependency.t :=
  [TaskDependency.mk 2 1 "task b"; TaskDependency.mk 1 0 "task a"]%string.

(** An acyclic list in which task 1 names its prerequisite 2 in two
    phrases, and task 0 depends on task 1. *)
Definition repeated_dependencies : list TaskDependency.t :=
  [TaskDependency.mk 1 2 "database work";
   TaskDependency.mk 1 2 "the database work";
   TaskDependency.mk 0 1 "login bug fix"]%string.

(** The position of an index in an order. *)
Fixpoint position (x : Z) (order : list Z) : option nat :=
  match order with
  | [] => None
  | y :: order' => if x =? y then Some O else S <$> position x order'
  end.

(** An order puts every prerequisite strictly before its dependents. *)
Definition prerequisites_first (dependencies : list TaskDependency.t)
    (order : list Z) : Prop :=
  ∀ dep, dep ∈ dependencies →
    ∃ i j,
      position (TaskDependency.prerequisite_task_index dep) order = Some i
      ∧ position (TaskDependency.dependent_task_index dep) order = Some j
      ∧ (i < j)%nat.

(** The [dependencies] fields of the tasks of a pipeline run. *)
Definition dependency_fields (run : option (result PipelineResult.t))
  : list (option string) :=
  match run with
  | Some (Ok r) => List.map TaskOutput.dependencies (PipelineResult.tasks r)
  | _ => []
  end.

(** A run of the pipeline on a transcript from which the extractor returns
    [release_tasks], with an empty roster, on 2024-01-01, with room for 900
    nested calls of the cycle search. *)
Definition release_run : option (result PipelineResult.t) :=
  MeetingTaskPipeline.process_transcript
    738886 (fun s => s) (fun s => s) 900 (fun _ _ => release_tasks)
    "We need to write the release notes. This depends on the login bug fix, and it is blocked by the database work. We need to fix the login bug. We should optimize database performance."
    [] None.

(** [_month_day] agrees with the month tables at offset [n]: the month and
    the day exist, and the days before the month plus the day give back the
    offset. *)
Definition month_day_ok (leapyear : bool) (n : Z) : bool :=
  let '(month, day) := Datetime._month_day leapyear n in
  (1 <=? month) && (month <=? 12) && (1 <=? day)
  && (day <=? (if (month =? 2) && leapyear then 29
               else nth (Z.to_nat month) Datetime._DAYS_IN_MONTH 0))
  && (nth (Z.to_nat month) Datetime._DAYS_BEFORE_MONTH 0
      + (if (2 <? month) && leapyear then 1 else 0) + day =? n + 1).

(** What a table entry gives for reference date [D]: a date from [D] to
    [D] + 365 days, or an exception, and that only in the last 31 days
    before [date.max]. *)
Definition within_a_year (D : Datetime.date) (r : result Datetime.date)
  : Prop :=
  match r with
  | Ok d => D <= d <= D + 365 ∧ Datetime.is_date d
  | Raise _ => Datetime.MAXORDINAL - 31 < D
  end.


(** The text that [Json.dumps_at] writes for the members of an object after
    the first, the members being at depth [level]. *)
Fixpoint members_text (level : nat) (d : list (string * Json.value))
  : string :=
  match d with
  | [] => EmptyString
  | (k, y) :: d' =>
      "," +:+ Json.newline_indent level +:+ Json.dumps_string k +:+ ": "
      +:+ Json.dumps_at level y +:+ members_text level d'
  end.

(** The same for the items of an array after the first. *)
Fixpoint items_text (level : nat) (l : list Json.value) : string :=
  match l with
  | [] => EmptyString
  | y :: l' =>
      "," +:+ Json.newline_indent level +:+ Json.dumps_at level y
      +:+ items_text level l'
  end.

(** The text after a value that [Json.dumps_at] wrote: nothing, a comma or a
    line break. *)
Definition ends_number (tail : string) : bool :=
  match tail with
  | String c _ => ((N_of_ascii c =? 44) || (N_of_ascii c =? 10))%N
  | EmptyString => true
  end.

(** No object of the value, at any depth, has the same key twice: the
    values that are Python dicts. *)
Fixpoint distinct_keys (v : Json.value) : Prop :=
  match v with
  | Json.Array l =>
      (fix all (l : list Json.value) : Prop :=
         match l with
         | [] => True
         | x :: l' => distinct_keys x ∧ all l'
         end) l
  | Json.Object d =>
      NoDup (List.map fst d)
      ∧ (fix all (d : list (string * Json.value)) : Prop :=
           match d with
           | [] => True
           | (_, x) :: d' => distinct_keys x ∧ all d'
           end) d
  | _ => True
  end.

(** [v], written at any depth and followed by [tail], is read back as [v]
    with [tail] left over; fuel for the length of its text is enough. *)
Definition round_trips (v : Json.value) : Prop :=
  distinct_keys v → Json.ints_ok v = true →
  ∀ (level fuel : nat) (tail : string),
    ends_number tail = true →
    (String.length (Json.dumps_at level v) ≤ fuel)%nat →
    Json.loads_value fuel (Json.dumps_at level v +:+ tail) = Some (v, tail).

(** The dict that the parser builds from members read in this order, on
    top of [acc]. *)
Definition object_of (members acc : list (string * Json.value))
  : list (string * Json.value) :=
  fold_left (fun acc kv => Json.object_set kv.1 kv.2 acc) members acc.

(** A task as a JSON value. *)
Definition task_value (task : TaskOutput.t) : Json.value :=
  Json.Object (OutputSerializer.to_dict task).

(** A task with [''] in place of every absent optional field. *)
Definition blank_optionals (task : TaskOutput.t) : TaskOutput.t :=
  {| TaskOutput.task_number := TaskOutput.task_number task;
     TaskOutput.description := TaskOutput.description task;
     TaskOutput.assigned_to :=
       Some (OutputSerializer.or_empty (TaskOutput.assigned_to task));
     TaskOutput.deadline :=
       Some (OutputSerializer.or_empty (TaskOutput.deadline task));
     TaskOutput.priority := TaskOutput.priority task;
     TaskOutput.dependencies :=
       Some (OutputSerializer.or_empty (TaskOutput.dependencies task));
     TaskOutput.reasoning :=
       Some (OutputSerializer.or_empty (TaskOutput.reasoning task)) |}.

(** A task nobody is assigned to. *)
Definition unassigned_task : TaskOutput.t :=
  TaskOutput.mk 1 "Fix the login bug" None None "High" None None.

(** A text that starts like a value: its first character is neither
    whitespace nor a closing bracket. *)
Definition starts_value (s : string) : Prop :=
  ∃ c r, s = String c r ∧ Json.is_ws c = false
         ∧ (N_of_ascii c =? 93)%N = false ∧ (N_of_ascii c =? 125)%N = false.

(** The key under which the store files a name. *)
Definition name_key (name : string) : string := strip (lower name).

(** What every store built by [add_member] satisfies: no key occurs twice,
    and every entry is a valid member filed under the key of its name. *)
Definition store_ok (members : TeamMemberStore.t) : Prop :=
  NoDup (List.map fst members)
  ∧ Forall (fun kv =>
              kv.1 = name_key (TeamMember.name kv.2)
              ∧ ValidationResult.is_valid
                  (TeamMemberStore.validate_member kv.2) = true)
           members.

(** A skill as [TeamMember] keeps it: not empty, without surrounding
    whitespace, in lower case. *)
Definition normalized (skill : string) : Prop :=
  truthy skill = true ∧ strip skill = skill ∧ lower skill = skill.

(** The result of [assign] when nobody fits. *)
Definition unassigned : AssignmentResult.t :=
  AssignmentResult.mk None "No suitable team member found for this task"
    Float.zero.

(** The text in which [_match_by_skills] looks for keywords. *)
Definition task_text (task : ExtractedTask.t) : string :=
  lower (ExtractedTask.description task +:+ " "
         +:+ ExtractedTask.raw_text task).

(** The pair of indices of a dependency record. *)
Definition pair_of (dep : TaskDependency.t) : Z * Z :=
  (TaskDependency.dependent_task_index dep,
   TaskDependency.prerequisite_task_index dep).

(** The records that make task [d] wait for a task outside of [finished]. *)
Definition waiting_on (finished : list Z) (d : Z) (dep : TaskDependency.t)
  : bool :=
  (TaskDependency.dependent_task_index dep =? d)
  && negb (bool_decide (TaskDependency.prerequisite_task_index dep
                        ∈ finished)).

(** Their number: what [in_degree[d]] should be once the tasks of
    [finished] are processed. *)
Definition pending (dependencies : list TaskDependency.t)
    (finished : list Z) (d : Z) : Z :=
  Z.of_nat (length (List.filter (waiting_on finished d) dependencies)).

(** A walk along the relation: every element is related to the next. *)
Fixpoint walk (R : Z → Z → Prop) (l : list Z) : Prop :=
  match l with
  | x :: ((y :: _) as l') => R x y ∧ walk R l'
  | _ => True
  end.

(** Every task of an order comes after its prerequisites. *)
Definition after_prerequisites (dependencies : list TaskDependency.t)
    (order : list Z) : Prop :=
  ∀ before x rest p,
    order = before ++ x :: rest → edge dependencies x p → p ∈ before.

(** Some record makes [d] depend on [p]. *)
Definition edgeb (dependencies : list TaskDependency.t) (d p : Z) : bool :=
  existsb (fun dep => (TaskDependency.dependent_task_index dep =? d)
                      && (TaskDependency.prerequisite_task_index dep =? p))
          dependencies.

(** The dicts of [get_dependency_order] after the loop over the records
    [seen]: [graph[p]] holds the dependents of [p] once each, and
    [in_degree[d]] counts the records of [d]. *)
Definition order_dicts_of (num_tasks : Z) (seen : list TaskDependency.t)
    (graph : gmap Z (list Z)) (in_degree : gmap Z Z) : Prop :=
  (∀ i, is_Some (graph !! i) ↔ 0 <= i < num_tasks)
  ∧ (∀ i, is_Some (in_degree !! i) ↔ 0 <= i < num_tasks)
  ∧ (∀ p s, graph !! p = Some s →
            NoDup s ∧ ∀ d, d ∈ s ↔ edgeb seen d p = true)
  ∧ (∀ d k, in_degree !! d = Some k → k = pending seen [] d).

(** The invariant of the [while queue] loop on duplicate-free records: the
    counts are the numbers of unprocessed prerequisites, the tasks in the
    result or the queue are those that wait for nothing, and the result
    lists every task after its prerequisites. *)
Definition kahn_sorted (num_tasks : Z) (dependencies : list TaskDependency.t)
    (in_degree : gmap Z Z) (queue result_ : list Z) : Prop :=
  NoDup (result_ ++ queue)
  ∧ (∀ x, x ∈ result_ ++ queue → 0 <= x < num_tasks)
  ∧ (∀ i, is_Some (in_degree !! i) ↔ 0 <= i < num_tasks)
  ∧ (∀ d k, in_degree !! d = Some k → k = pending dependencies result_ d)
  ∧ (∀ x, 0 <= x < num_tasks →
          x ∈ result_ ++ queue ↔ pending dependencies result_ x = 0)
  ∧ after_prerequisites dependencies result_.

(** The values of [PriorityLevel]. *)
Definition priority_names : list string :=
  ["Critical"; "High"; "Medium"; "Low"]%string.

(** The [deadline] field that the pipeline writes for an extracted task:
    the phrase as it was extracted, when it is not empty. *)
Definition deadline_field (extracted : ExtractedTask.t) : option string :=
  match ExtractedTask.deadline_phrase extracted with
  | Some raw => if truthy raw then Some raw else None
  | None => None
  end.

(** The two messages of the pipeline. *)
Definition no_tasks_message : string :=
  "No tasks identified in the meeting transcript".

Definition cycle_warning : string :=
  "Warning: Circular dependencies detected between tasks".

(** Tasks 0 and 1 depend on each other, and task 2 depends on task 0. *)
Definition stale_stack_dependencies : list TaskDependency.t :=
  [TaskDependency.mk 0 1 "task b"; TaskDependency.mk 1 0 "task a";
   TaskDependency.mk 2 0 "task a"]%string.

(** Every reported pair is a dependency, as (dependent, prerequisite). *)
Definition reports_edges (dependencies : list TaskDependency.t)
    (st : DependencyResolver.dfs_state) : Prop :=
  ∀ a b, (a, b) ∈ DependencyResolver.cycles st → edge dependencies a b.

(** All the phrases of [PRIORITY_INDICATORS]. *)
Definition priority_phrases : list string :=
  flat_map snd TaskExtractor.PRIORITY_INDICATORS.

(** A one-sentence transcript and the results of the extractor's stages on
    it: the prefix [We need to] is removed from the description and the
    pattern [fix\s+(?:the\s+)?(?:critical\s+)?[\w\s]+(?:bug|issue|problem)]
    selects the rest without the full stop; no team name, deadline pattern
    or dependency pattern occurs in the sentence. *)
Definition critical_transcript : string :=
  "We need to fix the critical login bug.".

Definition critical_extract_tasks : string → list ExtractedTask.t :=
  TaskExtractor.extract_tasks
    (fun text => [text]) (fun sentences => sentences)
    (fun sentences => sentences) (fun _ => true) (fun _ => true)
    (fun _ => "Fix the critical login bug"%string) (fun _ => None)
    (fun _ => None) (fun _ => []).

Definition critical_task : ExtractedTask.t :=
  ExtractedTask.mk "Fix the critical login bug" critical_transcript None None
    ["critical"%string] [].

(** Two testers for [regression_task]: the first has three skills that are
    keywords of the qa domain, worth 0.3 each; the second has the skill
    [qa] itself, worth 0.5, and a tester's role, worth 0.4. *)
Definition keyword_member : TeamMember.t :=
  TeamMember.init "Asha" "Engineer" ["Selenium"; "Cypress"; "Jest"]%string.

Definition domain_member : TeamMember.t :=
  TeamMember.init "Bala" "Tester" ["QA"%string].

Definition testers_store : TeamMemberStore.t :=
  snd (TeamMemberStore.add_member domain_member
         (snd (TeamMemberStore.add_member keyword_member []))).

(** A tester whose only merit is one keyword skill. *)
Definition junior_member : TeamMember.t :=
  TeamMember.init "Chen" "Engineer" ["Selenium"%string].

Definition junior_store : TeamMemberStore.t :=
  snd (TeamMemberStore.add_member junior_member []).

(** A chain of [n] dependencies in which task [i] depends on task
    [i + 1]. *)
Definition deep_chain (n : nat) : list TaskDependency.t :=
  List.map (fun i => TaskDependency.mk (Z.of_nat i) (Z.of_nat i + 1)
                                       "the next task")
           (seq 0 n).

(** The task numbers that [str] and [int] convert: those of at most
    [MAX_STR_DIGITS] decimal digits. *)
Definition numbers_ok (tasks : list TaskOutput.t) : bool :=
  forallb (fun task => int_str_ok (TaskOutput.task_number task)) tasks.

(** * Properties *)

(** ** Strings *)

Lemma blank_nil : blank EmptyString.
Proof. constructor. Qed.

Lemma blank_cons c s : blank (String c s) ↔ isspace c = true ∧ blank s.
Proof.
  unfold blank; simpl. split.
  - intros H. inversion H; subst. by split.
  - intros [H1 H2]. by constructor.
Qed.

Lemma lstrip_blank s : blank s → lstrip s = EmptyString.
Proof.
  induction s as [|c s IH]; [done|].
  intros [Hc Hs]%blank_cons. simpl. rewrite Hc. by apply IH.
Qed.

Lemma lstrip_not_blank s :
  ¬ blank s → ∃ c s', lstrip s = String c s' ∧ isspace c = false.
Proof.
  induction s as [|c s IH]; intros Hnb.
  - destruct Hnb. apply blank_nil.
  - simpl. destruct (isspace c) eqn:Hc.
    + apply IH. intros Hs. apply Hnb. by apply blank_cons.
    + by exists c, s.
Qed.

Lemma rstrip_keeps_head c s :
  isspace c = false → truthy (rstrip (String c s)) = true.
Proof. intros Hc. simpl. rewrite Hc. by destruct (rstrip s). Qed.

(** [s.strip()] is empty exactly when [s] holds whitespace only. *)
Lemma strip_empty_iff_blank s : truthy (strip s) = false ↔ blank s.
Proof.
  unfold strip. split.
  - intros H. destruct (decide (blank s)) as [|Hnb]; [done|].
    destruct (lstrip_not_blank s Hnb) as (c & s' & Heq & Hc).
    rewrite Heq, rstrip_keeps_head in H; done.
  - intros Hb. by rewrite lstrip_blank.
Qed.

(** The test [not s or not s.strip()] of [validate_member]. *)
Lemma missing_test_iff_blank s :
  negb (truthy s) || negb (truthy (strip s)) = true ↔ blank s.
Proof.
  rewrite <- strip_empty_iff_blank.
  destruct s as [|c s]; simpl; [done|].
  destruct (truthy (strip (String c s))); simpl; split; congruence.
Qed.

(** ** C9: validation of team members *)

(** A key that is absent from the roster entry reads as an empty field:
    [TeamMember.from_dict] fills in the empty string or the empty list. *)
Lemma absent_fields_are_empty d_name d_role d_skills :
  (d_name = None → blank (TeamMember.name
                            (TeamMember.from_dict d_name d_role d_skills)))
  ∧ (d_role = None → blank (TeamMember.role
                              (TeamMember.from_dict d_name d_role d_skills)))
  ∧ (d_skills = None →
     TeamMember.skills (TeamMember.from_dict d_name d_role d_skills) = []).
Proof. repeat split; intros ->; simpl; constructor. Qed.

(** C9. [validate_member] fails exactly when the name or the role is empty or
    whitespace-only or the skills list is empty; [missing_fields] then holds
    the name of each missing field and of no other field; a member with the
    three fields present validates successfully. *)
Theorem validate_member_names_missing_fields (member : TeamMember.t) :
  let r := TeamMemberStore.validate_member member in
  let name_missing := blank (TeamMember.name member) in
  let role_missing := blank (TeamMember.role member) in
  let skills_missing := TeamMember.skills member = [] in
  (ValidationResult.is_valid r = false
   ↔ name_missing ∨ role_missing ∨ skills_missing)
  ∧ (∀ f : string,
       f ∈ ValidationResult.missing_fields r
       ↔ (f = "name"%string ∧ name_missing)
         ∨ (f = "role"%string ∧ role_missing)
         ∨ (f = "skills"%string ∧ skills_missing))
  ∧ (ValidationResult.is_valid r = true
     ↔ ¬ name_missing ∧ ¬ role_missing ∧ ¬ skills_missing).
Proof.
  intros r name_missing role_missing skills_missing.
  subst r name_missing role_missing skills_missing.
  unfold TeamMemberStore.validate_member.
  pose proof (missing_test_iff_blank (TeamMember.name member)) as Hn.
  pose proof (missing_test_iff_blank (TeamMember.role member)) as Hr.
  destruct (negb (truthy (TeamMember.name member)) || _);
    destruct (negb (truthy (TeamMember.role member)) || _);
    destruct (TeamMember.skills member) as [|sk sks]; simpl;
    (split; [|split]);
    try (intros f; rewrite ?elem_of_cons, ?elem_of_nil);
    intuition (try (discriminate || congruence)).
Qed.

(** ** C2: critical indicators in the raw text *)

Section PriorityProperties.

Import PriorityClassifier.

Lemma has_critical_text_detected task :
  has_critical_text task →
  _has_critical_indicators (lower (ExtractedTask.raw_text task))
                           (ExtractedTask.priority_indicators task) = true.
Proof.
  intros (indicator & Hin & Hsub).
  unfold _has_critical_indicators, has_indicators.
  apply orb_true_iff. right. apply existsb_exists.
  exists indicator. split; [by apply list_elem_of_In|done].
Qed.

(** C2, as the code has it. A task whose raw text contains a Critical
    indicator is classified Critical for every deadline and every reference
    date, unless the lowercased raw text contains "can wait": then the
    result is Medium. *)
Theorem critical_text_is_critical_unless_it_can_wait
    (today : Datetime.date) (task : ExtractedTask.t)
    (deadline reference_date : option Datetime.date) :
  has_critical_text task →
  classify today task deadline reference_date
  = if str_in "can wait" (lower (ExtractedTask.raw_text task))
    then MEDIUM else CRITICAL.
Proof.
  intros Hcrit. unfold classify.
  destruct (str_in "can wait" _); [done|].
  by rewrite has_critical_text_detected.
Qed.

Lemma critical_text_is_critical_witness :
  has_critical_text urgent_task
  ∧ classify 738886 urgent_task (Some 738887) (Some 738886) = CRITICAL.
Proof.
  assert (H : has_critical_text urgent_task).
  { exists "critical"%string. split; [apply list_elem_of_here|reflexivity]. }
  split; [exact H|].
  exact (critical_text_is_critical_unless_it_can_wait
           738886 urgent_task (Some 738887) (Some 738886) H).
Defined.

(** C2 fails as stated: a raw text with the Critical indicator "critical"
    that also says "can wait" is classified Medium, with no deadline as well
    as with one that is due on the reference date. *)
Lemma critical_text_that_can_wait_is_medium :
  has_critical_text deferred_task
  ∧ classify 738886 deferred_task None None = MEDIUM
  ∧ classify 738886 deferred_task (Some 738886) (Some 738886) = MEDIUM.
Proof.
  split; [|split; reflexivity].
  exists "critical"%string. split; [apply list_elem_of_here|reflexivity].
Qed.

End PriorityProperties.

(** ** C8: the length filter of the extractor *)

Section ExtractorProperties.

Variable _split_into_sentences : string → list string.
Variable _merge_context_sentences : list string → list string.
Variable _merge_task_with_context : list string → list string.
Variable _contains_task_indicator : string → bool.
Variable _is_actionable_task : string → bool.
Variable _generate_description : string → string.
Variable _extract_mentioned_person : string → option string.
Variable _extract_deadline_phrase : string → option string.
Variable _extract_dependency_phrases : string → list string.

Let extract_tasks :=
  TaskExtractor.extract_tasks
    _split_into_sentences _merge_context_sentences _merge_task_with_context
    _contains_task_indicator _is_actionable_task _generate_description
    _extract_mentioned_person _extract_deadline_phrase
    _extract_dependency_phrases.

Let derived_tasks :=
  TaskExtractor.derived_tasks
    _split_into_sentences _merge_context_sentences _merge_task_with_context
    _contains_task_indicator _is_actionable_task _generate_description
    _extract_mentioned_person _extract_deadline_phrase
    _extract_dependency_phrases.

(** The loop keeps, in order, the derived tasks that pass the length test. *)
Lemma extract_tasks_filters_derived transcript :
  extract_tasks transcript
  = List.filter TaskExtractor.long_enough (derived_tasks transcript).
Proof.
  unfold extract_tasks, derived_tasks,
    TaskExtractor.extract_tasks, TaskExtractor.derived_tasks.
  destruct (negb (truthy transcript) || _); [done|].
  induction (TaskExtractor.merged_sentences _ _ _ transcript)
    as [|sentence rest IH]; [done|].
  simpl. rewrite List.filter_app, IH. f_equal.
  destruct (_contains_task_indicator sentence && _); [|done].
  destruct (TaskExtractor._extract_task_from_sentence _ _ _ _ sentence)
    as [task|]; [|done].
  simpl. by destruct (TaskExtractor.long_enough task).
Qed.

(** C8, as the code has it. A derived task is discarded on length exactly
    when its description has 10 characters or fewer: the returned tasks are
    the derived tasks whose description is longer than 10 characters, so
    every returned description has at least 11 characters. *)
Theorem extract_tasks_keeps_descriptions_over_ten
    (transcript : string) (task : ExtractedTask.t) :
  (task ∈ extract_tasks transcript
   ↔ task ∈ derived_tasks transcript
     ∧ (10 < String.length (ExtractedTask.description task))%nat)
  ∧ (task ∈ extract_tasks transcript →
     (10 ≤ String.length (ExtractedTask.description task))%nat).
Proof.
  assert (Hiff : task ∈ extract_tasks transcript
                 ↔ task ∈ derived_tasks transcript
                   ∧ (10 < String.length (ExtractedTask.description task))%nat).
  { rewrite extract_tasks_filters_derived, !list_elem_of_In, filter_In.
    unfold TaskExtractor.long_enough. by rewrite Nat.ltb_lt. }
  split; [exact Hiff|].
  intros [_ Hlen]%Hiff. lia.
Qed.

End ExtractorProperties.

(** C8 fails as stated: the task derived from "We need to fix em bugs." has
    the 10-character description "Fix em bug", and [extract_tasks] does not
    return it. *)
Lemma ten_character_description_is_discarded :
  short_derived_tasks short_transcript = [short_task]
  ∧ String.length (ExtractedTask.description short_task) = 10%nat
  ∧ short_extract_tasks short_transcript = [].
Proof. repeat split; reflexivity. Qed.

(** ** C3: confidence of an assignment *)

Section FloatProperties.

(** Comparison with 1.0 in the two directions. *)
Lemma float_compare_one_antisym (x : Float.t) :
  SFcompare x Float.one = CompOpp <$> SFcompare Float.one x.
Proof.
  destruct x as [s|s| |s m e]; try (destruct s; reflexivity); [reflexivity|].
  unfold Float.one, SFcompare. destruct s; [reflexivity|].
  cbn [fmap option_fmap option_map]. f_equal.
  rewrite (Z.compare_antisym e (-52)).
  destruct (e ?= -52); cbn [CompOpp]; try reflexivity.
  apply ZC4.
Qed.

Lemma float_compare_one_eq (x : Float.t) :
  SFcompare Float.one x = Some Eq → x = Float.one.
Proof.
  destruct x as [s|s| |s m e]; try (destruct s; discriminate); [discriminate|].
  unfold Float.one, SFcompare. destruct s; [discriminate|].
  destruct (Z.compare_spec (-52) e) as [<-| |]; try discriminate.
  intros [= H].
  change (4503599627370496 ?= m)%positive
    with (Pos.compare_cont Eq 4503599627370496 m) in H.
  apply Pos.compare_eq in H. congruence.
Qed.

(** [min(x, 1.0)] is 1.0 when [x] is at least 1.0, and [x] when [x] is
    below 1.0. *)
Lemma float_min_one_cap (x : Float.t) :
  Float.leb Float.one x = true → Float.min x Float.one = Float.one.
Proof.
  unfold Float.min, Float.leb, Float.ltb, SFleb, SFltb.
  destruct (SFcompare Float.one x) as [[]|] eqn:E; try discriminate;
    intros _; [|reflexivity].
  by apply float_compare_one_eq.
Qed.

Lemma float_min_one_below (x : Float.t) :
  Float.ltb x Float.one = true → Float.min x Float.one = x.
Proof.
  unfold Float.min, Float.ltb, SFltb. rewrite float_compare_one_antisym.
  by destruct (SFcompare Float.one x) as [[]|].
Qed.

(** [min(x, 1.0)] of a positive [x] is positive and at most 1.0. *)
Lemma float_min_one_range (x : Float.t) :
  Float.ltb Float.zero x = true →
  Float.ltb Float.zero (Float.min x Float.one) = true
  ∧ Float.leb (Float.min x Float.one) Float.one = true.
Proof.
  intros Hpos. unfold Float.min, Float.ltb, SFltb.
  destruct (SFcompare Float.one x) as [[]|] eqn:E; try (split; reflexivity).
  - apply float_compare_one_eq in E as ->. split; reflexivity.
  - split; [exact Hpos|]. unfold Float.leb, SFleb.
    rewrite float_compare_one_antisym, E. reflexivity.
  - destruct x as [s|s| |s m e]; try (destruct s; discriminate);
      discriminate.
Qed.

Lemma float_positive_not_negative (x : Float.t) :
  Float.ltb Float.zero x = true → Float.leb Float.zero x = true.
Proof.
  unfold Float.ltb, Float.leb, SFltb, SFleb.
  by destruct (SFcompare Float.zero x) as [[]|].
Qed.

End FloatProperties.

Section AssignmentProperties.

Import AssignmentEngine.

Variable set_order : list string → list string.

Lemma explicit_mention_confidence task team_store r :
  _match_by_explicit_mention task team_store = Some r →
  AssignmentResult.confidence r = Float.one
  ∧ ∃ member, AssignmentResult.team_member r = Some member.
Proof.
  unfold _match_by_explicit_mention.
  destruct (ExtractedTask.mentioned_person task) as [p|]; [|done].
  destruct (negb (truthy p)); [done|].
  destruct (TeamMemberStore.find_by_name p team_store) as [m|]; [|done].
  intros [= <-]. cbn [AssignmentResult.confidence AssignmentResult.team_member].
  eauto.
Qed.

(** A skill match is the best member of the scoring loop, with a positive
    best score, and its confidence is [min(best_score, 1.0)]. *)
Lemma skill_match_spec task team_store r :
  _match_by_skills set_order task team_store = Some r →
  ∃ member best_score matched_skills,
    best_match set_order (_extract_domains (task_text_of task))
      (primary_domain_of (task_text_of task))
      (TeamMemberStore.get_all_members team_store)
    = (Some member, best_score, matched_skills)
    ∧ Float.ltb Float.zero best_score = true
    ∧ r = AssignmentResult.mk
            (Some member)
            (_generate_skill_reasoning set_order member matched_skills
               (_extract_domains (task_text_of task)))
            (Float.min best_score Float.one).
Proof.
  unfold _match_by_skills. cbv zeta.
  destruct (_extract_domains (task_text_of task)) as [|domain domains];
    [done|].
  destruct (best_match _ _ _ _) as [[best_member best_score] matched].
  destruct best_member as [member|]; [|done].
  change (Float.of_int 0) with Float.zero.
  destruct (Float.ltb Float.zero best_score) eqn:Hpos; [|done].
  intros [= <-]. by exists member, best_score, matched.
Qed.

Lemma skill_match_confidence task team_store r :
  _match_by_skills set_order task team_store = Some r →
  Float.ltb Float.zero (AssignmentResult.confidence r) = true
  ∧ Float.leb (AssignmentResult.confidence r) Float.one = true.
Proof.
  intros (member & best_score & matched & _ & Hpos & ->)%skill_match_spec.
  cbn [AssignmentResult.confidence]. by apply float_min_one_range.
Qed.

(** [assign] returns the skill match when there is no explicit one. *)
Lemma assign_without_mention task team_store :
  _match_by_explicit_mention task team_store = None →
  assign set_order task team_store
  = match _match_by_skills set_order task team_store with
    | Some s => s
    | None => unassigned
    end.
Proof.
  intros He. unfold assign. rewrite He.
  destruct (_match_by_skills set_order task team_store) as [s|] eqn:Hs;
    [|done].
  by apply skill_match_spec in Hs as (member & ? & ? & _ & _ & ->).
Qed.

(** C3, as the code has it. The confidence of [assign] lies in [0, 1]. A
    mentioned person that [find_by_name] resolves is assigned with
    confidence exactly 1.0 and the reasoning of the explicit mention,
    whatever the skills. Without such a match, either nobody is assigned and
    the confidence is 0.0, or the best member of the scoring loop is
    assigned, the best score is positive, and the confidence is
    [min(best_score, 1.0)]: exactly 1.0 when the best score is 1.0 or more,
    and the best score itself when that is below 1.0. *)
Theorem assign_confidence_and_explicit_mention
    (task : ExtractedTask.t) (team_store : TeamMemberStore.t) :
  let r := assign set_order task team_store in
  (Float.leb Float.zero (AssignmentResult.confidence r) = true
   ∧ Float.leb (AssignmentResult.confidence r) Float.one = true)
  ∧ (∀ person member,
       ExtractedTask.mentioned_person task = Some person →
       person ≠ EmptyString →
       TeamMemberStore.find_by_name person team_store = Some member →
       r = AssignmentResult.mk
             (Some member)
             ("Explicitly mentioned in task: '" +:+ person +:+ "'")
             Float.one)
  ∧ (_match_by_explicit_mention task team_store = None →
     (AssignmentResult.team_member r = None
      ∧ AssignmentResult.confidence r = Float.zero)
     ∨ ∃ member best_score matched_skills,
         best_match set_order (_extract_domains (task_text_of task))
           (primary_domain_of (task_text_of task))
           (TeamMemberStore.get_all_members team_store)
         = (Some member, best_score, matched_skills)
         ∧ Float.ltb Float.zero best_score = true
         ∧ AssignmentResult.team_member r = Some member
         ∧ AssignmentResult.confidence r = Float.min best_score Float.one
         ∧ (Float.leb Float.one best_score = true →
            AssignmentResult.confidence r = Float.one)
         ∧ (Float.ltb best_score Float.one = true →
            AssignmentResult.confidence r = best_score)).
Proof.
  intros r. subst r.
  destruct (_match_by_explicit_mention task team_store) as [e|] eqn:He.
  - unfold assign. rewrite He.
    destruct (explicit_mention_confidence _ _ _ He) as [Hc [m Hm]].
    destruct e as [tm re c].
    cbn [AssignmentResult.confidence AssignmentResult.team_member] in Hc, Hm.
    subst tm c. cbn [AssignmentResult.confidence].
    split; [by split|]. split; [|done].
    intros person member Hp Hne Hfind. revert He.
    unfold _match_by_explicit_mention. rewrite Hp.
    destruct person as [|ch person]; [done|].
    cbn [truthy negb]. rewrite Hfind. by intros [= <- <-].
  - rewrite (assign_without_mention _ _ He).
    destruct (_match_by_skills set_order task team_store) as [s|] eqn:Hs.
    + pose proof (skill_match_confidence _ _ _ Hs) as [Hpos Hle].
      split; [split; [by apply float_positive_not_negative|exact Hle]|].
      split.
      * intros person member Hp Hne Hfind. revert He.
        unfold _match_by_explicit_mention. rewrite Hp.
        destruct person as [|ch person]; [done|].
        cbn [truthy negb]. by rewrite Hfind.
      * intros _. right.
        apply skill_match_spec in Hs
          as (member & best_score & matched & Hbest & Hscore & ->).
        exists member, best_score, matched.
        cbn [AssignmentResult.team_member AssignmentResult.confidence].
        split; [exact Hbest|]. split; [exact Hscore|].
        split; [reflexivity|]. split; [reflexivity|].
        split; [apply float_min_one_cap|apply float_min_one_below].
    + cbn [unassigned AssignmentResult.confidence
           AssignmentResult.team_member].
      split; [by split|]. split.
      * intros person member Hp Hne Hfind. revert He.
        unfold _match_by_explicit_mention. rewrite Hp.
        destruct person as [|ch person]; [done|].
        cbn [truthy negb]. by rewrite Hfind.
      * intros _. by left.
Qed.

End AssignmentProperties.

(** C3 fails as stated: nobody is mentioned in the regression task, and the
    skill match of the tester (0.3 for the skill, 0.4 for the role, 2.0 for
    the primary domain, 2.7 in all) is capped to confidence exactly 1.0. *)
Lemma skill_match_reaches_full_confidence :
  ExtractedTask.mentioned_person regression_task = None
  ∧ AssignmentEngine._extract_domains
      (AssignmentEngine.task_text_of regression_task) = ["qa"%string]
  ∧ AssignmentEngine.best_match (fun s => s) ["qa"%string] (Some "qa"%string)
      (TeamMemberStore.get_all_members qa_store)
    = (Some qa_member, Float.tenths 27, ["selenium"%string])
  ∧ AssignmentEngine.assign (fun s => s) regression_task qa_store
    = AssignmentResult.mk
        (Some qa_member)
        "Matched skills: selenium; Task domains: qa; Role: QA Engineer"
        Float.one.
Proof. repeat split; vm_compute; reflexivity. Qed.

(** The scores are floats. One keyword skill alone gives the confidence 0.3,
    below the cap. Three keyword skills score 0.3 + 0.3 + 0.3, which is
    0.8999999999999999 and so below the 0.5 + 0.4 = 0.9 of the second
    tester: the loop replaces the first tester by the second, where equal
    scores would have kept the first. *)
Example skill_scores_are_floats :
  AssignmentEngine.assign (fun s => s) regression_task junior_store
  = AssignmentResult.mk
      (Some junior_member)
      "Matched skills: selenium; Task domains: qa; Role: Engineer"
      (Float.tenths 3)
  ∧ AssignmentEngine._calculate_skill_score (fun s => s) ["qa"%string]
      keyword_member
    = (S754_finite false 8106479329266892 (-53),
       ["selenium"; "cypress"; "jest"]%string)
  ∧ AssignmentEngine._calculate_skill_score (fun s => s) ["qa"%string]
      domain_member
    = (Float.tenths 9, ["qa"%string])
  ∧ Float.ltb (S754_finite false 8106479329266892 (-53)) (Float.tenths 9)
    = true
  ∧ AssignmentResult.team_member
      (AssignmentEngine.assign (fun s => s) regression_task testers_store)
    = Some domain_member.
Proof. repeat split; vm_compute; reflexivity. Qed.

(** ** C1: the dependency field of the output *)

Section LinkProperties.

Import MeetingTaskPipeline.

Lemma with_dependencies_twice v w o :
  with_dependencies v (with_dependencies w o) = with_dependencies v o.
Proof. by destruct o. Qed.

Lemma dependencies_with_dependencies v o :
  TaskOutput.dependencies (with_dependencies v o) = v.
Proof. done. Qed.

Lemma last_cons_cons {A} (x y : A) l : last (x :: y :: l) = last (y :: l).
Proof. done. Qed.

Lemma last_cons_some {A} (x : A) l :
  last (x :: l) = Some (default x (last l)).
Proof.
  revert x. induction l as [|y l IH]; intros x; [done|].
  change (last (x :: y :: l)) with (last (y :: l)). by rewrite IH.
Qed.

Lemma link_dependencies_spec dependencies :
  ∀ task_outputs,
    Forall (fun dep => 0 <= TaskDependency.dependent_task_index dep)
           dependencies →
    ∃ task_outputs',
      link_dependencies dependencies task_outputs = Ok task_outputs'
      ∧ length task_outputs' = length task_outputs
      ∧ ∀ i o, task_outputs !! i = Some o →
               task_outputs' !! i = Some (linked dependencies i o).
Proof.
  unfold link_dependencies.
  induction dependencies as [|dep deps IH]; intros outs Hnn.
  - exists outs. by repeat split.
  - inversion Hnn as [|? ? Hdep Hdeps]; subst. cbn [fold_left].
    set (k := TaskDependency.dependent_task_index dep) in *.
    assert (Hstep : ∃ outs1,
               link_dependency (Ok outs) dep = Ok outs1
               ∧ length outs1 = length outs
               ∧ ∀ i o, outs !! i = Some o →
                   outs1 !! i
                   = Some (if k =? Z.of_nat i
                           then with_dependencies (Some (depends_on_text dep)) o
                           else o)).
    { unfold link_dependency. simpl. fold k.
      destruct (k <? Z.of_nat (length outs)) eqn:Hlt.
      - apply Z.ltb_lt in Hlt. unfold list_position.
        destruct (0 <=? k) eqn:H0; [|apply Z.leb_gt in H0; lia].
        destruct (k <? Z.of_nat (length outs)) eqn:Hlt'; 
          [|apply Z.ltb_ge in Hlt'; lia].
        simpl. eexists. split; [reflexivity|].
        split; [by rewrite length_alter|].
        intros i o Hi.
        destruct (k =? Z.of_nat i) eqn:Hki.
        + apply Z.eqb_eq in Hki. rewrite Hki, Nat2Z.id.
          by rewrite list_lookup_alter_eq, Hi.
        + apply Z.eqb_neq in Hki.
          rewrite list_lookup_alter_ne; [done|]. lia.
      - apply Z.ltb_ge in Hlt. exists outs. repeat split; try done.
        intros i o Hi. pose proof (lookup_lt_Some _ _ _ Hi) as Hil.
        destruct (k =? Z.of_nat i) eqn:Hki; [|done].
        apply Z.eqb_eq in Hki. lia. }
    destruct Hstep as (outs1 & -> & Hlen1 & Hget1).
    destruct (IH outs1 Hdeps) as (outs' & Hfold & Hlen & Hget).
    exists outs'. split; [done|]. split; [congruence|].
    intros i o Hi. rewrite (Hget i _ (Hget1 i o Hi)). f_equal.
    unfold linked, edges_to. simpl. fold k.
    destruct (k =? Z.of_nat i).
    + rewrite last_cons_some.
      destruct (last (List.filter _ deps)) as [e|]; simpl; [|done].
      by rewrite with_dependencies_twice.
    + done.
Qed.

(** The dependent index of every edge of [resolve] is the index of a task. *)
Lemma resolve_from_range task_descriptions tasks :
  ∀ i dep,
    dep ∈ DependencyResolver.resolve_from task_descriptions i tasks →
    i <= TaskDependency.dependent_task_index dep
       < i + Z.of_nat (length tasks).
Proof.
  induction tasks as [|task rest IH]; intros i dep Hin; simpl in Hin.
  - by apply elem_of_nil in Hin.
  - assert (Hedges : ∀ phrases,
               dep ∈ DependencyResolver.edges_of task_descriptions i phrases →
               TaskDependency.dependent_task_index dep = i).
    { intros phrases. unfold DependencyResolver.edges_of.
      rewrite list_elem_of_In, in_flat_map.
      intros (phrase & _ & Hd).
      destruct (DependencyResolver._find_matching_task _ _ _); simpl in Hd;
        [|done].
      destruct Hd as [<-|[]]. done. }
    simpl length. rewrite Nat2Z.inj_succ.
    apply elem_of_app in Hin as [Hin|Hin];
      [rewrite (Hedges _ Hin); lia|].
    apply elem_of_app in Hin as [Hin|Hin];
      [rewrite (Hedges _ Hin); lia|].
    apply IH in Hin. lia.
Qed.

Lemma resolve_range tasks dep :
  dep ∈ DependencyResolver.resolve tasks →
  0 <= TaskDependency.dependent_task_index dep < Z.of_nat (length tasks).
Proof. intros Hin. by apply resolve_from_range in Hin. Qed.

End LinkProperties.

(** ** C10: the dependency order is a permutation of the indices *)

Lemma elem_of_set_add {A} `{EqDecision A} (x y : A) (s : list A) :
  x ∈ set_add y s ↔ x = y ∨ x ∈ s.
Proof.
  unfold set_add. destruct (decide (y ∈ s)).
  - split; [auto|]. by intros [->|].
  - rewrite elem_of_app, list_elem_of_singleton. tauto.
Qed.

(** An assignment to a key that is present keeps the keys of a dict. *)
Lemma keys_insert_present {V} (m : gmap Z V) (P : Z → Prop) k v :
  (∀ i, is_Some (m !! i) ↔ P i) → P k →
  ∀ i, is_Some (<[k:=v]> m !! i) ↔ P i.
Proof.
  intros Hm Hk i. rewrite lookup_insert_is_Some, Hm.
  destruct (decide (k = i)) as [->|]; tauto.
Qed.

Lemma lookup_init_dict {V} (v : V) (n i : Z) :
  (list_to_map ((fun i => (i, v)) <$> seqZ 0 n) : gmap Z V) !! i
  = if decide (0 <= i < n) then Some v else None.
Proof.
  assert (Hfst : ((fun i => (i, v)) <$> seqZ 0 n).*1 = seqZ 0 n).
  { rewrite <- list_fmap_compose. rewrite <- (list_fmap_id (seqZ 0 n)) at 2.
    by apply list_fmap_ext. }
  destruct (decide (0 <= i < n)) as [Hi|Hi].
  - apply elem_of_list_to_map_1; [rewrite Hfst; apply NoDup_seqZ|].
    apply list_elem_of_fmap. exists i. split; [done|].
    apply elem_of_seqZ. lia.
  - apply not_elem_of_list_to_map_1. rewrite Hfst, elem_of_seqZ. lia.
Qed.

Lemma NoDup_List_filter {A} (f : A → bool) (l : list A) :
  NoDup l → NoDup (List.filter f l).
Proof. rewrite !NoDup_ListNoDup. apply List.NoDup_filter. Qed.

Lemma elem_of_List_filter {A} (f : A → bool) (l : list A) x :
  x ∈ List.filter f l ↔ x ∈ l ∧ f x = true.
Proof. by rewrite !list_elem_of_In, filter_In. Qed.

Lemma NoDup_length_le (l k : list Z) :
  NoDup l → (∀ x, x ∈ l → x ∈ k) → (length l ≤ length k)%nat.
Proof. intros Hl Hsub. by apply submseteq_length, NoDup_submseteq. Qed.

Section OrderProperties.

Import DependencyResolver.

Variable set_iter : list Z → list Z.
Hypothesis set_iter_perm : ∀ s, set_iter s ≡ₚ s.

Variable num_tasks : Z.

Lemma add_dependency_ok graph in_degree dep :
  order_dicts_ok num_tasks graph in_degree →
  0 <= TaskDependency.dependent_task_index dep < num_tasks →
  0 <= TaskDependency.prerequisite_task_index dep < num_tasks →
  ∃ graph' in_degree',
    add_dependency (Ok (graph, in_degree)) dep = Ok (graph', in_degree')
    ∧ order_dicts_ok num_tasks graph' in_degree'.
Proof.
  intros (Hg & Hd & Hs & Hk) Hdep Hpre. unfold add_dependency.
  destruct (proj2 (Hg _) Hpre) as [s Hgs]. rewrite Hgs.
  destruct (proj2 (Hd _) Hdep) as [k Hdk]. rewrite Hdk.
  eexists _, _. split; [reflexivity|].
  split; [|split; [|split]].
  - by apply keys_insert_present.
  - by apply keys_insert_present.
  - intros p s' d Hp Hin.
    apply lookup_insert_Some in Hp as [[<- <-]|[_ Hp]]; [|by eapply Hs].
    apply elem_of_set_add in Hin as [->|Hin]; [done|by eapply Hs].
  - intros i k' Hi.
    apply lookup_insert_Some in Hi as [[<- <-]|[_ Hi]]; [|by eapply Hk].
    apply Hk in Hdk. lia.
Qed.

Lemma init_dicts_ok :
  order_dicts_ok num_tasks
    (list_to_map ((fun i => (i, [])) <$> seqZ 0 num_tasks))
    (list_to_map ((fun i => (i, 0)) <$> seqZ 0 num_tasks)).
Proof.
  split; [|split; [|split]].
  - intros i. rewrite lookup_init_dict. case_decide; [by eauto|].
    split; [by intros [? ?]|done].
  - intros i. rewrite lookup_init_dict. case_decide; [by eauto|].
    split; [by intros [? ?]|done].
  - intros p s d. rewrite lookup_init_dict. case_decide; [|done].
    intros [= <-] Hin. by apply elem_of_nil in Hin.
  - intros i k. rewrite lookup_init_dict. case_decide; [|done].
    intros [= <-]. lia.
Qed.

Lemma build_order_graph_ok dependencies :
  in_range num_tasks dependencies →
  ∃ graph in_degree,
    build_order_graph num_tasks dependencies = Ok (graph, in_degree)
    ∧ order_dicts_ok num_tasks graph in_degree.
Proof.
  unfold build_order_graph. generalize init_dicts_ok.
  generalize (list_to_map ((fun i => (i, [])) <$> seqZ 0 num_tasks)
              : gmap Z (list Z)).
  generalize (list_to_map ((fun i => (i, 0)) <$> seqZ 0 num_tasks)
              : gmap Z Z).
  induction dependencies as [|dep deps IH]; intros in_degree graph Hok Hr.
  - by exists graph, in_degree.
  - inversion Hr as [|? ? [Hdep Hpre] Hdeps]; subst. cbn [fold_left].
    destruct (add_dependency_ok _ _ dep Hok Hdep Hpre)
      as (graph' & in_degree' & -> & Hok').
    by apply IH.
Qed.

Lemma relax_ok result_ todo :
  ∀ in_degree queue,
    (∀ x, x ∈ todo → 0 <= x < num_tasks) →
    kahn_inv num_tasks in_degree queue result_ →
    ∃ in_degree' queue',
      relax todo in_degree queue = Ok (in_degree', queue')
      ∧ kahn_inv num_tasks in_degree' queue' result_.
Proof.
  induction todo as [|x todo IH]; intros in_degree queue Htodo Hinv.
  - by exists in_degree, queue.
  - destruct Hinv as (Hnd & Hrange & Hdom & Hdeg).
    assert (Hx : 0 <= x < num_tasks) by (apply Htodo; left).
    destruct (proj2 (Hdom x) Hx) as [k Hk].
    cbn [relax]. rewrite Hk.
    apply IH; [intros y Hy; apply Htodo; by right|].
    pose proof (Hdeg x k Hk) as Hxk.
    destruct (k - 1 =? 0) eqn:Hz.
    + apply Z.eqb_eq in Hz.
      destruct (decide (x ∈ result_ ++ queue)) as [|Hnotin]; [lia|].
      split; [|split; [|split]].
      * rewrite app_assoc. apply NoDup_app. split; [done|].
        split; [|apply NoDup_singleton].
        intros y Hy ->%list_elem_of_singleton. done.
      * intros y. rewrite app_assoc, elem_of_app, list_elem_of_singleton.
        intros [Hy| ->]; [by apply Hrange|done].
      * by apply keys_insert_present.
      * intros i k' Hi.
        apply lookup_insert_Some in Hi as [[<- <-]|[Hne Hi]].
        -- rewrite decide_True; [lia|].
           rewrite app_assoc, elem_of_app, list_elem_of_singleton. by right.
        -- specialize (Hdeg i k' Hi).
           destruct (decide (i ∈ result_ ++ queue)) as [Hin|Hout].
           ++ rewrite decide_True; [done|].
              rewrite app_assoc, elem_of_app. by left.
           ++ rewrite decide_False; [done|].
              rewrite app_assoc, elem_of_app, list_elem_of_singleton.
              intros [?| ->]; done.
    + apply Z.eqb_neq in Hz.
      split; [done|]. split; [done|]. split; [by apply keys_insert_present|].
      intros i k' Hi.
      apply lookup_insert_Some in Hi as [[<- <-]|[Hne Hi]]; [|by apply Hdeg].
      destruct (decide (x ∈ result_ ++ queue)); lia.
Qed.

Lemma kahn_ok graph fuel :
  ∀ in_degree queue result_,
    (∀ i, is_Some (graph !! i) ↔ 0 <= i < num_tasks) →
    (∀ p s d, graph !! p = Some s → d ∈ s → 0 <= d < num_tasks) →
    kahn_inv num_tasks in_degree queue result_ →
    (Z.to_nat num_tasks ≤ fuel + length result_)%nat →
    ∃ order,
      kahn set_iter fuel graph in_degree queue result_ = Some (Ok order)
      ∧ NoDup order ∧ (∀ x, x ∈ order → 0 <= x < num_tasks).
Proof.
  induction fuel as [|fuel IH];
    intros in_degree queue result_ Hg Hs Hinv Hfuel;
    (destruct queue as [|node queue];
     [ exists result_; destruct Hinv as (Hnd & Hrange & _);
       rewrite app_nil_r in Hnd; split; [reflexivity|]; split; [done|];
       intros x Hx; apply Hrange; by rewrite app_nil_r | ]).
  - exfalso. destruct Hinv as (Hnd & Hrange & _).
    assert (Hlen : (length (result_ ++ node :: queue)
                    ≤ length (seqZ 0 num_tasks))%nat).
    { apply NoDup_length_le; [done|].
      intros x Hx. apply elem_of_seqZ. apply Hrange in Hx. lia. }
    rewrite length_app, length_seqZ in Hlen. simpl in Hlen, Hfuel. lia.
  - cbn [kahn].
    assert (Hinv' : kahn_inv num_tasks in_degree queue (result_ ++ [node])).
    { destruct Hinv as (Hnd & Hrange & Hdom & Hdeg).
      unfold kahn_inv. rewrite <- app_assoc.
      split; [done|]. split; [done|]. split; done. }
    assert (Hnode : 0 <= node < num_tasks).
    { destruct Hinv as (_ & Hrange & _). apply Hrange.
      apply elem_of_app. right. left. }
    destruct (proj2 (Hg node) Hnode) as [s Hgs]. rewrite Hgs.
    destruct (relax_ok (result_ ++ [node]) (set_iter s) in_degree queue)
      as (in_degree' & queue' & -> & Hinv''); [|done|].
    { intros x Hx. rewrite set_iter_perm in Hx. by eapply Hs. }
    apply IH; [done|done|done|].
    rewrite length_app. simpl. lia.
Qed.

(** C10. For [num_tasks] at least 0 and dependencies whose indices lie in
    [0, num_tasks), cycles and repeated pairs included,
    [get_dependency_order] returns, whatever the iteration order of the
    sets, and its result is a permutation of the indices 0 .. num_tasks - 1:
    every index occurs in it exactly once. *)
Theorem get_dependency_order_is_permutation
    (dependencies : list TaskDependency.t) :
  0 <= num_tasks →
  in_range num_tasks dependencies →
  ∃ order,
    get_dependency_order set_iter num_tasks dependencies = Some (Ok order)
    ∧ order ≡ₚ seqZ 0 num_tasks
    ∧ NoDup order
    ∧ ∀ i, i ∈ order ↔ 0 <= i < num_tasks.
Proof.
  intros Hn Hr.
  assert (Hperm : ∃ order,
    get_dependency_order set_iter num_tasks dependencies = Some (Ok order)
    ∧ order ≡ₚ seqZ 0 num_tasks).
  { unfold get_dependency_order, order_with_fuel.
    destruct (build_order_graph_ok dependencies Hr)
      as (graph & in_degree & -> & Hg & Hd & Hs & Hk).
    set (queue := List.filter _ (seqZ 0 num_tasks)).
    assert (Hqueue : ∀ x, x ∈ queue ↔ in_degree !! x = Some 0).
    { intros x. unfold queue. rewrite elem_of_List_filter, elem_of_seqZ.
      split.
      - intros [_ Hx]. destruct (in_degree !! x) as [k|]; [|done].
        by apply Z.eqb_eq in Hx as ->.
      - intros Hx. rewrite Hx. split; [|done].
        assert (0 <= x < num_tasks) by (apply Hd; eauto). lia. }
    destruct (kahn_ok graph (Z.to_nat num_tasks) in_degree queue [])
      as (order & -> & Hnd & Hrange); [done|done| |simpl; lia|].
    { split; [|split; [|split]].
      - simpl. unfold queue. apply NoDup_List_filter, NoDup_seqZ.
      - intros x Hx. simpl in Hx. apply Hd. apply Hqueue in Hx. eauto.
      - done.
      - intros i k Hi. simpl. case_decide as Hin.
        + apply Hqueue in Hin. assert (k = 0) by congruence. lia.
        + assert (k ≠ 0) by (intros ->; by apply Hin, Hqueue).
          apply Hk in Hi. lia. }
    destruct (negb (Z.of_nat (length order) =? num_tasks)) eqn:Hlen.
    - eexists. split; [reflexivity|].
      apply NoDup_Permutation; [|apply NoDup_seqZ|].
      + apply NoDup_app. split; [done|]. split.
        * intros x Hx [_ Hb]%elem_of_List_filter.
          by apply negb_true_iff, bool_decide_eq_false in Hb.
        * apply NoDup_List_filter, NoDup_seqZ.
      + intros x.
        rewrite elem_of_app, elem_of_List_filter, elem_of_seqZ.
        rewrite negb_true_iff, bool_decide_eq_false.
        destruct (decide (x ∈ order)) as [Hin|Hout].
        * pose proof (Hrange _ Hin). split; [lia|by left].
        * split; [intros [?|[? ?]]; [done|lia]|]. intros ?. right.
          split; [lia|done].
    - exists order. split; [done|].
      apply negb_false_iff, Z.eqb_eq in Hlen.
      apply submseteq_length_Permutation.
      + apply NoDup_submseteq; [done|].
        intros x Hx. apply elem_of_seqZ. apply Hrange in Hx. lia.
      + rewrite length_seqZ. lia. }
  destruct Hperm as (order & Heq & Hperm).
  exists order. split; [done|]. split; [done|]. split.
  - rewrite Hperm. apply NoDup_seqZ.
  - intros i. rewrite Hperm, elem_of_seqZ. lia.
Qed.

End OrderProperties.

(** ** C5: detection of circular dependencies *)

Section GraphProperties.

Import DependencyResolver.

Lemma adj_get_cons a k s graph :
  adj_get a ((k, s) :: graph) = if k =? a then s else adj_get a graph.
Proof. unfold adj_get. simpl. by destruct (k =? a). Qed.

Lemma elem_adj_get_snoc a b d graph :
  b ∈ adj_get a (graph ++ [(d, [])]) ↔ b ∈ adj_get a graph.
Proof.
  induction graph as [|[k s] graph IH].
  - simpl. rewrite adj_get_cons. by destruct (d =? a).
  - simpl. rewrite !adj_get_cons. by destruct (k =? a).
Qed.

Lemma has_key_keys key graph :
  has_key key graph = true ↔ key ∈ List.map fst graph.
Proof.
  unfold has_key. rewrite existsb_exists, list_elem_of_In, in_map_iff.
  split.
  - intros ([k s] & Hin & Heq). apply Z.eqb_eq in Heq. by exists (k, s).
  - intros ([k s] & Heq & Hin). exists (k, s). split; [done|].
    by apply Z.eqb_eq.
Qed.

Lemma elem_adj_get_add a b key x graph :
  has_key key graph = true →
  b ∈ adj_get a (adj_add key x graph)
  ↔ b ∈ adj_get a graph ∨ (a = key ∧ b = x).
Proof.
  induction graph as [|[k s] graph IH]; [done|].
  unfold has_key. simpl. intros Hkey.
  destruct (k =? key) eqn:Hk.
  - apply Z.eqb_eq in Hk as ->. rewrite !adj_get_cons.
    destruct (key =? a) eqn:Ha.
    + apply Z.eqb_eq in Ha as ->. rewrite elem_of_set_add. naive_solver.
    + apply Z.eqb_neq in Ha. naive_solver.
  - simpl in Hkey. rewrite !adj_get_cons.
    destruct (k =? a) eqn:Ha.
    + apply Z.eqb_eq in Ha as ->. apply Z.eqb_neq in Hk. naive_solver.
    + by apply IH.
Qed.

Lemma keys_adj_add key x graph :
  List.map fst (adj_add key x graph) = List.map fst graph.
Proof.
  induction graph as [|[k s] graph IH]; [done|].
  simpl. destruct (k =? key); simpl; by rewrite ?IH.
Qed.

Lemma add_edge_adj a b graph dep :
  b ∈ adj_get a (add_edge graph dep)
  ↔ b ∈ adj_get a graph
    ∨ (a = TaskDependency.dependent_task_index dep
       ∧ b = TaskDependency.prerequisite_task_index dep).
Proof.
  unfold add_edge.
  set (d := TaskDependency.dependent_task_index dep).
  destruct (has_key d graph) eqn:Hkey.
  - by apply elem_adj_get_add.
  - rewrite elem_adj_get_add, elem_adj_get_snoc; [done|].
    apply has_key_keys. rewrite map_app, elem_of_app. right. simpl. left.
Qed.

Lemma add_edge_keys k graph dep :
  k ∈ List.map fst (add_edge graph dep)
  ↔ k ∈ List.map fst graph ∨ k = TaskDependency.dependent_task_index dep.
Proof.
  unfold add_edge.
  set (d := TaskDependency.dependent_task_index dep).
  rewrite keys_adj_add.
  destruct (has_key d graph) eqn:Hkey.
  - apply has_key_keys in Hkey. naive_solver.
  - rewrite map_app, elem_of_app. simpl. rewrite list_elem_of_singleton.
    done.
Qed.

Lemma fold_add_edge_adj a b dependencies :
  ∀ graph,
    b ∈ adj_get a (fold_left add_edge dependencies graph)
    ↔ b ∈ adj_get a graph ∨ edge dependencies a b.
Proof.
  induction dependencies as [|dep deps IH]; intros graph; simpl.
  - split; [auto|]. intros [?|(dep & Hin & _)]; [done|].
    by apply elem_of_nil in Hin.
  - rewrite IH, add_edge_adj. unfold edge. split.
    + intros [[?|[-> ->]]|(dep' & Hin & Hd)]; [by left| |].
      * right. exists dep. split; [left|done].
      * right. exists dep'. split; [by right|done].
    + intros [?|(dep' & Hin & <- & <-)]; [by left; left|].
      apply elem_of_cons in Hin as [->|Hin]; [by left; right|].
      right. by exists dep'.
Qed.

Lemma fold_add_edge_keys k dependencies :
  ∀ graph,
    k ∈ List.map fst (fold_left add_edge dependencies graph)
    ↔ k ∈ List.map fst graph
      ∨ ∃ dep, dep ∈ dependencies
               ∧ TaskDependency.dependent_task_index dep = k.
Proof.
  induction dependencies as [|dep deps IH]; intros graph; simpl.
  - split; [auto|]. intros [?|(dep & Hin & _)]; [done|].
    by apply elem_of_nil in Hin.
  - rewrite IH, add_edge_keys. split.
    + intros [[?| ->]|(dep' & Hin & Hd)]; [by left| |].
      * right. exists dep. split; [left|done].
      * right. exists dep'. split; [by right|done].
    + intros [?|(dep' & Hin & <-)]; [by left; left|].
      apply elem_of_cons in Hin as [->|Hin]; [by left; right|].
      right. by exists dep'.
Qed.

(** The sets of the adjacency dict hold the edges of the digraph. *)
Lemma build_graph_adj dependencies a b :
  b ∈ adj_get a (build_graph dependencies) ↔ edge dependencies a b.
Proof.
  unfold build_graph.
  rewrite fold_add_edge_adj. split; [|auto].
  intros [Hin|?]; [|done]. by apply elem_of_nil in Hin.
Qed.

(** Its keys are the tasks that depend on something. *)
Lemma build_graph_keys dependencies k :
  k ∈ List.map fst (build_graph dependencies)
  ↔ ∃ b, edge dependencies k b.
Proof.
  unfold build_graph.
  rewrite fold_add_edge_keys. split.
  - intros [Hin|(dep & Hin & <-)]; [by apply elem_of_nil in Hin|].
    exists (TaskDependency.prerequisite_task_index dep). by exists dep.
  - intros (b & dep & Hin & <- & _). right. by exists dep.
Qed.

End GraphProperties.

Section CycleProperties.

Import DependencyResolver.

Variable set_iter : list Z → list Z.
Hypothesis set_iter_perm : ∀ s, set_iter s ≡ₚ s.

Variable dependencies : list TaskDependency.t.

Let E := edge dependencies.
Let U := nodes_of dependencies.
Let graph := build_graph dependencies.

Lemma edge_nodes a b : E a b → a ∈ U ∧ b ∈ U.
Proof.
  intros (dep & Hin & <- & <-). unfold U, nodes_of.
  rewrite !elem_of_list_to_set, !list_elem_of_In, !in_flat_map.
  split; exists dep; (split; [by apply list_elem_of_In|simpl; tauto]).
Qed.

Lemma size_list_to_set_le (l : list Z) :
  (size (list_to_set l : gset Z) ≤ length l)%nat.
Proof.
  induction l as [|x l IH].
  - rewrite list_to_set_nil, size_empty. done.
  - rewrite list_to_set_cons, size_union_alt, size_singleton. simpl.
    assert (size (list_to_set l ∖ {[x]} : gset Z)
            ≤ size (list_to_set l : gset Z))%nat
      by (apply subseteq_size; set_solver).
    lia.
Qed.

Lemma size_nodes : (size U ≤ 2 * length dependencies)%nat.
Proof.
  unfold U, nodes_of. etrans; [apply size_list_to_set_le|].
  generalize dependencies. intros l.
  induction l as [|dep deps IH]; simpl; lia.
Qed.

(** A set that is closed under the edges is closed under paths. *)
Lemma closed_rtc (F : gset Z) u v :
  (∀ x y, x ∈ F → E x y → y ∈ F) → rtc E u v → u ∈ F → v ∈ F.
Proof. intros Hclosed. induction 1; eauto. Qed.

Lemma tc_first_step a b : tc E a b → ∃ v, E a v ∧ rtc E v b.
Proof.
  destruct 1 as [x y Hxy|x y z Hxy Hyz].
  - exists y. split; [done|]. apply rtc_refl.
  - exists y. split; [done|]. by apply tc_rtc.
Qed.

Lemma visit_spec fuel rec node path :
  dfs_ok dependencies U fuel rec → node ∈ U →
  ∀ todo st,
    node ∈ rec_stack st → dfs_wf U st →
    (size (U ∖ visited st) < fuel)%nat →
    (∀ x, x ∈ todo → x ∈ U) →
    ∃ b st',
      visit_neighbors rec node path todo st = Some (Ok (b, st'))
      ∧ dfs_wf U st'
      ∧ visited st ⊆ visited st'
      ∧ rec_stack st ∖ {[node]} ⊆ rec_stack st'
      ∧ (cycles st ≠ [] → cycles st' ≠ [])
      ∧ (b = true → cycles st' ≠ [])
      ∧ (dfs_inv dependencies st →
         (∀ a, a ∈ rec_stack st → rtc E a node) →
         (∀ x, x ∈ todo → E node x) →
         (∀ v, E node v → v ∈ todo ∨ v ∈ finished st) →
         if b then cyclic dependencies
         else dfs_inv dependencies st'
              ∧ rec_stack st' = rec_stack st ∖ {[node]}).
Proof.
  intros Hrec HnodeU.
  induction todo as [|x todo IH]; intros st Hnode [Hrv HvU] Hfuel HtodoU.
  - (* the loop is over: the node leaves the stack *)
    cbn [visit_neighbors]. rewrite decide_True by done.
    eexists false, _. split; [reflexivity|].
    cbn [visited rec_stack cycles].
    split; [split; set_solver|]. split; [done|]. split; [done|].
    split; [done|]. split; [done|].
    intros (Hc & Hclosed & Hacyc) Hanc _ Hnb.
    split; [|done].
    assert (Hfin : ∀ u, u ∈ finished (mkState (visited st)
                                        (rec_stack st ∖ {[node]}) (cycles st))
                        ↔ u = node ∨ u ∈ finished st).
    { intros u. unfold finished. cbn [visited rec_stack].
      destruct (decide (u = node)) as [->|]; set_solver. }
    split; [done|]. split.
    + intros u v Hu Huv. apply Hfin. right. apply Hfin in Hu as [->|Hu].
      * destruct (Hnb v Huv) as [Hv|Hv]; [by apply elem_of_nil in Hv|done].
      * by eapply Hclosed.
    + intros u Hu Hcyc. apply Hfin in Hu as [->|Hu]; [|by eapply Hacyc].
      destruct (tc_first_step _ _ Hcyc) as (v & Hv & Hback).
      destruct (Hnb v Hv) as [Hin|Hin]; [by apply elem_of_nil in Hin|].
      assert (node ∈ finished st) by by eapply closed_rtc.
      unfold finished in *. set_solver.
  - cbn [visit_neighbors].
    assert (HxU : x ∈ U) by (apply HtodoU; left).
    assert (HtodoU' : ∀ y, y ∈ todo → y ∈ U)
      by (intros y Hy; apply HtodoU; by right).
    destruct (decide (x ∉ visited st)) as [Hx|Hx].
    + (* an unvisited neighbour: the recursive call *)
      destruct (Hrec x (path ++ [x]) st Hx HxU (conj Hrv HvU) Hfuel)
        as (b & st1 & -> & Hpost & Hgood).
      destruct Hpost as ([Hrv1 HvU1] & Hvv1 & Hx1 & Hrr1 & Hcc1 & Hb1).
      destruct b.
      * eexists true, st1. split; [reflexivity|].
        split; [done|]. split; [done|]. split; [set_solver|].
        split; [done|]. split; [auto|].
        intros Hinv Hanc Hedges _. apply Hgood; [done|].
        intros a Ha. eapply rtc_r; [by apply Hanc|]. apply Hedges. left.
      * destruct (IH st1) as (b & st' & -> & Hwf' & Hvv' & Hrr' & Hcc' & Hb'
                              & Hgood'); [set_solver|done| |done|].
        { assert (size (U ∖ visited st1) ≤ size (U ∖ visited st))%nat
            by (apply subseteq_size; set_solver).
          lia. }
        exists b, st'. split; [reflexivity|]. split; [done|].
        split; [set_solver|]. split; [set_solver|]. split; [auto|].
        split; [done|].
        intros Hinv Hanc Hedges Hnb.
        destruct Hgood as [Hinv1 Hstack1]; [done| |].
        { intros a Ha. eapply rtc_r; [by apply Hanc|]. apply Hedges. left. }
        assert (Hfin1 : ∀ v, v ∈ finished st → v ∈ finished st1).
        { intros v. unfold finished. rewrite Hstack1. set_solver. }
        specialize (Hgood' Hinv1).
        rewrite Hstack1 in Hgood'. apply Hgood'; [done| |].
        -- intros y Hy. apply Hedges. by right.
        -- intros v Hv. destruct (Hnb v Hv) as [Hin|Hin]; [|by auto].
           apply elem_of_cons in Hin as [->|Hin]; [|by left].
           right. unfold finished. rewrite Hstack1. set_solver.
    + destruct (decide (x ∈ rec_stack st)) as [Hstack|Hstack].
      * (* a neighbour on the stack: the cycle is reported *)
        eexists true, _. split; [reflexivity|].
        cbn [visited rec_stack cycles].
        split; [done|]. split; [done|]. split; [set_solver|].
        assert (cycles st ++ [(node, x)] ≠ [])
          by (intros Heq; by apply app_eq_nil in Heq as [_ ?]).
        split; [done|]. split; [done|].
        intros _ Hanc Hedges _. exists x.
        eapply tc_rtc_l; [by apply Hanc|]. apply tc_once, Hedges. left.
      * (* a finished neighbour *)
        destruct (IH st) as (b & st' & -> & Hrest); [done|done|done|done|].
        exists b, st'. split; [reflexivity|].
        destruct Hrest as (Hwf' & Hvv' & Hrr' & Hcc' & Hb' & Hgood').
        split; [done|]. split; [done|]. split; [done|]. split; [done|].
        split; [done|].
        intros Hinv Hanc Hedges Hnb. apply Hgood'; [done|done| |].
        -- intros y Hy. apply Hedges. by right.
        -- intros v Hv. destruct (Hnb v Hv) as [Hin|Hin]; [|by auto].
           apply elem_of_cons in Hin as [->|Hin]; [|by left].
           right. unfold finished. apply dec_stable in Hx. set_solver.
Qed.

Lemma graph_adj a b : b ∈ set_iter (adj_get a graph) ↔ E a b.
Proof. rewrite set_iter_perm. apply build_graph_adj. Qed.

(** The nested [dfs] keeps its contract at every depth. *)
Lemma dfs_spec fuel : dfs_ok dependencies U fuel (dfs set_iter fuel graph).
Proof.
  induction fuel as [|fuel IH]; intros node path st Hnode HnodeU [Hrv HvU]
    Hfuel; [lia|].
  cbn [dfs].
  set (st1 := mkState ({[node]} ∪ visited st) ({[node]} ∪ rec_stack st)
                      (cycles st)).
  assert (Hfin1 : finished st1 = finished st).
  { unfold finished, st1. cbn [visited rec_stack]. set_solver. }
  destruct (visit_spec fuel (dfs set_iter fuel graph) node path IH HnodeU
              (set_iter (adj_get node graph)) st1)
    as (b & st' & -> & [Hrv' HvU'] & Hvv' & Hrr' & Hcc' & Hb' & Hgood').
  - unfold st1. cbn [rec_stack]. set_solver.
  - unfold st1. split; cbn [visited rec_stack]; set_solver.
  - assert (size (U ∖ visited st1) < size (U ∖ visited st))%nat; [|lia].
    apply subset_size. unfold st1. cbn [visited].
    split; [set_solver|]. intros Hsub.
    assert (Hin : node ∈ U ∖ visited st) by set_solver.
    apply Hsub in Hin. set_solver.
  - intros x Hx. apply graph_adj in Hx. by destruct (edge_nodes _ _ Hx).
  - exists b, st'. split; [reflexivity|].
    assert (Hv1 : visited st1 = {[node]} ∪ visited st) by done.
    assert (Hr1 : rec_stack st1 = {[node]} ∪ rec_stack st) by done.
    assert (Hc1 : cycles st1 = cycles st) by done.
    rewrite Hv1 in Hvv'. rewrite Hr1 in Hrr'. rewrite Hc1 in Hcc'.
    split; [|].
    { split; [done|]. split; [set_solver|]. split; [set_solver|].
      split; [set_solver|]. done. }
    intros Hinv Hanc.
    assert (Hinv1 : dfs_inv dependencies st1).
    { destruct Hinv as (Hc & Hclosed & Hacyc). unfold dfs_inv.
      rewrite Hfin1. by split. }
    specialize (Hgood' Hinv1). destruct b.
    + apply Hgood'.
      * rewrite Hr1. intros a [->%elem_of_singleton|Ha]%elem_of_union;
          [apply rtc_refl|by apply Hanc].
      * intros x Hx. by apply graph_adj.
      * intros v Hv. left. by apply graph_adj.
    + destruct Hgood' as [Hinv' Hstack'].
      * rewrite Hr1. intros a [->%elem_of_singleton|Ha]%elem_of_union;
          [apply rtc_refl|by apply Hanc].
      * intros x Hx. by apply graph_adj.
      * intros v Hv. left. by apply graph_adj.
      * split; [done|]. rewrite Hstack', Hr1. set_solver.
Qed.

(** The loop over the keys of the adjacency dict. *)
Lemma dfs_all_spec fuel nodes :
  (size U < fuel)%nat →
  ∀ st,
    dfs_wf U st → (∀ x, x ∈ nodes → x ∈ U) →
    ∃ st',
      dfs_all set_iter fuel graph nodes st = Some (Ok st')
      ∧ dfs_wf U st'
      ∧ visited st ⊆ visited st'
      ∧ (∀ x, x ∈ nodes → x ∈ visited st')
      ∧ (cycles st ≠ [] → cycles st' ≠ [])
      ∧ (dfs_inv dependencies st → rec_stack st = ∅ →
         (cycles st' ≠ [] → cyclic dependencies)
         ∧ (cycles st' = [] → dfs_inv dependencies st' ∧ rec_stack st' = ∅)).
Proof.
  intros Hfuel.
  induction nodes as [|node nodes IH]; intros st Hwf HnodesU.
  - exists st. split; [reflexivity|]. split; [done|]. split; [done|].
    split; [by intros x Hx%elem_of_nil|]. split; [done|].
    intros Hinv Hempty. split; [|done].
    intros Hc. by destruct Hinv as [Hnil _].
  - cbn [dfs_all].
    assert (HnodeU : node ∈ U) by (apply HnodesU; left).
    assert (HnodesU' : ∀ x, x ∈ nodes → x ∈ U)
      by (intros x Hx; apply HnodesU; by right).
    destruct (decide (node ∉ visited st)) as [Hnode|Hnode].
    + destruct (dfs_spec fuel node [node] st Hnode HnodeU Hwf)
        as (b & st1 & -> & Hpost & Hgood).
      { assert (size (U ∖ visited st) ≤ size U)%nat
          by (apply subseteq_size; set_solver).
        lia. }
      destruct Hpost as (Hwf1 & Hvv1 & Hn1 & Hrr1 & Hcc1 & Hb1).
      destruct (IH st1 Hwf1 HnodesU')
        as (st' & -> & Hwf' & Hvv' & Hall' & Hcc' & Hgood').
      exists st'. split; [reflexivity|]. split; [done|].
      split; [set_solver|]. split.
      { intros x [->|Hx]%elem_of_cons; [set_solver|by apply Hall']. }
      split; [auto|].
      intros Hinv Hempty.
      assert (Hanc : ∀ a, a ∈ rec_stack st → rtc E a node)
        by (intros a; rewrite Hempty; set_solver).
      specialize (Hgood Hinv Hanc). destruct b.
      * split; [done|]. intros Hnil. exfalso.
        exact (Hcc' (Hb1 eq_refl) Hnil).
      * destruct Hgood as [Hinv1 Hstack1]. apply Hgood'; [done|].
        by rewrite Hstack1.
    + apply dec_stable in Hnode.
      destruct (IH st Hwf HnodesU')
        as (st' & -> & Hwf' & Hvv' & Hall' & Hcc' & Hgood').
      exists st'. split; [reflexivity|]. split; [done|]. split; [done|].
      split; [|done].
      intros x [->|Hx]%elem_of_cons; [set_solver|by apply Hall'].
Qed.

(** The detection returns; it reports something exactly when the digraph
    has a cycle. *)
(** The search returns or raises; that it does not is not a case. *)
Lemma visit_neighbors_total rec node path :
  (∀ n p st, is_Some (rec n p st)) →
  ∀ todo st, is_Some (visit_neighbors rec node path todo st).
Proof.
  intros Hrec. induction todo as [|x todo IH]; intros st;
    cbn [visit_neighbors].
  - by destruct (decide (node ∈ rec_stack st)).
  - destruct (decide (x ∉ visited st)).
    + destruct (Hrec x (path ++ [x]) st) as [[[[] st1]|e] ->]; [done|..];
        [apply IH|done].
    + destruct (decide (x ∈ rec_stack st)); [done|apply IH].
Qed.

Lemma dfs_total frames : ∀ n p st, is_Some (dfs set_iter frames graph n p st).
Proof.
  induction frames as [|frames IH]; intros n p st; [done|].
  cbn [dfs]. by apply visit_neighbors_total.
Qed.

Lemma dfs_all_total frames nodes :
  ∀ st, is_Some (dfs_all set_iter frames graph nodes st).
Proof.
  induction nodes as [|node nodes IH]; intros st; cbn [dfs_all]; [done|].
  destruct (decide (node ∉ visited st)); [|apply IH].
  destruct (dfs_total frames node [node] st) as [[[b st1]|e] ->];
    [apply IH|done].
Qed.

Lemma detect_total recursion_limit :
  is_Some (detect_circular_dependencies set_iter recursion_limit
             dependencies).
Proof.
  unfold detect_circular_dependencies. fold graph.
  destruct (dfs_all_total recursion_limit (List.map fst graph)
              (mkState ∅ ∅ [])) as [[st|e] ->]; done.
Qed.

Lemma detect_spec recursion_limit :
  (size U < recursion_limit)%nat →
  ∃ found,
    detect_circular_dependencies set_iter recursion_limit dependencies
    = Some (Ok found)
    ∧ (cyclic dependencies → found ≠ [])
    ∧ (¬ cyclic dependencies → found = []).
Proof.
  intros Hlimit.
  unfold detect_circular_dependencies. fold graph.
  destruct (dfs_all_spec recursion_limit (List.map fst graph))
    with (st := mkState ∅ ∅ [])
    as (st' & -> & Hwf' & _ & Hall & _ & Hgood).
  - exact Hlimit.
  - split; cbn [visited rec_stack]; set_solver.
  - intros x [b Hb]%build_graph_keys. by destruct (edge_nodes _ _ Hb).
  - exists (cycles st'). split; [reflexivity|].
    destruct Hgood as [Hsound Hcomplete]; [|done|].
    { split; [done|]. unfold finished. cbn [visited rec_stack].
      split; set_solver. }
    split.
    + intros [a Ha] Hnil. destruct (Hcomplete Hnil) as [Hinv Hstack].
      destruct Hinv as (_ & _ & Hacyc). apply (Hacyc a); [|done].
      unfold finished. rewrite Hstack.
      assert (a ∈ visited st'); [|set_solver].
      apply Hall, build_graph_keys.
      destruct (tc_first_step _ _ Ha) as (v & Hv & _). by exists v.
    + intros Hacyc. destruct (cycles st') as [|c cs] eqn:Hc; [done|].
      destruct Hacyc. by apply Hsound.
Qed.

(** A search that returns with some room for nested calls returns the same
    with more room. *)
Lemma visit_neighbors_mono
    (rec rec' : Z → list Z → dfs_state → option (result (bool * dfs_state)))
    node path :
  (∀ n p st r, rec n p st = Some (Ok r) → rec' n p st = Some (Ok r)) →
  ∀ todo st r,
    visit_neighbors rec node path todo st = Some (Ok r) →
    visit_neighbors rec' node path todo st = Some (Ok r).
Proof.
  intros Hrec. induction todo as [|x todo IH]; intros st r;
    cbn [visit_neighbors]; [done|].
  destruct (decide (x ∉ visited st)).
  - destruct (rec x (path ++ [x]) st) as [[[[] st1]|e]|] eqn:Hcall;
      try discriminate; rewrite (Hrec _ _ _ _ Hcall); [done|apply IH].
  - destruct (decide (x ∈ rec_stack st)); [done|apply IH].
Qed.

Lemma dfs_mono frames : ∀ frames' n p st r,
  (frames ≤ frames')%nat →
  dfs set_iter frames graph n p st = Some (Ok r) →
  dfs set_iter frames' graph n p st = Some (Ok r).
Proof.
  induction frames as [|frames IH]; intros frames' n p st r Hle;
    [discriminate|].
  destruct frames' as [|frames']; [lia|]. cbn [dfs].
  apply visit_neighbors_mono. intros n' p' st' r'. apply IH. lia.
Qed.

Lemma dfs_all_mono frames frames' nodes :
  (frames ≤ frames')%nat →
  ∀ st st',
    dfs_all set_iter frames graph nodes st = Some (Ok st') →
    dfs_all set_iter frames' graph nodes st = Some (Ok st').
Proof.
  intros Hle. induction nodes as [|node nodes IH]; intros st st';
    cbn [dfs_all]; [done|].
  destruct (decide (node ∉ visited st)); [|apply IH].
  destruct (dfs set_iter frames graph node [node] st)
    as [[[b st1]|e]|] eqn:Hcall; try discriminate.
  rewrite (dfs_mono _ _ _ _ _ _ Hle Hcall). apply IH.
Qed.

(** What the detection returns within any recursion limit is what it
    returns without one; it raises only when the limit is not above the
    number of tasks that occur in the dependencies. *)
Lemma detect_cases recursion_limit :
  match detect_circular_dependencies set_iter recursion_limit dependencies
  with
  | Some (Ok found) =>
      (cyclic dependencies → found ≠ [])
      ∧ (¬ cyclic dependencies → found = [])
  | Some (Raise e) => (recursion_limit ≤ size U)%nat
  | None => False
  end.
Proof.
  destruct (detect_circular_dependencies set_iter recursion_limit
              dependencies) as [[found|e]|] eqn:Hdetect.
  - destruct (detect_spec (S (recursion_limit + size U)))
      as (found' & Hdetect' & Hfound'); [lia|].
    assert (found' = found); [|by subst].
    revert Hdetect Hdetect'. unfold detect_circular_dependencies.
    fold graph.
    destruct (dfs_all set_iter recursion_limit graph _ _)
      as [[st|e]|] eqn:Hall; try discriminate.
    rewrite (dfs_all_mono recursion_limit (S (recursion_limit + size U))
               _ ltac:(lia) _ _ Hall).
    congruence.
  - destruct (decide (size U < recursion_limit)%nat) as [Hfits|]; [|lia].
    destruct (detect_spec recursion_limit Hfits) as (found & Hfound & _).
    congruence.
  - by destruct (detect_total recursion_limit) as [r Hr];
      rewrite Hr in Hdetect.
Qed.

(** X23. Within the recursion limit, [detect_circular_dependencies] flags
    exactly the cyclic inputs, whatever the iteration order of the sets.
    Whenever it returns, its list is non-empty if the
    dependent-to-prerequisite digraph has a cycle and empty if the digraph
    is acyclic; and it returns when the tasks that occur in the
    dependencies are fewer than the nested calls that the interpreter
    allows: it raises only beyond that. *)
Theorem detect_circular_dependencies_flags_cycles (recursion_limit : nat) :
  match detect_circular_dependencies set_iter recursion_limit dependencies
  with
  | Some (Ok found) =>
      (cyclic dependencies → found ≠ [])
      ∧ (¬ cyclic dependencies → found = [])
  | Some (Raise e) =>
      (recursion_limit ≤ size (nodes_of dependencies))%nat
  | None => False
  end.
Proof. apply detect_cases. Qed.

End CycleProperties.

(** ** Examples of the graph algorithms *)

Lemma get_dependency_order_is_permutation_witness :
  (∀ s : list Z, s ≡ₚ s) ∧ 0 <= 3 ∧ in_range 3 cycle_dependencies
  ∧ ∃ order,
      DependencyResolver.get_dependency_order (fun s => s) 3
        cycle_dependencies = Some (Ok order)
      ∧ order ≡ₚ seqZ 0 3 ∧ NoDup order ∧ ∀ i, i ∈ order ↔ 0 <= i < 3.
Proof.
  assert (Hperm : ∀ s : list Z, s ≡ₚ s) by done.
  assert (Hrange : in_range 3 cycle_dependencies)
    by (repeat constructor; simpl; lia).
  split; [exact Hperm|]. split; [lia|]. split; [exact Hrange|].
  apply (get_dependency_order_is_permutation (fun s => s) Hperm 3
           cycle_dependencies); [lia|exact Hrange].
Defined.

Lemma detect_circular_dependencies_flags_cycles_witness :
  (∀ s : list Z, s ≡ₚ s)
  ∧ match DependencyResolver.detect_circular_dependencies (fun s => s) 900
            cycle_dependencies with
    | Some (Ok found) =>
        (cyclic cycle_dependencies → found ≠ [])
        ∧ (¬ cyclic cycle_dependencies → found = [])
    | Some (Raise e) => (900 ≤ size (nodes_of cycle_dependencies))%nat
    | None => False
    end.
Proof.
  assert (Hperm : ∀ s : list Z, s ≡ₚ s) by done.
  split; [exact Hperm|].
  exact (detect_circular_dependencies_flags_cycles (fun s => s) Hperm
           cycle_dependencies 900).
Defined.

(** The code on the two lists: the cycle is reported once, as the back edge
    from task 2 to task 0, and the chain is not flagged. *)
Example detect_cycle_and_chain :
  DependencyResolver.detect_circular_dependencies (fun s => s) 900
    cycle_dependencies = Some (Ok [(2, 0)])
  ∧ DependencyResolver.detect_circular_dependencies (fun s => s) 900
      chain_dependencies = Some (Ok []).
Proof. split; vm_compute; reflexivity. Qed.

(** The edges of [deep_chain] lead upwards. *)
Lemma deep_chain_edge n a b :
  edge (deep_chain n) a b ↔ 0 <= a < Z.of_nat n ∧ b = a + 1.
Proof.
  unfold edge, deep_chain. split.
  - intros (dep & Hin & <- & <-).
    apply list_elem_of_fmap in Hin as (i & -> & Hi).
    apply list_elem_of_In, in_seq in Hi. cbn. lia.
  - intros [Ha ->].
    exists (TaskDependency.mk a (a + 1) "the next task").
    split; [|split; reflexivity].
    apply list_elem_of_fmap. exists (Z.to_nat a). split.
    + f_equal; lia.
    + apply list_elem_of_In, in_seq. lia.
Qed.

Lemma deep_chain_acyclic n : ¬ cyclic (deep_chain n).
Proof.
  intros [a Ha].
  assert (Hup : ∀ x y, tc (edge (deep_chain n)) x y → x < y).
  { induction 1 as [x y Hxy|x y z Hxy _ IH];
      apply deep_chain_edge in Hxy; lia. }
  apply Hup in Ha. lia.
Qed.

Lemma deep_chain_in_range n : in_range (Z.of_nat n + 1) (deep_chain n).
Proof.
  apply Forall_forall. intros dep Hin.
  assert (He : edge (deep_chain n)
                 (TaskDependency.dependent_task_index dep)
                 (TaskDependency.prerequisite_task_index dep))
    by (by exists dep).
  apply deep_chain_edge in He. lia.
Qed.

(** C5 fails on the code, in two ways. A search that has found a cycle
    returns without taking its nodes off [rec_stack]. Tasks 0 and 1 depend
    on each other and task 2 depends on task 0: the search from task 0
    reports (1, 0) and leaves 0 and 1 on the stack, so the search from task
    2 reports (2, 0) as well, although task 0 is no ancestor of task 2 (no
    chain of dependencies leads from 0 to 2) and the pair lies on no cycle.
    And [dfs] calls itself once per task of a chain: on the acyclic chain
    in which each of 900 tasks depends on the next, with room for 900 nested
    calls, the answer is [RecursionError] and not the empty list. Every set
    of the two graphs has one element, so the iteration order plays no
    part. *)
Theorem stale_stack_reports_a_pair_off_the_cycles :
  in_range 3 stale_stack_dependencies
  ∧ cyclic stale_stack_dependencies
  ∧ DependencyResolver.detect_circular_dependencies (fun s => s) 900
      stale_stack_dependencies = Some (Ok [(1, 0); (2, 0)])
  ∧ ¬ rtc (edge stale_stack_dependencies) 0 2
  ∧ in_range 901 (deep_chain 900)
  ∧ ¬ cyclic (deep_chain 900)
  ∧ DependencyResolver.detect_circular_dependencies (fun s => s) 900
      (deep_chain 900) = Some (Raise RecursionError).
Proof.
  split; [repeat constructor; simpl; lia|].
  split; [|split; [|split; [|split; [|split]]]].
  - exists 0. eapply tc_l; [|apply tc_once].
    + by exists (TaskDependency.mk 0 1 "task b"); repeat split;
        apply list_elem_of_In; simpl; tauto.
    + by exists (TaskDependency.mk 1 0 "task a"); repeat split;
        apply list_elem_of_In; simpl; tauto.
  - vm_compute. reflexivity.
  - assert (Hclosed : ∀ x y, rtc (edge stale_stack_dependencies) x y →
                             x = 0 ∨ x = 1 → y = 0 ∨ y = 1).
    { induction 1 as [|x y z Hxy _ IH]; [done|]. intros Hx. apply IH.
      destruct Hxy as (dep & Hin & <- & <-).
      repeat (apply elem_of_cons in Hin as [->|Hin];
              [simpl in *; lia|]).
      by apply elem_of_nil in Hin. }
    intros Hreach. apply Hclosed in Hreach; lia.
  - exact (deep_chain_in_range 900).
  - apply deep_chain_acyclic.
  - vm_compute. reflexivity.
Qed.

(** C4 fails on the code: the digraph of [repeated_dependencies] is acyclic
    (0 depends on 1, 1 depends on 2), but the repeated record counts twice in
    [in_degree] and once in the set, so task 1 never reaches count 0; tasks 0
    and 1 are appended in index order, and prerequisite 1 comes after its
    dependent 0. Every set of the graph has one element, so the iteration
    order plays no part. *)
Theorem repeated_dependency_breaks_the_order :
  in_range 3 repeated_dependencies
  ∧ ¬ cyclic repeated_dependencies
  ∧ DependencyResolver.get_dependency_order (fun s => s) 3
      repeated_dependencies = Some (Ok [2; 0; 1])
  ∧ ¬ prerequisites_first repeated_dependencies [2; 0; 1].
Proof.
  split; [repeat constructor; simpl; lia|]. split; [|split].
  - intros [a Ha].
    assert (Hdown : ∀ x y, tc (edge repeated_dependencies) x y → x < y).
    { induction 1 as [x y Hxy|x y z Hxy _ IH].
      - destruct Hxy as (dep & Hin & <- & <-).
        repeat (apply elem_of_cons in Hin as [->|Hin]; [simpl; lia|]).
        by apply elem_of_nil in Hin.
      - destruct Hxy as (dep & Hin & <- & <-).
        repeat (apply elem_of_cons in Hin as [->|Hin]; [simpl in *; lia|]).
        by apply elem_of_nil in Hin. }
    apply Hdown in Ha. lia.
  - vm_compute. reflexivity.
  - intros Hfirst.
    destruct (Hfirst (TaskDependency.mk 0 1 "login bug fix"))
      as (i & j & Hi & Hj & Hlt).
    + right. right. left.
    + simpl in Hi, Hj. injection Hi as <-. injection Hj as <-. lia.
Qed.

(** ** C1: which prerequisite the pipeline exposes *)

Section PipelineProperties.

Import MeetingTaskPipeline.

Variable today : Datetime.date.
Variable set_order : list string → list string.
Variable set_iter : list Z → list Z.
Variable recursion_limit : nat.
Variable extract_tasks : list string → string → list ExtractedTask.t.

(** The outputs of the first loop have no dependency yet. *)
Lemma task_outputs_from_spec team_store ref_date tasks :
  ∀ i outs,
    task_outputs_from today set_order team_store ref_date i tasks = Ok outs →
    length outs = length tasks
    ∧ Forall (fun o => TaskOutput.dependencies o = None) outs.
Proof.
  induction tasks as [|task rest IH]; intros i outs; cbn [task_outputs_from].
  - intros [= <-]. by split.
  - destruct (task_output today set_order team_store ref_date i task)
      as [o|e] eqn:Ho; [|done].
    cbn [bind].
    destruct (task_outputs_from today set_order team_store ref_date (i + 1)
                rest) as [os|e] eqn:Hos; [|done].
    cbn [bind]. intros [= <-].
    destruct (IH _ _ Hos) as [Hlen Hnone].
    split; [simpl; by rewrite Hlen|].
    constructor; [|done].
    revert Ho. unfold task_output.
    destruct (match ExtractedTask.deadline_phrase task with
              | Some raw => _
              | None => _
              end) as [d|e]; [|done].
    cbn [bind]. by intros [= <-].
Qed.

(** C1, as the code has it. When [process_transcript] returns a result with
    tasks, the [dependencies] field of the task at position [i] is the text
    for the prerequisite of the last edge that [resolve] emitted for task
    [i], and [None] when it emitted none: a later edge overwrites an earlier
    one, and no other edge is surfaced. The call itself returns or raises;
    it does not run out of steps. *)
Theorem pipeline_exposes_last_prerequisite
    (transcript : string) (team_members : list TeamMember.t)
    (reference_date : option Datetime.date) :
  let extracted := extracted_from extract_tasks transcript team_members in
  match process_transcript today set_order set_iter recursion_limit
          extract_tasks transcript team_members reference_date with
  | None => False
  | Some (Raise e) => True
  | Some (Ok r) =>
      length (PipelineResult.tasks r) = length extracted
      ∧ ∀ i o,
          PipelineResult.tasks r !! i = Some o →
          TaskOutput.dependencies o
          = depends_on_text
              <$> last (edges_to (Z.of_nat i)
                                 (DependencyResolver.resolve extracted))
  end.
Proof.
  intros extracted. unfold process_transcript. fold extracted.
  destruct extracted as [|task tasks] eqn:Hext.
  - cbn [PipelineResult.tasks]. split; [done|].
    intros i o Hi. by rewrite lookup_nil in Hi.
  - rewrite <- Hext. clear Hext task tasks.
    destruct (task_outputs_from _ _ _ _ 0 extracted) as [outs|e] eqn:Houts;
      [|done].
    destruct (task_outputs_from_spec _ _ _ _ _ Houts) as [Hlen Hnone].
    destruct (link_dependencies_spec
                (DependencyResolver.resolve extracted) outs)
      as (outs' & -> & Hlen' & Hget).
    { apply Forall_forall. intros dep Hin.
      apply resolve_range in Hin. lia. }
    destruct (detect_total set_iter (DependencyResolver.resolve extracted)
                recursion_limit) as [[found|e] ->]; [|done].
    cbn [PipelineResult.tasks]. split; [congruence|].
    intros i o Hi.
    assert (Hsome : is_Some (outs !! i)).
    { apply lookup_lt_is_Some. rewrite <- Hlen'.
      by apply lookup_lt_Some in Hi. }
    destruct Hsome as [o0 Ho0].
    rewrite (Hget i o0 Ho0) in Hi. injection Hi as <-.
    assert (Hd0 : TaskOutput.dependencies o0 = None).
    { rewrite Forall_forall in Hnone. apply Hnone.
      by eapply list_elem_of_lookup_2. }
    unfold linked.
    destruct (last (edges_to (Z.of_nat i) _)) as [dep|]; simpl; done.
Qed.

End PipelineProperties.

Lemma pipeline_exposes_last_prerequisite_witness :
  match release_run with
  | None => False
  | Some (Raise e) => True
  | Some (Ok r) =>
      length (PipelineResult.tasks r) = length release_tasks
      ∧ ∀ i o,
          PipelineResult.tasks r !! i = Some o →
          TaskOutput.dependencies o
          = MeetingTaskPipeline.depends_on_text
              <$> last (edges_to (Z.of_nat i)
                          (DependencyResolver.resolve release_tasks))
  end.
Proof.
  exact (pipeline_exposes_last_prerequisite
           738886 (fun s => s) (fun s => s) 900 (fun _ _ => release_tasks)
           _ [] None).
Defined.

(** C1 fails as stated: [resolve] emits for the first task the edges to
    task 2 (twice) and then to task 3; the first prerequisite found is task
    2, and the pipeline exposes task 3. *)
Lemma pipeline_exposes_last_not_first_prerequisite :
  DependencyResolver.resolve release_tasks
  = [TaskDependency.mk 0 1 "login bug fix";
     TaskDependency.mk 0 1 "the login bug fix";
     TaskDependency.mk 0 2 "the database work"]
  ∧ MeetingTaskPipeline.depends_on_text
      <$> head (edges_to 0 (DependencyResolver.resolve release_tasks))
    = Some "Depends on Task #2"%string
  ∧ dependency_fields release_run
    = [Some "Depends on Task #3"%string; None; None].
Proof. repeat split; vm_compute; reflexivity. Qed.

(** ** C6: the relative deadline phrases *)

Section CalendarProperties.

Import Datetime.

Lemma month_day_ok_all :
  forallb (fun n => month_day_ok true n && month_day_ok false n)
          (seqZ 0 365) = true.
Proof. vm_compute. reflexivity. Qed.

Lemma month_day_spec leapyear n :
  0 <= n <= 364 → month_day_ok leapyear n = true.
Proof.
  intros Hn. pose proof month_day_ok_all as Hall.
  rewrite forallb_forall in Hall.
  assert (Hin : In n (seqZ 0 365))
    by (apply list_elem_of_In, elem_of_seqZ; lia).
  apply Hall, andb_true_iff in Hin as [Ht Hf]. by destruct leapyear.
Qed.

(** The year arithmetic of [_ord2ymd], on the counts of whole 400-, 100-,
    4- and 1-year cycles. *)
Lemma year_of_cycles n400 n100 n4 n1 :
  0 <= n400 → 0 <= n100 <= 3 → 0 <= n4 <= 24 → 0 <= n1 <= 3 →
  let year := n400 * 400 + 1 + (n100 * 100 + n4 * 4 + n1) in
  _days_before_year year
  = 146097 * n400 + 36524 * n100 + 1461 * n4 + 365 * n1
  ∧ _is_leap year = (n1 =? 3) && (negb (n4 =? 24) || (n100 =? 3)).
Proof.
  intros H400 H100 H4 H1 year. subst year. split.
  - unfold _days_before_year. cbv zeta. Z.div_mod_to_equations. lia.
  - unfold _is_leap.
    destruct (Z.eqb_spec n1 3), (Z.eqb_spec n4 24), (Z.eqb_spec n100 3);
      simpl;
      repeat match goal with
             | |- context [?a mod ?b =? 0] => destruct (Z.eqb_spec (a mod b) 0)
             end; simpl; try reflexivity; exfalso;
      Z.div_mod_to_equations; lia.
Qed.

(** [_ord2ymd] returns the fields of a date, and [_ymd2ord] leads back from
    them: the ordinal and the calendar view of a date agree. *)
Lemma ord2ymd_spec n :
  is_date n →
  1 <= year n <= MAXYEAR
  ∧ 1 <= month n <= 12
  ∧ 1 <= day n <= _days_in_month (year n) (month n)
  ∧ _ymd2ord (year n) (month n) (day n) = n.
Proof.
  intros [Hlo Hhi]. unfold MAXORDINAL in Hhi.
  unfold year, month, day, _ord2ymd, MAXYEAR. cbv zeta.
  unfold _DI400Y, _DI100Y, _DI4Y.
  set (a := n - 1).
  set (n400 := a / 146097). set (r1 := a mod 146097).
  set (n100 := r1 / 36524). set (r2 := r1 mod 36524).
  set (n4 := r2 / 1461). set (r3 := r2 mod 1461).
  set (n1 := r3 / 365). set (r4 := r3 mod 365).
  assert (Ha : a = 146097 * n400 + r1 ∧ 0 <= r1 < 146097)
    by (split; [apply Z.div_mod|apply Z.mod_pos_bound]; lia).
  assert (H1 : r1 = 36524 * n100 + r2 ∧ 0 <= r2 < 36524)
    by (split; [apply Z.div_mod|apply Z.mod_pos_bound]; lia).
  assert (H2 : r2 = 1461 * n4 + r3 ∧ 0 <= r3 < 1461)
    by (split; [apply Z.div_mod|apply Z.mod_pos_bound]; lia).
  assert (H3 : r3 = 365 * n1 + r4 ∧ 0 <= r4 < 365)
    by (split; [apply Z.div_mod|apply Z.mod_pos_bound]; lia).
  clearbody n400 r1 n100 r2 n4 r3 n1 r4.
  assert (Hn : n = a + 1) by (unfold a; lia). clearbody a.
  destruct ((n1 =? 4) || (n100 =? 4)) eqn:Hend.
  - (* the last day of a leap year that closes a 4- or 400-year cycle *)
    cbn [fst snd].
    assert (Hyear : ∃ c100 c4,
               0 <= c100 <= 3 ∧ 0 <= c4 <= 24
               ∧ ((c4 =? 24) = false ∨ (c100 =? 3) = true)
               ∧ n400 * 400 + 1 + (n100 * 100 + n4 * 4 + n1) - 1
                 = n400 * 400 + 1 + (c100 * 100 + c4 * 4 + 3)
               ∧ n = 146097 * n400 + 36524 * c100 + 1461 * c4 + 365 * 3
                     + 366).
    { apply orb_true_iff in Hend as [H|H]; apply Z.eqb_eq in H.
      - destruct (Z.eqb_spec n100 4) as [->|].
        + exists 3, 24. split; [lia|]. split; [lia|]. split; [by right|]. lia.
        + exists n100, n4. split; [lia|]. split; [lia|].
          split; [left; apply Z.eqb_neq; lia|]. lia.
      - exists 3, 24. split; [lia|]. split; [lia|]. split; [by right|]. lia. }
    destruct Hyear as (c100 & c4 & Hc100 & Hc4 & Hleap & -> & Hord).
    destruct (year_of_cycles n400 c100 c4 3) as [Hdby Hisleap];
      [lia|lia|lia|lia|].
    cbv zeta in Hdby, Hisleap.
    assert (Hl : _is_leap (n400 * 400 + 1 + (c100 * 100 + c4 * 4 + 3)) = true).
    { rewrite Hisleap. destruct Hleap as [->| ->]; simpl; [done|].
      by rewrite orb_true_r. }
    unfold _days_in_month, _ymd2ord, _days_before_month.
    rewrite Hdby, Hl. change (12 =? 2) with false.
    change (2 <? 12) with true. simpl. lia.
  - apply orb_false_iff in Hend as [Hn1 Hn100].
    apply Z.eqb_neq in Hn1, Hn100.
    destruct (year_of_cycles n400 n100 n4 n1) as [Hdby Hisleap];
      [lia|lia|lia|lia|].
    cbv zeta in Hdby, Hisleap.
    set (leapyear := (n1 =? 3) && (negb (n4 =? 24) || (n100 =? 3))) in *.
    pose proof (month_day_spec leapyear r4 ltac:(lia)) as Hmd.
    unfold month_day_ok in Hmd.
    destruct (_month_day leapyear r4) as [m d]. cbn [fst snd].
    repeat (apply andb_true_iff in Hmd as [Hmd ?]).
    unfold _days_in_month, _ymd2ord, _days_before_month.
    rewrite Hdby, Hisleap. fold leapyear.
    repeat match goal with
           | H : (_ <=? _) = true |- _ => apply Z.leb_le in H
           | H : (_ =? _) = true |- _ => apply Z.eqb_eq in H
           end.
    repeat split; try lia.
Qed.

Lemma add_days_spec D k :
  is_date D → 0 <= k <= 31 →
  match add_days D k with
  | Ok d => d = D + k ∧ is_date d
  | Raise _ => MAXORDINAL - 31 < D
  end.
Proof.
  intros [Hlo Hhi] Hk. unfold add_days, is_date.
  destruct (Z.leb_spec (Z.abs k) 999999999); [|lia].
  destruct (Z.ltb_spec 0 (D + k)); [|lia].
  destruct (Z.leb_spec (D + k) MAXORDINAL); simpl; lia.
Qed.

Lemma add_days_within D k :
  is_date D → 0 <= k <= 31 → within_a_year D (add_days D k).
Proof.
  intros HD Hk. pose proof (add_days_spec D k HD Hk) as H.
  unfold within_a_year. destruct (add_days D k); [|done].
  destruct H as [-> ?]. split; [lia|done].
Qed.

Lemma weekday_range D : 0 <= weekday D <= 6.
Proof. unfold weekday. pose proof (Z.mod_pos_bound (D + 6) 7). lia. Qed.

Lemma next_weekday_within D wd :
  is_date D → 0 <= wd <= 6 →
  within_a_year D (DeadlineParser._next_weekday D wd).
Proof.
  intros HD Hwd. unfold DeadlineParser._next_weekday.
  pose proof (weekday_range D).
  apply add_days_within; [done|].
  destruct (Z.leb_spec (wd - weekday D) 0); lia.
Qed.

Lemma end_of_week_within D :
  is_date D → within_a_year D (DeadlineParser._end_of_week D).
Proof.
  intros HD. unfold DeadlineParser._end_of_week.
  pose proof (weekday_range D).
  apply add_days_within; [done|].
  destruct (Z.ltb_spec (4 - weekday D) 0); lia.
Qed.

Lemma days_before_next_year y :
  _days_before_year (y + 1)
  = _days_before_year y + 365 + (if _is_leap y then 1 else 0).
Proof.
  unfold _days_before_year, _is_leap. cbv zeta.
  repeat match goal with
         | |- context [?a mod ?b =? 0] => destruct (Z.eqb_spec (a mod b) 0)
         end; simpl; Z.div_mod_to_equations; lia.
Qed.

Lemma days_before_year_bound y :
  1 <= y <= MAXYEAR → 0 <= _days_before_year y <= 3651694.
Proof.
  unfold MAXYEAR, _days_before_year. cbv zeta. intros Hy.
  Z.div_mod_to_equations. lia.
Qed.

Lemma days_before_next_month y m :
  1 <= m <= 11 →
  _days_before_month y (m + 1) = _days_before_month y m + _days_in_month y m.
Proof.
  intros Hm. unfold _days_before_month, _days_in_month.
  assert (Hcases : m = 1 ∨ m = 2 ∨ m = 3 ∨ m = 4 ∨ m = 5 ∨ m = 6 ∨ m = 7
                   ∨ m = 8 ∨ m = 9 ∨ m = 10 ∨ m = 11) by lia.
  destruct (_is_leap y);
    repeat (destruct Hcases as [->|Hcases]; [reflexivity|]);
    subst; reflexivity.
Qed.

Lemma end_of_month_within D :
  is_date D → within_a_year D (DeadlineParser._end_of_month D).
Proof.
  intros HD.
  destruct (ord2ymd_spec D HD) as (Hy & Hm & Hd & Hord).
  pose proof (days_before_year_bound _ Hy) as Hdby.
  unfold DeadlineParser._end_of_month, within_a_year.
  set (y := year D) in *. set (m := month D) in *. set (dd := day D) in *.
  clearbody y m dd.
  unfold _ymd2ord in Hord. unfold MAXYEAR in Hy.
  destruct (Z.eqb_spec m 12) as [Hm12|Hm12].
  - (* December: the first day of the next year, minus one day *)
    rewrite Hm12 in *.
    assert (Hdbm : _days_before_month y 12
                   = 334 + (if _is_leap y then 1 else 0))
      by (unfold _days_before_month; by destruct (_is_leap y)).
    assert (Hdim : _days_in_month y 12 = 31) by done.
    pose proof (days_before_next_year y) as Hnext.
    assert (Hextra : ∃ extra, (if _is_leap y then 1 else 0) = extra
                              ∧ 0 <= extra <= 1)
      by (destruct (_is_leap y); eexists; split; try reflexivity; lia).
    destruct Hextra as (extra & Hextra & Hrange).
    rewrite Hextra in Hdbm, Hnext.
    unfold mk_date, MAXYEAR.
    destruct (Z.leb_spec (y + 1) 9999) as [Hle|Hgt].
    + replace (1 <=? y + 1) with true by (symmetry; apply Z.leb_le; lia).
      assert (Hjan : _days_in_month (y + 1) 1 = 31) by done.
      rewrite Hjan. cbn [andb Z.leb Z.compare Pos.compare Pos.compare_cont
                         bind].
      change (1 <=? 1) with true. change (1 <=? 12) with true.
      change (1 <=? 31) with true. cbn [andb bind].
      unfold _ymd2ord, add_days, is_date, MAXORDINAL.
      assert (Hjan0 : _days_before_month (y + 1) 1 = 0) by done.
      rewrite Hjan0.
      pose proof (days_before_year_bound (y + 1) ltac:(unfold MAXYEAR; lia)).
      destruct HD as [HD1 HD2]. unfold MAXORDINAL in HD2.
      change (Z.abs (-1)) with 1. change (1 <=? 999999999) with true.
      destruct (Z.ltb_spec 0 (_days_before_year (y + 1) + 0 + 1 + -1));
        [|lia].
      destruct (Z.leb_spec (_days_before_year (y + 1) + 0 + 1 + -1) 3652059);
        [|lia].
      cbn [andb]. lia.
    + replace (y + 1 <=? 9999) with false by (symmetry; apply Z.leb_gt; lia).
      rewrite andb_false_r. cbn [andb bind].
      assert (Hy9 : y = 9999) by lia.
      assert (Hdby9 : _days_before_year y = 3651694) by (by rewrite Hy9).
      unfold MAXORDINAL. lia.
  - (* any other month: the first day of the next month, minus one day *)
    pose proof (days_before_next_month y m ltac:(lia)) as Hnext.
    assert (Hdim : 28 <= _days_in_month y m <= 31).
    { unfold _days_in_month.
      assert (Hcases : m = 1 ∨ m = 2 ∨ m = 3 ∨ m = 4 ∨ m = 5 ∨ m = 6
                       ∨ m = 7 ∨ m = 8 ∨ m = 9 ∨ m = 10 ∨ m = 11) by lia.
      destruct (_is_leap y);
        repeat (destruct Hcases as [->|Hcases]; [simpl; lia|]);
        subst; simpl; lia. }
    assert (Hdbm : 0 <= _days_before_month y m
                   ∧ _days_before_month y (m + 1) <= 335).
    { unfold _days_before_month.
      assert (Hcases : m = 1 ∨ m = 2 ∨ m = 3 ∨ m = 4 ∨ m = 5 ∨ m = 6
                       ∨ m = 7 ∨ m = 8 ∨ m = 9 ∨ m = 10 ∨ m = 11) by lia.
      destruct (_is_leap y);
        repeat (destruct Hcases as [->|Hcases]; [simpl; lia|]);
        subst; simpl; lia. }
    assert (Hfirst : 1 <= _days_in_month y (m + 1)).
    { unfold _days_in_month.
      assert (Hcases : m = 1 ∨ m = 2 ∨ m = 3 ∨ m = 4 ∨ m = 5 ∨ m = 6
                       ∨ m = 7 ∨ m = 8 ∨ m = 9 ∨ m = 10 ∨ m = 11) by lia.
      destruct (_is_leap y);
        repeat (destruct Hcases as [->|Hcases]; [simpl; lia|]);
        subst; simpl; lia. }
    unfold mk_date, MAXYEAR.
    replace (1 <=? y) with true by (symmetry; apply Z.leb_le; lia).
    replace (y <=? 9999) with true by (symmetry; apply Z.leb_le; lia).
    replace (1 <=? m + 1) with true by (symmetry; apply Z.leb_le; lia).
    replace (m + 1 <=? 12) with true by (symmetry; apply Z.leb_le; lia).
    replace (1 <=? _days_in_month y (m + 1)) with true
      by (symmetry; apply Z.leb_le; lia).
    change (1 <=? 1) with true. cbn [andb bind].
    unfold _ymd2ord, add_days, is_date, MAXORDINAL. rewrite Hnext.
    destruct HD as [HD1 HD2]. unfold MAXORDINAL in HD2.
    change (Z.abs (-1)) with 1. change (1 <=? 999999999) with true.
    set (o := _days_before_year y
              + (_days_before_month y m + _days_in_month y m) + 1 + -1).
    destruct (Z.ltb_spec 0 o); [|unfold o in *; lia].
    destruct (Z.leb_spec o 3652059); [|unfold o in *; lia].
    cbn [andb]. unfold o in *. lia.
Qed.

Import DeadlineParser.

(** A phrase that is a key of the table is answered by its table entry. *)
Lemma parse_table_entry today phrase f D :
  truthy phrase = true →
  dict_get (strip (lower phrase)) RELATIVE_PATTERNS = Some f →
  parse today phrase (Some D) = bind (f D) (fun d => Ok (Some d)).
Proof. intros Ht Hf. unfold parse. by rewrite Ht, Hf. Qed.

Lemma table_keys phrase :
  phrase ∈ List.map fst RELATIVE_PATTERNS →
  truthy phrase = true
  ∧ ∃ f, (phrase, f) ∈ RELATIVE_PATTERNS
         ∧ dict_get (strip (lower phrase)) RELATIVE_PATTERNS = Some f.
Proof.
  intros Hin. unfold RELATIVE_PATTERNS in Hin. cbn [List.map fst] in Hin.
  repeat (apply elem_of_cons in Hin as [->|Hin];
          [split; [reflexivity|]; eexists; split; [|reflexivity];
           unfold RELATIVE_PATTERNS;
           repeat (first [apply list_elem_of_here|apply list_elem_of_further])
          |]).
  by apply elem_of_nil in Hin.
Qed.

Lemma table_entries_within key f D :
  (key, f) ∈ RELATIVE_PATTERNS → is_date D → within_a_year D (f D).
Proof.
  intros Hin HD. unfold RELATIVE_PATTERNS in Hin.
  repeat (apply elem_of_cons in Hin as [[= -> ->]|Hin];
          [first [ by apply next_weekday_within
                 | by apply end_of_week_within
                 | by apply end_of_month_within
                 | by apply add_days_within
                 | unfold within_a_year; split; [lia|done] ]
          |]).
  by apply elem_of_nil in Hin.
Qed.

(** C6, as the code has it. For a phrase of the table and a reference date
    [D], [parse] returns a date from [D] to [D] + 365 days, unless the date
    that the phrase denotes lies after [date.max]: then it raises, which
    happens in the last 31 days of the year 9999 only. [parse("today", D)]
    is [D], and [parse("tomorrow", D)] is [D] + 1 day for every [D] before
    [date.max]. *)
Theorem parse_relative_phrase_within_a_year
    (today : date) (phrase : string) (D : date) :
  is_date D →
  phrase ∈ List.map fst RELATIVE_PATTERNS →
  match parse today phrase (Some D) with
  | Ok (Some d) => D <= d <= D + 365 ∧ is_date d
  | Ok None => False
  | Raise _ => MAXORDINAL - 31 < D
  end
  ∧ parse today "today" (Some D) = Ok (Some D)
  ∧ (D < MAXORDINAL → parse today "tomorrow" (Some D) = Ok (Some (D + 1))).
Proof.
  intros HD Hkey. split; [|split].
  - destruct (table_keys phrase Hkey) as (Ht & f & Hin & Hget).
    rewrite (parse_table_entry today phrase f D Ht Hget).
    pose proof (table_entries_within phrase f D Hin HD) as Hf.
    unfold within_a_year in Hf. by destruct (f D).
  - reflexivity.
  - intros Hlt.
    rewrite (parse_table_entry today "tomorrow" (fun d => add_days d 1) D);
      [|reflexivity|reflexivity].
    unfold add_days. destruct HD as [HD1 HD2].
    change (Z.abs 1 <=? 999999999) with true.
    destruct (Z.ltb_spec 0 (D + 1)); [|lia].
    destruct (Z.leb_spec (D + 1) MAXORDINAL); [done|lia].
Qed.

End CalendarProperties.

Lemma parse_relative_phrase_within_a_year_witness :
  Datetime.is_date 738886
  ∧ "end of month"%string ∈ List.map fst DeadlineParser.RELATIVE_PATTERNS
  ∧ match DeadlineParser.parse 1 "end of month" (Some 738886) with
    | Ok (Some d) => 738886 <= d <= 738886 + 365 ∧ Datetime.is_date d
    | Ok None => False
    | Raise _ => Datetime.MAXORDINAL - 31 < 738886
    end
  ∧ DeadlineParser.parse 1 "today" (Some 738886) = Ok (Some 738886)
  ∧ (738886 < Datetime.MAXORDINAL →
     DeadlineParser.parse 1 "tomorrow" (Some 738886)
     = Ok (Some (738886 + 1))).
Proof.
  assert (HD : Datetime.is_date 738886) by (unfold Datetime.is_date; done).
  assert (Hkey : "end of month"%string
                 ∈ List.map fst DeadlineParser.RELATIVE_PATTERNS).
  { apply list_elem_of_In. vm_compute. tauto. }
  split; [exact HD|]. split; [exact Hkey|].
  exact (parse_relative_phrase_within_a_year 1 "end of month" 738886 HD Hkey).
Defined.

(** C6 fails as stated: on the last date, 9999-12-31, "tomorrow" raises
    [OverflowError] instead of returning a date, and in December 9999 "end
    of month" raises [ValueError], because [date(10000, 1, 1)] does not
    exist. *)
Lemma parse_raises_at_the_end_of_the_calendar :
  Datetime.is_date 3652059
  ∧ DeadlineParser.parse 1 "tomorrow" (Some 3652059) = Raise OverflowError
  ∧ Datetime.is_date 3652040
  ∧ DeadlineParser.parse 1 "end of month" (Some 3652040) = Raise ValueError.
Proof. repeat split; vm_compute; congruence. Qed.

(** ** Serialization (output_serializer.py) *)

Section SerializerProperties.

Import Json.

#[local] Arguments String.append !_ _ : simpl nomatch.

Lemma append_assoc (a b c : string) : (a +:+ b) +:+ c = a +:+ (b +:+ c).
Proof. induction a as [|x a IH]; simpl; congruence. Qed.

Lemma append_nil_r (a : string) : a +:+ EmptyString = a.
Proof. induction a as [|x a IH]; simpl; congruence. Qed.

Lemma length_append (a b : string) :
  String.length (a +:+ b) = (String.length a + String.length b)%nat.
Proof. induction a as [|x a IH]; simpl; congruence. Qed.

Lemma substring_0_ge (s : string) (m : nat) :
  (String.length s ≤ m)%nat → String.substring 0 m s = s.
Proof.
  revert m. induction s as [|c s IH]; intros [|m] Hm; simpl in *;
    try reflexivity; try lia.
  rewrite IH by lia. reflexivity.
Qed.

(** *** Strings *)

Lemma loads_string_escape_char c X a b :
  loads_string X = Some (a, b) →
  loads_string (escape_char c +:+ X) = Some (String c a, b).
Proof.
  intros H.
  destruct c as [[] [] [] [] [] [] [] []]; simpl; rewrite H; reflexivity.
Qed.

Lemma loads_string_escape s rest :
  loads_string (escape s +:+ dquote +:+ rest) = Some (s, rest).
Proof.
  induction s as [|c s IH]; [reflexivity|].
  cbn [escape]. rewrite append_assoc.
  apply loads_string_escape_char, IH.
Qed.

Lemma dumps_string_head s rest :
  dumps_string s +:+ rest
  = String (ascii_of_N 34) (escape s +:+ dquote +:+ rest).
Proof. unfold dumps_string. rewrite !append_assoc. reflexivity. Qed.

Lemma loads_value_string fuel s rest :
  loads_value (S fuel) (dumps_string s +:+ rest) = Some (Str s, rest).
Proof.
  rewrite dumps_string_head.
  change (loads_value (S fuel) (String (ascii_of_N 34) ?s))
    with ('(str, rest) ← loads_string s; Some (Str str, rest)).
  rewrite loads_string_escape. reflexivity.
Qed.

(** *** Integers *)

Abbreviation digits_from start s :=
  (fold_left (fun value c => 10 * value + digit_value c)
             (list_ascii_of_string s) start).

Lemma digits_from_acc d acc :
  digits_from (Z.pos acc) (NilEmpty.string_of_uint d)
  = Z.pos (Pos.of_uint_acc d acc).
Proof.
  revert acc. induction d; intros acc; cbn [NilEmpty.string_of_uint
    list_ascii_of_string fold_left Pos.of_uint_acc];
    [reflexivity|rewrite <- IHd; f_equal; unfold digit_value; simpl; lia..].
Qed.

Lemma digits_from_zero d :
  digits_from 0 (NilEmpty.string_of_uint d) = Z.of_N (Pos.of_uint d).
Proof.
  induction d; cbn [NilEmpty.string_of_uint list_ascii_of_string fold_left
    Pos.of_uint]; [reflexivity|exact IHd|apply (digits_from_acc d)..].
Qed.

Lemma int_of_digits_to_uint p :
  int_of_digits (NilEmpty.string_of_uint (Pos.to_uint p)) = Z.pos p.
Proof.
  unfold int_of_digits. rewrite digits_from_zero.
  rewrite DecimalPos.Unsigned.of_to. reflexivity.
Qed.

Lemma not_a_digit tail :
  ends_number tail = true →
  match tail with
  | String c _ =>
      Re.isdigit c = false
      ∧ ((N_of_ascii c =? 46) || (N_of_ascii c =? 101)
         || (N_of_ascii c =? 69))%N = false
  | EmptyString => True
  end.
Proof.
  destruct tail as [|c tail]; [done|]. cbn [ends_number]. unfold Re.isdigit.
  destruct (N.eqb_spec (N_of_ascii c) 44) as [->|]; [done|].
  destruct (N.eqb_spec (N_of_ascii c) 10) as [->|]; [done|].
  discriminate.
Qed.

Lemma span_digits d tail :
  ends_number tail = true →
  Re.span Re.isdigit (NilEmpty.string_of_uint d +:+ tail)
  = (NilEmpty.string_of_uint d, tail).
Proof.
  intros Htail. apply not_a_digit in Htail.
  induction d; cbn [NilEmpty.string_of_uint];
    [|simpl; rewrite IHd; reflexivity..].
  destruct tail as [|c tail]; [reflexivity|].
  destruct Htail as [Hc _]. simpl. rewrite Hc. reflexivity.
Qed.

Lemma nzhead_not_zero d d' : Decimal.nzhead d ≠ Decimal.D0 d'.
Proof. induction d; simpl; congruence. Qed.

Lemma to_uint_head p :
  match Pos.to_uint p with
  | Decimal.Nil | Decimal.D0 _ => False
  | _ => True
  end.
Proof.
  pose proof (DecimalPos.Unsigned.to_of (Pos.to_uint p)) as H.
  rewrite DecimalPos.Unsigned.of_to in H. cbn [N.to_uint] in H.
  pose proof (DecimalPos.Unsigned.to_uint_nonzero p) as Hz.
  destruct (Pos.to_uint p) as [|d| | | | | | | | |] eqn:E; try exact I.
  - apply (DecimalPos.Unsigned.to_uint_nonnil p E).
  - unfold Decimal.unorm in H. cbn [Decimal.nzhead] in H.
    destruct (Decimal.nzhead d) eqn:En; try discriminate.
    + apply Hz. exact H.
    + apply (nzhead_not_zero d u). congruence.
Qed.

Lemma loads_int_digits c ds tail :
  N_of_ascii c ≠ 45%N → N_of_ascii c ≠ 48%N →
  Re.span Re.isdigit (String c (ds +:+ tail)) = (String c ds, tail) →
  ends_number tail = true →
  Z.of_nat (String.length (String c ds)) <= MAX_STR_DIGITS →
  loads_int (String c (ds +:+ tail))
  = Some (int_of_digits (String c ds), tail).
Proof.
  intros H45 H48 Hspan Htail Hlen. apply not_a_digit in Htail.
  apply Z.ltb_ge in Hlen.
  unfold loads_int.
  destruct (N.eqb_spec (N_of_ascii c) 45) as [|_]; [contradiction|].
  destruct (N.eqb_spec (N_of_ascii c) 48) as [|_]; [contradiction|].
  rewrite Hspan. cbn [truthy negb]. cbv zeta.
  destruct tail as [|c' tail]; [by rewrite Hlen|].
  destruct Htail as [_ ->]. by rewrite Hlen.
Qed.

Lemma str_of_int_pos p :
  str_of_int (Z.pos p) = NilEmpty.string_of_uint (Pos.to_uint p).
Proof.
  pose proof (to_uint_head p) as Hhead.
  unfold str_of_int, NilZero.string_of_int, NilZero.string_of_uint.
  cbn [Z.to_int]. by destruct (Pos.to_uint p).
Qed.

Lemma loads_int_unsigned p tail :
  ends_number tail = true →
  int_str_ok (Z.pos p) = true →
  loads_int (NilEmpty.string_of_uint (Pos.to_uint p) +:+ tail)
  = Some (Z.pos p, tail).
Proof.
  intros Htail Hok. pose proof (to_uint_head p) as Hhead.
  pose proof (int_of_digits_to_uint p) as Hval.
  pose proof (span_digits (Pos.to_uint p) tail Htail) as Hspan.
  change (int_str_ok (Z.pos p))
    with (Z.of_nat (String.length (str_of_int (Z.pos p))) <=? MAX_STR_DIGITS)
    in Hok.
  rewrite str_of_int_pos in Hok. apply Z.leb_le in Hok.
  destruct (Pos.to_uint p) as [|d|d|d|d|d|d|d|d|d|d]; try contradiction;
    cbn [NilEmpty.string_of_uint] in *; rewrite <- Hval;
    apply loads_int_digits; try exact Htail; try exact Hspan;
    try exact Hok; simpl; discriminate.
Qed.

Lemma loads_int_minus c s' :
  N_of_ascii c ≠ 45%N →
  loads_int (String "-" (String c s'))
  = '(v, r) ← loads_int (String c s'); Some (- v, r).
Proof.
  intros Hc. unfold loads_int.
  change (N_of_ascii "-" =? 45)%N with true. cbv beta iota.
  destruct (N.eqb_spec (N_of_ascii c) 45) as [|_]; [contradiction|].
  cbv zeta.
  destruct (N_of_ascii c =? 48)%N.
  - cbn [truthy negb].
    destruct (MAX_STR_DIGITS <? _); destruct s' as [|c' s'];
      try reflexivity; destruct (_ || _)%bool; reflexivity.
  - destruct (Re.span Re.isdigit (String c s')) as [digits rest].
    destruct (negb (truthy digits)); [reflexivity|].
    destruct (MAX_STR_DIGITS <? _); destruct rest as [|c' rest];
      try reflexivity; destruct (_ || _)%bool; reflexivity.
Qed.

(** [int(str(n)) = n], as the parser of JSON numbers reads it, for a number
    of at most [MAX_STR_DIGITS] digits. *)
Lemma loads_int_str n tail :
  ends_number tail = true →
  int_str_ok n = true →
  loads_int (str_of_int n +:+ tail) = Some (n, tail).
Proof.
  intros Htail Hok. destruct n as [|p|p].
  - apply not_a_digit in Htail.
    change (str_of_int 0) with "0"%string. unfold loads_int. simpl.
    destruct tail as [|c tail]; [reflexivity|].
    destruct Htail as [_ ->]. reflexivity.
  - rewrite str_of_int_pos. by apply loads_int_unsigned.
  - pose proof (to_uint_head p) as Hhead.
    pose proof (loads_int_unsigned p tail Htail Hok) as H.
    unfold str_of_int, NilZero.string_of_int, NilZero.string_of_uint.
    cbn [Z.to_int].
    destruct (Pos.to_uint p); try contradiction;
      cbn [NilEmpty.string_of_uint] in *; simpl (String _ _ +:+ _) in *;
      (rewrite loads_int_minus by (simpl; discriminate));
      rewrite H; reflexivity.
Qed.

(** *** Layout *)

Lemma newline_indent_head level X :
  ∃ r, newline_indent level +:+ X = String (ascii_of_N 10) r.
Proof.
  revert X. induction level as [|level IH]; intros X.
  - eexists. reflexivity.
  - cbn [newline_indent]. rewrite append_assoc. apply IH.
Qed.

Lemma ends_number_newline level X :
  ends_number (newline_indent level +:+ X) = true.
Proof. destruct (newline_indent_head level X) as [r ->]. reflexivity. Qed.

Lemma skip_ws_newline_indent level X :
  skip_ws (newline_indent level +:+ X) = skip_ws X.
Proof.
  revert X. induction level as [|level IH]; intros X.
  - reflexivity.
  - cbn [newline_indent]. rewrite append_assoc, IH. reflexivity.
Qed.

Lemma length_newline_indent level :
  (1 ≤ String.length (newline_indent level))%nat.
Proof.
  destruct level; cbn [newline_indent]; rewrite ?length_append; simpl; lia.
Qed.

Lemma str_of_int_head n tail :
  ∃ c r, str_of_int n +:+ tail = String c r ∧ is_ws c = false
         ∧ (N_of_ascii c =? 34)%N = false ∧ (N_of_ascii c =? 91)%N = false
         ∧ (N_of_ascii c =? 123)%N = false
         ∧ (N_of_ascii c =? 110)%N = false ∧ (N_of_ascii c =? 116)%N = false
         ∧ (N_of_ascii c =? 102)%N = false
         ∧ (N_of_ascii c =? 93)%N = false ∧ (N_of_ascii c =? 125)%N = false.
Proof.
  unfold str_of_int, NilZero.string_of_int, NilZero.string_of_uint.
  destruct n as [|p|p]; cbn [Z.to_int].
  - eexists _, _. split; [reflexivity|]. repeat split.
  - pose proof (to_uint_head p) as Hhead.
    destruct (Pos.to_uint p); try contradiction;
      cbn [NilEmpty.string_of_uint]; eexists _, _;
      (split; [reflexivity|]); repeat split.
  - eexists _, _. split; [reflexivity|]. repeat split.
Qed.

Lemma dumps_at_head level v tail : starts_value (dumps_at level v +:+ tail).
Proof.
  destruct v as [|[]|n|s|[|x l]|[|[k x] d]]; cbn [dumps_at];
    try (eexists _, _; split; [reflexivity|]; repeat split; fail).
  destruct (str_of_int_head n tail) as (c & r & E & Hws & H). exists c, r.
  split; [exact E|]. split; [exact Hws|]. tauto.
Qed.

Lemma skip_ws_value s : starts_value s → skip_ws s = s.
Proof. intros (c & r & -> & Hws & _). cbn [skip_ws]. rewrite Hws. done. Qed.

Lemma length_value level v : (1 ≤ String.length (dumps_at level v))%nat.
Proof.
  destruct (dumps_at_head level v EmptyString) as (c & r & E & _).
  rewrite append_nil_r in E. rewrite E. simpl. lia.
Qed.

(** *** Literals *)

Lemma prefix_other (c : ascii) (lit r : string) (a : ascii) :
  a ≠ c → String.prefix (String a lit) (String c r) = false.
Proof. intros H. cbn [String.prefix]. destruct (ascii_dec a c); done. Qed.

Lemma prefix_append (lit tail : string) :
  String.prefix lit (lit +:+ tail) = true.
Proof.
  induction lit as [|c lit IH]; [destruct tail; reflexivity|].
  simpl. destruct (ascii_dec c c); [exact IH|done].
Qed.

Lemma substring_append (lit tail : string) (m : nat) :
  (String.length tail ≤ m)%nat →
  String.substring (String.length lit) m (lit +:+ tail) = tail.
Proof.
  intros Hm. induction lit as [|c lit IH]; [apply substring_0_ge, Hm|].
  exact IH.
Qed.

Lemma loads_value_other fuel c r :
  (N_of_ascii c =? 34)%N = false → (N_of_ascii c =? 91)%N = false →
  (N_of_ascii c =? 123)%N = false →
  loads_value (S fuel) (String c r)
  = let s := String c r in
    if String.prefix "null" s
    then Some (Null, String.substring 4 (String.length s) s)
    else if String.prefix "true" s
    then Some (Bool true, String.substring 4 (String.length s) s)
    else if String.prefix "false" s
    then Some (Bool false, String.substring 5 (String.length s) s)
    else '(k, rest) ← loads_int s; Some (Int k, rest).
Proof.
  intros H1 H2 H3. cbn [loads_value]. cbv zeta. rewrite H1, H2, H3.
  reflexivity.
Qed.

Lemma loads_value_int fuel n tail :
  ends_number tail = true →
  int_str_ok n = true →
  loads_value (S fuel) (str_of_int n +:+ tail) = Some (Int n, tail).
Proof.
  intros Htail Hok. pose proof (loads_int_str n tail Htail Hok) as Hint.
  destruct (str_of_int_head n tail)
    as (c & r & E & Hws & H34 & H91 & H123 & Hn & Ht & Hf & _).
  rewrite E in *. rewrite loads_value_other by assumption. cbv zeta.
  rewrite !prefix_other.
  - rewrite Hint. reflexivity.
  - intros <-. discriminate.
  - intros <-. discriminate.
  - intros <-. discriminate.
Qed.

Lemma loads_value_null fuel tail :
  loads_value (S fuel) ("null" +:+ tail) = Some (Null, tail).
Proof.
  change ("null" +:+ tail)%string with (String "n" ("ull" +:+ tail)).
  rewrite loads_value_other by reflexivity. cbv zeta.
  change (String "n" ("ull" +:+ tail)) with ("null" +:+ tail)%string.
  rewrite prefix_append.
  rewrite (substring_append "null") by (rewrite length_append; lia).
  reflexivity.
Qed.

Lemma loads_value_true fuel tail :
  loads_value (S fuel) ("true" +:+ tail) = Some (Bool true, tail).
Proof.
  change ("true" +:+ tail)%string with (String "t" ("rue" +:+ tail)).
  rewrite loads_value_other by reflexivity. cbv zeta.
  rewrite prefix_other by discriminate.
  change (String "t" ("rue" +:+ tail)) with ("true" +:+ tail)%string.
  rewrite prefix_append.
  rewrite (substring_append "true") by (rewrite length_append; lia).
  reflexivity.
Qed.

Lemma loads_value_false fuel tail :
  loads_value (S fuel) ("false" +:+ tail) = Some (Bool false, tail).
Proof.
  change ("false" +:+ tail)%string with (String "f" ("alse" +:+ tail)).
  rewrite loads_value_other by reflexivity. cbv zeta.
  rewrite !prefix_other by discriminate.
  change (String "f" ("alse" +:+ tail)) with ("false" +:+ tail)%string.
  rewrite prefix_append.
  rewrite (substring_append "false") by (rewrite length_append; lia).
  reflexivity.
Qed.

(** *** Objects and arrays *)

Lemma starts_value_string k X : starts_value (dumps_string k +:+ X).
Proof.
  rewrite dumps_string_head. eexists _, _. split; [reflexivity|].
  repeat split.
Qed.

Lemma skip_ws_space X : skip_ws (String " " X) = skip_ws X.
Proof. reflexivity. Qed.

Lemma loads_members_step fuel acc s0 k s1 v tail :
  loads_string s0 = Some (k, String ":" s1) →
  loads_value fuel (skip_ws s1) = Some (v, tail) →
  loads_members (S fuel) acc (String (ascii_of_N 34) s0)
  = match skip_ws tail with
    | String c2 s2 =>
        if (N_of_ascii c2 =? 44)%N
        then loads_members fuel (object_set k v acc) (skip_ws s2)
        else if (N_of_ascii c2 =? 125)%N
        then Some (Object (object_set k v acc), s2)
        else None
    | EmptyString => None
    end.
Proof.
  intros H1 H2. cbn [loads_members].
  change (N_of_ascii (ascii_of_N 34) =? 34)%N with true. cbv iota.
  rewrite H1. cbn [mbind option_bind skip_ws].
  change (is_ws ":") with false. cbv iota.
  change (N_of_ascii ":" =? 58)%N with true. cbv iota.
  rewrite H2. reflexivity.
Qed.

Lemma loads_items_step fuel acc s v tail :
  loads_value fuel s = Some (v, tail) →
  loads_items (S fuel) acc s
  = match skip_ws tail with
    | String c s1 =>
        if (N_of_ascii c =? 44)%N
        then loads_items fuel (acc ++ [v]) (skip_ws s1)
        else if (N_of_ascii c =? 93)%N then Some (Array (acc ++ [v]), s1)
        else None
    | EmptyString => None
    end.
Proof. intros H. cbn [loads_items]. rewrite H. reflexivity. Qed.

Lemma loads_value_array fuel X :
  starts_value (skip_ws X) →
  loads_value (S fuel) (String "[" X) = loads_items fuel [] (skip_ws X).
Proof.
  intros (c & r & E & _ & H93 & _). cbn [loads_value]. cbv zeta.
  change (N_of_ascii "[" =? 34)%N with false.
  change (N_of_ascii "[" =? 91)%N with true. cbv iota.
  rewrite E, H93. reflexivity.
Qed.

Lemma loads_value_object fuel X :
  starts_value (skip_ws X) →
  loads_value (S fuel) (String "{" X) = loads_members fuel [] (skip_ws X).
Proof.
  intros (c & r & E & _ & _ & H125). cbn [loads_value]. cbv zeta.
  change (N_of_ascii "{" =? 34)%N with false.
  change (N_of_ascii "{" =? 91)%N with false.
  change (N_of_ascii "{" =? 123)%N with true. cbv iota.
  rewrite E, H125. reflexivity.
Qed.

Lemma dumps_at_object level k x d :
  dumps_at level (Object ((k, x) :: d))
  = "{" +:+ newline_indent (S level) +:+ dumps_string k +:+ ": "
    +:+ dumps_at (S level) x +:+ members_text (S level) d
    +:+ newline_indent level +:+ "}".
Proof.
  cbn [dumps_at]. do 6 f_equal.
  induction d as [|[k' y] d IH]; [reflexivity|].
  cbn [members_text]. rewrite <- IH. reflexivity.
Qed.

Lemma dumps_at_array level x l :
  dumps_at level (Array (x :: l))
  = "[" +:+ newline_indent (S level) +:+ dumps_at (S level) x
    +:+ items_text (S level) l +:+ newline_indent level +:+ "]".
Proof.
  cbn [dumps_at]. do 4 f_equal.
  induction l as [|y l IH]; [reflexivity|].
  cbn [items_text]. rewrite <- IH. reflexivity.
Qed.

Lemma distinct_keys_array l :
  distinct_keys (Array l) ↔ Forall distinct_keys l.
Proof.
  cbn [distinct_keys]. induction l as [|x l IH].
  - split; [constructor|done].
  - rewrite Forall_cons, <- IH. reflexivity.
Qed.

Lemma distinct_keys_object d :
  distinct_keys (Object d)
  ↔ NoDup (List.map fst d) ∧ Forall (λ kv, distinct_keys kv.2) d.
Proof.
  cbn [distinct_keys]. apply and_iff_compat_l.
  induction d as [|[k x] d IH].
  - split; [constructor|done].
  - rewrite Forall_cons, <- IH. reflexivity.
Qed.

Lemma dict_set_fresh {V} k (v : V) acc :
  k ∉ List.map fst acc → dict_set k v acc = acc ++ [(k, v)].
Proof.
  induction acc as [|[k' w] acc IH]; intros Hk; [reflexivity|].
  cbn [dict_set]. cbn [List.map fst] in Hk.
  apply not_elem_of_cons in Hk as [Hne Hk].
  destruct (String.eqb_spec k k'); [contradiction|].
  rewrite IH by exact Hk. reflexivity.
Qed.

Lemma object_of_distinct d : ∀ acc,
  NoDup (List.map fst d ++ List.map fst acc) → object_of d acc = acc ++ d.
Proof.
  unfold object_of.
  induction d as [|[k x] d IH]; intros acc Hnd; cbn [fold_left].
  - rewrite app_nil_r. reflexivity.
  - cbn [List.map fst app] in Hnd. apply NoDup_cons in Hnd as [Hk Hnd].
    unfold object_set. cbn [fst snd].
    rewrite dict_set_fresh by (intros ?; apply Hk, elem_of_app; auto).
    rewrite IH.
    + rewrite <- app_assoc. reflexivity.
    + rewrite List.map_app. cbn [List.map fst].
      apply NoDup_app in Hnd as (Hd & Hda & Ha).
      apply NoDup_app. split; [exact Hd|]. split.
      * intros k' Hk' [Hin|Hin%list_elem_of_singleton]%elem_of_app.
        -- exact (Hda k' Hk' Hin).
        -- subst k'. apply Hk, elem_of_app. auto.
      * apply NoDup_app. split; [exact Ha|]. split; [|apply NoDup_singleton].
        intros k' Hk' ->%list_elem_of_singleton.
        apply Hk, elem_of_app. auto.
Qed.

Lemma ints_ok_array l :
  ints_ok (Array l) = true ↔ Forall (λ x, ints_ok x = true) l.
Proof.
  cbn [ints_ok]. induction l as [|x l IH].
  - split; [constructor|done].
  - rewrite Forall_cons, <- IH, andb_true_iff. reflexivity.
Qed.

Lemma ints_ok_object d :
  ints_ok (Object d) = true ↔ Forall (λ kv, ints_ok kv.2 = true) d.
Proof.
  cbn [ints_ok]. induction d as [|[k x] d IH].
  - split; [constructor|done].
  - rewrite Forall_cons, <- IH, andb_true_iff. reflexivity.
Qed.

Lemma loads_members_text level d : ∀ fuel acc k x tail,
  round_trips x → distinct_keys x → ints_ok x = true →
  Forall (λ kv, round_trips kv.2 ∧ distinct_keys kv.2
                ∧ ints_ok kv.2 = true) d →
  ends_number tail = true →
  (String.length (dumps_string k +:+ ": " +:+ dumps_at (S level) x
                  +:+ members_text (S level) d) < fuel)%nat →
  loads_members fuel acc
    (dumps_string k +:+ ": " +:+ dumps_at (S level) x
     +:+ members_text (S level) d +:+ newline_indent level +:+ "}" +:+ tail)
  = Some (Object (object_of ((k, x) :: d) acc), tail).
Proof.
  induction d as [|[k' y] d IH];
    intros fuel acc k x tail Hx Hkx Hix Hd Htail Hfuel;
    (destruct fuel as [|fuel]; [lia|]);
    rewrite !length_append in Hfuel;
    pose proof (length_value (S level) x) as Hlx;
    rewrite dumps_string_head.
  - erewrite loads_members_step; cycle 1.
    + apply loads_string_escape.
    + rewrite skip_ws_space.
      rewrite skip_ws_value by apply dumps_at_head.
      apply Hx; [exact Hkx|exact Hix| |lia].
      cbn [members_text]. apply ends_number_newline.
    + cbn [members_text]. change (EmptyString +:+ ?s)%string with s.
      rewrite skip_ws_newline_indent. reflexivity.
  - inversion_clear Hd as [|? ? (Hy & Hky & Hiy) Hd'].
    cbn [snd] in Hy, Hky, Hiy.
    cbn [members_text] in *. rewrite !length_append in Hfuel.
    erewrite loads_members_step; cycle 1.
    + apply loads_string_escape.
    + rewrite skip_ws_space.
      rewrite skip_ws_value by apply dumps_at_head.
      apply Hx; [exact Hkx|exact Hix|reflexivity|lia].
    + rewrite !append_assoc.
      change (skip_ws ("," +:+ ?s)) with (String "," s). cbv iota.
      change (N_of_ascii "," =? 44)%N with true. cbv iota.
      rewrite skip_ws_newline_indent.
      rewrite skip_ws_value by apply starts_value_string.
      rewrite (IH fuel _ k' y tail Hy Hky Hiy Hd' Htail).
      * reflexivity.
      * rewrite !length_append. simpl in *. lia.
Qed.

Lemma loads_items_text level l : ∀ fuel acc x tail,
  round_trips x → distinct_keys x → ints_ok x = true →
  Forall (λ y, round_trips y ∧ distinct_keys y ∧ ints_ok y = true) l →
  ends_number tail = true →
  (String.length (dumps_at (S level) x +:+ items_text (S level) l)
   < fuel)%nat →
  loads_items fuel acc
    (dumps_at (S level) x +:+ items_text (S level) l
     +:+ newline_indent level +:+ "]" +:+ tail)
  = Some (Array (acc ++ x :: l), tail).
Proof.
  induction l as [|y l IH];
    intros fuel acc x tail Hx Hkx Hix Hl Htail Hfuel;
    (destruct fuel as [|fuel]; [lia|]);
    rewrite !length_append in Hfuel;
    pose proof (length_value (S level) x) as Hlx.
  - erewrite loads_items_step; cycle 1.
    + apply Hx; [exact Hkx|exact Hix| |lia].
      cbn [items_text]. apply ends_number_newline.
    + cbn [items_text]. change (EmptyString +:+ ?s)%string with s.
      rewrite skip_ws_newline_indent. reflexivity.
  - inversion_clear Hl as [|? ? (Hy & Hky & Hiy) Hl'].
    cbn [items_text] in *. rewrite !length_append in Hfuel.
    erewrite loads_items_step; cycle 1.
    + apply Hx; [exact Hkx|exact Hix|reflexivity|lia].
    + rewrite !append_assoc.
      change (skip_ws ("," +:+ ?s)) with (String "," s). cbv iota.
      change (N_of_ascii "," =? 44)%N with true. cbv iota.
      rewrite skip_ws_newline_indent.
      rewrite skip_ws_value by apply dumps_at_head.
      rewrite (IH fuel _ y tail Hy Hky Hiy Hl' Htail).
      * rewrite <- app_assoc. reflexivity.
      * rewrite !length_append. simpl in *. lia.
Qed.

Lemma value_ind_nested (P : value → Prop) :
  P Null → (∀ b, P (Bool b)) → (∀ n, P (Int n)) → (∀ s, P (Str s)) →
  (∀ l, Forall P l → P (Array l)) →
  (∀ d, Forall (λ kv, P kv.2) d → P (Object d)) →
  ∀ v, P v.
Proof.
  intros HNull HBool HInt HStr HArray HObject.
  fix IH 1. intros [|b|n|s|l|d].
  - exact HNull.
  - apply HBool.
  - apply HInt.
  - apply HStr.
  - apply HArray. induction l as [|x l IHl]; constructor; [apply IH|exact IHl].
  - apply HObject.
    induction d as [|[k x] d IHd]; constructor; [apply IH|exact IHd].
Qed.

(** Every value is read back from its text. *)
Lemma loads_value_dumps v : round_trips v.
Proof.
  induction v as [|b|n|s|l IHl|d IHd] using value_ind_nested;
    intros Hkeys Hints level fuel tail Htail Hfuel.
  - destruct fuel; [simpl in Hfuel; lia|]. apply loads_value_null.
  - destruct fuel; [destruct b; simpl in Hfuel; lia|].
    destruct b; [apply loads_value_true|apply loads_value_false].
  - pose proof (length_value level (Int n)).
    destruct fuel; [lia|]. apply loads_value_int; [exact Htail|exact Hints].
  - pose proof (length_value level (Str s)).
    destruct fuel; [lia|]. apply loads_value_string.
  - apply distinct_keys_array in Hkeys. apply ints_ok_array in Hints.
    destruct l as [|x l].
    + destruct fuel; [simpl in Hfuel; lia|]. reflexivity.
    + rewrite dumps_at_array in *. rewrite !length_append in Hfuel.
      pose proof (length_newline_indent (S level)).
      pose proof (length_newline_indent level).
      destruct fuel as [|fuel]; [simpl in Hfuel; lia|].
      rewrite !append_assoc.
      change ("[" +:+ ?s)%string with (String "[" s).
      rewrite loads_value_array; rewrite skip_ws_newline_indent;
        rewrite skip_ws_value by apply dumps_at_head;
        [|apply dumps_at_head].
      inversion_clear IHl as [|? ? Hx Hl].
      inversion_clear Hkeys as [|? ? Hkx Hkl].
      inversion_clear Hints as [|? ? Hix Hil].
      rewrite (loads_items_text level l fuel [] x tail Hx Hkx Hix).
      * reflexivity.
      * apply Forall_and. split; [assumption|].
        apply Forall_and. split; assumption.
      * exact Htail.
      * rewrite length_append. simpl in Hfuel. lia.
  - apply distinct_keys_object in Hkeys as [Hnd Hkeys].
    apply ints_ok_object in Hints.
    destruct d as [|[k x] d].
    + destruct fuel; [simpl in Hfuel; lia|]. reflexivity.
    + rewrite dumps_at_object in *. rewrite !length_append in Hfuel.
      pose proof (length_newline_indent (S level)).
      pose proof (length_newline_indent level).
      destruct fuel as [|fuel]; [simpl in Hfuel; lia|].
      rewrite !append_assoc.
      change ("{" +:+ ?s)%string with (String "{" s).
      rewrite loads_value_object; rewrite skip_ws_newline_indent;
        rewrite skip_ws_value by apply starts_value_string;
        [|apply starts_value_string].
      inversion_clear IHd as [|? ? Hx Hd]. cbn [snd] in Hx.
      inversion_clear Hkeys as [|? ? Hkx Hkd]. cbn [snd] in Hkx.
      inversion_clear Hints as [|? ? Hix Hid]. cbn [snd] in Hix.
      rewrite (loads_members_text level d fuel [] k x tail Hx Hkx Hix).
      * rewrite object_of_distinct; [reflexivity|].
        rewrite app_nil_r. exact Hnd.
      * apply Forall_and. split; [assumption|].
        apply Forall_and. split; assumption.
      * exact Htail.
      * clear -Hfuel. unfold dumps_string. rewrite !length_append.
        simpl in *. rewrite !length_append in Hfuel. simpl in Hfuel. lia.
Qed.

(** [json.loads(json.dumps(v, indent=2)) == v], for a value whose ints
    [json.dumps] can write. *)
Lemma loads_dumps v :
  distinct_keys v → ints_ok v = true →
  dumps v = Ok (dumps_at 0 v) ∧ loads (dumps_at 0 v) = Some (Ok v).
Proof.
  intros Hkeys Hints. unfold loads, dumps. rewrite Hints.
  split; [reflexivity|].
  pose proof (dumps_at_head 0 v EmptyString) as Hhead.
  rewrite append_nil_r in Hhead. rewrite skip_ws_value by exact Hhead.
  pose proof (loads_value_dumps v Hkeys Hints 0%nat
                (S (String.length (dumps_at 0 v)))
                EmptyString eq_refl) as H.
  rewrite append_nil_r in H. rewrite H by lia. reflexivity.
Qed.

(** *** The serializer *)

Lemma items_from_dict_objects tasks :
  OutputSerializer.items_from_dict (List.map task_value tasks)
  = Ok (List.map OutputSerializer.of_task tasks).
Proof.
  induction tasks as [|t tasks IH]; [reflexivity|].
  cbn [List.map OutputSerializer.items_from_dict]. rewrite IH. reflexivity.
Qed.

Lemma distinct_keys_task task : distinct_keys (task_value task).
Proof.
  apply distinct_keys_object. split.
  - apply (bool_decide_unpack _). vm_compute. reflexivity.
  - unfold OutputSerializer.to_dict, OutputSerializer.of_optional.
    repeat constructor; cbn [snd]; repeat case_match; exact I.
Qed.

Lemma distinct_keys_tasks tasks :
  distinct_keys (Array (List.map task_value tasks)).
Proof.
  apply distinct_keys_array.
  induction tasks as [|t tasks IH]; constructor;
    [apply distinct_keys_task|exact IH].
Qed.

Lemma distinct_keys_result r :
  distinct_keys (Object (ResultSerializer.to_dict r)).
Proof.
  apply distinct_keys_object. split.
  - apply (bool_decide_unpack _). vm_compute. reflexivity.
  - unfold ResultSerializer.to_dict, OutputSerializer.of_optional.
    repeat constructor; cbn [snd]; repeat case_match; try exact I.
    apply distinct_keys_tasks.
Qed.

Lemma ints_ok_task task :
  ints_ok (task_value task) = int_str_ok (TaskOutput.task_number task).
Proof.
  unfold task_value, OutputSerializer.to_dict, OutputSerializer.of_optional.
  cbn [ints_ok]. repeat case_match; cbn [andb]; by rewrite ?andb_true_r.
Qed.

Lemma ints_ok_tasks tasks :
  ints_ok (Array (List.map task_value tasks)) = numbers_ok tasks.
Proof.
  unfold numbers_ok. induction tasks as [|t tasks IH]; [reflexivity|].
  cbn [List.map forallb]. rewrite <- IH, <- ints_ok_task. reflexivity.
Qed.

Lemma ints_ok_result r :
  ints_ok (Object (ResultSerializer.to_dict r))
  = numbers_ok (PipelineResult.tasks r).
Proof.
  rewrite <- ints_ok_tasks.
  unfold ResultSerializer.to_dict, OutputSerializer.of_optional.
  cbn [ints_ok].
  change (List.map (λ t, Object (OutputSerializer.to_dict t))
            (PipelineResult.tasks r))
    with (List.map task_value (PipelineResult.tasks r)).
  repeat case_match; cbn [andb]; by rewrite ?andb_true_r.
Qed.

(** What [serialize] writes is read back. *)
Lemma serialize_read_back tasks :
  numbers_ok tasks = true →
  ∃ text,
    OutputSerializer.serialize tasks = Ok text
    ∧ OutputSerializer.deserialize text
      = Some (Ok (List.map OutputSerializer.of_task tasks)).
Proof.
  intros Hok. unfold OutputSerializer.deserialize, OutputSerializer.serialize.
  change (List.map (λ task, Object (OutputSerializer.to_dict task)) tasks)
    with (List.map task_value tasks).
  destruct (loads_dumps (Array (List.map task_value tasks)))
    as [Hdumps Hloads];
    [apply distinct_keys_tasks|by rewrite ints_ok_tasks|].
  eexists. split; [exact Hdumps|]. rewrite Hloads.
  cbn [mbind option_bind Py.bind]. by rewrite items_from_dict_objects.
Qed.

Lemma serialize_raises tasks :
  numbers_ok tasks = false →
  OutputSerializer.serialize tasks = Raise ValueError.
Proof.
  intros Hok. unfold OutputSerializer.serialize, dumps.
  change (List.map (λ task, Object (OutputSerializer.to_dict task)) tasks)
    with (List.map task_value tasks).
  by rewrite ints_ok_tasks, Hok.
Qed.

(** X1. For tasks whose strings are strings of the model (code points below
    256): what [OutputSerializer.serialize] writes for a list of tasks,
    [OutputSerializer.deserialize] reads back as the same tasks in the same
    order, field by field ([task_number] an int, [description] and
    [priority] strings, the optional fields a string or [None]), as long as
    every task number has at most 4300 decimal digits; with a task number
    of more digits [serialize] raises [ValueError]. *)
Theorem deserialize_serialize_round_trip (tasks : list TaskOutput.t) :
  if numbers_ok tasks
  then ∃ text,
         OutputSerializer.serialize tasks = Ok text
         ∧ OutputSerializer.deserialize text
           = Some (Ok (List.map OutputSerializer.of_task tasks))
  else OutputSerializer.serialize tasks = Raise ValueError.
Proof.
  destruct (numbers_ok tasks) eqn:Hok;
    [by apply serialize_read_back|by apply serialize_raises].
Qed.

(** X2. For results whose strings are strings of the model (code points
    below 256): a pipeline result written by [serialize_result]
    ([PipelineResult.to_json]) is read back by [deserialize_result]
    ([PipelineResult.from_json]) with the same success flag, tasks,
    transcript and error message, as long as every task number has at most
    4300 decimal digits; with a task number of more digits
    [serialize_result] raises [ValueError]. *)
Theorem deserialize_result_round_trip (r : PipelineResult.t) :
  if numbers_ok (PipelineResult.tasks r)
  then ∃ text,
         ResultSerializer.serialize_result r = Ok text
         ∧ ResultSerializer.deserialize_result text
           = Some (Ok (ResultSerializer.of_result r))
  else ResultSerializer.serialize_result r = Raise ValueError.
Proof.
  unfold ResultSerializer.deserialize_result, ResultSerializer.from_json,
    ResultSerializer.serialize_result, ResultSerializer.to_json.
  destruct (numbers_ok (PipelineResult.tasks r)) eqn:Hok.
  - destruct (loads_dumps (Object (ResultSerializer.to_dict r)))
      as [Hdumps Hloads];
      [apply distinct_keys_result|by rewrite ints_ok_result|].
    eexists. split; [exact Hdumps|]. rewrite Hloads.
    cbn [mbind option_bind Py.bind]. unfold ResultSerializer.from_dict.
    change (OutputSerializer.get_or "tasks" (Array [])
              (ResultSerializer.to_dict r))
      with (Array (List.map task_value (PipelineResult.tasks r))).
    cbn [OutputSerializer.comprehension]. rewrite items_from_dict_objects.
    reflexivity.
  - unfold dumps. by rewrite ints_ok_result, Hok.
Qed.

(** X3. [OutputSerializer.deserialize] also accepts the JSON of a whole
    pipeline result (of strings of the model and task numbers of at most
    4300 digits): it returns the tasks under the key ['tasks']. *)
Theorem deserialize_reads_result_tasks (r : PipelineResult.t) :
  numbers_ok (PipelineResult.tasks r) = true →
  ∃ text,
    ResultSerializer.serialize_result r = Ok text
    ∧ OutputSerializer.deserialize text
      = Some (Ok (List.map OutputSerializer.of_task (PipelineResult.tasks r))).
Proof.
  intros Hok.
  unfold OutputSerializer.deserialize, ResultSerializer.serialize_result,
    ResultSerializer.to_json.
  destruct (loads_dumps (Object (ResultSerializer.to_dict r)))
    as [Hdumps Hloads];
    [apply distinct_keys_result|by rewrite ints_ok_result|].
  eexists. split; [exact Hdumps|]. rewrite Hloads.
  cbn [mbind option_bind Py.bind].
  change (dict_get "tasks" (ResultSerializer.to_dict r))
    with (Some (Array (List.map task_value (PipelineResult.tasks r)))).
  cbn [OutputSerializer.comprehension]. by rewrite items_from_dict_objects.
Qed.

Lemma deserialize_reads_result_tasks_witness :
  numbers_ok
    (PipelineResult.tasks
       (PipelineResult.mk true [unassigned_task]
          (Some "We need to fix the login bug.") None)) = true
  ∧ ∃ text,
      ResultSerializer.serialize_result
        (PipelineResult.mk true [unassigned_task]
           (Some "We need to fix the login bug.") None) = Ok text
      ∧ OutputSerializer.deserialize text
        = Some (Ok (List.map OutputSerializer.of_task
                      (PipelineResult.tasks
                         (PipelineResult.mk true [unassigned_task]
                            (Some "We need to fix the login bug.") None)))).
Proof.
  assert (Hok : numbers_ok
                  (PipelineResult.tasks
                     (PipelineResult.mk true [unassigned_task]
                        (Some "We need to fix the login bug.") None)) = true)
    by (vm_compute; reflexivity).
  split; [exact Hok|].
  exact (deserialize_reads_result_tasks _ Hok).
Defined.

Lemma csv_row_blank_optionals task :
  OutputSerializer.csv_row (blank_optionals task)
  = OutputSerializer.csv_row task.
Proof. reflexivity. Qed.

Lemma serialize_to_csv_rows tasks : ∀ output,
  fold_left (λ output task,
               output +:+ Csv.writerow (OutputSerializer.csv_row task))
            (List.map blank_optionals tasks) output
  = fold_left (λ output task,
                 output +:+ Csv.writerow (OutputSerializer.csv_row task))
              tasks output.
Proof.
  induction tasks as [|t tasks IH]; intros output; [reflexivity|].
  cbn [List.map fold_left]. rewrite csv_row_blank_optionals. apply IH.
Qed.

(** X4. [serialize_to_csv] writes an absent optional field ([None]) and an
    empty string alike, so the CSV text of a task list is also the text of
    the list with [''] in every absent field; no reader of the text can
    return the original tasks for every list. *)
Theorem serialize_to_csv_forgets_absent_fields :
  (∀ tasks, OutputSerializer.serialize_to_csv (List.map blank_optionals tasks)
            = OutputSerializer.serialize_to_csv tasks)
  ∧ ∀ parse : string → list TaskOutput.t,
      ¬ ∀ tasks, parse (OutputSerializer.serialize_to_csv tasks) = tasks.
Proof.
  assert (H : ∀ tasks,
    OutputSerializer.serialize_to_csv (List.map blank_optionals tasks)
    = OutputSerializer.serialize_to_csv tasks).
  { intros tasks. apply serialize_to_csv_rows. }
  split; [exact H|]. intros parse Hparse.
  pose proof (Hparse [unassigned_task]) as H1.
  pose proof (Hparse (List.map blank_optionals [unassigned_task])) as H2.
  rewrite H, H1 in H2. discriminate.
Qed.



Lemma has_field_forallb data fields :
  forallb (λ f, ResultSerializer.has_field f data) fields = true
  ↔ List.filter (λ f, negb (ResultSerializer.has_field f data)) fields = [].
Proof.
  induction fields as [|f fields IH]; [done|].
  cbn [forallb List.filter].
  destruct (ResultSerializer.has_field f data); cbn [negb andb].
  - exact IH.
  - split; discriminate.
Qed.

(** X5. [validate_task_dict] accepts a dict exactly when
    [get_missing_fields] finds nothing missing; the missing fields are the
    required keys that the dict does not have, a key with the value [None]
    counting as present; and every dict that [to_dict] makes of a task is
    accepted. *)
Theorem validate_task_dict_accepts_serialized_tasks :
  (∀ data, ResultSerializer.validate_task_dict data = true
           ↔ ResultSerializer.get_missing_fields data = [])
  ∧ (∀ data f, f ∈ ResultSerializer.get_missing_fields data
               ↔ f ∈ ResultSerializer.REQUIRED_FIELDS
                 ∧ dict_get f data = None)
  ∧ ∀ task, ResultSerializer.validate_task_dict
              (OutputSerializer.to_dict task) = true.
Proof.
  split; [|split].
  - intros data. apply has_field_forallb.
  - intros data f. unfold ResultSerializer.get_missing_fields.
    rewrite elem_of_List_filter. unfold ResultSerializer.has_field.
    rewrite negb_true_iff, bool_decide_eq_false, <- eq_None_not_Some.
    tauto.
  - intros task. reflexivity.
Qed.

End SerializerProperties.

(** ** Names and skills (models.py, team_store.py) *)

Section StringProperties.

Lemma lower_char_idem c : lower_char (lower_char c) = lower_char c.
Proof. destruct c as [[] [] [] [] [] [] [] []]; reflexivity. Qed.

Lemma isspace_lower_char c : isspace (lower_char c) = isspace c.
Proof. destruct c as [[] [] [] [] [] [] [] []]; reflexivity. Qed.

Lemma lower_idem s : lower (lower s) = lower s.
Proof.
  induction s as [|c s IH]; [reflexivity|].
  cbn [lower]. rewrite lower_char_idem, IH. reflexivity.
Qed.

Lemma lstrip_lower s : lstrip (lower s) = lower (lstrip s).
Proof.
  induction s as [|c s IH]; [reflexivity|].
  cbn [lower lstrip]. rewrite isspace_lower_char.
  destruct (isspace c); [exact IH|reflexivity].
Qed.

Lemma rstrip_lower s : rstrip (lower s) = lower (rstrip s).
Proof.
  induction s as [|c s IH]; [reflexivity|].
  cbn [lower rstrip]. rewrite IH, isspace_lower_char.
  destruct (rstrip s); cbn [lower]; [|reflexivity].
  destruct (isspace c); reflexivity.
Qed.

Lemma strip_lower s : strip (lower s) = lower (strip s).
Proof. unfold strip. rewrite lstrip_lower, rstrip_lower. reflexivity. Qed.

Lemma rstrip_idem s : rstrip (rstrip s) = rstrip s.
Proof.
  induction s as [|c s IH]; [reflexivity|].
  cbn [rstrip]. destruct (rstrip s) as [|c' r] eqn:E.
  - destruct (isspace c) eqn:Hc; [reflexivity|].
    cbn [rstrip]. rewrite Hc. reflexivity.
  - cbn [rstrip] in *. rewrite IH. reflexivity.
Qed.

Lemma lstrip_head s :
  lstrip s = EmptyString
  ∨ ∃ c s', lstrip s = String c s' ∧ isspace c = false.
Proof.
  induction s as [|c s IH]; [left; reflexivity|].
  cbn [lstrip]. destruct (isspace c) eqn:Hc; [exact IH|].
  right. exists c, s. done.
Qed.

Lemma rstrip_head c s :
  isspace c = false → ∃ r, rstrip (String c s) = String c r.
Proof.
  intros Hc. cbn [rstrip]. rewrite Hc. destruct (rstrip s); eauto.
Qed.

Lemma strip_idem s : strip (strip s) = strip s.
Proof.
  unfold strip. destruct (lstrip_head s) as [->|(c & s' & -> & Hc)];
    [reflexivity|].
  destruct (rstrip_head c s' Hc) as [r Hr]. rewrite Hr.
  cbn [lstrip]. rewrite Hc, <- Hr. apply rstrip_idem.
Qed.

Lemma strip_head s :
  strip s = EmptyString ∨ ∃ c r, strip s = String c r ∧ isspace c = false.
Proof.
  unfold strip. destruct (lstrip_head s) as [->|(c & s' & -> & Hc)];
    [left; reflexivity|].
  destruct (rstrip_head c s' Hc) as [r Hr]. right. exists c, r. done.
Qed.

Lemma blank_lower s : blank (lower s) ↔ blank s.
Proof.
  induction s as [|c s IH]; [done|].
  cbn [lower]. rewrite !blank_cons, isspace_lower_char, IH. done.
Qed.

(** The key of a name does not depend on case or on surrounding
    whitespace. *)
Lemma name_key_idem name : name_key (name_key name) = name_key name.
Proof.
  unfold name_key.
  rewrite (strip_lower (strip (lower name))), strip_idem, <- strip_lower,
    lower_idem.
  reflexivity.
Qed.

Lemma name_key_blank name : blank name → name_key name = EmptyString.
Proof.
  intros Hb. unfold name_key.
  apply (proj2 (blank_lower _)) in Hb.
  apply (proj2 (strip_empty_iff_blank _)) in Hb.
  destruct (strip (lower name)); [reflexivity|discriminate].
Qed.

Lemma name_key_not_blank name :
  ¬ blank name → truthy (name_key name) = true.
Proof.
  intros Hnb. unfold name_key.
  destruct (truthy (strip (lower name))) eqn:E; [reflexivity|].
  apply (proj1 (strip_empty_iff_blank _)) in E.
  apply (proj1 (blank_lower _)) in E. contradiction.
Qed.

End StringProperties.

Section StoreProperties.

Import TeamMemberStore.

Lemma valid_member_spec member :
  ValidationResult.is_valid (validate_member member) = true
  ↔ ¬ blank (TeamMember.name member) ∧ ¬ blank (TeamMember.role member)
    ∧ TeamMember.skills member ≠ [].
Proof.
  unfold validate_member.
  pose proof (missing_test_iff_blank (TeamMember.name member)) as Hn.
  pose proof (missing_test_iff_blank (TeamMember.role member)) as Hr.
  destruct (negb (truthy (TeamMember.name member)) || _);
    destruct (negb (truthy (TeamMember.role member)) || _);
    destruct (TeamMember.skills member) as [|sk sks]; simpl;
    intuition (try (discriminate || congruence)).
Qed.

Lemma dict_get_None {V} key (members : list (string * V)) :
  dict_get key members = None ↔ key ∉ List.map fst members.
Proof.
  unfold dict_get. induction members as [|[k v] members IH].
  - cbn. split; [intros _; apply not_elem_of_nil|done].
  - cbn [List.find List.map fst]. rewrite not_elem_of_cons.
    destruct (String.eqb_spec key k) as [->|Hne]; cbn.
    + split; [discriminate|intros [[] _]; reflexivity].
    + rewrite <- IH. unfold fmap. tauto.
Qed.

Lemma dict_get_Some {V} key (v : V) (members : list (string * V)) :
  dict_get key members = Some v → (key, v) ∈ members.
Proof.
  unfold dict_get. induction members as [|[k w] members IH]; [discriminate|].
  cbn [List.find fst]. destruct (String.eqb_spec key k) as [->|Hne]; cbn.
  - intros [= ->]. apply list_elem_of_here.
  - intros H. apply list_elem_of_further, IH, H.
Qed.

Lemma dict_get_elem {V} key (v : V) (members : list (string * V)) :
  NoDup (List.map fst members) → (key, v) ∈ members →
  dict_get key members = Some v.
Proof.
  unfold dict_get. induction members as [|[k w] members IH];
    intros Hnd Hin; [by apply elem_of_nil in Hin|].
  cbn [List.map fst] in Hnd. apply NoDup_cons in Hnd as [Hk Hnd].
  cbn [List.find fst]. apply elem_of_cons in Hin as [[= <- <-]|Hin].
  - rewrite String.eqb_refl. reflexivity.
  - destruct (String.eqb_spec key k) as [->|Hne].
    + destruct Hk. apply list_elem_of_fmap. exists (k, v). done.
    + apply IH; assumption.
Qed.

Lemma dict_get_app {V} key (members more : list (string * V)) :
  dict_get key (members ++ more)
  = match dict_get key members with
    | Some v => Some v
    | None => dict_get key more
    end.
Proof.
  unfold dict_get. induction members as [|[k w] members IH]; [reflexivity|].
  cbn [app List.find fst]. destruct (String.eqb key k); [reflexivity|].
  exact IH.
Qed.

Lemma dict_get_here {V} key (v : V) :
  dict_get key [(key, v)] = Some v.
Proof. unfold dict_get. cbn. rewrite String.eqb_refl. reflexivity. Qed.

(** What [add_member] does to the store. *)
Lemma add_member_store member members :
  (add_member member members).2
  = if ValidationResult.is_valid (validate_member member)
       && bool_decide (dict_get (name_key (TeamMember.name member)) members
                       = None)
    then members ++ [(name_key (TeamMember.name member), member)]
    else members.
Proof.
  unfold add_member. fold (name_key (TeamMember.name member)).
  destruct (ValidationResult.is_valid (validate_member member));
    cbn [negb andb]; [|reflexivity].
  destruct (dict_get _ members); reflexivity.
Qed.

Lemma add_member_valid member members :
  ValidationResult.is_valid (add_member member members).1
  = ValidationResult.is_valid (validate_member member)
    && bool_decide (dict_get (name_key (TeamMember.name member)) members
                    = None).
Proof.
  unfold add_member. fold (name_key (TeamMember.name member)).
  destruct (ValidationResult.is_valid (validate_member member)) eqn:E;
    cbn [negb andb]; [|exact E].
  destruct (dict_get _ members); reflexivity.
Qed.

(** X6. When [add_member] accepts a member, the member is appended to the
    store, and [get_member], [find_by_name] and [in] find it under its name
    in any case and with any surrounding whitespace; when it rejects the
    member, the store is unchanged. *)
Theorem add_member_then_lookup (member : TeamMember.t) (members : t) :
  let r := add_member member members in
  if ValidationResult.is_valid r.1
  then get_all_members r.2 = get_all_members members ++ [member]
       ∧ len r.2 = S (len members)
       ∧ ∀ name, name_key name = name_key (TeamMember.name member) →
           get_member name r.2 = Some member
           ∧ find_by_name name r.2 = Some member
           ∧ contains name r.2 = true
  else r.2 = members.
Proof.
  cbv zeta. rewrite add_member_valid, add_member_store.
  destruct (ValidationResult.is_valid (validate_member member)
            && _) eqn:E; [|reflexivity].
  apply andb_prop in E as [_ Hnone%bool_decide_eq_true].
  unfold get_all_members, len. rewrite List.map_app, length_app.
  split; [reflexivity|]. split; [cbn; lia|].
  intros name Hkey.
  assert (Hget : dict_get (name_key name)
                   (members ++ [(name_key (TeamMember.name member), member)])
                 = Some member).
  { rewrite dict_get_app, Hkey, Hnone. apply dict_get_here. }
  unfold get_member, find_by_name, contains. fold (name_key name).
  rewrite Hget. split; [reflexivity|]. split; [reflexivity|].
  apply bool_decide_eq_true. eauto.
Qed.

Lemma store_ok_nil : store_ok [].
Proof. split; constructor. Qed.

Lemma add_member_ok member members :
  store_ok members → store_ok (add_member member members).2.
Proof.
  intros [Hnd Hall]. rewrite add_member_store.
  destruct (ValidationResult.is_valid (validate_member member)) eqn:Hv;
    cbn [andb]; [|done].
  destruct (bool_decide_reflect
              (dict_get (name_key (TeamMember.name member)) members = None))
    as [Hnone|_]; [|done].
  split.
  - rewrite List.map_app. apply NoDup_app. split; [exact Hnd|].
    split; [|apply NoDup_singleton].
    intros k Hk ->%list_elem_of_singleton.
    apply dict_get_None in Hnone. contradiction.
  - apply Forall_app. split; [exact Hall|]. constructor; [|constructor].
    done.
Qed.

Lemma store_keys_truthy members key member :
  store_ok members → (key, member) ∈ members → truthy key = true.
Proof.
  intros [_ Hall] Hin.
  apply (proj1 (Forall_forall _ _) Hall) in Hin as [Hk Hv].
  cbn [fst snd] in *. subst key.
  apply valid_member_spec in Hv as [Hn _].
  apply name_key_not_blank, Hn.
Qed.

Lemma fold_add_member_spec team_members : ∀ members,
  store_ok members →
  let store := fold_left (λ store member, (add_member member store).2)
                         team_members members in
  store_ok store
  ∧ (∀ kv, kv ∈ store → kv ∈ members ∨ kv.2 ∈ team_members)
  ∧ (∀ key, is_Some (dict_get key members) →
            dict_get key store = dict_get key members)
  ∧ (∀ member, member ∈ team_members →
       ValidationResult.is_valid (validate_member member) = true →
       is_Some (dict_get (name_key (TeamMember.name member)) store)).
Proof.
  induction team_members as [|m team_members IH]; intros members Hok;
    cbn [fold_left].
  - split; [exact Hok|]. split; [auto|]. split; [auto|].
    intros member Hin. by apply elem_of_nil in Hin.
  - pose proof (add_member_ok m members Hok) as Hok'.
    destruct (IH _ Hok') as (H1 & H2 & H3 & H4). clear IH.
    pose proof (add_member_store m members) as Hstore.
    split; [exact H1|]. split; [|split].
    + intros kv Hkv. destruct (H2 kv Hkv) as [Hin|Hin].
      * rewrite Hstore in Hin. destruct (_ && _).
        -- apply elem_of_app in Hin as [Hin|Hin%list_elem_of_singleton];
             [auto|]. subst kv. right. apply list_elem_of_here.
        -- auto.
      * right. apply list_elem_of_further, Hin.
    + intros key Hsome.
      assert (Hsame : dict_get key (add_member m members).2
                      = dict_get key members).
      { rewrite Hstore. destruct (_ && _); [|reflexivity].
        rewrite dict_get_app. destruct Hsome as [v ->]. reflexivity. }
      rewrite H3; [exact Hsame|]. rewrite Hsame. exact Hsome.
    + intros member [->|Hin]%elem_of_cons Hv; [|apply H4; assumption].
      assert (Hsome : is_Some (dict_get (name_key (TeamMember.name m))
                                        (add_member m members).2)).
      { rewrite Hstore, Hv. cbn [andb].
        destruct (bool_decide_reflect
                    (dict_get (name_key (TeamMember.name m)) members = None))
          as [Hnone|Hsome].
        - rewrite dict_get_app, Hnone, dict_get_here. eauto.
        - destruct (dict_get _ members); [eauto|done]. }
      rewrite H3; exact Hsome.
Qed.

(** X7. The store that the pipeline fills from a roster holds only valid
    members of the roster, no two under names that are equal up to case and
    surrounding whitespace, and every valid member of the roster can be
    looked up by its name: [get_member] finds a roster member with the same
    name up to case and whitespace. *)
Theorem team_store_of_spec (team_members : list TeamMember.t) :
  let store := MeetingTaskPipeline.team_store_of team_members in
  NoDup (List.map (λ m, name_key (TeamMember.name m))
                  (get_all_members store))
  ∧ (∀ m, m ∈ get_all_members store →
          m ∈ team_members
          ∧ ValidationResult.is_valid (validate_member m) = true)
  ∧ (∀ m, m ∈ team_members →
          ValidationResult.is_valid (validate_member m) = true →
          ∃ m', get_member (TeamMember.name m) store = Some m'
                ∧ m' ∈ team_members
                ∧ name_key (TeamMember.name m')
                  = name_key (TeamMember.name m)).
Proof.
  cbv zeta. unfold MeetingTaskPipeline.team_store_of.
  destruct (fold_add_member_spec team_members [] store_ok_nil)
    as ([Hnd Hall] & Hin & _ & Hfind).
  set (store := fold_left (λ store member, (add_member member store).2)
                         team_members []) in *.
  assert (Hkeys : List.map (λ m, name_key (TeamMember.name m))
                           (get_all_members store)
                  = List.map fst store).
  { unfold get_all_members. rewrite List.map_map.
    apply map_ext_Forall. eapply Forall_impl; [exact Hall|].
    intros kv [-> _]. reflexivity. }
  split; [rewrite Hkeys; exact Hnd|]. split.
  - intros m (kv & -> & Hkv)%list_elem_of_fmap. split.
    + destruct (Hin kv Hkv) as [H|H]; [by apply elem_of_nil in H|exact H].
    + apply (proj1 (Forall_forall _ _) Hall) in Hkv as [_ Hv]. exact Hv.
  - intros m Hm Hv. destruct (Hfind m Hm Hv) as [m' Hget].
    exists m'. unfold get_member. fold (name_key (TeamMember.name m)).
    split; [exact Hget|].
    apply dict_get_Some in Hget.
    split.
    + destruct (Hin _ Hget) as [H|H]; [by apply elem_of_nil in H|exact H].
    + apply (proj1 (Forall_forall _ _) Hall) in Hget as [Hk _].
      cbn [fst snd] in Hk. symmetry. exact Hk.
Qed.

Lemma str_in_empty s : str_in EmptyString s = true.
Proof. destruct s; reflexivity. Qed.

(** X8. A name that is empty or holds only whitespace matches every key as
    a substring: on a store built by [add_member], [find_by_name] then
    returns the member that was added first, and [None] only on the empty
    store. *)
Theorem find_by_name_blank (members : t) (name : string) :
  store_ok members → blank name →
  find_by_name name members = head (get_all_members members).
Proof.
  intros Hok Hblank. unfold find_by_name. fold (name_key name).
  rewrite (name_key_blank name Hblank).
  destruct (dict_get EmptyString members) as [m|] eqn:Hget.
  - apply dict_get_Some in Hget.
    apply (store_keys_truthy _ _ _ Hok) in Hget. discriminate.
  - destruct members as [|[k m] members]; [reflexivity|].
    cbn [List.find fst]. rewrite str_in_empty. reflexivity.
Qed.

Lemma find_by_name_blank_witness :
  store_ok qa_store ∧ blank " "
  ∧ find_by_name " " qa_store = head (get_all_members qa_store).
Proof.
  assert (Hok : store_ok qa_store).
  { apply add_member_ok, store_ok_nil. }
  assert (Hblank : blank " ").
  { repeat constructor. }
  split; [exact Hok|]. split; [exact Hblank|].
  exact (find_by_name_blank qa_store " " Hok Hblank).
Defined.

End StoreProperties.

Section MemberProperties.

Lemma truthy_lower s : truthy (lower s) = truthy s.
Proof. destruct s; reflexivity. Qed.

Lemma normalized_skill s :
  truthy (strip s) = true → normalized (strip (lower s)).
Proof.
  intros Hs. split; [|split].
  - rewrite strip_lower, truthy_lower. exact Hs.
  - apply strip_idem.
  - rewrite <- strip_lower, lower_idem. reflexivity.
Qed.

Lemma normalize_normalized l :
  Forall normalized l →
  List.map (λ s, strip (lower s)) (List.filter (λ s, truthy (strip s)) l) = l.
Proof.
  induction 1 as [|s l (Ht & Hs & Hl) _ IH]; [reflexivity|].
  cbn [List.filter]. rewrite Hs, Ht. cbn [List.map].
  rewrite Hl, Hs, IH. reflexivity.
Qed.

Lemma filter_nil_iff {A} (f : A → bool) l :
  List.filter f l = [] ↔ Forall (λ x, f x = false) l.
Proof.
  induction l as [|x l IH]; [split; [constructor|done]|].
  cbn [List.filter]. rewrite Forall_cons, <- IH.
  destruct (f x); split; try discriminate; intuition congruence.
Qed.

(** X9. The constructor of [TeamMember] keeps the skills that are not
    blank, each in lower case without surrounding whitespace; the list is
    empty exactly when every given skill is blank; and normalising is
    idempotent: [TeamMember.from_dict(member.to_dict())] is the member
    itself. *)
Theorem team_member_skills_are_normalized (n r : string) (sk : list string) :
  let member := TeamMember.init n r sk in
  Forall normalized (TeamMember.normalized_skills member)
  ∧ (TeamMember.normalized_skills member = [] ↔ Forall blank sk)
  ∧ (let '(d_name, d_role, d_skills) := TeamMember.to_dict member in
     TeamMember.from_dict d_name d_role d_skills = member).
Proof.
  cbv zeta.
  assert (Hnorm : Forall normalized
                    (TeamMember.skills (TeamMember.init n r sk))).
  { unfold TeamMember.init. cbn [TeamMember.skills].
    apply Forall_forall. intros s (s0 & -> & Hs0)%list_elem_of_fmap.
    apply elem_of_List_filter in Hs0 as [_ Hs0].
    apply normalized_skill, Hs0. }
  split; [exact Hnorm|]. split.
  - unfold TeamMember.normalized_skills, TeamMember.init.
    cbn [TeamMember.skills].
    split.
    + intros H. apply List.map_eq_nil in H.
      apply (proj1 (filter_nil_iff _ _)) in H.
      eapply Forall_impl; [exact H|].
      intros s Hs. cbv beta in Hs. apply strip_empty_iff_blank, Hs.
    + intros H.
      assert (Hf : List.filter (λ s, truthy (strip s)) sk = []).
      { apply filter_nil_iff. eapply Forall_impl; [exact H|].
        intros s Hs. apply strip_empty_iff_blank, Hs. }
      rewrite Hf. reflexivity.
  - set (member := TeamMember.init n r sk) in *.
    cbv [TeamMember.to_dict TeamMember.from_dict default].
    unfold TeamMember.init. cbv [id].
    rewrite (normalize_normalized _ Hnorm). reflexivity.
Qed.

End MemberProperties.

(** ** Deadlines (deadline_parser.py) *)

Section DeadlineProperties.

Import Datetime DeadlineParser.

Lemma weekday_add D k : weekday (D + k) = (weekday D + k) mod 7.
Proof. unfold weekday. Z.div_mod_to_equations. lia. Qed.

(** X10. [_next_weekday] returns the first date strictly after [from_date]
    that falls on the requested weekday: one to seven days later, a full
    week later when [from_date] is itself such a day. It raises
    [OverflowError] only when that date is after [date.max]. *)
Theorem next_weekday_is_the_next_such_day (D wd : Z) :
  is_date D → 0 <= wd <= 6 →
  match _next_weekday D wd with
  | Ok d =>
      is_date d ∧ D < d <= D + 7 ∧ weekday d = wd
      ∧ (∀ d', D < d' < d → weekday d' ≠ wd)
  | Raise e => e = OverflowError ∧ MAXORDINAL - 7 < D
  end.
Proof.
  intros [HD1 HD2] Hwd. unfold _next_weekday, add_days. cbv zeta.
  pose proof (weekday_range D) as Hw.
  set (k := if wd - weekday D <=? 0 then wd - weekday D + 7
            else wd - weekday D).
  assert (Hk : 1 <= k <= 7 ∧ (weekday D + k) mod 7 = wd
               ∧ ∀ j, 1 <= j < k → (weekday D + j) mod 7 ≠ wd).
  { subst k. destruct (Z.leb_spec (wd - weekday D) 0);
      (split; [lia|]); (split; [Z.div_mod_to_equations; lia|]);
      intros j Hj; Z.div_mod_to_equations; lia. }
  clearbody k. destruct Hk as (Hk & Hwk & Hmin).
  destruct (Z.leb_spec (Z.abs k) 999999999); [|lia].
  destruct (Z.ltb_spec 0 (D + k)); [|lia].
  destruct (Z.leb_spec (D + k) MAXORDINAL); cbn [andb].
  - split; [unfold is_date; lia|]. split; [lia|].
    split; [rewrite weekday_add; exact Hwk|].
    intros d' Hd'. replace d' with (D + (d' - D)) by lia.
    rewrite weekday_add. apply Hmin. lia.
  - split; [reflexivity|lia].
Qed.

Lemma next_weekday_is_the_next_such_day_witness :
  is_date 738886 ∧ 0 <= 0 <= 6
  ∧ match _next_weekday 738886 0 with
    | Ok d =>
        is_date d ∧ 738886 < d <= 738886 + 7 ∧ weekday d = 0
        ∧ (∀ d', 738886 < d' < d → weekday d' ≠ 0)
    | Raise e => e = OverflowError ∧ MAXORDINAL - 7 < 738886
    end.
Proof.
  assert (HD : is_date 738886) by (unfold is_date, MAXORDINAL; lia).
  assert (Hwd : 0 <= 0 <= 6) by lia.
  split; [exact HD|]. split; [exact Hwd|].
  exact (next_weekday_is_the_next_such_day 738886 0 HD Hwd).
Defined.

(** X11. [_end_of_week] returns the first Friday on or after [from_date]:
    [from_date] itself on a Friday, and on a Saturday or Sunday the Friday
    of the following week. It raises [OverflowError] only when that Friday
    is after [date.max]. *)
Theorem end_of_week_is_the_coming_friday (D : Z) :
  is_date D →
  match _end_of_week D with
  | Ok d =>
      is_date d ∧ D <= d <= D + 6 ∧ weekday d = 4
      ∧ (∀ d', D <= d' < d → weekday d' ≠ 4)
  | Raise e => e = OverflowError ∧ MAXORDINAL - 6 < D
  end.
Proof.
  intros [HD1 HD2]. unfold _end_of_week, add_days. cbv zeta.
  pose proof (weekday_range D) as Hw.
  set (k := if 4 - weekday D <? 0 then 4 - weekday D + 7
            else 4 - weekday D).
  assert (Hk : 0 <= k <= 6 ∧ (weekday D + k) mod 7 = 4
               ∧ ∀ j, 0 <= j < k → (weekday D + j) mod 7 ≠ 4).
  { subst k. destruct (Z.ltb_spec (4 - weekday D) 0);
      (split; [lia|]); (split; [Z.div_mod_to_equations; lia|]);
      intros j Hj; Z.div_mod_to_equations; lia. }
  clearbody k. destruct Hk as (Hk & Hwk & Hmin).
  destruct (Z.leb_spec (Z.abs k) 999999999); [|lia].
  destruct (Z.ltb_spec 0 (D + k)); [|lia].
  destruct (Z.leb_spec (D + k) MAXORDINAL); cbn [andb].
  - split; [unfold is_date; lia|]. split; [lia|].
    split; [rewrite weekday_add; exact Hwk|].
    intros d' Hd'. replace d' with (D + (d' - D)) by lia.
    rewrite weekday_add. apply Hmin. lia.
  - split; [reflexivity|lia].
Qed.

Lemma end_of_week_is_the_coming_friday_witness :
  is_date 738886
  ∧ match _end_of_week 738886 with
    | Ok d =>
        is_date d ∧ 738886 <= d <= 738886 + 6 ∧ weekday d = 4
        ∧ (∀ d', 738886 <= d' < d → weekday d' ≠ 4)
    | Raise e => e = OverflowError ∧ MAXORDINAL - 6 < 738886
    end.
Proof.
  assert (HD : is_date 738886) by (unfold is_date, MAXORDINAL; lia).
  split; [exact HD|].
  exact (end_of_week_is_the_coming_friday 738886 HD).
Defined.

(** *** The calendar fields of a date *)

Lemma days_before_year_mono y y' :
  1 <= y <= y' → _days_before_year y <= _days_before_year y'.
Proof.
  intros Hy. unfold _days_before_year. cbv zeta.
  destruct (Z.eq_dec y y') as [->|Hne]; [lia|].
  Z.div_mod_to_equations. lia.
Qed.

Ltac month_cases m :=
  let H := fresh "Hcases" in
  assert (H : m = 1 ∨ m = 2 ∨ m = 3 ∨ m = 4 ∨ m = 5 ∨ m = 6 ∨ m = 7
              ∨ m = 8 ∨ m = 9 ∨ m = 10 ∨ m = 11 ∨ m = 12) by lia;
  repeat (destruct H as [->|H]); [..|subst m].

Lemma offset_bound y m dd :
  1 <= m <= 12 → 1 <= dd <= _days_in_month y m →
  1 <= _days_before_month y m + dd
       <= 365 + (if _is_leap y then 1 else 0).
Proof.
  intros Hm. unfold _days_in_month, _days_before_month.
  destruct (_is_leap y); month_cases m; simpl; lia.
Qed.

Lemma days_before_month_mono y m m' :
  1 <= m → m < m' → m' <= 12 →
  _days_before_month y m + _days_in_month y m <= _days_before_month y m'.
Proof.
  intros H1 Hlt H12.
  assert (Hstep : ∀ k, 1 <= k <= 11 →
            _days_before_month y k + _days_in_month y k
            = _days_before_month y (k + 1)).
  { intros k Hk. symmetry. apply days_before_next_month, Hk. }
  assert (Hmono : ∀ n k, 1 <= k → k + Z.of_nat n <= 12 →
            _days_before_month y k
            <= _days_before_month y (k + Z.of_nat n)).
  { induction n as [|n IH]; intros k Hk Hle.
    - replace (k + Z.of_nat 0) with k by lia. lia.
    - replace (k + Z.of_nat (S n)) with ((k + 1) + Z.of_nat n) by lia.
      specialize (IH (k + 1) ltac:(lia) ltac:(lia)).
      specialize (Hstep k ltac:(lia)).
      assert (0 <= _days_in_month y k).
      { unfold _days_in_month. destruct (_is_leap y); month_cases k;
          simpl; lia. }
      lia. }
  rewrite Hstep by lia.
  specialize (Hmono (Z.to_nat (m' - (m + 1))) (m + 1) ltac:(lia) ltac:(lia)).
  replace (m + 1 + Z.of_nat (Z.to_nat (m' - (m + 1)))) with m' in Hmono
    by lia.
  exact Hmono.
Qed.

Lemma ymd2ord_inj y m dd y' m' dd' :
  1 <= y → 1 <= m <= 12 → 1 <= dd <= _days_in_month y m →
  1 <= y' → 1 <= m' <= 12 → 1 <= dd' <= _days_in_month y' m' →
  _ymd2ord y m dd = _ymd2ord y' m' dd' → y = y' ∧ m = m' ∧ dd = dd'.
Proof.
  intros Hy Hm Hd Hy' Hm' Hd' Heq. unfold _ymd2ord in Heq.
  pose proof (offset_bound y m dd Hm Hd) as Ho.
  pose proof (offset_bound y' m' dd' Hm' Hd') as Ho'.
  pose proof (days_before_next_year y) as Hn.
  pose proof (days_before_next_year y') as Hn'.
  set (extra := if _is_leap y then 1 else 0) in *.
  set (extra' := if _is_leap y' then 1 else 0) in *.
  clearbody extra extra'.
  assert (y = y') as <-.
  { destruct (Z.lt_trichotomy y y') as [Hlt|[Heq'|Hgt]]; [|exact Heq'|].
    - pose proof (days_before_year_mono (y + 1) y' ltac:(lia)). lia.
    - pose proof (days_before_year_mono (y' + 1) y ltac:(lia)). lia. }
  split; [reflexivity|].
  assert (m = m') as <-.
  { destruct (Z.lt_trichotomy m m') as [Hlt|[Heq'|Hgt]]; [|exact Heq'|].
    - pose proof (days_before_month_mono y m m' ltac:(lia) Hlt ltac:(lia)).
      lia.
    - pose proof (days_before_month_mono y m' m ltac:(lia) Hgt ltac:(lia)).
      lia. }
  split; [reflexivity|lia].
Qed.

(** [date(y, m, d)] exists for a day of the calendar and has these
    fields. *)
Lemma ord2ymd_ymd2ord y m dd :
  1 <= y <= MAXYEAR → 1 <= m <= 12 → 1 <= dd <= _days_in_month y m →
  let n := _ymd2ord y m dd in
  is_date n ∧ year n = y ∧ month n = m ∧ day n = dd.
Proof.
  intros Hy Hm Hd n.
  assert (Hn : is_date n).
  { subst n. unfold _ymd2ord, is_date, MAXORDINAL.
    pose proof (offset_bound y m dd Hm Hd).
    pose proof (days_before_next_year y).
    pose proof (days_before_year_bound y Hy).
    unfold MAXYEAR in Hy.
    pose proof (days_before_year_mono (y + 1) 10000 ltac:(lia)) as Hmax.
    change (_days_before_year 10000) with 3652059 in Hmax.
    set (extra := if _is_leap y then 1 else 0) in *. clearbody extra.
    lia. }
  split; [exact Hn|].
  destruct (ord2ymd_spec n Hn) as (Hy' & Hm' & Hd' & Hord).
  destruct (ymd2ord_inj (year n) (month n) (day n) y m dd
              ltac:(lia) Hm' Hd' ltac:(lia) Hm Hd Hord) as (? & ? & ?).
  done.
Qed.

Lemma mk_date_ok y m dd :
  1 <= y <= MAXYEAR → 1 <= m <= 12 → 1 <= dd <= _days_in_month y m →
  mk_date y m dd = Ok (_ymd2ord y m dd).
Proof.
  intros Hy Hm Hd. unfold mk_date.
  repeat match goal with
         | |- context [?a <=? ?b] =>
             destruct (Z.leb_spec a b); [|lia]
         end.
  reflexivity.
Qed.

Lemma end_of_month_value D :
  is_date D →
  _end_of_month D
  = if (year D =? MAXYEAR) && (month D =? 12) then Raise ValueError
    else Ok (_ymd2ord (year D) (month D)
                      (_days_in_month (year D) (month D))).
Proof.
  intros HD.
  destruct (ord2ymd_spec D HD) as (Hy & Hm & Hd & Hord).
  unfold _end_of_month.
  set (y := year D) in *. set (m := month D) in *. set (dd := day D) in *.
  clearbody y m dd.
  assert (Hdim : ∀ k, 1 <= k <= 12 → 28 <= _days_in_month y k <= 31).
  { intros k Hk. unfold _days_in_month.
    destruct (_is_leap y); month_cases k; simpl; lia. }
  assert (Hadd : ∀ n, 1 < n <= MAXORDINAL + 1 → add_days n (-1) = Ok (n - 1)).
  { intros n Hn. unfold add_days.
    change (Z.abs (-1) <=? 999999999) with true.
    destruct (Z.ltb_spec 0 (n + -1)); [|lia].
    destruct (Z.leb_spec (n + -1) MAXORDINAL); [|lia].
    cbn [andb]. f_equal; lia. }
  destruct (Z.eqb_spec m 12) as [->|Hm12].
  - destruct (Z.eqb_spec y MAXYEAR) as [->|Hy9]; cbn [andb].
    + reflexivity.
    + unfold MAXYEAR in *.
      rewrite mk_date_ok by (unfold MAXYEAR; (done || lia)).
      cbn [bind].
      pose proof (days_before_next_year y) as Hnext.
      pose proof (days_before_year_bound (y + 1)
                    ltac:(unfold MAXYEAR; lia)) as Hb.
      assert (H12 : _days_before_month y 12 + _days_in_month y 12
                    = 365 + (if _is_leap y then 1 else 0)).
      { unfold _days_before_month, _days_in_month.
        destruct (_is_leap y); reflexivity. }
      pose proof (days_before_year_bound y ltac:(unfold MAXYEAR; lia)).
      assert (Hextra : 0 <= (if _is_leap y then 1 else 0) <= 1)
        by (destruct (_is_leap y); lia).
      set (extra := if _is_leap y then 1 else 0) in *. clearbody extra.
      unfold _ymd2ord in *.
      change (_days_before_month (y + 1) 1) with 0.
      rewrite Hadd by (unfold MAXORDINAL; lia). f_equal; lia.
  - rewrite andb_false_r.
    pose proof (Hdim (m + 1) ltac:(lia)).
    rewrite mk_date_ok by (done || lia).
    cbn [bind].
    pose proof (days_before_next_month y m ltac:(lia)) as Hnext.
    pose proof (Hdim m ltac:(lia)).
    pose proof (days_before_year_bound y Hy) as Hb.
    pose proof (offset_bound y (m + 1) 1 ltac:(lia) ltac:(lia)).
    pose proof (offset_bound y m dd Hm Hd).
    assert (Hextra : 0 <= (if _is_leap y then 1 else 0) <= 1)
      by (destruct (_is_leap y); lia).
    set (extra := if _is_leap y then 1 else 0) in *. clearbody extra.
    unfold _ymd2ord in *.
    rewrite Hadd by (unfold MAXORDINAL; lia). f_equal; lia.
Qed.

(** X12. [_end_of_month] returns the last day of the month of [from_date]:
    a date of the same year and month, on or after [from_date], whose day
    is the number of days of that month. In December 9999, and only then,
    it raises [ValueError], because [date(10000, 1, 1)] does not exist. *)
Theorem end_of_month_is_the_last_day (D : Z) :
  is_date D →
  if (year D =? MAXYEAR) && (month D =? 12)
  then _end_of_month D = Raise ValueError
  else ∃ d,
         _end_of_month D = Ok d
         ∧ is_date d ∧ D <= d ∧ year d = year D ∧ month d = month D
         ∧ day d = _days_in_month (year D) (month D).
Proof.
  intros HD. rewrite (end_of_month_value D HD).
  destruct (ord2ymd_spec D HD) as (Hy & Hm & Hd & Hord).
  destruct ((year D =? MAXYEAR) && (month D =? 12)); [reflexivity|].
  assert (Hlast : 1 <= _days_in_month (year D) (month D)
                    <= _days_in_month (year D) (month D)) by lia.
  destruct (ord2ymd_ymd2ord _ _ _ Hy Hm Hlast) as (H1 & H2 & H3 & H4).
  eexists. split; [reflexivity|]. split; [exact H1|]. split; [|done].
  rewrite <- Hord at 1. unfold _ymd2ord. lia.
Qed.

Lemma end_of_month_is_the_last_day_witness :
  is_date 738886
  ∧ ∃ d,
      _end_of_month 738886 = Ok d
      ∧ is_date d ∧ 738886 <= d ∧ year d = year 738886
      ∧ month d = month 738886
      ∧ day d = _days_in_month (year 738886) (month 738886).
Proof.
  assert (HD : is_date 738886) by (unfold is_date, MAXORDINAL; lia).
  split; [exact HD|].
  exact (end_of_month_is_the_last_day 738886 HD).
Defined.

(** The last month of the calendar: [_end_of_month] raises on 9999-12-12. *)
Example end_of_month_in_december_9999 :
  is_date 3652040 ∧ year 3652040 = MAXYEAR ∧ month 3652040 = 12
  ∧ _end_of_month 3652040 = Raise ValueError.
Proof. repeat split; vm_compute; congruence. Qed.

(** X13. [parse] does not depend on the case of the phrase or on
    whitespace around it: it answers for a phrase what it answers for the
    lowercased, stripped phrase. *)
Theorem parse_ignores_case_and_padding
    (today : date) (phrase : string) (reference_date : option date) :
  parse today phrase reference_date
  = parse today (strip (lower phrase)) reference_date.
Proof.
  destruct phrase as [|c s]; [reflexivity|].
  unfold parse at 1. cbn [truthy negb].
  pose proof (name_key_idem (String c s)) as Hidem. unfold name_key in Hidem.
  destruct (strip (lower (String c s))) as [|c' s'] eqn:E; [reflexivity|].
  unfold parse. cbn [truthy negb]. rewrite Hidem. reflexivity.
Qed.

(** X14. A phrase that is the name of a weekday, or ["by"] followed by
    one, in any case and with whitespace around it, is answered by
    [_next_weekday]: the next such day strictly after the reference
    date. *)
Theorem parse_weekday_name
    (today : date) (phrase : string) (reference_date : option date)
    (name : string) (day_num : Z) :
  (name, day_num) ∈ WEEKDAYS →
  strip (lower phrase) = name ∨ strip (lower phrase) = ("by " +:+ name)%string →
  parse today phrase reference_date
  = (d ←! _next_weekday (default today reference_date) day_num;
     Ok (Some d)).
Proof.
  intros Hin Hphrase.
  assert (Hname : truthy name = true).
  { unfold WEEKDAYS in Hin.
    repeat (apply elem_of_cons in Hin as [[= -> ->]|Hin]; [reflexivity|]).
    by apply elem_of_nil in Hin. }
  destruct phrase as [|c s].
  { destruct Hphrase as [<-|H]; [discriminate|].
    destruct name; discriminate. }
  unfold parse. cbn [truthy negb].
  unfold WEEKDAYS in Hin.
  destruct Hphrase as [->| ->];
    repeat (apply elem_of_cons in Hin as [[= -> ->]|Hin]; [reflexivity|]);
    by apply elem_of_nil in Hin.
Qed.

Lemma parse_weekday_name_witness :
  ("friday"%string, 4) ∈ WEEKDAYS
  ∧ (strip (lower " By Friday ") = "friday"%string
     ∨ strip (lower " By Friday ") = ("by " +:+ "friday")%string)
  ∧ parse 1 " By Friday " (Some 738886)
    = (d ←! _next_weekday (default 1 (Some 738886)) 4; Ok (Some d)).
Proof.
  assert (Hin : ("friday"%string, 4) ∈ WEEKDAYS).
  { apply list_elem_of_In. vm_compute. tauto. }
  assert (Hphrase : strip (lower " By Friday ") = "friday"%string
                    ∨ strip (lower " By Friday ")
                      = ("by " +:+ "friday")%string).
  { right. reflexivity. }
  split; [exact Hin|]. split; [exact Hphrase|].
  exact (parse_weekday_name 1 " By Friday " (Some 738886) "friday" 4
           Hin Hphrase).
Defined.

(** X15. Every date that [parse] returns for a phrase of the relative
    table is accepted by [is_valid_deadline] for the same reference date,
    as long as the reference date is at least 365 days before
    [date.max]. *)
Theorem table_deadlines_are_valid (today : date) (phrase : string) (D : date) :
  is_date D → D + 365 <= MAXORDINAL →
  phrase ∈ List.map fst RELATIVE_PATTERNS →
  ∃ d, parse today phrase (Some D) = Ok (Some d)
       ∧ is_valid_deadline today d (Some D) = Ok true.
Proof.
  intros HD Hmax Hin.
  destruct (table_keys phrase Hin) as (Ht & f & Hf & Hget).
  rewrite (parse_table_entry today phrase f D Ht Hget).
  pose proof (table_entries_within phrase f D Hf HD) as Hwithin.
  unfold within_a_year in Hwithin.
  destruct (f D) as [d|e]; [|lia].
  destruct Hwithin as [Hd _]. exists d. split; [reflexivity|].
  unfold is_valid_deadline, add_days.
  change (default today (Some D)) with D.
  destruct HD as [HD1 HD2].
  destruct (Z.ltb_spec d D); [lia|].
  change (Z.abs 365 <=? 999999999) with true.
  destruct (Z.ltb_spec 0 (D + 365)); [|lia].
  destruct (Z.leb_spec (D + 365) MAXORDINAL); [|lia].
  cbn [andb bind]. destruct (Z.ltb_spec (D + 365) d); [lia|reflexivity].
Qed.

Lemma table_deadlines_are_valid_witness :
  is_date 738886 ∧ 738886 + 365 <= MAXORDINAL
  ∧ "next friday"%string ∈ List.map fst RELATIVE_PATTERNS
  ∧ ∃ d, parse 1 "next friday" (Some 738886) = Ok (Some d)
         ∧ is_valid_deadline 1 d (Some 738886) = Ok true.
Proof.
  assert (HD : is_date 738886) by (unfold is_date, MAXORDINAL; lia).
  assert (Hmax : 738886 + 365 <= MAXORDINAL) by (unfold MAXORDINAL; lia).
  assert (Hin : "next friday"%string ∈ List.map fst RELATIVE_PATTERNS).
  { apply list_elem_of_In. vm_compute. tauto. }
  split; [exact HD|]. split; [exact Hmax|]. split; [exact Hin|].
  exact (table_deadlines_are_valid 1 "next friday" 738886 HD Hmax Hin).
Defined.

End DeadlineProperties.

(** ** Priorities (priority_classifier.py) *)

Section ClassifierProperties.

Import Datetime PriorityClassifier.

Variable today : date.

(** X16. How the deadline enters [classify]. When the text does not say
    'can wait': a deadline that is at most one day after the reference date
    (today, tomorrow, or already past) makes the task Critical, whatever
    else the text says; a deadline two days ahead makes it Critical if there
    is a critical indicator and High otherwise, never Low or Medium. A
    deadline more than two days ahead has no influence at all: the result
    is the one without a deadline. *)
Theorem deadline_urgency_in_classify
    (task : ExtractedTask.t) (deadline : date) (reference_date : option date) :
  let days_until := days_between deadline (default today reference_date) in
  let text_lower := lower (ExtractedTask.raw_text task) in
  let indicators := ExtractedTask.priority_indicators task in
  (str_in "can wait" text_lower = false → days_until <= 1 →
   classify today task (Some deadline) reference_date = CRITICAL)
  ∧ (str_in "can wait" text_lower = false → days_until = 2 →
     classify today task (Some deadline) reference_date
     = if _has_critical_indicators text_lower indicators then CRITICAL
       else HIGH)
  ∧ (2 < days_until →
     classify today task (Some deadline) reference_date
     = classify today task None reference_date).
Proof.
  cbv zeta. unfold classify, _check_deadline_urgency. cbv zeta.
  set (days := days_between deadline (default today reference_date)).
  split; [|split].
  - intros -> Hd. destruct (Z.leb_spec days 1); [|lia].
    by destruct (_has_critical_indicators _ _).
  - intros -> Hd. destruct (Z.leb_spec days 1); [lia|].
    destruct (Z.leb_spec days 2); [|lia].
    destruct (_has_critical_indicators _ _); [done|].
    by destruct (_has_high_indicators _ _).
  - intros Hd. destruct (Z.leb_spec days 1); [lia|].
    destruct (Z.leb_spec days 2); [lia|]. reflexivity.
Qed.

(** X17. [classify] returns Low in exactly one situation: the text does not
    say 'can wait', there is no critical and no high indicator, there is a
    low indicator, and the deadline, if any, is more than two days after
    the reference date. *)
Theorem classify_low_iff
    (task : ExtractedTask.t) (deadline : option date)
    (reference_date : option date) :
  let text_lower := lower (ExtractedTask.raw_text task) in
  let indicators := ExtractedTask.priority_indicators task in
  classify today task deadline reference_date = LOW
  ↔ str_in "can wait" text_lower = false
    ∧ _has_critical_indicators text_lower indicators = false
    ∧ _has_high_indicators text_lower indicators = false
    ∧ _has_low_indicators text_lower indicators = true
    ∧ ∀ d, deadline = Some d →
           2 < days_between d (default today reference_date).
Proof.
  cbv zeta. unfold classify, _check_deadline_urgency. cbv zeta.
  destruct (str_in "can wait" _); [split; [done|by intros [? _]]|].
  destruct (_has_critical_indicators _ _);
    [split; [done|by intros (_ & ? & _)]|].
  destruct deadline as [d|].
  - set (days := days_between d (default today reference_date)).
    assert (Hdays : (∀ d0, Some d = Some d0 →
                       2 < days_between d0 (default today reference_date))
                    ↔ 2 < days).
    { split; [intros H; exact (H d eq_refl)|intros H d0 [= <-]; exact H]. }
    rewrite Hdays. clear Hdays.
    destruct (Z.leb_spec days 1) as [Hle1|Hgt1];
      [split; [done|intros (_ & _ & _ & _ & Hgt); lia]|].
    destruct (Z.leb_spec days 2) as [Hle2|Hgt2].
    + destruct (_has_high_indicators _ _);
        (split; [done|intros (_ & _ & _ & _ & Hgt); lia]).
    + destruct (_has_high_indicators _ _);
        [split; [done|by intros (_ & _ & ? & _)]|].
      destruct (_has_low_indicators _ _).
      * split; [|done]. intros _. repeat split. exact Hgt2.
      * split; [done|by intros (_ & _ & _ & ? & _)].
  - destruct (_has_high_indicators _ _);
      [split; [done|by intros (_ & _ & ? & _)]|].
    destruct (_has_low_indicators _ _).
    + split; [|done]. intros _. repeat split. intros d' [=].
    + split; [done|by intros (_ & _ & _ & ? & _)].
Qed.

End ClassifierProperties.

(** ** Assignment (assignment_engine.py) *)

Section AssignmentChoice.

Import AssignmentEngine.

Variable set_order : list string → list string.

Lemma find_by_name_in_store name team_store member :
  TeamMemberStore.find_by_name name team_store = Some member →
  member ∈ TeamMemberStore.get_all_members team_store.
Proof.
  unfold TeamMemberStore.find_by_name, TeamMemberStore.get_all_members.
  destruct (dict_get _ team_store) as [m|] eqn:Hget.
  - intros [= ->]. apply dict_get_Some in Hget.
    apply list_elem_of_fmap. by exists (strip (lower name), member).
  - destruct (List.find _ team_store) as [[k m]|] eqn:Hfind; [|done].
    intros [= ->]. apply find_some in Hfind as [Hin _].
    apply list_elem_of_fmap. exists (k, member). split; [done|].
    by apply list_elem_of_In.
Qed.

Lemma best_match_in_members task_domains primary_domain
    (members more : list TeamMember.t) :
  ∀ (acc : option TeamMember.t * Float.t * list string) m,
    (∀ m', acc.1.1 = Some m' → m' ∈ members) →
    (∀ m', m' ∈ more → m' ∈ members) →
    (fold_left
       (λ '(best_member, best_score, matched_skills) member,
          let '(score, skills) :=
            _calculate_skill_score set_order task_domains member in
          let score := role_boost primary_domain member score in
          if Float.ltb best_score score then (Some member, score, skills)
          else (best_member, best_score, matched_skills))
       more acc).1.1 = Some m →
    m ∈ members.
Proof.
  induction more as [|member more IH]; intros [[best score] matched] m
    Hacc Hmore; cbn [fold_left].
  - apply Hacc.
  - apply IH.
    + destruct (_calculate_skill_score set_order task_domains member)
        as [score' skills].
      cbv zeta.
      destruct (Float.ltb score (role_boost primary_domain member score'));
        cbn [fst].
      * intros m' [= <-]. apply Hmore, list_elem_of_here.
      * exact Hacc.
    + intros m' Hm'. apply Hmore, list_elem_of_further, Hm'.
Qed.

Lemma match_by_skills_in_store task team_store r :
  _match_by_skills set_order task team_store = Some r →
  ∃ member, AssignmentResult.team_member r = Some member
            ∧ member ∈ TeamMemberStore.get_all_members team_store.
Proof.
  unfold _match_by_skills. cbv zeta.
  destruct (_extract_domains _) as [|domain domains]; [done|].
  destruct (best_match _ _ _ _) as [[best_member best_score] matched] eqn:E.
  destruct best_member as [member|]; [|done].
  destruct (Float.ltb _ best_score); [|done].
  intros [= <-]. cbn [AssignmentResult.team_member].
  exists member. split; [reflexivity|].
  unfold best_match in E.
  eapply (best_match_in_members _ _ _ _ (None, Float.zero, [])).
  - intros m' [=].
  - intros m' Hm'. exact Hm'.
  - rewrite E. reflexivity.
Qed.

Lemma match_by_explicit_mention_in_store task team_store r :
  _match_by_explicit_mention task team_store = Some r →
  ∃ member, AssignmentResult.team_member r = Some member
            ∧ AssignmentResult.confidence r = Float.one
            ∧ member ∈ TeamMemberStore.get_all_members team_store.
Proof.
  unfold _match_by_explicit_mention.
  destruct (ExtractedTask.mentioned_person task) as [p|]; [|done].
  destruct (negb (truthy p)); [done|].
  destruct (TeamMemberStore.find_by_name p team_store) as [m|] eqn:Hfind;
    [|done].
  intros [= <-]. exists m. repeat split.
  eapply find_by_name_in_store, Hfind.
Qed.

Lemma assign_picks_from_the_store_helper
    (task : ExtractedTask.t) (team_store : TeamMemberStore.t) :
  match AssignmentResult.team_member (assign set_order task team_store) with
  | Some member => member ∈ TeamMemberStore.get_all_members team_store
  | None => True
  end.
Proof.
  unfold assign.
  destruct (_match_by_explicit_mention task team_store) as [e|] eqn:He.
  - destruct (match_by_explicit_mention_in_store _ _ _ He)
      as (m & Hm & Hc & Hin).
    destruct e as [tm re c]. cbn [AssignmentResult.team_member] in *.
    subst tm. cbn [AssignmentResult.team_member]. exact Hin.
  - destruct (_match_by_skills set_order task team_store) as [s|] eqn:Hs;
      [|exact I].
    destruct (match_by_skills_in_store _ _ _ Hs) as (m & Hm & Hin).
    destruct s as [tm re c]. cbn [AssignmentResult.team_member] in *.
    subst tm. cbn [AssignmentResult.team_member]. exact Hin.
Qed.

(** X18. [assign] only ever assigns a member of the store, and then with a
    positive confidence; when it assigns nobody, the result is the fixed
    "no suitable team member" answer with confidence 0. *)
Theorem assign_picks_from_the_store
    (task : ExtractedTask.t) (team_store : TeamMemberStore.t) :
  let r := assign set_order task team_store in
  match AssignmentResult.team_member r with
  | Some member =>
      member ∈ TeamMemberStore.get_all_members team_store
      ∧ Float.ltb Float.zero (AssignmentResult.confidence r) = true
  | None => r = unassigned
  end.
Proof.
  cbv zeta. unfold assign.
  destruct (_match_by_explicit_mention task team_store) as [e|] eqn:He.
  - destruct (match_by_explicit_mention_in_store _ _ _ He)
      as (m & Hm & Hc & Hin).
    destruct e as [tm re c].
    cbn [AssignmentResult.team_member AssignmentResult.confidence] in *.
    subst tm c. cbn [AssignmentResult.team_member AssignmentResult.confidence].
    split; [exact Hin|reflexivity].
  - destruct (_match_by_skills set_order task team_store) as [s|] eqn:Hs;
      [|reflexivity].
    destruct (match_by_skills_in_store _ _ _ Hs) as (m & Hm & Hin).
    pose proof (skill_match_confidence set_order _ _ _ Hs) as [Hc _].
    destruct s as [tm re c].
    cbn [AssignmentResult.team_member AssignmentResult.confidence] in *.
    subst tm. cbn [AssignmentResult.team_member AssignmentResult.confidence].
    split; [exact Hin|exact Hc].
Qed.

(** X19. Without a member or without a clue nobody is assigned: on an
    empty store [assign] returns the "no suitable team member" answer for
    every task, and on any store it does so for a task that mentions nobody
    the store knows and whose description and raw text hold no skill
    keyword. *)
Theorem assign_needs_a_member_and_a_clue
    (task : ExtractedTask.t) (team_store : TeamMemberStore.t) :
  (team_store = [] → assign set_order task team_store = unassigned)
  ∧ (_match_by_explicit_mention task team_store = None →
     _extract_domains (task_text task) = [] →
     assign set_order task team_store = unassigned).
Proof.
  split.
  - intros ->. unfold assign, _match_by_explicit_mention, _match_by_skills.
    assert (Hnone : ∀ p, TeamMemberStore.find_by_name p [] = None) by done.
    destruct (ExtractedTask.mentioned_person task) as [p|].
    + destruct (negb (truthy p)); rewrite ?Hnone;
        destruct (_extract_domains _); reflexivity.
    + destruct (_extract_domains _); reflexivity.
  - intros He Hd. unfold assign. rewrite He.
    unfold _match_by_skills. cbv zeta.
    change (task_text_of task) with (task_text task). rewrite Hd.
    reflexivity.
Qed.

End AssignmentChoice.

(** ** Dependencies (dependency_resolver.py) *)

Section ResolveProperties.

Import DependencyResolver.

Lemma find_from_spec phrase_lower phrase_words exclude_idx descs :
  ∀ i best score j,
    find_from phrase_lower phrase_words exclude_idx i descs best score
    = Some j →
    best = Some j
    ∨ (i <= j < i + Z.of_nat (length descs) ∧ j ≠ exclude_idx).
Proof.
  induction descs as [|desc descs IH]; intros i best score j;
    cbn [find_from]; [auto|].
  cbn [length]. rewrite Nat2Z.inj_succ.
  destruct (Z.eqb_spec i exclude_idx) as [Hi|Hi].
  - intros H. apply IH in H as [H|H]; [auto|right; lia].
  - destruct (_ || _); [intros [= <-]; right; lia|].
    destruct (existsb _ phrase_words); [intros [= <-]; right; lia|].
    destruct (_ && _); intros H; apply IH in H as [H|H];
      try (right; lia); auto.
    injection H as <-. right. lia.
Qed.

Lemma find_matching_task_spec phrase task_descriptions exclude_idx j :
  _find_matching_task phrase task_descriptions exclude_idx = Some j →
  0 <= j < Z.of_nat (length task_descriptions) ∧ j ≠ exclude_idx.
Proof.
  unfold _find_matching_task. intros H.
  apply find_from_spec in H as [H|H]; [discriminate|lia].
Qed.

Lemma edges_of_spec task_descriptions i phrases dep :
  dep ∈ edges_of task_descriptions i phrases →
  TaskDependency.dependent_task_index dep = i
  ∧ TaskDependency.dependency_phrase dep ∈ phrases
  ∧ 0 <= TaskDependency.prerequisite_task_index dep
       < Z.of_nat (length task_descriptions)
  ∧ TaskDependency.prerequisite_task_index dep ≠ i.
Proof.
  unfold edges_of. rewrite list_elem_of_In, in_flat_map.
  intros (phrase & Hphrase & Hd).
  destruct (_find_matching_task phrase task_descriptions i) as [j|] eqn:Hj;
    [|destruct Hd].
  destruct Hd as [<-|[]]. cbn.
  apply find_matching_task_spec in Hj.
  split; [reflexivity|]. split; [by apply list_elem_of_In|]. exact Hj.
Qed.

Lemma resolve_from_spec task_descriptions tasks :
  ∀ i dep,
    0 <= i →
    dep ∈ resolve_from task_descriptions i tasks →
    ∃ task,
      tasks !! Z.to_nat (TaskDependency.dependent_task_index dep - i)
      = Some task
      ∧ i <= TaskDependency.dependent_task_index dep
      ∧ (TaskDependency.dependency_phrase dep
           ∈ ExtractedTask.dependency_phrases task
         ∨ TaskDependency.dependency_phrase dep
             ∈ _extract_dependencies_from_text (ExtractedTask.raw_text task))
      ∧ 0 <= TaskDependency.prerequisite_task_index dep
           < Z.of_nat (length task_descriptions)
      ∧ TaskDependency.prerequisite_task_index dep
        ≠ TaskDependency.dependent_task_index dep.
Proof.
  induction tasks as [|task rest IH]; intros i dep Hi Hin;
    cbn [resolve_from] in Hin.
  - by apply elem_of_nil in Hin.
  - apply elem_of_app in Hin as [Hin|Hin];
      [|apply elem_of_app in Hin as [Hin|Hin]].
    + apply edges_of_spec in Hin as (Hd & Hp & Hr & Hne).
      exists task. rewrite Hd, Z.sub_diag. split; [reflexivity|].
      split; [lia|]. split; [by left|]. done.
    + apply edges_of_spec in Hin as (Hd & Hp & Hr & Hne).
      exists task. rewrite Hd, Z.sub_diag. split; [reflexivity|].
      split; [lia|]. split; [|done]. right.
      apply elem_of_List_filter in Hp as [Hp _]. exact Hp.
    + apply IH in Hin as (task' & Hlook & Hle & Hp & Hr & Hne); [|lia].
      exists task'. split; [|split; [lia|done]].
      replace (Z.to_nat (TaskDependency.dependent_task_index dep - i))
        with (S (Z.to_nat (TaskDependency.dependent_task_index dep
                           - (i + 1)))) by lia.
      exact Hlook.
Qed.

(** X20. Every dependency that [resolve] returns links two different tasks
    of the list: both indices are task indices and the prerequisite is not
    the dependent task itself; its phrase is one of the dependency phrases
    of the dependent task or was found in its raw text. *)
Theorem resolve_links_two_different_tasks
    (tasks : list ExtractedTask.t) (dep : TaskDependency.t) :
  dep ∈ resolve tasks →
  let i := TaskDependency.dependent_task_index dep in
  let j := TaskDependency.prerequisite_task_index dep in
  0 <= i < Z.of_nat (length tasks)
  ∧ 0 <= j < Z.of_nat (length tasks)
  ∧ i ≠ j
  ∧ ∃ task,
      tasks !! Z.to_nat i = Some task
      ∧ (TaskDependency.dependency_phrase dep
           ∈ ExtractedTask.dependency_phrases task
         ∨ TaskDependency.dependency_phrase dep
             ∈ _extract_dependencies_from_text (ExtractedTask.raw_text task)).
Proof.
  intros Hin. cbv zeta. unfold resolve in Hin.
  apply resolve_from_spec in Hin as (task & Hlook & Hle & Hp & Hr & Hne);
    [|lia].
  rewrite Z.sub_0_r in Hlook. rewrite length_map in Hr.
  pose proof (lookup_lt_Some _ _ _ Hlook) as Hlt.
  split; [lia|]. split; [exact Hr|]. split; [congruence|].
  exists task. done.
Qed.

Lemma resolve_links_two_different_tasks_witness :
  TaskDependency.mk 0 1 "login bug fix" ∈ resolve release_tasks
  ∧ 0 <= 0 < Z.of_nat (length release_tasks)
  ∧ 0 <= 1 < Z.of_nat (length release_tasks)
  ∧ 0 ≠ 1
  ∧ ∃ task,
      release_tasks !! Z.to_nat 0 = Some task
      ∧ ("login bug fix"%string ∈ ExtractedTask.dependency_phrases task
         ∨ "login bug fix"%string
             ∈ _extract_dependencies_from_text (ExtractedTask.raw_text task)).
Proof.
  assert (Hin : TaskDependency.mk 0 1 "login bug fix"
                ∈ resolve release_tasks).
  { apply list_elem_of_In. vm_compute. tauto. }
  split; [exact Hin|].
  exact (resolve_links_two_different_tasks release_tasks _ Hin).
Defined.

End ResolveProperties.

(** ** The dependency order (dependency_resolver.py) *)

Section WalkProperties.

Variable R : Z → Z → Prop.

Lemma walk_app_r l1 l2 : walk R (l1 ++ l2) → walk R l2.
Proof.
  induction l1 as [|x l1 IH]; [done|]. intros H. apply IH.
  destruct l1 as [|y l1]; cbn [app] in *.
  - destruct l2; [done|]. by destruct H.
  - by destruct H.
Qed.

Lemma walk_tc a l b : walk R (a :: l ++ [b]) → tc R a b.
Proof.
  revert a. induction l as [|x l IH]; intros a; cbn [app].
  - intros [H _]. by apply tc_once.
  - intros [H Hw]. eapply tc_l; [exact H|]. by apply IH.
Qed.

Lemma walk_cut a l b l3 : walk R (a :: l ++ b :: l3) → walk R (a :: l ++ [b]).
Proof.
  revert a. induction l as [|x l IH]; intros a; cbn [app].
  - intros [H _]. done.
  - intros [H Hw]. split; [done|]. by apply IH.
Qed.

Lemma walk_repeat a l1 l2 l3 :
  walk R (l1 ++ a :: l2 ++ a :: l3) → tc R a a.
Proof.
  intros H. apply walk_app_r in H.
  by eapply walk_tc, walk_cut.
Qed.

Lemma not_NoDup_repeat (l : list Z) :
  ¬ NoDup l → ∃ a l1 l2 l3, l = l1 ++ a :: l2 ++ a :: l3.
Proof.
  induction l as [|x l IH]; intros Hnd; [destruct Hnd; constructor|].
  destruct (decide (x ∈ l)) as [Hin|Hout].
  - apply list_elem_of_split in Hin as (l2 & l3 & ->).
    by exists x, [], l2, l3.
  - destruct IH as (a & l1 & l2 & l3 & ->).
    { intros H. apply Hnd. by constructor. }
    by exists a, (x :: l1), l2, l3.
Qed.

(** In a finite set without a sink there is a cycle. *)
Lemma no_sink_cycle (S : list Z) x :
  (∀ y, y ∈ S → ∃ z, z ∈ S ∧ R y z) → x ∈ S → ∃ a, tc R a a.
Proof.
  intros Hnext Hx.
  assert (Hwalk : ∀ n y, y ∈ S →
            ∃ l, length l = Datatypes.S n ∧ walk R l ∧ head l = Some y
                 ∧ ∀ z, z ∈ l → z ∈ S).
  { induction n as [|n IH]; intros y Hy.
    - exists [y]. split; [done|]. split; [done|]. split; [done|].
      by intros z ->%list_elem_of_singleton.
    - destruct (Hnext y Hy) as (z & Hz & Hyz).
      destruct (IH z Hz) as (l & Hlen & Hw & Hhd & Hall).
      exists (y :: l). split; [simpl; lia|]. split.
      + destruct l as [|z' l]; [done|]. injection Hhd as ->. done.
      + split; [done|]. intros w [->|Hw']%elem_of_cons; auto. }
  destruct (Hwalk (length S) x Hx) as (l & Hlen & Hw & _ & Hall).
  destruct (not_NoDup_repeat l) as (a & l1 & l2 & l3 & ->).
  { intros Hnd. pose proof (NoDup_length_le l S Hnd Hall). lia. }
  exists a. by eapply walk_repeat.
Qed.

End WalkProperties.

Section PendingProperties.

Lemma edgeb_spec dependencies d p :
  edgeb dependencies d p = true ↔ edge dependencies d p.
Proof.
  unfold edgeb, edge. rewrite existsb_exists. split.
  - intros (dep & Hin & [Hd Hp]%andb_prop).
    exists dep. rewrite list_elem_of_In. split; [done|]. lia.
  - intros (dep & Hin & <- & <-). exists dep.
    split; [by apply list_elem_of_In|]. rewrite !Z.eqb_refl. done.
Qed.

Lemma edgeb_app l1 l2 d p : edgeb (l1 ++ l2) d p = edgeb l1 d p || edgeb l2 d p.
Proof. unfold edgeb. apply existsb_app. Qed.

Lemma pending_nonneg dependencies finished d :
  0 <= pending dependencies finished d.
Proof. unfold pending. lia. Qed.

Lemma pending_app l1 l2 finished d :
  pending (l1 ++ l2) finished d = pending l1 finished d + pending l2 finished d.
Proof. unfold pending. rewrite List.filter_app, length_app. lia. Qed.

(** A task waits for nothing when all its prerequisites are finished. *)
Lemma pending_zero dependencies finished d :
  pending dependencies finished d = 0
  ↔ ∀ p, edge dependencies d p → p ∈ finished.
Proof.
  unfold pending. split.
  - intros Hz p (dep & Hin & Hd & Hp).
    destruct (decide (p ∈ finished)) as [|Hout]; [done|]. exfalso.
    assert (Hf : dep ∈ List.filter (waiting_on finished d) dependencies).
    { apply elem_of_List_filter. split; [done|]. unfold waiting_on.
      rewrite Hd, Hp, Z.eqb_refl. cbn [andb].
      by apply negb_true_iff, bool_decide_eq_false. }
    destruct (List.filter _ dependencies); [by apply elem_of_nil in Hf|].
    simpl in Hz. lia.
  - intros Hall.
    destruct (List.filter _ dependencies) as [|dep l] eqn:E; [done|].
    exfalso.
    assert (Hf : dep ∈ List.filter (waiting_on finished d) dependencies)
      by (rewrite E; apply list_elem_of_here).
    apply elem_of_List_filter in Hf as [Hin [Hd Hp]%andb_prop].
    apply negb_true_iff, bool_decide_eq_false in Hp. apply Hp, Hall.
    exists dep. split; [done|]. split; [lia|done].
Qed.

Lemma pending_pos dependencies finished d :
  pending dependencies finished d ≠ 0 →
  ∃ p, edge dependencies d p ∧ p ∉ finished.
Proof.
  unfold pending. intros Hpos.
  destruct (List.filter _ dependencies) as [|dep l] eqn:E; [done|].
  assert (Hf : dep ∈ List.filter (waiting_on finished d) dependencies)
    by (rewrite E; apply list_elem_of_here).
  apply elem_of_List_filter in Hf as [Hin [Hd Hp]%andb_prop].
  apply negb_true_iff, bool_decide_eq_false in Hp.
  exists (TaskDependency.prerequisite_task_index dep). split; [|done].
  exists dep. split; [done|]. split; [lia|done].
Qed.

(** Finishing one more task takes one record off the count of each of its
    dependents, when no pair of tasks has two records. *)
Lemma pending_snoc dependencies finished node d :
  NoDup (List.map pair_of dependencies) → node ∉ finished →
  pending dependencies finished d
  = pending dependencies (finished ++ [node]) d
    + (if edgeb dependencies d node then 1 else 0).
Proof.
  intros Hnd Hnode. unfold pending.
  induction dependencies as [|dep deps IH]; [done|].
  cbn [List.map] in Hnd. apply NoDup_cons in Hnd as [Hfresh Hnd].
  specialize (IH Hnd). cbn [List.filter edgeb existsb].
  fold (edgeb deps d node).
  destruct (Z.eqb_spec (TaskDependency.dependent_task_index dep) d)
    as [Hd|Hd]; cycle 1.
  { unfold waiting_on. rewrite (proj2 (Z.eqb_neq _ _) Hd). cbn [andb orb].
    exact IH. }
  destruct (Z.eqb_spec (TaskDependency.prerequisite_task_index dep) node)
    as [Hp|Hp].
  - assert (Hno : edgeb deps d node = false).
    { destruct (edgeb deps d node) eqn:Hedge; [|done]. exfalso.
      apply edgeb_spec in Hedge as (dep' & Hin & Hd' & Hp').
      apply Hfresh, list_elem_of_fmap. exists dep'. split; [|done].
      unfold pair_of. congruence. }
    rewrite Hno in IH.
    assert (H1 : waiting_on finished d dep = true).
    { unfold waiting_on. rewrite Hd, Hp, Z.eqb_refl. cbn [andb].
      by apply negb_true_iff, bool_decide_eq_false. }
    assert (H2 : waiting_on (finished ++ [node]) d dep = false).
    { unfold waiting_on. rewrite Hd, Hp, Z.eqb_refl. cbn [andb].
      apply negb_false_iff, bool_decide_eq_true, elem_of_app. right.
      apply list_elem_of_here. }
    rewrite H1, H2. cbn [andb orb length]. lia.
  - assert (Hsame : waiting_on finished d dep
                    = waiting_on (finished ++ [node]) d dep).
    { unfold waiting_on. f_equal. f_equal. apply bool_decide_ext.
      rewrite elem_of_app, list_elem_of_singleton. tauto. }
    rewrite <- Hsame. cbn [andb orb].
    destruct (waiting_on finished d dep); cbn [length]; lia.
Qed.

End PendingProperties.

Section SortedOrder.

Import DependencyResolver.

Variable set_iter : list Z → list Z.
Hypothesis set_iter_perm : ∀ s, set_iter s ≡ₚ s.

Variable num_tasks : Z.

Lemma NoDup_set_add (x : Z) s : NoDup s → NoDup (set_add x s).
Proof.
  intros Hs. unfold set_add. destruct (decide (x ∈ s)); [done|].
  apply NoDup_app. split; [done|]. split; [|apply NoDup_singleton].
  intros y Hy ->%list_elem_of_singleton. done.
Qed.

Lemma add_dependency_spec seen graph in_degree dep :
  order_dicts_of num_tasks seen graph in_degree →
  0 <= TaskDependency.dependent_task_index dep < num_tasks →
  0 <= TaskDependency.prerequisite_task_index dep < num_tasks →
  ∃ graph' in_degree',
    add_dependency (Ok (graph, in_degree)) dep = Ok (graph', in_degree')
    ∧ order_dicts_of num_tasks (seen ++ [dep]) graph' in_degree'.
Proof.
  intros (Hg & Hd & Hs & Hk) Hdep Hpre. unfold add_dependency.
  destruct (proj2 (Hg _) Hpre) as [s Hgs]. rewrite Hgs.
  destruct (proj2 (Hd _) Hdep) as [k Hdk]. rewrite Hdk.
  eexists _, _. split; [reflexivity|].
  split; [|split; [|split]].
  - by apply keys_insert_present.
  - by apply keys_insert_present.
  - intros p s' Hp.
    assert (Hlast : ∀ d,
      edgeb [dep] d p
      = (TaskDependency.dependent_task_index dep =? d)
        && (TaskDependency.prerequisite_task_index dep =? p)).
    { intros d. unfold edgeb. cbn [existsb]. apply orb_false_r. }
    apply lookup_insert_Some in Hp as [[<- <-]|[Hne Hp]].
    + destruct (Hs _ _ Hgs) as [Hnd Hin]. split; [by apply NoDup_set_add|].
      intros d. rewrite elem_of_set_add, edgeb_app, Hlast, Z.eqb_refl, Hin.
      rewrite andb_true_r, orb_true_iff, Z.eqb_eq. intuition congruence.
    + destruct (Hs _ _ Hp) as [Hnd Hin]. split; [done|].
      intros d. rewrite edgeb_app, Hlast, Hin.
      rewrite (proj2 (Z.eqb_neq _ _) Hne), andb_false_r, orb_false_r. done.
  - intros d k' Hi. rewrite pending_app.
    assert (Hlast : pending [dep] [] d
                    = if TaskDependency.dependent_task_index dep =? d
                      then 1 else 0).
    { unfold pending, waiting_on. cbn [List.filter].
      rewrite (bool_decide_eq_false_2 (_ ∈ [])) by apply not_elem_of_nil.
      cbn [negb]. rewrite andb_true_r.
      by destruct (_ =? d). }
    rewrite Hlast.
    apply lookup_insert_Some in Hi as [[<- <-]|[Hne Hi]].
    + rewrite Z.eqb_refl. apply Hk in Hdk. lia.
    + rewrite (proj2 (Z.eqb_neq _ _) Hne). apply Hk in Hi. lia.
Qed.

Lemma init_dicts_of :
  order_dicts_of num_tasks []
    (list_to_map ((fun i => (i, [])) <$> seqZ 0 num_tasks))
    (list_to_map ((fun i => (i, 0)) <$> seqZ 0 num_tasks)).
Proof.
  split; [|split; [|split]].
  - intros i. rewrite lookup_init_dict. case_decide; [by eauto|].
    split; [by intros [? ?]|done].
  - intros i. rewrite lookup_init_dict. case_decide; [by eauto|].
    split; [by intros [? ?]|done].
  - intros p s. rewrite lookup_init_dict. case_decide; [|done].
    intros [= <-]. split; [constructor|].
    intros d. split; [by intros ?%elem_of_nil|done].
  - intros i k. rewrite lookup_init_dict. case_decide; [|done].
    intros [= <-]. reflexivity.
Qed.

Lemma build_order_graph_spec dependencies :
  in_range num_tasks dependencies →
  ∃ graph in_degree,
    build_order_graph num_tasks dependencies = Ok (graph, in_degree)
    ∧ order_dicts_of num_tasks dependencies graph in_degree.
Proof.
  unfold build_order_graph. generalize init_dicts_of.
  generalize (list_to_map ((fun i => (i, [])) <$> seqZ 0 num_tasks)
              : gmap Z (list Z)).
  generalize (list_to_map ((fun i => (i, 0)) <$> seqZ 0 num_tasks)
              : gmap Z Z).
  change dependencies with ([] ++ dependencies) at 3.
  generalize (@nil TaskDependency.t) as seen.
  induction dependencies as [|dep deps IH];
    intros seen in_degree graph Hok Hr.
  - rewrite app_nil_r. by exists graph, in_degree.
  - inversion Hr as [|? ? [Hdep Hpre] Hdeps]; subst. cbn [fold_left].
    destruct (add_dependency_spec _ _ _ dep Hok Hdep Hpre)
      as (graph' & in_degree' & -> & Hok').
    replace (seen ++ dep :: deps) with ((seen ++ [dep]) ++ deps)
      by (by rewrite <- app_assoc).
    by apply IH.
Qed.

Variable dependencies : list TaskDependency.t.
Hypothesis dependencies_in_range : in_range num_tasks dependencies.
Hypothesis dependencies_distinct : NoDup (List.map pair_of dependencies).

Lemma edge_in_range d p :
  edge dependencies d p → 0 <= d < num_tasks ∧ 0 <= p < num_tasks.
Proof.
  intros (dep & Hin & <- & <-).
  apply (proj1 (Forall_forall _ _) dependencies_in_range) in Hin. exact Hin.
Qed.

(** The loop over the dependents of the task that was just appended to the
    result: [todo] holds the dependents still to come. *)
Lemma relax_sorted result_ todo :
  ∀ in_degree queue,
    NoDup todo →
    (∀ x, x ∈ todo → 0 <= x < num_tasks) →
    NoDup (result_ ++ queue) →
    (∀ x, x ∈ result_ ++ queue → 0 <= x < num_tasks) →
    (∀ i, is_Some (in_degree !! i) ↔ 0 <= i < num_tasks) →
    (∀ d k, in_degree !! d = Some k →
            k = pending dependencies result_ d
                + (if bool_decide (d ∈ todo) then 1 else 0)) →
    (∀ x, 0 <= x < num_tasks →
          x ∈ result_ ++ queue
          ↔ pending dependencies result_ x = 0 ∧ x ∉ todo) →
    ∃ in_degree' queue',
      relax todo in_degree queue = Ok (in_degree', queue')
      ∧ NoDup (result_ ++ queue')
      ∧ (∀ x, x ∈ result_ ++ queue' → 0 <= x < num_tasks)
      ∧ (∀ i, is_Some (in_degree' !! i) ↔ 0 <= i < num_tasks)
      ∧ (∀ d k, in_degree' !! d = Some k →
                k = pending dependencies result_ d)
      ∧ (∀ x, 0 <= x < num_tasks →
              x ∈ result_ ++ queue'
              ↔ pending dependencies result_ x = 0).
Proof.
  induction todo as [|x todo IH];
    intros in_degree queue Htodo Hrange Hnd Hin Hdom Hdeg Hmem.
  - exists in_degree, queue. split; [reflexivity|].
    split; [done|]. split; [done|]. split; [done|]. split.
    + intros d k Hk. rewrite (Hdeg d k Hk).
      rewrite bool_decide_eq_false_2 by apply not_elem_of_nil. lia.
    + intros y Hy. rewrite (Hmem y Hy). split; [tauto|].
      intros ?. split; [done|apply not_elem_of_nil].
  - apply NoDup_cons in Htodo as [Hx Htodo].
    assert (Hxr : 0 <= x < num_tasks) by (apply Hrange, list_elem_of_here).
    destruct (proj2 (Hdom x) Hxr) as [k Hk].
    cbn [relax]. rewrite Hk.
    pose proof (Hdeg x k Hk) as Hkx.
    rewrite bool_decide_eq_true_2 in Hkx by apply list_elem_of_here.
    assert (Hxout : x ∉ result_ ++ queue).
    { intros Hxin. apply (proj1 (Hmem x Hxr)) in Hxin as [_ Hxin].
      apply Hxin, list_elem_of_here. }
    pose proof (pending_nonneg dependencies result_ x) as Hpos.
    apply IH.
    + exact Htodo.
    + intros y Hy. apply Hrange, list_elem_of_further, Hy.
    + destruct (Z.eqb_spec (k - 1) 0); [|done].
      rewrite app_assoc. apply NoDup_app. split; [done|].
      split; [|apply NoDup_singleton].
      intros y Hy ->%list_elem_of_singleton. done.
    + intros y. destruct (Z.eqb_spec (k - 1) 0); [|apply Hin].
      rewrite app_assoc, elem_of_app, list_elem_of_singleton.
      intros [Hy| ->]; [by apply Hin|done].
    + by apply keys_insert_present.
    + intros d k' Hd.
      apply lookup_insert_Some in Hd as [[<- <-]|[Hne Hd]].
      * rewrite bool_decide_eq_false_2 by done. lia.
      * rewrite (Hdeg d k' Hd). f_equal.
        rewrite (bool_decide_ext (d ∈ x :: todo) (d ∈ todo)); [done|].
        rewrite elem_of_cons. intuition congruence.
    + intros y Hy.
      destruct (Z.eqb_spec (k - 1) 0) as [Hz|Hz].
      * rewrite app_assoc, elem_of_app, list_elem_of_singleton.
        rewrite (Hmem y Hy), not_elem_of_cons.
        destruct (decide (y = x)) as [->|Hne]; [|tauto].
        split; [intros _; split; [lia|done]|tauto].
      * rewrite (Hmem y Hy), not_elem_of_cons.
        destruct (decide (y = x)) as [->|Hne]; [|tauto].
        split; [tauto|]. intros [Hzero _]. lia.
Qed.

Lemma after_prerequisites_snoc in_degree queue result_ node :
  kahn_sorted num_tasks dependencies in_degree (node :: queue) result_ →
  after_prerequisites dependencies (result_ ++ [node]).
Proof.
  intros (Hnd & Hin & _ & _ & Hmem & Hafter) before x rest p Heq Hedge.
  destruct rest as [|y rest' _] using rev_ind.
  - apply app_inj_tail in Heq as [<- <-].
    assert (Hnode : 0 <= node < num_tasks).
    { apply Hin, elem_of_app. right. apply list_elem_of_here. }
    assert (Hzero : pending dependencies result_ node = 0).
    { apply (Hmem node Hnode), elem_of_app. right. apply list_elem_of_here. }
    exact (proj1 (pending_zero _ _ _) Hzero p Hedge).
  - rewrite app_comm_cons, app_assoc in Heq.
    apply app_inj_tail in Heq as [Heq _].
    exact (Hafter before x rest' p Heq Hedge).
Qed.

Lemma kahn_sorted_ok graph fuel :
  ∀ in_degree queue result_,
    (∀ i, is_Some (graph !! i) ↔ 0 <= i < num_tasks) →
    (∀ p s, graph !! p = Some s →
            NoDup s ∧ ∀ d, d ∈ s ↔ edgeb dependencies d p = true) →
    kahn_sorted num_tasks dependencies in_degree queue result_ →
    (Z.to_nat num_tasks ≤ fuel + length result_)%nat →
    ∃ order in_degree',
      kahn set_iter fuel graph in_degree queue result_ = Some (Ok order)
      ∧ kahn_sorted num_tasks dependencies in_degree' [] order.
Proof.
  induction fuel as [|fuel IH];
    intros in_degree queue result_ Hg Hs Hinv Hfuel;
    (destruct queue as [|node queue];
     [by exists result_, in_degree|]).
  - exfalso. destruct Hinv as (Hnd & Hrange & _).
    assert (Hlen : (length (result_ ++ node :: queue)
                    ≤ length (seqZ 0 num_tasks))%nat).
    { apply NoDup_length_le; [done|].
      intros x Hx. apply elem_of_seqZ. apply Hrange in Hx. lia. }
    rewrite length_app, length_seqZ in Hlen. simpl in Hlen, Hfuel. lia.
  - cbn [kahn].
    pose proof (after_prerequisites_snoc _ _ _ _ Hinv) as Hafter'.
    destruct Hinv as (Hnd & Hrange & Hdom & Hdeg & Hmem & Hafter).
    assert (Hnode : 0 <= node < num_tasks).
    { apply Hrange, elem_of_app. right. apply list_elem_of_here. }
    assert (Hnew : node ∉ result_).
    { apply NoDup_app in Hnd as (_ & Hdisj & _). intros Hin.
      apply (Hdisj node Hin), list_elem_of_here. }
    destruct (proj2 (Hg node) Hnode) as [s Hgs]. rewrite Hgs.
    destruct (Hs node s Hgs) as [Hsnd Hsin].
    assert (Htodo : ∀ d, d ∈ set_iter s ↔ edgeb dependencies d node = true).
    { intros d. rewrite set_iter_perm. apply Hsin. }
    assert (Hcount : ∀ d,
      pending dependencies result_ d
      = pending dependencies (result_ ++ [node]) d
        + (if bool_decide (d ∈ set_iter s) then 1 else 0)).
    { intros d.
      rewrite (pending_snoc dependencies result_ node d
                 dependencies_distinct Hnew).
      f_equal. destruct (edgeb dependencies d node) eqn:He.
      - rewrite bool_decide_eq_true_2; [done|]. by apply Htodo.
      - rewrite bool_decide_eq_false_2; [done|].
        rewrite Htodo, He. done. }
    destruct (relax_sorted (result_ ++ [node]) (set_iter s) in_degree queue)
      as (in_degree' & queue' & -> & Hnd' & Hrange' & Hdom' & Hdeg' & Hmem').
    + rewrite set_iter_perm. exact Hsnd.
    + intros d Hd. apply Htodo, edgeb_spec, edge_in_range in Hd. tauto.
    + rewrite <- app_assoc. exact Hnd.
    + intros x. rewrite <- app_assoc. apply Hrange.
    + exact Hdom.
    + intros d k Hk. rewrite <- Hcount. by apply Hdeg.
    + intros x Hx. rewrite <- app_assoc. cbn [app].
      rewrite (Hmem x Hx), (Hcount x).
      pose proof (pending_nonneg dependencies (result_ ++ [node]) x).
      destruct (bool_decide_reflect (x ∈ set_iter s)); split.
      * lia.
      * intros [_ Hout]. contradiction.
      * intros Hz. split; [lia|done].
      * intros [Hz _]. lia.
    + apply IH; [done|done| |rewrite length_app; simpl; lia].
      split; [done|]. split; [done|]. split; [done|].
      split; [done|]. split; done.
Qed.

Lemma position_app_l x l1 l2 :
  x ∈ l1 → ∃ i, position x (l1 ++ l2) = Some i ∧ (i < length l1)%nat.
Proof.
  induction l1 as [|y l1 IH]; intros Hin; [by apply elem_of_nil in Hin|].
  cbn [app position length]. destruct (Z.eqb_spec x y) as [->|Hne].
  - exists O. split; [done|lia].
  - apply elem_of_cons in Hin as [?|Hin]; [done|].
    destruct (IH Hin) as (i & -> & Hi). exists (S i). split; [done|lia].
Qed.

Lemma position_app_r x l1 l2 :
  x ∉ l1 → position x (l1 ++ x :: l2) = Some (length l1).
Proof.
  induction l1 as [|y l1 IH]; intros Hout; cbn [app position length].
  - by rewrite Z.eqb_refl.
  - apply not_elem_of_cons in Hout as [Hne Hout].
    rewrite (proj2 (Z.eqb_neq _ _) Hne), IH by done. done.
Qed.

(** X21. On records that lie in range and never repeat a (dependent,
    prerequisite) pair, and whose digraph has no cycle,
    [get_dependency_order] returns a topological order, whatever the
    iteration order of the sets: a permutation of the task indices in which
    every prerequisite comes strictly before its dependents. *)
Theorem get_dependency_order_sorts_distinct_records :
  0 <= num_tasks → ¬ cyclic dependencies →
  ∃ order,
    get_dependency_order set_iter num_tasks dependencies = Some (Ok order)
    ∧ order ≡ₚ seqZ 0 num_tasks
    ∧ prerequisites_first dependencies order.
Proof.
  intros Hn Hacyclic. unfold get_dependency_order, order_with_fuel.
  destruct (build_order_graph_spec dependencies dependencies_in_range)
    as (graph & in_degree & -> & Hg & Hd & Hs & Hk).
  set (queue := List.filter _ (seqZ 0 num_tasks)).
  assert (Hqueue : ∀ x, x ∈ queue ↔ in_degree !! x = Some 0).
  { intros x. unfold queue. rewrite elem_of_List_filter, elem_of_seqZ.
    split.
    - intros [_ Hx]. destruct (in_degree !! x) as [k|]; [|done].
      by apply Z.eqb_eq in Hx as ->.
    - intros Hx. rewrite Hx. split; [|done].
      assert (0 <= x < num_tasks) by (apply Hd; eauto). lia. }
  destruct (kahn_sorted_ok graph (Z.to_nat num_tasks) in_degree queue [])
    as (order & in_degree' & -> & Hnd & Hrange & _ & _ & Hmem & Hafter);
    [done|done| |simpl; lia|].
  { split; [|split; [|split; [|split; [|split]]]].
    - simpl. unfold queue. apply NoDup_List_filter, NoDup_seqZ.
    - intros x Hx. simpl in Hx. apply Hd. apply Hqueue in Hx. eauto.
    - done.
    - done.
    - intros x Hx. cbn [app]. rewrite Hqueue.
      destruct (proj2 (Hd x) Hx) as [k Hxk]. rewrite Hxk.
      rewrite <- (Hk x k Hxk). split; congruence.
    - intros before x rest p Heq. by destruct before. }
  rewrite app_nil_r in Hnd, Hrange, Hmem.
  assert (Hall : ∀ x, 0 <= x < num_tasks → x ∈ order).
  { intros x Hx. destruct (decide (x ∈ order)) as [|Hout]; [done|].
    exfalso. apply Hacyclic.
    apply (no_sink_cycle (edge dependencies)
             (List.filter (λ y, negb (bool_decide (y ∈ order)))
                          (seqZ 0 num_tasks)) x).
    - intros y [Hy Hyout]%elem_of_List_filter.
      apply elem_of_seqZ in Hy.
      apply negb_true_iff, bool_decide_eq_false in Hyout.
      assert (Hyr : 0 <= y < num_tasks) by lia.
      destruct (pending_pos dependencies order y) as (p & Hp & Hpout).
      { intros Hz. apply Hyout, (Hmem y Hyr), Hz. }
      exists p. split; [|done].
      apply elem_of_List_filter. split.
      * apply elem_of_seqZ. apply edge_in_range in Hp. lia.
      * by apply negb_true_iff, bool_decide_eq_false.
    - apply elem_of_List_filter. split; [apply elem_of_seqZ; lia|].
      by apply negb_true_iff, bool_decide_eq_false. }
  assert (Hperm : order ≡ₚ seqZ 0 num_tasks).
  { apply NoDup_Permutation; [done|apply NoDup_seqZ|].
    intros x. rewrite elem_of_seqZ. split.
    - intros Hx. apply Hrange in Hx. lia.
    - intros Hx. apply Hall. lia. }
  assert (Hlen : (Z.of_nat (length order) =? num_tasks) = true).
  { apply Z.eqb_eq. rewrite Hperm, length_seqZ. lia. }
  rewrite Hlen. cbn [negb]. exists order. split; [done|]. split; [done|].
  intros dep Hdep.
  pose proof (proj1 (Forall_forall _ _) dependencies_in_range dep Hdep)
    as [Hdr Hpr].
  pose proof (Hall _ Hdr) as Hin.
  apply list_elem_of_split in Hin as (before & rest & Heq).
  assert (Hp : TaskDependency.prerequisite_task_index dep ∈ before).
  { apply (Hafter before _ rest _ Heq). by exists dep. }
  rewrite Heq in Hnd. apply NoDup_app in Hnd as (_ & Hdisj & _).
  destruct (position_app_l _ before
              (TaskDependency.dependent_task_index dep :: rest) Hp)
    as (i & Hi & Hlt).
  exists i, (length before). rewrite Heq. split; [done|]. split; [|done].
  apply position_app_r. intros Hd'. apply (Hdisj _ Hd'), list_elem_of_here.
Qed.

End SortedOrder.

Lemma descending_edges_acyclic dependencies :
  Forall (λ dep, TaskDependency.prerequisite_task_index dep
                 < TaskDependency.dependent_task_index dep) dependencies →
  ¬ cyclic dependencies.
Proof.
  intros Hdesc [a Ha].
  assert (Hedge : ∀ x y, edge dependencies x y → y < x).
  { intros x y (dep & Hin & <- & <-).
    exact (proj1 (Forall_forall _ _) Hdesc dep Hin). }
  assert (Hlt : ∀ x y, tc (edge dependencies) x y → y < x).
  { intros x y Hxy. induction Hxy as [x y Hxy|x y z Hxy _ IH].
    - by apply Hedge.
    - apply Hedge in Hxy. lia. }
  specialize (Hlt a a Ha). lia.
Qed.

Lemma get_dependency_order_sorts_distinct_records_witness :
  (∀ s : list Z, s ≡ₚ s)
  ∧ in_range 3 chain_dependencies
  ∧ NoDup (List.map pair_of chain_dependencies)
  ∧ 0 <= 3 ∧ ¬ cyclic chain_dependencies
  ∧ ∃ order,
      DependencyResolver.get_dependency_order (λ s, s) 3 chain_dependencies
      = Some (Ok order)
      ∧ order ≡ₚ seqZ 0 3
      ∧ prerequisites_first chain_dependencies order.
Proof.
  assert (Hperm : ∀ s : list Z, s ≡ₚ s) by reflexivity.
  assert (Hrange : in_range 3 chain_dependencies).
  { repeat constructor; cbn; lia. }
  assert (Hdistinct : NoDup (List.map pair_of chain_dependencies)).
  { apply (bool_decide_unpack _). vm_compute. reflexivity. }
  assert (Hn : 0 <= 3) by lia.
  assert (Hacyclic : ¬ cyclic chain_dependencies).
  { apply descending_edges_acyclic. repeat constructor; cbn; lia. }
  split; [exact Hperm|]. split; [exact Hrange|]. split; [exact Hdistinct|].
  split; [exact Hn|]. split; [exact Hacyclic|].
  exact (get_dependency_order_sorts_distinct_records
           (λ s, s) Hperm 3 chain_dependencies Hrange Hdistinct Hn Hacyclic).
Defined.

Section NoDependencies.

Import DependencyResolver.

Variable set_iter : list Z → list Z.
Hypothesis set_iter_perm : ∀ s, set_iter s ≡ₚ s.

Lemma kahn_no_edges (graph : gmap Z (list Z)) in_degree fuel :
  ∀ queue result_,
    (∀ x, x ∈ queue → graph !! x = Some []) →
    (length queue ≤ fuel)%nat →
    kahn set_iter fuel graph in_degree queue result_
    = Some (Ok (result_ ++ queue)).
Proof.
  assert (Hnil : set_iter [] = []).
  { apply Permutation_nil_r, set_iter_perm. }
  induction fuel as [|fuel IH]; intros queue result_ Hq Hlen;
    (destruct queue as [|node queue];
     [cbn [kahn]; by rewrite app_nil_r|]); [simpl in Hlen; lia|].
  cbn [kahn]. rewrite (Hq node) by apply list_elem_of_here.
  rewrite Hnil. cbn [relax]. rewrite IH.
  - by rewrite <- app_assoc.
  - intros x Hx. apply Hq, list_elem_of_further, Hx.
  - simpl in Hlen. lia.
Qed.

(** X22. Without dependencies [get_dependency_order] leaves the tasks in
    their order: it returns the indices 0, 1, ..., [num_tasks] - 1 (the
    empty list when [num_tasks] is not positive). *)
Theorem get_dependency_order_without_dependencies (num_tasks : Z) :
  get_dependency_order set_iter num_tasks [] = Some (Ok (seqZ 0 num_tasks)).
Proof.
  unfold get_dependency_order, order_with_fuel, build_order_graph.
  cbn [fold_left].
  set (graph := list_to_map ((λ i, (i, [])) <$> seqZ 0 num_tasks)
                : gmap Z (list Z)).
  set (in_degree := list_to_map ((λ i, (i, 0)) <$> seqZ 0 num_tasks)
                    : gmap Z Z).
  assert (Hqueue :
    List.filter (λ i, match in_degree !! i with
                      | Some k => k =? 0
                      | None => false
                      end) (seqZ 0 num_tasks) = seqZ 0 num_tasks).
  { apply forallb_filter_id, forallb_forall. intros x Hx.
    apply list_elem_of_In, elem_of_seqZ in Hx.
    unfold in_degree. rewrite lookup_init_dict.
    rewrite decide_True by lia. reflexivity. }
  rewrite Hqueue. rewrite kahn_no_edges.
  - cbn [app].
    destruct (Z.eqb_spec (Z.of_nat (length (seqZ 0 num_tasks))) num_tasks)
      as [Heq|Hne]; cbn [negb]; [reflexivity|].
    rewrite length_seqZ in Hne.
    assert (Hneg : num_tasks < 0) by lia.
    assert (Hempty : seqZ 0 num_tasks = []).
    { apply length_zero_iff_nil. rewrite length_seqZ. lia. }
    rewrite Hempty. reflexivity.
  - intros x Hx. apply elem_of_seqZ in Hx.
    unfold graph. rewrite lookup_init_dict.
    rewrite decide_True by lia. reflexivity.
  - rewrite length_seqZ. lia.
Qed.

End NoDependencies.

Lemma get_dependency_order_without_dependencies_witness :
  (∀ s : list Z, s ≡ₚ s)
  ∧ DependencyResolver.get_dependency_order (λ s, s) 3 []
    = Some (Ok (seqZ 0 3)).
Proof.
  assert (Hperm : ∀ s : list Z, s ≡ₚ s) by reflexivity.
  split; [exact Hperm|].
  exact (get_dependency_order_without_dependencies (λ s, s) Hperm 3).
Defined.

(** ** The pipeline (pipeline.py) *)

Section PipelineShape.

Import MeetingTaskPipeline.

Variable today : Datetime.date.
Variable set_order : list string → list string.
Variable set_iter : list Z → list Z.
Hypothesis set_iter_perm : ∀ s, set_iter s ≡ₚ s.
Variable recursion_limit : nat.
Variable extract_tasks : list string → string → list ExtractedTask.t.

(** The tasks that occur in the dependencies of [resolve] are tasks of the
    list. *)
Lemma resolve_in_range tasks :
  in_range (Z.of_nat (length tasks)) (DependencyResolver.resolve tasks).
Proof.
  apply Forall_forall. intros dep Hin.
  unfold DependencyResolver.resolve in Hin.
  apply resolve_from_spec in Hin as (task & Hlook & Hle & _ & Hr & _);
    [|lia].
  rewrite Z.sub_0_r in Hlook. rewrite length_map in Hr.
  apply lookup_lt_Some in Hlook. lia.
Qed.

Lemma nodes_of_in_range n dependencies :
  in_range (Z.of_nat n) dependencies →
  (size (nodes_of dependencies) ≤ n)%nat.
Proof.
  intros Hrange.
  assert (Hsub : nodes_of dependencies
                 ⊆ list_to_set (seqZ 0 (Z.of_nat n))).
  { intros x. unfold nodes_of.
    rewrite !elem_of_list_to_set, list_elem_of_In, in_flat_map.
    intros (dep & Hdep%list_elem_of_In & Hx).
    unfold in_range in Hrange. rewrite Forall_forall in Hrange.
    apply Hrange in Hdep. apply elem_of_seqZ. destruct Hx as [<-|[<-|[]]]; lia. }
  apply subseteq_size in Hsub. etrans; [exact Hsub|].
  etrans; [exact (size_list_to_set_le set_iter set_iter_perm _)|].
  rewrite length_seqZ. lia.
Qed.

Lemma add_days_raises d k e :
  Datetime.add_days d k = Raise e → e = OverflowError.
Proof. unfold Datetime.add_days. destruct (_ && _); congruence. Qed.

Lemma mk_date_raises y m d e :
  Datetime.mk_date y m d = Raise e → e = ValueError.
Proof. unfold Datetime.mk_date. destruct (_ && _); congruence. Qed.

Lemma next_weekday_raises d wd e :
  DeadlineParser._next_weekday d wd = Raise e → e = OverflowError.
Proof. apply add_days_raises. Qed.

Lemma table_entry_raises key f d e :
  (key, f) ∈ DeadlineParser.RELATIVE_PATTERNS →
  f d = Raise e → e = OverflowError ∨ e = ValueError.
Proof.
  intros Hin. unfold DeadlineParser.RELATIVE_PATTERNS in Hin.
  repeat (apply elem_of_cons in Hin as [[= -> ->]|Hin];
          [first [ discriminate
                 | intros H; left; exact (add_days_raises _ _ _ H)
                 | idtac ]|]);
    try (by apply elem_of_nil in Hin).
  all: unfold DeadlineParser._end_of_month;
    destruct (if Datetime.month d =? 12 then _ else _) as [n|e'] eqn:E;
    cbn [bind];
    [intros H; left; exact (add_days_raises _ _ _ H)|].
  all: intros [= <-]; right;
    destruct (Datetime.month d =? 12); exact (mk_date_raises _ _ _ _ E).
Qed.

(** [parse] raises nothing but the exceptions of the date arithmetic. *)
Lemma parse_raises phrase reference_date e :
  DeadlineParser.parse today phrase reference_date = Raise e →
  e = OverflowError ∨ e = ValueError.
Proof.
  unfold DeadlineParser.parse.
  destruct (negb (truthy phrase)); [discriminate|].
  destruct (dict_get _ DeadlineParser.RELATIVE_PATTERNS) as [f|] eqn:Hf.
  { apply dict_get_Some in Hf.
    destruct (f _) as [d|e'] eqn:Hfd; [discriminate|].
    cbn [bind]. intros [= <-]. eapply table_entry_raises; eassumption. }
  assert (Hadd : ∀ d k, (x ←! Datetime.add_days d k; Ok (Some x)) = Raise e →
                        e = OverflowError ∨ e = ValueError).
  { intros d k. destruct (Datetime.add_days d k) eqn:E; [discriminate|].
    cbn [bind]. intros [= <-]. left. by eapply add_days_raises. }
  destruct (_ ≫= _); [apply Hadd|].
  destruct (List.find _ DeadlineParser.WEEKDAYS) as [[? ?]|]; [apply Hadd|].
  destruct (Re.match_in_n_units _) as [[num unit]|].
  { destruct (str_in "week" unit); apply Hadd. }
  destruct (Re.match_n_days _); [apply Hadd|discriminate].
Qed.

Lemma priority_value_in_names p : PriorityLevel_value p ∈ priority_names.
Proof. apply list_elem_of_In. destruct p; cbn; tauto. Qed.

(** One task of the loop. *)
Lemma task_output_spec team_store ref_date i extracted :
  match task_output today set_order team_store ref_date i extracted with
  | Ok o =>
      TaskOutput.task_number o = i + 1
      ∧ TaskOutput.description o = ExtractedTask.description extracted
      ∧ TaskOutput.deadline o = deadline_field extracted
      ∧ TaskOutput.priority o ∈ priority_names
      ∧ TaskOutput.dependencies o = None
      ∧ (TaskOutput.assigned_to o = None ↔ TaskOutput.reasoning o = None)
      ∧ (∀ name, TaskOutput.assigned_to o = Some name →
                 name ∈ TeamMemberStore.get_all_names team_store)
  | Raise e => e = OverflowError ∨ e = ValueError
  end.
Proof.
  unfold task_output.
  destruct (match ExtractedTask.deadline_phrase extracted with
            | Some raw => _
            | None => _
            end) as [d|e] eqn:Hd; cbn [bind].
  - cbn [TaskOutput.task_number TaskOutput.description TaskOutput.deadline
         TaskOutput.priority TaskOutput.dependencies TaskOutput.assigned_to
         TaskOutput.reasoning].
    split; [done|]. split; [done|]. split; [done|].
    split; [apply priority_value_in_names|]. split; [done|].
    pose proof (assign_picks_from_the_store_helper set_order extracted
                  team_store) as Hassign.
    destruct (AssignmentResult.team_member _) as [m|]; cbn [fmap option_fmap
      option_map].
    + split; [split; discriminate|].
      intros name [= <-]. unfold TeamMemberStore.get_all_names.
      apply list_elem_of_fmap. exists m. split; [done|]. exact Hassign.
    + split; [done|]. intros name [=].
  - destruct (ExtractedTask.deadline_phrase extracted) as [raw|];
      [|discriminate].
    destruct (truthy raw); [|discriminate].
    by eapply parse_raises.
Qed.

(** The records of the loop, by position. *)
Lemma task_outputs_from_lookup team_store ref_date tasks :
  ∀ i,
    match task_outputs_from today set_order team_store ref_date i tasks with
    | Ok outs =>
        ∀ k o, outs !! k = Some o →
               ∃ task, tasks !! k = Some task
                       ∧ task_output today set_order team_store ref_date
                           (i + Z.of_nat k) task = Ok o
    | Raise e =>
        ∃ task raw,
          task ∈ tasks
          ∧ ExtractedTask.deadline_phrase task = Some raw
          ∧ truthy raw = true
          ∧ DeadlineParser.parse today raw (Some ref_date) = Raise e
    end.
Proof.
  induction tasks as [|task rest IH]; intros i; cbn [task_outputs_from].
  - intros k o Hk. by rewrite lookup_nil in Hk.
  - destruct (task_output today set_order team_store ref_date i task)
      as [o|e] eqn:Ho; cbn [bind].
    + specialize (IH (i + 1)).
      destruct (task_outputs_from today set_order team_store ref_date (i + 1)
                  rest) as [os|e]; cbn [bind].
      * intros [|k] o' Hk.
        -- injection Hk as <-. exists task. split; [done|].
           by rewrite Z.add_0_r.
        -- destruct (IH k o' Hk) as (task' & Hlook & Hout).
           exists task'. split; [done|].
           rewrite <- Hout. f_equal. lia.
      * destruct IH as (task' & raw & Hin & Hraw & Htruthy & Hparse).
        exists task', raw. split; [by apply list_elem_of_further|done].
    + revert Ho. unfold task_output.
      destruct (ExtractedTask.deadline_phrase task) as [raw|] eqn:Hraw;
        [|discriminate].
      destruct (truthy raw) eqn:Htruthy; [|discriminate].
      destruct (DeadlineParser.parse today raw (Some ref_date))
        as [d|e'] eqn:Hparse; [discriminate|].
      cbn [bind]. intros [= <-].
      exists task, raw. split; [apply list_elem_of_here|done].
Qed.

(** The three steps after the extraction, put together. *)
Lemma process_transcript_steps transcript team_members reference_date :
  let ref_date := default today reference_date in
  let team_store := team_store_of team_members in
  let extracted := extracted_from extract_tasks transcript team_members in
  let dependencies := DependencyResolver.resolve extracted in
  let run :=
    process_transcript today set_order set_iter recursion_limit extract_tasks
      transcript team_members reference_date in
  extracted ≠ [] →
  match task_outputs_from today set_order team_store ref_date 0 extracted with
  | Raise e => run = Some (Raise e)
  | Ok outs =>
      ∃ outs',
        length outs' = length outs
        ∧ (∀ i o, outs !! i = Some o →
                  outs' !! i = Some (linked dependencies i o))
        ∧ match DependencyResolver.detect_circular_dependencies
                  set_iter recursion_limit dependencies with
          | Some (Ok found) =>
              run = Some (Ok (PipelineResult.mk true outs' (Some transcript)
                                (match found with
                                 | _ :: _ => Some cycle_warning
                                 | [] => None
                                 end)))
              ∧ (cyclic dependencies → found ≠ [])
              ∧ (¬ cyclic dependencies → found = [])
          | Some (Raise e) =>
              run = Some (Raise e)
              ∧ (recursion_limit ≤ length extracted)%nat
          | None => False
          end
  end.
Proof.
  intros ref_date team_store extracted dependencies run Hne. subst run.
  unfold process_transcript. cbv zeta. fold ref_date team_store extracted.
  pose proof (resolve_in_range extracted) as Hrange.
  apply nodes_of_in_range in Hrange. fold dependencies in Hrange.
  pose proof (detect_cases set_iter set_iter_perm dependencies
                recursion_limit) as Hdetect.
  subst dependencies. clearbody extracted ref_date team_store.
  destruct extracted as [|task rest]; [done|].
  set (extracted := task :: rest) in *.
  set (dependencies := DependencyResolver.resolve extracted) in *.
  destruct (task_outputs_from today set_order team_store ref_date 0 extracted)
    as [outs|e]; [|done].
  destruct (link_dependencies_spec dependencies outs)
    as (outs' & -> & Hlen' & Hget).
  { apply Forall_forall. intros dep Hin. apply resolve_range in Hin. lia. }
  exists outs'. split; [exact Hlen'|]. split; [exact Hget|].
  destruct (DependencyResolver.detect_circular_dependencies
              set_iter recursion_limit dependencies) as [[found|e]|];
    [done| |done].
  split; [done|]. lia.
Qed.

Lemma linked_fields dependencies i o :
  let o' := linked dependencies i o in
  TaskOutput.task_number o' = TaskOutput.task_number o
  ∧ TaskOutput.description o' = TaskOutput.description o
  ∧ TaskOutput.assigned_to o' = TaskOutput.assigned_to o
  ∧ TaskOutput.deadline o' = TaskOutput.deadline o
  ∧ TaskOutput.priority o' = TaskOutput.priority o
  ∧ TaskOutput.reasoning o' = TaskOutput.reasoning o.
Proof. unfold linked. by destruct (last _). Qed.

Lemma last_elem_of {A} (l : list A) x : last l = Some x → x ∈ l.
Proof.
  intros H. apply last_Some in H as [l' ->].
  apply elem_of_app. right. apply list_elem_of_here.
Qed.

(** X24. The records that [process_transcript] returns. The call returns or
    raises. It raises only when the deadline phrase of an extracted task
    cannot be turned into a date (the [OverflowError] or [ValueError] of the
    date arithmetic), or when the recursion limit leaves the cycle
    detection no more nested calls than there are tasks. Otherwise the
    result is a success that carries the transcript and one record per
    extracted task, in the order of extraction: record [i] is numbered
    [i + 1], has the description of the task, the deadline phrase as it was
    extracted (never the parsed date) or [None] when the phrase is missing
    or empty, one of the four priority names, an assignee that is a name of
    the store filled from the roster, and a reasoning exactly when it has an
    assignee. *)
Theorem process_transcript_task_records
    (transcript : string) (team_members : list TeamMember.t)
    (reference_date : option Datetime.date) :
  let ref_date := default today reference_date in
  let extracted := extracted_from extract_tasks transcript team_members in
  match process_transcript today set_order set_iter recursion_limit
          extract_tasks transcript team_members reference_date with
  | None => False
  | Some (Raise e) =>
      ((e = OverflowError ∨ e = ValueError)
       ∧ ∃ task raw e',
           task ∈ extracted
           ∧ ExtractedTask.deadline_phrase task = Some raw
           ∧ DeadlineParser.parse today raw (Some ref_date) = Raise e')
      ∨ (recursion_limit ≤ length extracted)%nat
  | Some (Ok r) =>
      PipelineResult.success r = true
      ∧ PipelineResult.transcript r = Some transcript
      ∧ length (PipelineResult.tasks r) = length extracted
      ∧ ∀ i o,
          PipelineResult.tasks r !! i = Some o →
          ∃ task,
            extracted !! i = Some task
            ∧ TaskOutput.task_number o = Z.of_nat i + 1
            ∧ TaskOutput.description o = ExtractedTask.description task
            ∧ TaskOutput.deadline o = deadline_field task
            ∧ TaskOutput.priority o ∈ priority_names
            ∧ (TaskOutput.assigned_to o = None
               ↔ TaskOutput.reasoning o = None)
            ∧ ∀ name,
                TaskOutput.assigned_to o = Some name →
                name ∈ TeamMemberStore.get_all_names
                         (team_store_of team_members)
  end.
Proof.
  intros ref_date extracted.
  destruct (decide (extracted = [])) as [Hnil|Hne].
  { unfold process_transcript. fold extracted. rewrite Hnil.
    cbn [PipelineResult.success PipelineResult.transcript
         PipelineResult.tasks].
    repeat split. intros i o Hi. by rewrite lookup_nil in Hi. }
  pose proof (process_transcript_steps transcript team_members reference_date
                Hne) as Hsteps.
  cbv zeta in Hsteps. fold ref_date extracted in Hsteps.
  pose proof (task_outputs_from_lookup (team_store_of team_members) ref_date
                extracted 0) as Hlook.
  pose proof (task_outputs_from_spec today set_order
                (team_store_of team_members) ref_date extracted 0) as Hlen.
  destruct (task_outputs_from today set_order (team_store_of team_members)
              ref_date 0 extracted) as [outs|e].
  - destruct Hsteps as (outs' & Hlen' & Hget & Hdetect).
    destruct (DependencyResolver.detect_circular_dependencies _ _ _)
      as [[found|e]|]; [|destruct Hdetect as [-> Hdeep]; by right|done].
    destruct Hdetect as (-> & _).
    cbn [PipelineResult.success PipelineResult.transcript
         PipelineResult.tasks].
    destruct (Hlen outs eq_refl) as [Hlen0 _].
    split; [done|]. split; [done|]. split; [congruence|].
    intros i o Hi.
    assert (Hsome : is_Some (outs !! i)).
    { apply lookup_lt_is_Some. rewrite <- Hlen'.
      by apply lookup_lt_Some in Hi. }
    destruct Hsome as [o0 Ho0].
    rewrite (Hget i o0 Ho0) in Hi. injection Hi as <-.
    destruct (Hlook i o0 Ho0) as (task & Htask & Hout).
    exists task. split; [done|].
    pose proof (task_output_spec (team_store_of team_members) ref_date
                  (0 + Z.of_nat i) task) as Hspec.
    rewrite Hout in Hspec.
    destruct Hspec as (Hnum & Hdesc & Hdl & Hprio & _ & Hreason & Hname).
    destruct (linked_fields
                (DependencyResolver.resolve extracted) i o0)
      as (-> & -> & -> & -> & -> & ->).
    split; [lia|]. done.
  - rewrite Hsteps.
    destruct Hlook as (task & raw & Hin & Hraw & _ & Hparse).
    left. split; [by eapply parse_raises|].
    exists task, raw, e. done.
Qed.

(** X25. The [dependencies] field of every record that [process_transcript]
    returns is [None] or the text [Depends on Task #k] for the number [k] of
    another record of the same result: [k] is between 1 and the number of
    records and is not the number of the record itself. *)
Theorem process_transcript_dependency_text
    (transcript : string) (team_members : list TeamMember.t)
    (reference_date : option Datetime.date) :
  match process_transcript today set_order set_iter recursion_limit
          extract_tasks transcript team_members reference_date with
  | Some (Ok r) =>
      ∀ o,
        o ∈ PipelineResult.tasks r →
        TaskOutput.dependencies o = None
        ∨ ∃ k,
            TaskOutput.dependencies o
            = Some ("Depends on Task #" +:+ str_of_int k)
            ∧ 1 <= k <= Z.of_nat (length (PipelineResult.tasks r))
            ∧ k ≠ TaskOutput.task_number o
  | _ => True
  end.
Proof.
  set (ref_date := default today reference_date).
  set (extracted := extracted_from extract_tasks transcript team_members).
  destruct (decide (extracted = [])) as [Hnil|Hne].
  { unfold process_transcript. fold extracted. rewrite Hnil.
    cbn [PipelineResult.tasks]. intros o Hin. by apply elem_of_nil in Hin. }
  pose proof (process_transcript_steps transcript team_members reference_date
                Hne) as Hsteps.
  cbv zeta in Hsteps. fold ref_date extracted in Hsteps.
  pose proof (task_outputs_from_lookup (team_store_of team_members) ref_date
                extracted 0) as Hlook.
  pose proof (task_outputs_from_spec today set_order
                (team_store_of team_members) ref_date extracted 0) as Hlen.
  destruct (task_outputs_from today set_order (team_store_of team_members)
              ref_date 0 extracted) as [outs|e]; [|by rewrite Hsteps].
  destruct Hsteps as (outs' & Hlen' & Hget & Hdetect).
  destruct (DependencyResolver.detect_circular_dependencies _ _ _)
    as [[found|e]|]; [|by destruct Hdetect as [-> _]|done].
  destruct Hdetect as (-> & _).
  cbn [PipelineResult.tasks].
  destruct (Hlen outs eq_refl) as [Hlen0 _].
  intros o [i Hi]%list_elem_of_lookup_1.
  assert (Hsome : is_Some (outs !! i)).
  { apply lookup_lt_is_Some. rewrite <- Hlen'.
    by apply lookup_lt_Some in Hi. }
  destruct Hsome as [o0 Ho0].
  rewrite (Hget i o0 Ho0) in Hi. injection Hi as <-.
  destruct (Hlook i o0 Ho0) as (task & Htask & Hout).
  pose proof (task_output_spec (team_store_of team_members) ref_date
                (0 + Z.of_nat i) task) as Hspec.
  rewrite Hout in Hspec.
  destruct Hspec as (Hnum & _ & _ & _ & Hdeps & _).
  unfold linked.
  destruct (last (edges_to (Z.of_nat i) _)) as [dep|] eqn:Hlast;
    [|by left].
  right. exists (TaskDependency.prerequisite_task_index dep + 1).
  cbn [with_dependencies TaskOutput.dependencies TaskOutput.task_number].
  split; [done|].
  apply last_elem_of in Hlast.
  unfold edges_to in Hlast. apply elem_of_List_filter in Hlast as [Hdep Hi].
  apply Z.eqb_eq in Hi.
  unfold DependencyResolver.resolve in Hdep.
  apply resolve_from_spec in Hdep as (_ & _ & _ & _ & Hr & Hneq); [|lia].
  rewrite length_map in Hr. rewrite Hlen', Hlen0.
  split; lia.
Qed.

(** X26. The message of a result of [process_transcript]. With no extracted
    task the result has no records and the message that no tasks were
    identified. Otherwise the message is the warning about circular
    dependencies exactly when the dependencies that [resolve] finds among
    the extracted tasks contain a cycle, and [None] when they do not; the
    result is a success in either case. *)
Theorem process_transcript_message
    (transcript : string) (team_members : list TeamMember.t)
    (reference_date : option Datetime.date) :
  let extracted := extracted_from extract_tasks transcript team_members in
  let dependencies := DependencyResolver.resolve extracted in
  match process_transcript today set_order set_iter recursion_limit
          extract_tasks transcript team_members reference_date with
  | Some (Ok r) =>
      PipelineResult.success r = true
      ∧ (extracted = [] →
         PipelineResult.tasks r = []
         ∧ PipelineResult.error_message r = Some no_tasks_message)
      ∧ (extracted ≠ [] →
         (cyclic dependencies →
          PipelineResult.error_message r = Some cycle_warning)
         ∧ (¬ cyclic dependencies →
            PipelineResult.error_message r = None))
  | _ => True
  end.
Proof.
  intros extracted dependencies.
  destruct (decide (extracted = [])) as [Hnil|Hne].
  { unfold process_transcript. fold extracted. rewrite Hnil.
    cbn [PipelineResult.success PipelineResult.tasks
         PipelineResult.error_message].
    done. }
  pose proof (process_transcript_steps transcript team_members reference_date
                Hne) as Hsteps.
  cbv zeta in Hsteps. fold extracted dependencies in Hsteps.
  destruct (task_outputs_from today set_order (team_store_of team_members)
              (default today reference_date) 0 extracted) as [outs|e];
    [|by rewrite Hsteps].
  destruct Hsteps as (outs' & _ & _ & Hdetect).
  destruct (DependencyResolver.detect_circular_dependencies _ _ _)
    as [[found|e]|]; [|by destruct Hdetect as [-> _]|done].
  destruct Hdetect as (-> & Hcyc & Hacyc).
  cbn [PipelineResult.success PipelineResult.tasks
       PipelineResult.error_message].
  split; [done|]. split; [done|]. intros _. split.
  - intros Hc. apply Hcyc in Hc. by destruct found.
  - intros Hc. by rewrite (Hacyc Hc).
Qed.

End PipelineShape.

Lemma process_transcript_task_records_witness :
  (∀ s : list Z, s ≡ₚ s)
  ∧ match MeetingTaskPipeline.process_transcript 738886 (λ s, s) (λ s, s)
            900 (λ _ _, release_tasks) "We need to fix the login bug." []
            None with
    | None => False
    | Some (Raise e) =>
        ((e = OverflowError ∨ e = ValueError)
         ∧ ∃ task raw e',
             task ∈ release_tasks
             ∧ ExtractedTask.deadline_phrase task = Some raw
             ∧ DeadlineParser.parse 738886 raw (Some 738886) = Raise e')
        ∨ (900 ≤ length release_tasks)%nat
    | Some (Ok r) =>
        PipelineResult.success r = true
        ∧ PipelineResult.transcript r = Some "We need to fix the login bug."
        ∧ length (PipelineResult.tasks r) = length release_tasks
        ∧ ∀ i o,
            PipelineResult.tasks r !! i = Some o →
            ∃ task,
              release_tasks !! i = Some task
              ∧ TaskOutput.task_number o = Z.of_nat i + 1
              ∧ TaskOutput.description o = ExtractedTask.description task
              ∧ TaskOutput.deadline o = deadline_field task
              ∧ TaskOutput.priority o ∈ priority_names
              ∧ (TaskOutput.assigned_to o = None
                 ↔ TaskOutput.reasoning o = None)
              ∧ ∀ name,
                  TaskOutput.assigned_to o = Some name →
                  name ∈ TeamMemberStore.get_all_names
                           (MeetingTaskPipeline.team_store_of [])
    end.
Proof.
  assert (Hperm : ∀ s : list Z, s ≡ₚ s) by done.
  split; [exact Hperm|].
  exact (process_transcript_task_records 738886 (λ s, s) (λ s, s) Hperm 900
           (λ _ _, release_tasks) "We need to fix the login bug." [] None).
Defined.

Lemma process_transcript_dependency_text_witness :
  (∀ s : list Z, s ≡ₚ s)
  ∧ match MeetingTaskPipeline.process_transcript 738886 (λ s, s) (λ s, s)
            900 (λ _ _, release_tasks) "We need to fix the login bug." []
            None with
    | Some (Ok r) =>
        ∀ o,
          o ∈ PipelineResult.tasks r →
          TaskOutput.dependencies o = None
          ∨ ∃ k,
              TaskOutput.dependencies o
              = Some ("Depends on Task #" +:+ str_of_int k)
              ∧ 1 <= k <= Z.of_nat (length (PipelineResult.tasks r))
              ∧ k ≠ TaskOutput.task_number o
    | _ => True
    end.
Proof.
  assert (Hperm : ∀ s : list Z, s ≡ₚ s) by done.
  split; [exact Hperm|].
  exact (process_transcript_dependency_text 738886 (λ s, s) (λ s, s) Hperm
           900 (λ _ _, release_tasks) "We need to fix the login bug." []
           None).
Defined.

Lemma process_transcript_message_witness :
  (∀ s : list Z, s ≡ₚ s)
  ∧ match MeetingTaskPipeline.process_transcript 738886 (λ s, s) (λ s, s)
            900 (λ _ _, release_tasks) "We need to fix the login bug." []
            None with
    | Some (Ok r) =>
        PipelineResult.success r = true
        ∧ (release_tasks = [] →
           PipelineResult.tasks r = []
           ∧ PipelineResult.error_message r = Some no_tasks_message)
        ∧ (release_tasks ≠ [] →
           (cyclic (DependencyResolver.resolve release_tasks) →
            PipelineResult.error_message r = Some cycle_warning)
           ∧ (¬ cyclic (DependencyResolver.resolve release_tasks) →
              PipelineResult.error_message r = None))
    | _ => True
    end.
Proof.
  assert (Hperm : ∀ s : list Z, s ≡ₚ s) by done.
  split; [exact Hperm|].
  exact (process_transcript_message 738886 (λ s, s) (λ s, s) Hperm 900
           (λ _ _, release_tasks) "We need to fix the login bug." [] None).
Defined.

(** ** Counted deadlines (deadline_parser.py) *)

Section CountedDeadlines.

Import Datetime DeadlineParser.

#[local] Arguments String.append !_ _ : simpl nomatch.

Variable today : date.

(** [str(n)] of a number that is not negative is a run of digits. *)
Lemma str_of_int_digits n :
  0 <= n →
  ∃ d, str_of_int n = NilEmpty.string_of_uint d
       ∧ d ≠ Decimal.Nil
       ∧ int_of_digits (NilEmpty.string_of_uint d) = n.
Proof.
  intros Hn. destruct n as [|p|p]; [| |lia].
  - exists (Decimal.D0 Decimal.Nil). by repeat split.
  - exists (Pos.to_uint p).
    pose proof (to_uint_head p) as Hhead.
    split; [|split].
    + unfold str_of_int, NilZero.string_of_int, NilZero.string_of_uint.
      cbn [Z.to_int]. by destruct (Pos.to_uint p).
    + by destruct (Pos.to_uint p).
    + apply int_of_digits_to_uint.
Qed.

Lemma span_digits_then d tail :
  match tail with
  | String c _ => Re.isdigit c = false
  | EmptyString => True
  end →
  Re.span Re.isdigit (NilEmpty.string_of_uint d +:+ tail)
  = (NilEmpty.string_of_uint d, tail).
Proof.
  intros Htail.
  induction d; cbn [NilEmpty.string_of_uint];
    [|simpl; rewrite IHd; reflexivity..].
  destruct tail as [|c tail]; [reflexivity|].
  simpl. rewrite Htail. reflexivity.
Qed.

Lemma str_in_digits c0 sub d tail :
  Re.isdigit c0 = false →
  str_in (String c0 sub) (NilEmpty.string_of_uint d +:+ tail)
  = str_in (String c0 sub) tail.
Proof.
  intros Hc0.
  induction d; cbn [NilEmpty.string_of_uint]; [reflexivity|..];
    simpl (String _ _ +:+ _); cbn [str_in String.prefix];
    (destruct (ascii_dec c0 _) as [->|_]; [discriminate Hc0|exact IHd]).
Qed.

Lemma no_weekday_named (phrase : string) :
  forallb (fun kv => negb (str_in (fst kv) phrase)) WEEKDAYS = true →
  List.find (fun kv => str_in (fst kv) phrase) WEEKDAYS = None.
Proof.
  induction WEEKDAYS as [|kv l IH]; [reflexivity|].
  cbn [forallb List.find]. destruct (str_in (fst kv) phrase); [done|].
  exact IH.
Qed.

Lemma no_weekday_in_digits d tail :
  forallb (fun kv => negb (str_in (fst kv) tail)) WEEKDAYS = true →
  forallb (fun kv => negb (str_in (fst kv)
                             (NilEmpty.string_of_uint d +:+ tail)))
          WEEKDAYS = true.
Proof.
  unfold WEEKDAYS. cbn [forallb fst].
  rewrite !str_in_digits by reflexivity. done.
Qed.

Lemma digits_head d tail :
  d ≠ Decimal.Nil →
  ∃ c r, NilEmpty.string_of_uint d +:+ tail = String c r
         ∧ NilEmpty.string_of_uint d = String c (NilEmpty.string_of_uint
             match d with
             | Decimal.Nil => Decimal.Nil
             | Decimal.D0 u | Decimal.D1 u | Decimal.D2 u | Decimal.D3 u
             | Decimal.D4 u | Decimal.D5 u | Decimal.D6 u | Decimal.D7 u
             | Decimal.D8 u | Decimal.D9 u => u
             end)
         ∧ Re.isdigit c = true.
Proof.
  intros Hd. destruct d; [done|..]; cbn [NilEmpty.string_of_uint];
    simpl (String _ _ +:+ _); eexists _, _; by repeat split.
Qed.

Lemma plus_digits d tail :
  d ≠ Decimal.Nil →
  match tail with
  | String c _ => Re.isdigit c = false
  | EmptyString => True
  end →
  Re.plus Re.isdigit (NilEmpty.string_of_uint d +:+ tail)
  = Some (NilEmpty.string_of_uint d, tail).
Proof.
  intros Hd Htail. unfold Re.plus. rewrite span_digits_then by done.
  destruct (digits_head d tail Hd) as (c & r & _ & -> & _). reflexivity.
Qed.

Lemma nonempty_phrase (phrase : string) c r :
  strip (lower phrase) = String c r → truthy phrase = true.
Proof. by destruct phrase. Qed.

(** What [parse] does with a phrase that reads [in <digits><tail>] once it
    is in lower case and stripped. *)
Lemma parse_in_digits d tail phrase reference_date :
  d ≠ Decimal.Nil →
  forallb (fun kv => negb (str_in (fst kv) tail)) WEEKDAYS = true →
  match tail with
  | String c _ => Re.isdigit c = false
  | EmptyString => True
  end →
  let digits := NilEmpty.string_of_uint d in
  strip (lower phrase) = "in " +:+ digits +:+ tail →
  parse today phrase reference_date
  = match
      '(_, rest) ← Re.plus isspace tail;
      if String.prefix "day" rest then Some (digits, "day"%string)
      else if String.prefix "week" rest then Some (digits, "week"%string)
      else None
    with
    | Some (num, unit) =>
        if str_in "week" unit
        then d ←! add_days (default today reference_date)
                    (7 * int_of_digits num);
             Ok (Some d)
        else d ←! add_days (default today reference_date)
                    (int_of_digits num);
             Ok (Some d)
    | None => Ok None
    end.
Proof.
  intros Hd Hdays Htail digits Hphrase.
  unfold parse. simpl ("in " +:+ _) in Hphrase.
  rewrite (nonempty_phrase _ _ _ Hphrase), Hphrase. cbn [negb].
  set (rest := digits +:+ tail).
  change (dict_get (String "i" (String "n" (String " " rest)))
            RELATIVE_PATTERNS) with (@None (date → result date)).
  change (Re.match_by_word (String "i" (String "n" (String " " rest))))
    with (@None string).
  cbn [mbind option_bind].
  assert (Hfind : List.find (fun kv => str_in (fst kv)
                               (String "i" (String "n" (String " " rest))))
                            WEEKDAYS = None).
  { apply no_weekday_named. unfold WEEKDAYS. cbn [forallb fst].
    cbn [str_in String.prefix Ascii.eqb]. simpl.
    exact (no_weekday_in_digits d tail Hdays). }
  rewrite Hfind.
  assert (Hmatch : Re.match_in_n_units
                     (String "i" (String "n" (String " " rest)))
                   = ('(_, rest) ← Re.plus isspace tail;
                      if String.prefix "day" rest
                      then Some (digits, "day"%string)
                      else if String.prefix "week" rest
                           then Some (digits, "week"%string)
                           else None)).
  { unfold Re.match_in_n_units. cbn [Re.strip_prefix Ascii.eqb].
    simpl. cbn [mbind option_bind].
    assert (Hspace : Re.plus isspace (String " " rest)
                     = Some (" "%string, rest)).
    { unfold Re.plus. subst rest digits.
      destruct (digits_head d tail Hd) as (c & r & -> & _ & Hc).
      cbn [Re.span]. change (isspace " ") with true. cbv beta iota.
      assert (Hns : isspace c = false).
      { destruct c as [[] [] [] [] [] [] [] []]; try reflexivity;
          discriminate Hc. }
      rewrite Hns. reflexivity. }
    rewrite Hspace. cbn [mbind option_bind]. subst rest digits.
    rewrite plus_digits by done. reflexivity. }
  rewrite Hmatch. reflexivity.
Qed.

(** The same without [in]. *)
Lemma parse_digits d tail phrase reference_date :
  d ≠ Decimal.Nil →
  forallb (fun kv => negb (str_in (fst kv) tail)) WEEKDAYS = true →
  match tail with
  | String c _ => Re.isdigit c = false
  | EmptyString => True
  end →
  let digits := NilEmpty.string_of_uint d in
  strip (lower phrase) = digits +:+ tail →
  parse today phrase reference_date
  = match
      '(_, rest) ← Re.plus isspace tail;
      if String.prefix "day" rest then Some digits else None
    with
    | Some num =>
        d ←! add_days (default today reference_date) (int_of_digits num);
        Ok (Some d)
    | None => Ok None
    end.
Proof.
  intros Hd Hdays Htail digits Hphrase.
  unfold parse.
  pose proof (no_weekday_named _ (no_weekday_in_digits d tail Hdays))
    as Hfind.
  pose proof (plus_digits d tail Hd Htail) as Hplus.
  fold digits in Hfind, Hplus.
  destruct (digits_head d tail Hd) as (c & r & Hhead & _ & Hc).
  fold digits in Hhead.
  rewrite Hhead in Hphrase.
  rewrite (nonempty_phrase _ _ _ Hphrase), Hphrase, <- Hhead. cbn [negb].
  rewrite Hfind.
  assert (Htable : dict_get (digits +:+ tail) RELATIVE_PATTERNS = None).
  { rewrite Hhead. unfold dict_get, RELATIVE_PATTERNS.
    cbn [List.find fst String.eqb].
    destruct c as [[] [] [] [] [] [] [] []]; try discriminate Hc;
      reflexivity. }
  assert (Hby : Re.match_by_word (digits +:+ tail) = None).
  { rewrite Hhead. unfold Re.match_by_word. cbn [Re.strip_prefix].
    destruct c as [[] [] [] [] [] [] [] []]; try discriminate Hc;
      reflexivity. }
  assert (Hin : Re.match_in_n_units (digits +:+ tail) = None).
  { rewrite Hhead. unfold Re.match_in_n_units. cbn [Re.strip_prefix].
    destruct c as [[] [] [] [] [] [] [] []]; try discriminate Hc;
      reflexivity. }
  rewrite Htable, Hby, Hin. cbn [mbind option_bind].
  unfold Re.match_n_days. rewrite Hplus. cbn [mbind option_bind].
  reflexivity.
Qed.

(** X27. Counted deadlines. For a number [n] that [timedelta] accepts as a
    number of days, written in decimal: a phrase that reads [in n day],
    [in n days], [n day] or [n days], in any case and with whitespace around
    it, is answered with the date [n] days after the reference date, and
    [in n week] or [in n weeks] with the date [7 * n] days after it (or the
    [OverflowError] of that addition). Without [in], [n week] and
    [n weeks] are not understood: [parse] returns [None]. *)
Theorem parse_counts_days_and_weeks
    (phrase : string) (n : Z) (reference_date : option date) :
  0 <= n <= 999999999 →
  let number := str_of_int n in
  let normal := strip (lower phrase) in
  let after k :=
    d ←! add_days (default today reference_date) k; Ok (Some d) in
  (normal ∈ ["in " +:+ number +:+ " day"; "in " +:+ number +:+ " days";
             number +:+ " day"; number +:+ " days"] →
   parse today phrase reference_date = after n)
  ∧ (normal ∈ ["in " +:+ number +:+ " week";
               "in " +:+ number +:+ " weeks"] →
     parse today phrase reference_date = after (7 * n))
  ∧ (normal ∈ [number +:+ " week"; number +:+ " weeks"] →
     parse today phrase reference_date = Ok None).
Proof.
  intros [Hn _]. cbv zeta.
  destruct (str_of_int_digits n Hn) as (d & -> & Hd & Hval).
  split; [|split]; intros Hin;
    repeat (apply elem_of_cons in Hin as [Hin|Hin];
            [match type of Hin with
             | _ = ("in " +:+ _ +:+ ?tail)%string =>
                 rewrite (parse_in_digits d tail phrase reference_date Hd
                            eq_refl eq_refl Hin)
             | _ = (_ +:+ ?tail)%string =>
                 rewrite (parse_digits d tail phrase reference_date Hd
                            eq_refl eq_refl Hin)
             end;
             match goal with
             | |- context [Re.plus isspace ?tail] =>
                 let r := eval vm_compute in (Re.plus isspace tail) in
                 change (Re.plus isspace tail) with r
             end;
             cbn [mbind option_bind]; simpl; rewrite ?Hval; reflexivity|]);
    by apply elem_of_nil in Hin.
Qed.

End CountedDeadlines.

Lemma parse_counts_days_and_weeks_witness :
  0 <= 3 <= 999999999
  ∧ DeadlineParser.parse 1 " In 3 Weeks" (Some 738886) = Ok (Some 738907)
  ∧ DeadlineParser.parse 1 "3 weeks" (Some 738886) = Ok None.
Proof.
  assert (Hn : 0 <= 3 <= 999999999) by lia.
  split; [exact Hn|].
  split.
  - apply (proj1 (proj2 (parse_counts_days_and_weeks 1 " In 3 Weeks" 3
                           (Some 738886) Hn))).
    apply list_elem_of_In. vm_compute. tauto.
  - apply (proj2 (proj2 (parse_counts_days_and_weeks 1 "3 weeks" 3
                           (Some 738886) Hn))).
    apply list_elem_of_In. vm_compute. tauto.
Defined.

(** ** What the cycle detection reports (dependency_resolver.py) *)

Section ReportedPairs.

Import DependencyResolver.

Variable set_iter : list Z → list Z.
Hypothesis set_iter_perm : ∀ s, set_iter s ≡ₚ s.

Lemma visit_reports_edges dependencies rec node path :
  (∀ n p st b st',
     rec n p st = Some (Ok (b, st')) →
     reports_edges dependencies st → reports_edges dependencies st') →
  ∀ todo st b st',
    (∀ x, x ∈ todo → edge dependencies node x) →
    visit_neighbors rec node path todo st = Some (Ok (b, st')) →
    reports_edges dependencies st → reports_edges dependencies st'.
Proof.
  intros Hrec.
  induction todo as [|x todo IH]; intros st b st' Hedges;
    cbn [visit_neighbors].
  - destruct (decide (node ∈ rec_stack st)); [|discriminate].
    intros [= <- <-]. done.
  - assert (Htodo : ∀ y, y ∈ todo → edge dependencies node y)
      by (intros y Hy; apply Hedges; by right).
    destruct (decide (x ∉ visited st)).
    + destruct (rec x (path ++ [x]) st) as [[[[] st1]|e]|] eqn:Hcall;
        try discriminate.
      * intros [= <- <-]. by eapply Hrec.
      * intros Hvisit Hst. eapply IH; [done|exact Hvisit|]. by eapply Hrec.
    + destruct (decide (x ∈ rec_stack st)).
      * intros [= <- <-] Hst a b' Hin. cbn [cycles] in Hin.
        apply elem_of_app in Hin as [Hin|Hin]; [by apply Hst|].
        apply list_elem_of_singleton in Hin as [= -> ->].
        apply Hedges. left.
      * by apply IH.
Qed.

Lemma dfs_reports_edges dependencies fuel :
  ∀ n p st b st',
    dfs set_iter fuel (build_graph dependencies) n p st = Some (Ok (b, st')) →
    reports_edges dependencies st → reports_edges dependencies st'.
Proof.
  induction fuel as [|fuel IH]; intros n p st b st'; [discriminate|].
  cbn [dfs]. intros Hvisit Hst.
  eapply visit_reports_edges; [exact IH| |exact Hvisit|exact Hst].
  intros x Hx. by apply (graph_adj set_iter set_iter_perm).
Qed.

Lemma dfs_all_reports_edges dependencies fuel nodes :
  ∀ st st',
    dfs_all set_iter fuel (build_graph dependencies) nodes st
    = Some (Ok st') →
    reports_edges dependencies st → reports_edges dependencies st'.
Proof.
  induction nodes as [|node nodes IH]; intros st st'; cbn [dfs_all].
  - by intros [= <-].
  - destruct (decide (node ∉ visited st)); [|by apply IH].
    destruct (dfs set_iter fuel (build_graph dependencies) node [node] st)
      as [[[b st1]|e]|] eqn:Hcall; try discriminate.
    intros Hrest Hst. eapply IH; [exact Hrest|].
    by eapply dfs_reports_edges.
Qed.

(** X28. [detect_circular_dependencies] reports only dependencies of its
    input: whenever it returns, every pair of its list is the dependent and
    the prerequisite of one of the records. It raises only when the
    recursion limit leaves it no more nested calls than there are tasks in
    the dependencies. *)
Theorem detect_reports_dependencies_only
    (recursion_limit : nat) (dependencies : list TaskDependency.t) :
  match detect_circular_dependencies set_iter recursion_limit dependencies
  with
  | Some (Ok found) => ∀ a b, (a, b) ∈ found → edge dependencies a b
  | Some (Raise e) =>
      (recursion_limit ≤ size (nodes_of dependencies))%nat
  | None => False
  end.
Proof.
  pose proof (detect_cases set_iter set_iter_perm dependencies
                recursion_limit) as Hcases.
  destruct (detect_circular_dependencies set_iter recursion_limit
              dependencies) as [[found|e]|] eqn:Hfound; [|done..].
  revert Hfound. unfold detect_circular_dependencies.
  destruct (dfs_all _ _ _ _ _) as [[st'|e]|] eqn:Hall; try discriminate.
  intros [= <-].
  eapply (dfs_all_reports_edges dependencies); [exact Hall|].
  intros a b Hin. by apply elem_of_nil in Hin.
Qed.

(** The first key of the adjacency dict is the dependent of the first
    record. *)
Lemma fold_add_edge_head dependencies :
  ∀ graph k ks,
    List.map fst graph = k :: ks →
    ∃ ks', List.map fst (fold_left add_edge dependencies graph) = k :: ks'.
Proof.
  induction dependencies as [|dep deps IH]; intros graph k ks Hkeys;
    cbn [fold_left]; [by exists ks|].
  unfold add_edge at 2.
  destruct (has_key (TaskDependency.dependent_task_index dep) graph).
  - eapply IH. by rewrite keys_adj_add.
  - eapply IH. rewrite keys_adj_add, List.map_app, Hkeys. reflexivity.
Qed.

Lemma deep_chain_keys n :
  ∃ ks, List.map fst (build_graph (deep_chain (S n))) = 0 :: ks.
Proof.
  unfold build_graph, deep_chain. cbn [seq List.map fold_left].
  eapply fold_add_edge_head. reflexivity.
Qed.

(** On the chain the search goes one call deeper per task. *)
Lemma dfs_chain_raises n frames :
  ∀ k path st,
    (frames + k ≤ n)%nat →
    (∀ j, (k < j)%nat → Z.of_nat j ∉ visited st) →
    dfs set_iter frames (build_graph (deep_chain n)) (Z.of_nat k) path st
    = Some (Raise RecursionError).
Proof.
  induction frames as [|frames IH]; intros k path st Hle Hfresh;
    [reflexivity|].
  cbn [dfs].
  assert (Hadj : ∀ x,
            x ∈ set_iter (adj_get (Z.of_nat k) (build_graph (deep_chain n)))
            ↔ x = Z.of_nat (S k)).
  { intros x. rewrite (graph_adj set_iter set_iter_perm), deep_chain_edge.
    lia. }
  destruct (set_iter (adj_get (Z.of_nat k) (build_graph (deep_chain n))))
    as [|x todo].
  - exfalso. apply (elem_of_nil (Z.of_nat (S k))). by apply Hadj.
  - assert (x = Z.of_nat (S k)) as -> by (apply Hadj; left).
    cbn [visit_neighbors visited].
    rewrite decide_True.
    + rewrite IH; [reflexivity|lia|].
      intros j Hj. cbn [visited].
      intros [Hin%elem_of_singleton|Hin]%elem_of_union; [lia|].
      apply (Hfresh j); [lia|exact Hin].
    + intros [Hin%elem_of_singleton|Hin]%elem_of_union; [lia|].
      apply (Hfresh (S k)); [lia|exact Hin].
Qed.

(** X30. The depth of the search grows with the input: on the acyclic
    chain of [n] dependencies in which each task depends on the next,
    [detect_circular_dependencies] raises [RecursionError] when the
    interpreter allows it at most [n] nested calls, and it returns the
    empty list when it allows more than [n + 1]. *)
Theorem detect_raises_on_deep_chains (n recursion_limit : nat) :
  (1 ≤ n)%nat →
  ¬ cyclic (deep_chain n)
  ∧ ((recursion_limit ≤ n)%nat →
     detect_circular_dependencies set_iter recursion_limit (deep_chain n)
     = Some (Raise RecursionError))
  ∧ ((n + 1 < recursion_limit)%nat →
     detect_circular_dependencies set_iter recursion_limit (deep_chain n)
     = Some (Ok [])).
Proof.
  intros Hn. split; [apply deep_chain_acyclic|]. split.
  - intros Hlimit. destruct n as [|n]; [lia|].
    unfold detect_circular_dependencies.
    destruct (deep_chain_keys n) as [ks ->]. cbn [dfs_all visited].
    rewrite decide_True by set_solver.
    rewrite (dfs_chain_raises (S n) recursion_limit 0 [0]);
      [reflexivity|lia|].
    intros j _. cbn [visited]. set_solver.
  - intros Hlimit.
    pose proof (detect_cases set_iter set_iter_perm (deep_chain n)
                  recursion_limit) as Hcases.
    assert (Hsize : (size (nodes_of (deep_chain n)) ≤ n + 1)%nat).
    { apply (nodes_of_in_range set_iter set_iter_perm).
      rewrite Nat2Z.inj_add. apply deep_chain_in_range. }
    destruct (detect_circular_dependencies set_iter recursion_limit
                (deep_chain n)) as [[found|e]|]; [|lia|done].
    destruct Hcases as [_ Hacyclic].
    by rewrite (Hacyclic (deep_chain_acyclic n)).
Qed.

End ReportedPairs.

Lemma detect_reports_dependencies_only_witness :
  (∀ s : list Z, s ≡ₚ s)
  ∧ match DependencyResolver.detect_circular_dependencies (fun s => s) 900
            stale_stack_dependencies with
    | Some (Ok found) =>
        ∀ a b, (a, b) ∈ found → edge stale_stack_dependencies a b
    | Some (Raise e) =>
        (900 ≤ size (nodes_of stale_stack_dependencies))%nat
    | None => False
    end.
Proof.
  assert (Hperm : ∀ s : list Z, s ≡ₚ s) by done.
  split; [exact Hperm|].
  exact (detect_reports_dependencies_only (fun s => s) Hperm 900
           stale_stack_dependencies).
Defined.

Lemma detect_raises_on_deep_chains_witness :
  (∀ s : list Z, s ≡ₚ s)
  ∧ (1 ≤ 3)%nat
  ∧ ¬ cyclic (deep_chain 3)
  ∧ ((2 ≤ 3)%nat →
     DependencyResolver.detect_circular_dependencies (fun s => s) 2
       (deep_chain 3) = Some (Raise RecursionError))
  ∧ ((3 + 1 < 2)%nat →
     DependencyResolver.detect_circular_dependencies (fun s => s) 2
       (deep_chain 3) = Some (Ok [])).
Proof.
  assert (Hperm : ∀ s : list Z, s ≡ₚ s) by done.
  assert (Hn : (1 ≤ 3)%nat) by lia.
  split; [exact Hperm|]. split; [exact Hn|].
  exact (detect_raises_on_deep_chains (fun s => s) Hperm 3 2 Hn).
Defined.

(** ** Where the fields of an extracted task come from (task_extractor.py) *)

Section ExtractedFields.

#[local] Arguments String.append !_ _ : simpl nomatch.

Lemma prefix_app_cases (sub X T : string) :
  String.prefix sub (X +:+ T) = true →
  String.prefix sub X = true
  ∨ ∃ v, sub = X +:+ v ∧ String.prefix v T = true.
Proof.
  revert X. induction sub as [|a sub IH]; intros X;
    [intros _; left; by destruct X|].
  destruct X as [|c X].
  - intros H. right. exists (String a sub). split; [reflexivity|exact H].
  - simpl (String c X +:+ T). cbn [String.prefix].
    destruct (ascii_dec a c) as [->|]; [|discriminate].
    intros [H|(v & -> & Hv)]%IH; [by left|].
    right. by exists v.
Qed.

Lemma prefix_same (s : string) : String.prefix s s = true.
Proof.
  induction s as [|c s IH]; [done|]. cbn [String.prefix].
  by destruct (ascii_dec c c).
Qed.

Lemma append_empty_r (s : string) : s +:+ "" = s.
Proof. induction s as [|c s IH]; [done|]. simpl. by rewrite IH. Qed.

(** An occurrence in [X +:+ T] lies in [X], lies in [T], or straddles the
    seam. *)
Lemma str_in_app (sub X T : string) :
  str_in sub (X +:+ T) = true →
  str_in sub X = true ∨ str_in sub T = true
  ∨ ∃ c u v, sub = String c u +:+ v ∧ v ≠ EmptyString
             ∧ String.prefix v T = true.
Proof.
  induction X as [|c X IH]; [by right; left|].
  simpl (String c X +:+ T). cbn [str_in].
  intros [H|H]%orb_true_iff.
  - change (String c (X +:+ T)) with (String c X +:+ T) in H.
    apply prefix_app_cases in H as [H|(v & -> & Hv)].
    + left. by rewrite H.
    + destruct v as [|c' v].
      * left. rewrite append_empty_r, prefix_same. done.
      * right. right. by exists c, X, (String c' v).
  - apply IH in H as [H|[H|H]]; [|by right; left|by right; right].
    left. rewrite H. apply orb_true_r.
Qed.

Lemma extract_priority_indicators_spec (context ind : string) :
  ind ∈ TaskExtractor._extract_priority_indicators context
  ↔ ind ∈ priority_phrases ∧ str_in ind context = true.
Proof.
  unfold TaskExtractor._extract_priority_indicators, priority_phrases.
  rewrite !list_elem_of_In, !in_flat_map. split.
  - intros ([level indicators] & Hin & Hind). apply filter_In in Hind.
    split; [|tauto]. exists (level, indicators). tauto.
  - intros [([level indicators] & Hin & Hind) Hfound].
    exists (level, indicators). split; [exact Hin|].
    apply filter_In. tauto.
Qed.

(** No phrase of the table straddles the seam before [ high priority]. *)
Lemma priority_phrase_at_the_seam (X ind : string) :
  ind ∈ priority_phrases →
  str_in ind (X +:+ " high priority") = true →
  str_in ind X = true ∨ ind = "high priority"%string.
Proof.
  intros Hin [H|[H|(c & u & v & Heq & Hv & Hprefix)]]%str_in_app;
    [by left| |].
  - unfold priority_phrases in Hin. cbn in Hin.
    repeat (apply elem_of_cons in Hin as [->|Hin];
            [first [by right|by vm_compute in H]|]).
    by apply elem_of_nil in Hin.
  - exfalso. unfold priority_phrases in Hin. cbn in Hin.
    repeat (apply elem_of_cons in Hin as [->|Hin];
            [simpl in Heq; injection Heq as <- Heq;
             repeat (destruct u as [|? u]; simpl in Heq;
                     [subst v; first [done|by vm_compute in Hprefix]
                     |first [discriminate Heq|injection Heq as <- Heq]])|]).
    by apply elem_of_nil in Hin.
Qed.

Variable _split_into_sentences : string → list string.
Variable _merge_context_sentences : list string → list string.
Variable _merge_task_with_context : list string → list string.
Variable _contains_task_indicator : string → bool.
Variable _is_actionable_task : string → bool.
Variable _generate_description : string → string.
Variable _extract_mentioned_person : string → option string.
Variable _extract_deadline_phrase : string → option string.
Variable _extract_dependency_phrases : string → list string.

(** X29. Where the fields of a task that [extract_tasks] returns come from,
    whatever the pattern stages answer: its raw text is one of the merged
    sentences, one that has a task indicator and is actionable; its
    description, mentioned person, deadline phrase and dependency phrases are
    the answers of the stages for that sentence. Its priority indicators are
    phrases of the table that occur in the lowercased description: a
    priority word elsewhere in the sentence is not recorded, with the one
    exception of [high priority], which is also taken from the sentence. *)
Theorem extracted_task_fields (transcript : string) (task : ExtractedTask.t) :
  task ∈ TaskExtractor.extract_tasks
           _split_into_sentences _merge_context_sentences
           _merge_task_with_context _contains_task_indicator
           _is_actionable_task _generate_description
           _extract_mentioned_person _extract_deadline_phrase
           _extract_dependency_phrases transcript →
  let sentence := ExtractedTask.raw_text task in
  sentence ∈ TaskExtractor.merged_sentences
               _split_into_sentences _merge_context_sentences
               _merge_task_with_context transcript
  ∧ _contains_task_indicator sentence = true
  ∧ _is_actionable_task sentence = true
  ∧ ExtractedTask.description task = _generate_description sentence
  ∧ ExtractedTask.mentioned_person task = _extract_mentioned_person sentence
  ∧ ExtractedTask.deadline_phrase task = _extract_deadline_phrase sentence
  ∧ ExtractedTask.dependency_phrases task
    = _extract_dependency_phrases sentence
  ∧ ∀ ind,
      ind ∈ ExtractedTask.priority_indicators task →
      ind ∈ priority_phrases
      ∧ (str_in ind (lower (ExtractedTask.description task)) = true
         ∨ ind = "high priority"%string
           ∧ str_in "high priority" (lower sentence) = true).
Proof.
  unfold TaskExtractor.extract_tasks.
  destruct (negb (truthy transcript) || _);
    [by intros Hin%elem_of_nil|].
  rewrite list_elem_of_In, in_flat_map.
  intros (sentence & Hsentence%list_elem_of_In & Hin).
  destruct (_contains_task_indicator sentence) eqn:Hind; [|destruct Hin].
  destruct (_is_actionable_task sentence) eqn:Hact; [|destruct Hin].
  cbn [andb] in Hin.
  unfold TaskExtractor._extract_task_from_sentence in Hin.
  destruct (negb (truthy (_generate_description sentence)));
    [destruct Hin|].
  match type of Hin with
  | In task (if TaskExtractor.long_enough ?t then _ else _) =>
      destruct (TaskExtractor.long_enough t); [|destruct Hin]
  end.
  destruct Hin as [<-|[]].
  cbn [ExtractedTask.raw_text ExtractedTask.description
       ExtractedTask.mentioned_person ExtractedTask.deadline_phrase
       ExtractedTask.dependency_phrases ExtractedTask.priority_indicators].
  repeat (split; [done|]).
  intros ind Hin.
  destruct (str_in "high priority" (lower sentence)) eqn:Hhp.
  - match type of Hin with
    | ind ∈ TaskExtractor._extract_priority_indicators
              (if ?b then _ else _) => destruct b
    end;
      apply extract_priority_indicators_spec in Hin as [Hphrase Hin];
      (split; [done|]); [|by left].
    apply priority_phrase_at_the_seam in Hin as [Hin| ->]; auto.
  - apply extract_priority_indicators_spec in Hin as [Hphrase Hin].
    split; [done|]. by left.
Qed.

End ExtractedFields.

Lemma extracted_task_fields_witness :
  critical_task ∈ critical_extract_tasks critical_transcript
  ∧ ExtractedTask.description critical_task
    = "Fix the critical login bug"%string
  ∧ ∀ ind,
      ind ∈ ExtractedTask.priority_indicators critical_task →
      ind ∈ priority_phrases
      ∧ (str_in ind (lower (ExtractedTask.description critical_task)) = true
         ∨ ind = "high priority"%string
           ∧ str_in "high priority"
               (lower (ExtractedTask.raw_text critical_task)) = true).
Proof.
  assert (Hin : critical_task ∈ critical_extract_tasks critical_transcript).
  { apply list_elem_of_In. vm_compute. tauto. }
  split; [exact Hin|]. split; [reflexivity|].
  exact (proj2 (proj2 (proj2 (proj2 (proj2 (proj2 (proj2
           (extracted_task_fields
              (fun text => [text]) (fun sentences => sentences)
              (fun sentences => sentences) (fun _ => true) (fun _ => true)
              (fun _ => "Fix the critical login bug"%string) (fun _ => None)
              (fun _ => None) (fun _ => []) critical_transcript
              critical_task Hin)))))))).
Defined.
